(** * OpenClaw browser relay: the background service worker and its helpers

    A shallow embedding of [src/background.ts], [src/background-utils.ts]
    and the port handling of [src/options.ts].

    - JavaScript [Map]s are insertion-ordered association lists ([JsMap]):
      iteration order decides which tab the command router falls back to and
      the order of the persisted snapshot.
    - JavaScript [Set]s of tab ids are [gset Z].
    - JavaScript numbers are binary64 values: rationals, each result
      rounded to nearest ([Binary64]).
    - The browser (the [chrome.*] API), the relay socket, the clock and
      [Math.random] are outside the program: every operation takes what they
      answered as an explicit argument, and what the program sends or sets
      there (frames on the relay socket, badges, the session storage area)
      is recorded in the state.
    - An [async] function is run from its call to its completion; where the
      source re-reads shared state after an [await] (the reattach loop), the
      change another handler made meanwhile is an explicit input.
    - Left out: the toolbar's global badge ([updateGlobalBadge]), the
      [pending] request map (this module never adds to it), the cookie and
      download handlers (their answers are inputs) and the options page's
      DOM. *)

From Stdlib Require Import ZArith QArith Qabs Qround Qpower String Ascii List Lia Lqa.
From Stdlib Require Import DecimalString DecimalFacts DecimalN.
From stdpp Require Import base option list gmap strings.

Local Open Scope string_scope.
Local Open Scope Z_scope.

(** ** JavaScript numbers

    A number is an IEEE 754 binary64 value.  A finite one is a rational
    [m * 2^e] with [|m| < 2^53] and [-1074 <= e <= 971]; the exact result
    of an operation is rounded to the nearest such number, ties to the even
    significand, and a result that rounds to [2^1024] or beyond is an
    infinity.  The sign of zero is not modelled. *)

Module Binary64.

(** [2^z] for any integer [z]. *)
Definition pow2 (z : Z) : Q := (2 ^ z)%Q.

(** The binary exponent of a positive rational: the [e] with
    [2^e <= a < 2^(e+1)]. *)
Definition mag (a : Q) : Z :=
  let e0 := Z.log2 (Qnum a) - Z.log2 (Zpos (Qden a)) in
  if Qle_bool (pow2 e0) a then e0 else e0 - 1.

(** The nearest integer, ties to even. *)
Definition rne (x : Q) : Z :=
  let f := Qfloor x in
  match (x - inject_Z f ?= 1 # 2)%Q with
  | Lt => f
  | Gt => f + 1
  | Eq => if Z.even f then f else f + 1
  end.

(** The exponent of the last place of a positive rational: 53 significant
    bits, and no finer than [2^-1074] (the subnormal numbers). *)
Definition ulp_exponent (a : Q) : Z := Z.max (mag a - 52) (-1074).

Definition round_pos (a : Q) : Q :=
  let e := ulp_exponent a in
  inject_Z (rne (a / pow2 e)) * pow2 e.

(** Rounding to nearest, ties to even, before the test for overflow. *)
Definition round (q : Q) : Q :=
  match (q ?= 0)%Q with
  | Eq => 0
  | Gt => round_pos q
  | Lt => - round_pos (- q)
  end.

(** A rational with at most 53 significant bits and no bit below
    [2^-1074]: a binary64 number when its magnitude is below [2^1024]. *)
Definition representable (q : Q) : Prop :=
  ∃ m e : Z, Z.abs m < 2 ^ 53 ∧ -1074 <= e ∧ (q == inject_Z m * pow2 e)%Q.

End Binary64.

Inductive JsNum : Type :=
| Fin (q : Q)
| PosInf
| NegInf
| NaN.

Module Num.

Definition Qltb (a b : Q) : bool := negb (Qle_bool b a).

(** The number an operation returns when its exact result is [q]: [q]
    rounded, or an infinity when that reaches [2^1024]. *)
Definition of_real (q : Q) : JsNum :=
  let r := Binary64.round q in
  if Qle_bool (Binary64.pow2 1024) r then PosInf
  else if Qle_bool r (- Binary64.pow2 1024) then NegInf
  else Fin (Qred r).

Definition isFinite (o : option JsNum) : bool :=
  match o with Some (Fin _) => true | _ => false end.

(** [2 ** n] for an integer [n]: the exact power, rounded only where it
    leaves the range of the numbers. *)
Definition pow2 (n : Z) : JsNum := of_real (Binary64.pow2 n).

Definition mul (a b : JsNum) : JsNum :=
  match a, b with
  | NaN, _ | _, NaN => NaN
  | Fin x, Fin y => of_real (x * y)
  | Fin x, PosInf | PosInf, Fin x =>
      if Qltb 0 x then PosInf else if Qltb x 0 then NegInf else NaN
  | Fin x, NegInf | NegInf, Fin x =>
      if Qltb 0 x then NegInf else if Qltb x 0 then PosInf else NaN
  | PosInf, PosInf | NegInf, NegInf => PosInf
  | PosInf, NegInf | NegInf, PosInf => NegInf
  end.

Definition add (a b : JsNum) : JsNum :=
  match a, b with
  | NaN, _ | _, NaN => NaN
  | Fin x, Fin y => of_real (x + y)
  | PosInf, NegInf | NegInf, PosInf => NaN
  | PosInf, _ | _, PosInf => PosInf
  | NegInf, _ | _, NegInf => NegInf
  end.

(** [Math.min] and [Math.max] of two numbers: NaN when either is NaN. *)
Definition min (a b : JsNum) : JsNum :=
  match a, b with
  | NaN, _ | _, NaN => NaN
  | NegInf, _ | _, NegInf => NegInf
  | PosInf, x | x, PosInf => x
  | Fin x, Fin y => if Qle_bool x y then Fin x else Fin y
  end.

Definition max (a b : JsNum) : JsNum :=
  match a, b with
  | NaN, _ | _, NaN => NaN
  | PosInf, _ | _, PosInf => PosInf
  | NegInf, x | x, NegInf => x
  | Fin x, Fin y => if Qle_bool x y then Fin y else Fin x
  end.

(** [a <= b] and [a < b]: false when either is NaN. *)
Definition leb (a b : JsNum) : bool :=
  match a, b with
  | NaN, _ | _, NaN => false
  | NegInf, _ | _, PosInf => true
  | PosInf, _ | _, NegInf => false
  | Fin x, Fin y => Qle_bool x y
  end.

Definition ltb (a b : JsNum) : bool :=
  match a, b with
  | NaN, _ | _, NaN => false
  | _, _ => negb (leb b a)
  end.

(** The integer a number without a fraction stands for. *)
Definition to_Z (a : JsNum) : Z :=
  match a with Fin q => Qfloor q | _ => 0 end.

End Num.

(** ** JavaScript strings and integers

    A string is a sequence of 16-bit code units.  [string] holds the ones
    below 256, which covers every literal of the source and the identifiers
    of the protocol; the text of a stored setting is a [Js.Text.t], with
    any code units. *)
Module Js.

Definition code (c : ascii) : N := N_of_ascii c.

Module Text.

Definition t : Type := list N.

Fixpoint of_string (s : string) : t :=
  match s with
  | String c rest => code c :: of_string rest
  | EmptyString => []
  end.

(** [WhiteSpace] and [LineTerminator]: TAB, LF, VT, FF, CR, SP, NBSP,
    U+1680, U+2000 to U+200A, LS, PS, U+202F, U+205F, U+3000 and the byte
    order mark. *)
Definition isWhiteSpace (n : N) : bool :=
  ((9 <=? n) && (n <=? 13) || (n =? 32) || (n =? 160) || (n =? 5760)
   || (8192 <=? n) && (n <=? 8202) || (n =? 8232) || (n =? 8233)
   || (n =? 8239) || (n =? 8287) || (n =? 12288) || (n =? 65279))%N.

Fixpoint trimStart (s : t) : t :=
  match s with
  | n :: rest => if isWhiteSpace n then trimStart rest else s
  | [] => []
  end.

Definition trimEnd (s : t) : t := rev (trimStart (rev s)).

(** [String.prototype.trim]. *)
Definition trim (s : t) : t := trimEnd (trimStart s).

(** A string is truthy when it is not empty. *)
Definition truthy (s : t) : bool :=
  match s with [] => false | _ => true end.

(** The digit a code unit stands for: [0] is 48, [9] is 57. *)
Definition digit (n : N) : option (Decimal.uint → Decimal.uint) :=
  if ((48 <=? n) && (n <=? 57))%N then
    Some (match (n - 48)%N with
          | 0 => Decimal.D0 | 1 => Decimal.D1 | 2 => Decimal.D2 | 3 => Decimal.D3
          | 4 => Decimal.D4 | 5 => Decimal.D5 | 6 => Decimal.D6 | 7 => Decimal.D7
          | 8 => Decimal.D8 | _ => Decimal.D9
          end%N)
  else None.

(** The longest prefix of decimal digits, as a decimal numeral ([Nil] when
    the text does not start with a digit). *)
Fixpoint digit_prefix (s : t) : Decimal.uint :=
  match s with
  | n :: rest =>
      match digit n with
      | Some d => d (digit_prefix rest)
      | None => Decimal.Nil
      end
  | [] => Decimal.Nil
  end.

(** The integer [Number.parseInt(s, 10)] reads: leading white space is
    skipped, one sign is read, then the longest run of digits; no digit
    gives [None].  The radix is 10, so no [0x] prefix is recognised. *)
Definition parseInt10_math (s : t) : option Z :=
  let body := trimStart s in
  let '(neg, digits) :=
    match body with
    | n :: rest =>
        if (n =? 45)%N then (true, rest)          (* - *)
        else if (n =? 43)%N then (false, rest)    (* + *)
        else (false, body)
    | [] => (false, body)
    end in
  match digit_prefix digits with
  | Decimal.Nil => None
  | d => let m := Z.of_N (N.of_uint d) in Some (if neg then - m else m)
  end.

(** [Number.parseInt(s, 10)]: NaN without a digit, otherwise the number
    nearest to the integer read.  (Beyond 20 significant digits an engine
    may round the digits first; the result is above [10^19] either way.) *)
Definition parseInt10 (s : t) : JsNum :=
  match parseInt10_math s with
  | None => NaN
  | Some m => Num.of_real (inject_Z m)
  end.

End Text.

(** The white space among the code units below 256: TAB, LF, VT, FF, CR,
    SP and NBSP. *)
Definition isWhiteSpace (c : ascii) : bool := Text.isWhiteSpace (code c).

Fixpoint trimStart (s : string) : string :=
  match s with
  | String c rest => if isWhiteSpace c then trimStart rest else s
  | EmptyString => EmptyString
  end.

Fixpoint rev_string (s acc : string) : string :=
  match s with
  | String c rest => rev_string rest (String c acc)
  | EmptyString => acc
  end.

Definition trimEnd (s : string) : string :=
  rev_string (trimStart (rev_string s EmptyString)) EmptyString.

(** [String.prototype.trim]. *)
Definition trim (s : string) : string := trimEnd (trimStart s).

(** [String.prototype.startsWith]. *)
Definition startsWith (s p : string) : bool := String.prefix p s.

(** [String.prototype.includes]. *)
Fixpoint includes (s p : string) : bool :=
  String.prefix p s ||
  match s with
  | String _ rest => includes rest p
  | EmptyString => false
  end.

(** A string is truthy when it is not empty. *)
Definition truthy_string (s : string) : bool :=
  match s with EmptyString => false | _ => true end.

(** A number is truthy when it is neither zero nor NaN; tab ids are
    integers. *)
Definition truthy_int (z : Z) : bool := negb (z =? 0).

(** [o || ''] followed by a truthiness test, for an optional string
    field. *)
Definition truthy_opt (o : option string) : bool :=
  match o with Some s => truthy_string s | None => false end.

(** [Number.MAX_SAFE_INTEGER] and [Number.isSafeInteger] on an integer. *)
Definition MAX_SAFE_INTEGER : Z := 2 ^ 53 - 1.

Definition isSafeInteger (z : Z) : bool := Z.abs z <=? MAX_SAFE_INTEGER.

(** [Number::toString] of a safe integer: plain decimal digits, with a
    minus sign for negatives.  Tab ids, ports, close codes and the session
    counter are such integers. *)
Definition string_of_N (n : N) : string :=
  NilZero.string_of_uint (N.to_uint n).

Definition string_of_Z (z : Z) : string :=
  if z <? 0 then String "-" (string_of_N (Z.abs_N z)) else string_of_N (Z.to_N z).

End Js.

(** ** Values read from [chrome.storage.local]

    The storage area holds JSON values.  A number that is a safe integer
    is given by its value.  Of any other number (a fraction, an integer
    beyond the safe range) and of an array or an object the program only
    uses the text [String(v)]; such a value is given by that text, for
    instance [8080.5], [1e+21] or [[object Object]]. *)

Inductive StoredValue : Type :=
| SUndefined                  (* the key is absent *)
| SNull
| SBoolean (b : bool)
| SInteger (z : Z) (safe : Js.isSafeInteger z = true)
| SNumber (text : Js.Text.t)  (* a number that is no safe integer: never 0 *)
| SString (s : Js.Text.t)
| SObject (text : Js.Text.t). (* an array or an object *)

(** [String(v || '')]. *)
Definition string_or_empty (v : StoredValue) : Js.Text.t :=
  match v with
  | SUndefined | SNull => []
  | SBoolean b => if b then Js.Text.of_string "true" else []
  | SInteger z _ => if Js.truthy_int z then Js.Text.of_string (Js.string_of_Z z) else []
  | SNumber text => text
  | SString s => s
  | SObject text => text
  end.

Definition DEFAULT_PORT : Z := 18792.

(** [getRelayPort] of background.ts, given the stored [relayPort].  The
    number returned was read by [parseInt]: it has no fraction. *)
Definition getRelayPort (relayPort : StoredValue) : Z :=
  let n := Js.Text.parseInt10 (string_or_empty relayPort) in
  if negb (Num.isFinite (Some n)) || Num.leb n (Fin 0) || Num.ltb (Fin 65535) n
  then DEFAULT_PORT
  else Num.to_Z n.

(** [clampPort] of options.ts. *)
Definition clampPort (value : StoredValue) : Z :=
  let n := Js.Text.parseInt10 (string_or_empty value) in
  if negb (Num.isFinite (Some n)) then DEFAULT_PORT
  else if Num.leb n (Fin 0) || Num.ltb (Fin 65535) n then DEFAULT_PORT
  else Num.to_Z n.

(** ** JavaScript [Map]: an insertion-ordered association list

    [set] on a present key keeps the entry's position and replaces its value;
    on an absent key it appends.  [delete] drops the key.  Iteration
    ([entries]) follows the list. *)

Module JsMap.
Section Ops.
Context {K V : Type} `{EqDecision K}.

Fixpoint get (m : list (K * V)) (k : K) : option V :=
  match m with
  | [] => None
  | (k', v) :: rest => if decide (k' = k) then Some v else get rest k
  end.

Definition has (m : list (K * V)) (k : K) : bool :=
  match get m k with Some _ => true | None => false end.

Fixpoint set (m : list (K * V)) (k : K) (v : V) : list (K * V) :=
  match m with
  | [] => [(k, v)]
  | (k', v') :: rest =>
      if decide (k' = k) then (k, v) :: rest else (k', v') :: set rest k v
  end.

Fixpoint delete (m : list (K * V)) (k : K) : list (K * V) :=
  match m with
  | [] => []
  | (k', v') :: rest =>
      if decide (k' = k) then delete rest k else (k', v') :: delete rest k
  end.

Definition keys (m : list (K * V)) : list K := map fst m.
Definition values (m : list (K * V)) : list V := map snd m.

(** [for (const [k, v] of m.entries()) if (p k v) m.delete(k)] : deleting
    the entry under the cursor does not disturb the iteration. *)
Definition delete_where (p : K → V → bool) (m : list (K * V)) : list (K * V) :=
  filter (λ kv, negb (p kv.1 kv.2)) m.

(** The first entry, in iteration order, that satisfies [p]. *)
Fixpoint find_first (p : K → V → bool) (m : list (K * V)) : option (K * V) :=
  match m with
  | [] => None
  | (k, v) :: rest => if p k v then Some (k, v) else find_first p rest
  end.

End Ops.
End JsMap.

(** ** background-utils.ts *)

(** The [attempt] argument: an integer, as the counter [reconnectAttempt]
    that the callers pass, or a non-finite number (NaN or an infinity).
    A fraction is left out: [2 ** attempt] is then an approximation that
    the language leaves to the engine. *)
Inductive Attempt : Type :=
| AInt (z : Z)
| ANonFinite.

Record ReconnectOptions : Type := mkReconnectOptions {
  baseMs : option JsNum;
  maxMs : option JsNum;
  jitterMs : option JsNum
}.

(** [opts = {}]. *)
Definition no_options : ReconnectOptions :=
  {| baseMs := None; maxMs := None; jitterMs := None |}.

(** [Number.isFinite(o) ? o! : d]. *)
Definition finite_or (o : option JsNum) (d : Q) : JsNum :=
  if Num.isFinite o then default NaN o else Fin d.

(** [Math.max(0, Number.isFinite(attempt) ? attempt : 0)]. *)
Definition safeAttempt (attempt : Attempt) : Z :=
  Z.max 0 (match attempt with AInt z => z | ANonFinite => 0 end).

(** [baseMs * 2 ** safeAttempt]. *)
Definition backoff_product (base : JsNum) (attempt : Attempt) : JsNum :=
  Num.mul base (Num.pow2 (safeAttempt attempt)).

(** [reconnectDelayMs(attempt, opts)]; [sample] is what the call of
    [random()] ([opts.random] or [Math.random]) returned. *)
Definition reconnectDelayMs (attempt : Attempt) (opts : ReconnectOptions)
    (sample : JsNum) : JsNum :=
  let base := finite_or (baseMs opts) 1000 in
  let max := finite_or (maxMs opts) 30000 in
  let jitter := finite_or (jitterMs opts) 1000 in
  let backoff := Num.min (backoff_product base attempt) max in
  Num.add backoff (Num.mul (Num.max (Fin 0) jitter) sample).

(** [isRetryableReconnectError(err)], on the error's message. *)
Definition isRetryableReconnectError (message : string) : bool :=
  if Js.includes message "Missing gatewayToken" then false else true.

(** [isSkippableUrl(url)]. *)
Definition isSkippableUrl (url : option string) : bool :=
  match url with
  | None => true
  | Some u =>
      negb (Js.truthy_string u)
      || Js.startsWith u "chrome://"
      || Js.startsWith u "chrome-extension://"
      || Js.startsWith u "about:"
      || Js.startsWith u "devtools://"
  end.

(** The message of the error [buildRelayWsUrl] throws on an empty token. *)
Definition missing_token_message : string :=
  "Missing gatewayToken in extension settings (chrome.storage.local.gatewayToken)".

(** ** types.ts *)

Inductive TabState : Type := connecting | connected.

Record TabSession : Type := mkTabSession {
  state : TabState;
  sessionId : option string;
  targetId : option string;
  attachOrder : option Z;
  url : option string;
  title : option string;
  attachedAt : option Z
}.

Record PersistedTab : Type := mkPersistedTab {
  p_tabId : Z;
  p_sessionId : string;
  p_targetId : string;
  p_attachOrder : Z
}.

Inductive BadgeKind : Type := badge_on | badge_off | badge_connecting | badge_error.

(** The result of a call that may throw (or of a promise that may
    reject). *)
Inductive Outcome (A : Type) : Type :=
| Returned (a : A)
| Thrown (message : string).
Arguments Returned {A} a.
Arguments Thrown {A} message.

Record TabListEntry : Type := mkTabListEntry {
  l_tabId : Z;
  l_sessionId : string;
  l_targetId : string;
  l_url : string;
  l_title : string;
  l_status : TabState;
  l_attachedAt : Z
}.

(** What a relayed command answers.  [ROpaque] is a value produced outside
    the program (by the debugger, the cookie or the download API), kept as
    text. *)
Inductive CommandResult : Type :=
| RTabs (entries : list TabListEntry)
| RStatus (wsState : string) (attachedCount : nat) (entries : list TabListEntry)
| RCreated (target : string)
| RSuccess (ok : bool)
| REmpty
| ROpaque (text : string).

(** Frames written to the relay socket. *)
Inductive Frame : Type :=
| AttachedToTarget (session : string)
| DetachedFromTarget (session : string) (target : option string) (reason : string)
| ForwardedEvent (session : option string) (method : string)
| Pong
| Reply (id : Z) (r : Outcome CommandResult).

(** What the program asks of the outside world, in the order it asks. *)
Inductive Effect : Type :=
| ESend (f : Frame)
| EDebuggerAttach (tabId : Z)
| EDebuggerDetach (tabId : Z)
| EDebuggerCommand (tabId : Z) (session : option string) (method : string)
| ESleep (ms : Z)
| ETabCreate (u : string)
| ETabRemove (tabId : Z)
| ETabActivate (tabId : Z)
| EExternal (method : string).

#[global] Instance TabState_eq_dec : EqDecision TabState.
Proof. solve_decision. Defined.

(** ** background.ts: the module's variables *)

Record State : Type := mkState {
  relayOpen : bool;              (* relayWs && relayWs.readyState === OPEN *)
  relayConnectPromise : bool;    (* relayConnectPromise !== null *)
  nextSession : Z;
  tabs : list (Z * TabSession);
  tabBySession : list (string * Z);
  childSessionToTab : list (string * Z);
  tabOperationLocks : gset Z;
  reattachPending : gset Z;
  reconnectAttempt : Z;
  reconnectTimer : option JsNum; (* armed, with its delay *)
  badges : list (Z * BadgeKind); (* chrome.action badge of each tab *)
  sessionStore : option (list PersistedTab * Z); (* chrome.storage.session *)
  storageAvailable : bool;       (* chrome.storage.session answers *)
  trace : list Effect
}.

Definition initial_state : State :=
  {| relayOpen := false; relayConnectPromise := false; nextSession := 1;
     tabs := []; tabBySession := []; childSessionToTab := [];
     tabOperationLocks := ∅; reattachPending := ∅;
     reconnectAttempt := 0; reconnectTimer := None;
     badges := []; sessionStore := None; storageAvailable := true;
     trace := [] |}.

Definition with_relayOpen (v : bool) (s : State) : State :=
  mkState v (relayConnectPromise s) (nextSession s) (tabs s) (tabBySession s)
    (childSessionToTab s) (tabOperationLocks s) (reattachPending s)
    (reconnectAttempt s) (reconnectTimer s) (badges s) (sessionStore s)
    (storageAvailable s) (trace s).

Definition with_relayConnectPromise (v : bool) (s : State) : State :=
  mkState (relayOpen s) v (nextSession s) (tabs s) (tabBySession s)
    (childSessionToTab s) (tabOperationLocks s) (reattachPending s)
    (reconnectAttempt s) (reconnectTimer s) (badges s) (sessionStore s)
    (storageAvailable s) (trace s).

Definition with_nextSession (v : Z) (s : State) : State :=
  mkState (relayOpen s) (relayConnectPromise s) v (tabs s) (tabBySession s)
    (childSessionToTab s) (tabOperationLocks s) (reattachPending s)
    (reconnectAttempt s) (reconnectTimer s) (badges s) (sessionStore s)
    (storageAvailable s) (trace s).

Definition with_tabs (v : list (Z * TabSession)) (s : State) : State :=
  mkState (relayOpen s) (relayConnectPromise s) (nextSession s) v (tabBySession s)
    (childSessionToTab s) (tabOperationLocks s) (reattachPending s)
    (reconnectAttempt s) (reconnectTimer s) (badges s) (sessionStore s)
    (storageAvailable s) (trace s).

Definition with_tabBySession (v : list (string * Z)) (s : State) : State :=
  mkState (relayOpen s) (relayConnectPromise s) (nextSession s) (tabs s) v
    (childSessionToTab s) (tabOperationLocks s) (reattachPending s)
    (reconnectAttempt s) (reconnectTimer s) (badges s) (sessionStore s)
    (storageAvailable s) (trace s).

Definition with_childSessionToTab (v : list (string * Z)) (s : State) : State :=
  mkState (relayOpen s) (relayConnectPromise s) (nextSession s) (tabs s) (tabBySession s)
    v (tabOperationLocks s) (reattachPending s)
    (reconnectAttempt s) (reconnectTimer s) (badges s) (sessionStore s)
    (storageAvailable s) (trace s).

Definition with_tabOperationLocks (v : gset Z) (s : State) : State :=
  mkState (relayOpen s) (relayConnectPromise s) (nextSession s) (tabs s) (tabBySession s)
    (childSessionToTab s) v (reattachPending s)
    (reconnectAttempt s) (reconnectTimer s) (badges s) (sessionStore s)
    (storageAvailable s) (trace s).

Definition with_reattachPending (v : gset Z) (s : State) : State :=
  mkState (relayOpen s) (relayConnectPromise s) (nextSession s) (tabs s) (tabBySession s)
    (childSessionToTab s) (tabOperationLocks s) v
    (reconnectAttempt s) (reconnectTimer s) (badges s) (sessionStore s)
    (storageAvailable s) (trace s).

Definition with_reconnectAttempt (v : Z) (s : State) : State :=
  mkState (relayOpen s) (relayConnectPromise s) (nextSession s) (tabs s) (tabBySession s)
    (childSessionToTab s) (tabOperationLocks s) (reattachPending s)
    v (reconnectTimer s) (badges s) (sessionStore s)
    (storageAvailable s) (trace s).

Definition with_reconnectTimer (v : option JsNum) (s : State) : State :=
  mkState (relayOpen s) (relayConnectPromise s) (nextSession s) (tabs s) (tabBySession s)
    (childSessionToTab s) (tabOperationLocks s) (reattachPending s)
    (reconnectAttempt s) v (badges s) (sessionStore s)
    (storageAvailable s) (trace s).

Definition with_badges (v : list (Z * BadgeKind)) (s : State) : State :=
  mkState (relayOpen s) (relayConnectPromise s) (nextSession s) (tabs s) (tabBySession s)
    (childSessionToTab s) (tabOperationLocks s) (reattachPending s)
    (reconnectAttempt s) (reconnectTimer s) v (sessionStore s)
    (storageAvailable s) (trace s).

Definition with_sessionStore (v : option (list PersistedTab * Z)) (s : State) : State :=
  mkState (relayOpen s) (relayConnectPromise s) (nextSession s) (tabs s) (tabBySession s)
    (childSessionToTab s) (tabOperationLocks s) (reattachPending s)
    (reconnectAttempt s) (reconnectTimer s) (badges s) v
    (storageAvailable s) (trace s).

Definition with_trace (v : list Effect) (s : State) : State :=
  mkState (relayOpen s) (relayConnectPromise s) (nextSession s) (tabs s) (tabBySession s)
    (childSessionToTab s) (tabOperationLocks s) (reattachPending s)
    (reconnectAttempt s) (reconnectTimer s) (badges s) (sessionStore s)
    (storageAvailable s) v.

(** Record an effect. *)
Definition emit (e : Effect) (s : State) : State := with_trace (trace s ++ [e]) s.

(** [setBadge(tabId, kind)]. *)
Definition setBadge (tabId : Z) (kind : BadgeKind) (s : State) : State :=
  with_badges (JsMap.set (badges s) tabId kind) s.

(** [sendToRelay(payload)]: throws when the socket is not open. *)
Definition sendToRelay (f : Frame) (s : State) : Outcome State :=
  if relayOpen s then Returned (emit (ESend f) s) else Thrown "Relay not connected".

(** [try { sendToRelay(payload) } catch { }]. *)
Definition try_send (f : Frame) (s : State) : State :=
  match sendToRelay f s with Returned s' => s' | Thrown _ => s end.

(** *** State persistence *)

Definition persisted_entry (tabId : Z) (tab : TabSession) : option PersistedTab :=
  match state tab, sessionId tab, targetId tab with
  | connected, Some sid, Some tid =>
      if Js.truthy_string sid && Js.truthy_string tid
      then Some (mkPersistedTab tabId sid tid (default 0 (attachOrder tab)))
      else None
  | _, _, _ => None
  end.

(** The [tabEntries] array [persistState] builds. *)
Definition snapshot (m : list (Z * TabSession)) : list PersistedTab :=
  omap (λ kv, persisted_entry kv.1 kv.2) m.

Definition persistState (s : State) : State :=
  if storageAvailable s
  then with_sessionStore (Some (snapshot (tabs s), nextSession s)) s
  else s.

Definition restored_tab (e : PersistedTab) : TabSession :=
  {| state := connected; sessionId := Some (p_sessionId e);
     targetId := Some (p_targetId e); attachOrder := Some (p_attachOrder e);
     url := None; title := None; attachedAt := None |}.

Definition rehydrate_put (s : State) (e : PersistedTab) : State :=
  setBadge (p_tabId e) badge_on
    (with_tabBySession (JsMap.set (tabBySession s) (p_sessionId e) (p_tabId e))
       (with_tabs (JsMap.set (tabs s) (p_tabId e) (restored_tab e)) s)).

(** [alive tabId]: [chrome.tabs.get] and the [Runtime.evaluate] probe both
    resolve. *)
Definition rehydrate_probe (alive : Z → bool) (s : State) (e : PersistedTab) : State :=
  if alive (p_tabId e) then s
  else setBadge (p_tabId e) badge_off
         (with_tabBySession (JsMap.delete (tabBySession s) (p_sessionId e))
            (with_tabs (JsMap.delete (tabs s) (p_tabId e)) s)).

Definition rehydrateState (alive : Z → bool) (s : State) : State :=
  if storageAvailable s then
    match sessionStore s with
    | None => s
    | Some (entries, storedNext) =>
        let s1 := if Js.truthy_int storedNext
                  then with_nextSession (Z.max (nextSession s) storedNext) s
                  else s in
        let s2 := foldl rehydrate_put s1 entries in
        foldl (rehydrate_probe alive) s2 entries
    end
  else s.

(** *** The relay connection *)

Inductive WsOutcome : Type :=
| WsOpen                                  (* onopen *)
| WsError                                 (* onerror *)
| WsClose (code : Z) (reason : string)    (* onclose before open *)
| WsTimeout.                              (* the 5000 ms timer *)

(** What the outside world answers during one [ensureRelayConnection]. *)
Record ConnectEnv : Type := mkConnectEnv {
  stored_relayPort : StoredValue;
  stored_gatewayToken : StoredValue;
  head_failure : option string;     (* the HEAD probe rejects with this error *)
  ws_outcome : WsOutcome;
  inflight : Outcome unit           (* how a connect already in flight settles *)
}.

(** [getGatewayToken]. *)
Definition getGatewayToken (v : StoredValue) : Js.Text.t :=
  Js.Text.trim (string_or_empty v).

(** The body of the promise [ensureRelayConnection] creates: [Thrown] with
    the message of the error it rejects with. *)
Definition connect_body (e : ConnectEnv) : Outcome unit :=
  let port := getRelayPort (stored_relayPort e) in
  let gatewayToken := getGatewayToken (stored_gatewayToken e) in
  let httpBase := "http://127.0.0.1:" +:+ Js.string_of_Z port in
  (* buildRelayWsUrl *)
  if negb (Js.Text.truthy (Js.Text.trim gatewayToken)) then Thrown missing_token_message
  else
    match head_failure e with
    | Some err =>
        Thrown ("Relay server not reachable at " +:+ httpBase +:+ " (" +:+ err +:+ ")")
    | None =>
        match ws_outcome e with
        | WsOpen => Returned ()
        | WsError => Thrown "WebSocket connect failed"
        | WsClose code reason =>
            Thrown ("WebSocket closed (" +:+ Js.string_of_Z code +:+ " "
                    +:+ (if Js.truthy_string reason then reason else "no reason") +:+ ")")
        | WsTimeout => Thrown "WebSocket connect timeout"
        end
    end.

(** [ensureRelayConnection].  A caller that finds a connect in flight awaits
    the same promise; the call that created the promise awaited it first, so
    its continuation (counter reset, promise cleared) has run when this
    caller resumes. *)
Definition ensureRelayConnection (e : ConnectEnv) (s : State) : State * Outcome unit :=
  if relayOpen s then (s, Returned ())
  else if relayConnectPromise s then
    match inflight e with
    | Returned _ =>
        (with_relayConnectPromise false (with_reconnectAttempt 0 (with_relayOpen true s)),
         Returned ())
    | Thrown m => (with_relayConnectPromise false s, Thrown m)
    end
  else
    match connect_body e with
    | Returned _ => (with_reconnectAttempt 0 (with_relayOpen true s), Returned ())
    | Thrown m => (s, Thrown m)
    end.

(** [scheduleReconnect]; [sample] is the value [Math.random()] returns. *)
Definition scheduleReconnect (sample : JsNum) (s : State) : State :=
  let delay := reconnectDelayMs (AInt (reconnectAttempt s)) no_options sample in
  with_reconnectTimer (Some delay) (with_reconnectAttempt (reconnectAttempt s + 1) s).

Definition cancelReconnect (s : State) : State :=
  with_reconnectAttempt 0 (with_reconnectTimer None s).

(** *** Attach and detach *)

Record TargetInfo : Type := mkTargetInfo {
  ti_targetId : option string;
  ti_url : option string;
  ti_title : option string
}.

Record TabInfo : Type := mkTabInfo {
  tab_id : option Z;
  tab_url : option string;
  tab_title : option string
}.

(** What the browser answers during one [attachTab]. *)
Record AttachEnv : Type := mkAttachEnv {
  debugger_attaches : bool;                 (* chrome.debugger.attach resolves *)
  target_info : Outcome (option TargetInfo);(* Target.getTargetInfo *)
  tab_info : option TabInfo;                (* chrome.tabs.get(..).catch(() => null) *)
  now : Z                                   (* Date.now() *)
}.

(** [a || b] on optional strings. *)
Definition or_string (a b : option string) : option string :=
  if Js.truthy_opt a then a else b.

Definition session_name (sid : Z) : string := "cb-tab-" +:+ Js.string_of_Z sid.

(** The entry [attachTab] stores for the tab. *)
Definition attached_session (sid : Z) (tid : string) (targetInfo : option TargetInfo)
    (e : AttachEnv) : TabSession :=
  {| state := connected;
     sessionId := Some (session_name sid);
     targetId := Some tid;
     attachOrder := Some sid;
     url := or_string (or_string (tab_info e ≫= tab_url) (targetInfo ≫= ti_url)) (Some "");
     title := or_string (or_string (tab_info e ≫= tab_title) (targetInfo ≫= ti_title)) (Some "");
     attachedAt := Some (now e) |}.

Definition attachTab (tabId : Z) (skipAttachedEvent : bool) (e : AttachEnv)
    (s : State) : State * Outcome (string * string) :=
  let s0 := emit (EDebuggerAttach tabId) s in
  if negb (debugger_attaches e) then (s0, Thrown "chrome.debugger.attach failed")
  else
    match target_info e with
    | Thrown m => (s0, Thrown m)
    | Returned targetInfo =>
        let tid := Js.trim (default "" (or_string (targetInfo ≫= ti_targetId) (Some ""))) in
        if negb (Js.truthy_string tid)
        then (s0, Thrown "Target.getTargetInfo returned no targetId")
        else
          let sid := nextSession s0 in
          let session := session_name sid in
          let s1 := with_nextSession (sid + 1) s0 in
          let tab := attached_session sid tid targetInfo e in
          let s2 := with_tabs (JsMap.set (tabs s1) tabId tab) s1 in
          let s3 := with_tabBySession (JsMap.set (tabBySession s2) session tabId) s2 in
          let s4 := if skipAttachedEvent then s3 else try_send (AttachedToTarget session) s3 in
          let s5 := setBadge tabId badge_on s4 in
          (persistState s5, Returned (session, tid))
    end.

(** The loop of [detachTab] over the child sessions of [tabId]. *)
Definition announce_children_detached (tabId : Z) (s : State) : State :=
  foldl (λ acc kv, if decide (kv.2 = tabId)
                   then try_send (DetachedFromTarget kv.1 None "parent_detached") acc
                   else acc)
        s (childSessionToTab s).

Definition drop_children (tabId : Z) (s : State) : State :=
  with_childSessionToTab
    (JsMap.delete_where (λ _ parent, bool_decide (parent = tabId)) (childSessionToTab s)) s.

(** [if (tab?.sessionId) tabBySession.delete(tab.sessionId)]. *)
Definition drop_session_of (tab : option TabSession) (s : State) : State :=
  match tab ≫= sessionId with
  | Some sid =>
      if Js.truthy_string sid
      then with_tabBySession (JsMap.delete (tabBySession s) sid) s
      else s
  | None => s
  end.

(** [if (tab?.sessionId && tab?.targetId) try { sendToRelay(detached) }]. *)
Definition announce_detached (tab : option TabSession) (reason : string) (s : State) : State :=
  match tab ≫= sessionId, tab ≫= targetId with
  | Some sid, Some tid =>
      if Js.truthy_string sid && Js.truthy_string tid
      then try_send (DetachedFromTarget sid (Some tid) reason) s
      else s
  | _, _ => s
  end.

Definition detachTab (tabId : Z) (reason : string) (s : State) : State :=
  let tab := JsMap.get (tabs s) tabId in
  let s1 := drop_children tabId (announce_children_detached tabId s) in
  let s2 := announce_detached tab reason s1 in
  let s3 := drop_session_of tab s2 in
  let s4 := with_tabs (JsMap.delete (tabs s3) tabId) s3 in
  let s5 := emit (EDebuggerDetach tabId) s4 in
  persistState (setBadge tabId badge_off s5).

(** [reannounceAttachedTabs]: [alive] is the [Runtime.evaluate] probe,
    [info_ok] whether [Target.getTargetInfo] resolves. *)
Definition reannounce_one (alive info_ok : Z → bool) (s : State)
    (kv : Z * TabSession) : State :=
  let '(tabId, tab) := kv in
  if negb (bool_decide (state tab = connected))
     || negb (Js.truthy_opt (sessionId tab)) || negb (Js.truthy_opt (targetId tab))
  then s
  else if negb (alive tabId) then
    setBadge tabId badge_off
      (drop_session_of (Some tab) (with_tabs (JsMap.delete (tabs s) tabId) s))
  else
    let s1 := if info_ok tabId
              then try_send (AttachedToTarget (default "" (sessionId tab))) s
              else s in
    setBadge tabId badge_on s1.

Definition reannounceAttachedTabs (alive info_ok : Z → bool) (s : State) : State :=
  persistState (foldl (reannounce_one alive info_ok) s (tabs s)).

(** [onRelayClosed(reason)]. *)
Definition onRelayClosed (sample : JsNum) (s : State) : State :=
  let s1 := with_relayOpen false s in
  let s2 := with_reattachPending ∅ s1 in
  let s3 := foldl (λ acc kv, if bool_decide (state kv.2 = connected)
                             then setBadge kv.1 badge_connecting acc else acc)
                  s2 (tabs s2) in
  scheduleReconnect sample s3.

(** The callback [scheduleReconnect] hands to [setTimeout]. *)
Definition reconnectTimerFired (e : ConnectEnv) (alive info_ok : Z → bool)
    (sample : JsNum) (s : State) : State :=
  let s0 := with_reconnectTimer None s in
  match ensureRelayConnection e s0 with
  | (s1, Returned _) =>
      reannounceAttachedTabs alive info_ok (with_reconnectAttempt 0 s1)
  | (s1, Thrown m) =>
      if negb (isRetryableReconnectError m) then s1
      else scheduleReconnect sample s1
  end.

(** *** Auto-attach *)

(** What the browser answers during one auto-attach. *)
Record SweepEnv : Type := mkSweepEnv {
  autoAttach_enabled : bool;        (* isAutoAttachEnabled() *)
  all_tabs : list TabInfo;          (* chrome.tabs.query({}) *)
  ownOptionsUrl : string;           (* chrome.runtime.getURL('options.html') *)
  attach_env : Z → AttachEnv        (* the answers to attachTab(tabId) *)
}.

Definition with_lock (tabId : Z) (s : State) : State :=
  with_tabOperationLocks ({[tabId]} ∪ tabOperationLocks s) s.

Definition without_lock (tabId : Z) (s : State) : State :=
  with_tabOperationLocks (tabOperationLocks s ∖ {[tabId]}) s.

(** One iteration of the loop of [autoAttachAllTabs]. *)
Definition sweep_one (e : SweepEnv) (s : State) (tab : TabInfo) : State :=
  match tab_id tab with
  | None => s
  | Some id =>
      if negb (Js.truthy_int id) then s
      else if JsMap.has (tabs s) id then s
      else if isSkippableUrl (tab_url tab) then s
      else if bool_decide (tab_url tab = Some (ownOptionsUrl e)) then s
      else if bool_decide (id ∈ tabOperationLocks s) then s
      else without_lock id (attachTab id false (attach_env e id) (with_lock id s)).1
  end.

Definition autoAttachAllTabs (e : SweepEnv) (s : State) : State :=
  if negb (autoAttach_enabled e) then s
  else foldl (sweep_one e) s (all_tabs e).

Definition autoAttachTab (tabId : Z) (u : option string) (e : SweepEnv)
    (ce : ConnectEnv) (s : State) : State :=
  if negb (autoAttach_enabled e) then s
  else if JsMap.has (tabs s) tabId then s
  else if isSkippableUrl u then s
  else if bool_decide (tabId ∈ tabOperationLocks s) then s
  else if bool_decide (tabId ∈ reattachPending s) then s
  else if bool_decide (u = Some (ownOptionsUrl e)) then s
  else
    match ensureRelayConnection ce s with
    | (s1, Thrown _) => s1
    | (s1, Returned _) =>
        without_lock tabId (attachTab tabId false (attach_env e tabId) (with_lock tabId s1)).1
    end.

(** [onActionClicked]. *)
Definition onActionClicked (e : SweepEnv) (ce : ConnectEnv) (s : State) : State :=
  if (0 <? length (filter (λ t, state t = connected) (JsMap.values (tabs s))))%nat
  then foldl (λ acc kv, detachTab kv.1 "toggle" acc) s (tabs s)
  else
    let s1 := cancelReconnect s in
    match ensureRelayConnection ce s1 with
    | (s2, Thrown _) => s2
    | (s2, Returned _) => autoAttachAllTabs e s2
    end.

(** *** Debugger events and the reattach protocol *)

(** [onDebuggerEvent(source, method, params)]: [child] is
    [params.sessionId] when it is truthy. *)
Definition onDebuggerEvent (source_tab : option Z) (source_session : option string)
    (method : string) (child : option string) (s : State) : State :=
  match source_tab with
  | None => s
  | Some tabId =>
      if negb (Js.truthy_int tabId) then s
      else
        match JsMap.get (tabs s) tabId with
        | None => s
        | Some tab =>
            if negb (Js.truthy_opt (sessionId tab)) then s
            else
              let s1 :=
                match child with
                | Some c =>
                    if Js.truthy_string c && bool_decide (method = "Target.attachedToTarget")
                    then with_childSessionToTab (JsMap.set (childSessionToTab s) c tabId) s
                    else s
                | None => s
                end in
              let s2 :=
                match child with
                | Some c =>
                    if Js.truthy_string c && bool_decide (method = "Target.detachedFromTarget")
                    then with_childSessionToTab (JsMap.delete (childSessionToTab s1) c) s1
                    else s1
                | None => s1
                end in
              try_send (ForwardedEvent (or_string source_session (sessionId tab)) method) s2
        end
  end.

(** Handlers that may run while the reattach loop sleeps.  The socket's
    close handler runs only if the socket was open. *)
Inductive Interleaved : Type :=
| IRelayClosed (sample : JsNum)      (* the socket closes: onRelayClosed *)
| IConnect (e : ConnectEnv)          (* some handler calls ensureRelayConnection *)
| ITabRemoved (tabId : Z).           (* chrome.tabs.onRemoved *)

(** [chrome.tabs.onRemoved]. *)
Definition onTabRemoved (tabId : Z) (s : State) : State :=
  let s0 := with_reattachPending (reattachPending s ∖ {[tabId]}) s in
  if negb (JsMap.has (tabs s0) tabId) then s0
  else
    let tab := JsMap.get (tabs s0) tabId in
    let s1 := drop_session_of tab s0 in
    let s2 := with_tabs (JsMap.delete (tabs s1) tabId) s1 in
    let s3 := drop_children tabId s2 in
    let s4 := announce_detached tab "tab_closed" s3 in
    persistState s4.

(** [chrome.tabs.onReplaced]. *)
Definition onTabReplaced (addedTabId removedTabId : Z) (s : State) : State :=
  match JsMap.get (tabs s) removedTabId with
  | None => s
  | Some tab =>
      let s1 := with_tabs (JsMap.set (JsMap.delete (tabs s) removedTabId) addedTabId tab) s in
      let s2 := if Js.truthy_opt (sessionId tab)
                then with_tabBySession
                       (JsMap.set (tabBySession s1) (default "" (sessionId tab)) addedTabId) s1
                else s1 in
      let s3 := with_childSessionToTab
                  (map (λ kv, if decide (kv.2 = removedTabId) then (kv.1, addedTabId) else kv)
                       (childSessionToTab s2)) s2 in
      persistState (setBadge addedTabId badge_on s3)
  end.

Definition interleave (s : State) (i : Interleaved) : State :=
  match i with
  | IRelayClosed sample => if relayOpen s then onRelayClosed sample s else s
  | IConnect e => (ensureRelayConnection e s).1
  | ITabRemoved tabId => onTabRemoved tabId s
  end.

(** What happens around one retry of the reattach loop. *)
Record RetryEnv : Type := mkRetryEnv {
  during_delay : list Interleaved;  (* handlers that ran during the delay *)
  tab_exists : bool;                (* chrome.tabs.get(tabId) resolves *)
  attach_quiet : AttachEnv;         (* answers to the attach without announcement *)
  attach_loud : AttachEnv           (* answers to the announced attach *)
}.

Definition delays : list Z := [300; 700; 1500].

Definition clear_pending (tabId : Z) (s : State) : State :=
  with_reattachPending (reattachPending s ∖ {[tabId]}) s.

(** The [for] loop of [onDebuggerDetach] from retry number [attempt] on,
    over the delays still to wait; [env k] gives the surroundings of retry
    [k]. *)
Fixpoint reattach_loop (tabId : Z) (attempt : nat) (ds : list Z)
    (env : nat → RetryEnv) (s : State) : State :=
  match ds with
  | d :: ds' =>
      let e := env attempt in
      let s1 := foldl interleave (emit (ESleep d) s) (during_delay e) in
      let loud (s2 : State) : State :=
        match attachTab tabId false (attach_loud e) s2 with
        | (s3, Returned _) => clear_pending tabId s3
        | (s3, Thrown _) => reattach_loop tabId (S attempt) ds' env s3
        end in
      if negb (bool_decide (tabId ∈ reattachPending s1)) then s1
      else if negb (tab_exists e) then setBadge tabId badge_off (clear_pending tabId s1)
      else if negb (relayOpen s1) then
        match attachTab tabId true (attach_quiet e) s1 with
        | (s2, Returned _) => clear_pending tabId s2
        | (s2, Thrown _) => loud s2
        end
      else loud s1
  | [] => setBadge tabId badge_off (clear_pending tabId s)
  end.

Definition permanent_reason (reason : string) : bool :=
  bool_decide (reason = "canceled_by_user") || bool_decide (reason = "replaced_with_devtools").

(** The part of [onDebuggerDetach] between the tests and the loop: the
    stale entries go, the peer is told, the tab becomes Pending Reattach. *)
Definition begin_reattach (tabId : Z) (s : State) : State :=
  let oldTab := JsMap.get (tabs s) tabId in
  let s1 := drop_session_of oldTab s in
  let s2 := with_tabs (JsMap.delete (tabs s1) tabId) s1 in
  let s3 := drop_children tabId s2 in
  let s4 := announce_detached oldTab "navigation-reattach" s3 in
  let s5 := with_reattachPending ({[tabId]} ∪ reattachPending s4) s4 in
  setBadge tabId badge_connecting s5.

(** [onDebuggerDetach(source, reason)]; [lookup] is what
    [chrome.tabs.get(tabId)] resolves with ([None] when it rejects). *)
Definition onDebuggerDetach (source_tab : option Z) (reason : string)
    (lookup : option TabInfo) (env : nat → RetryEnv) (s : State) : State :=
  match source_tab with
  | None => s
  | Some tabId =>
      if negb (Js.truthy_int tabId) then s
      else if negb (JsMap.has (tabs s) tabId) then s
      else if permanent_reason reason then detachTab tabId reason s
      else
        match lookup with
        | None => detachTab tabId reason s
        | Some tabInfo =>
            if isSkippableUrl (tab_url tabInfo) then detachTab tabId reason s
            else if bool_decide (tabId ∈ reattachPending s) then s
            else reattach_loop tabId 0 delays env (begin_reattach tabId s)
        end
  end.

(** *** The command router *)

(** A [forwardCDPCommand] message, after the type tests of the source. *)
Record Command : Type := mkCommand {
  cmd_method : string;            (* String(params?.method || '') *)
  cmd_sessionId : option string;  (* params.sessionId, when a string *)
  cmd_targetId : option string;   (* params.params.targetId, when a string *)
  cmd_url : option string         (* params.params.url, when a string *)
}.

Inductive SessionKind : Type := main | child.

Definition getTabBySessionId (session : string) (s : State) : option (Z * SessionKind) :=
  match JsMap.get (tabBySession s) session with
  | Some direct =>
      if Js.truthy_int direct then Some (direct, main)
      else
        match JsMap.get (childSessionToTab s) session with
        | Some c => if Js.truthy_int c then Some (c, child) else None
        | None => None
        end
  | None =>
      match JsMap.get (childSessionToTab s) session with
      | Some c => if Js.truthy_int c then Some (c, child) else None
      | None => None
      end
  end.

Definition getTabByTargetId (target : string) (s : State) : option Z :=
  fst <$> JsMap.find_first (λ _ tab, bool_decide (targetId tab = Some target)) (tabs s).

(** The last resort of [resolveTabId]: the first connected tab in
    iteration order. *)
Definition any_connected_tab (s : State) : option Z :=
  fst <$> JsMap.find_first (λ _ tab, bool_decide (state tab = connected)) (tabs s).

Definition resolveTabId (c : Command) (s : State) : option Z :=
  let bySession :=
    match cmd_sessionId c with
    | Some sid => if Js.truthy_string sid then getTabBySessionId sid s else None
    | None => None
    end in
  match bySession with
  | Some (tabId, _) => Some tabId
  | None =>
      let byTarget :=
        match cmd_targetId c with
        | Some tid =>
            if Js.truthy_string tid
            then match getTabByTargetId tid s with
                 | Some t => if Js.truthy_int t then Some t else None
                 | None => None
                 end
            else None
        | None => None
        end in
      match byTarget with
      | Some t => Some t
      | None => any_connected_tab s
      end
  end.

Definition handleTabList (s : State) : list TabListEntry :=
  omap (λ kv,
          let tab := kv.2 in
          if bool_decide (state tab = connected)
             && Js.truthy_opt (sessionId tab) && Js.truthy_opt (targetId tab)
          then Some (mkTabListEntry kv.1 (default "" (sessionId tab))
                       (default "" (targetId tab)) (default "" (url tab))
                       (default "" (title tab)) (state tab)
                       (default 0 (attachedAt tab)))
          else None)
       (tabs s).

(** [handleGetStatus], without the [uptime] field (a clock difference). *)
Definition handleGetStatus (s : State) : CommandResult :=
  RStatus (if relayOpen s then "connected"
           else if relayConnectPromise s then "connecting" else "disconnected")
          (length (filter (λ t, state t = connected) (JsMap.values (tabs s))))
          (handleTabList s).

(** What the outside world answers during one relayed command. *)
Record CommandEnv : Type := mkCommandEnv {
  sweep : SweepEnv;                    (* Tab.attachAll *)
  external_reply : Outcome string;     (* the cookie or download handler *)
  debugger_reply : Outcome string;     (* chrome.debugger.sendCommand *)
  disable_ok : bool;                   (* Runtime.disable resolves *)
  created_tab : option Z;              (* the id of chrome.tabs.create's tab *)
  create_attach : AttachEnv;
  remove_ok : bool;                    (* chrome.tabs.remove resolves *)
  activate_lookup : bool               (* chrome.tabs.get resolves *)
}.

Definition opaque (r : Outcome string) : Outcome CommandResult :=
  match r with Returned t => Returned (ROpaque t) | Thrown m => Thrown m end.

Definition handleForwardCdpCommand (c : Command) (e : CommandEnv) (s : State)
    : State * Outcome CommandResult :=
  let method := Js.trim (cmd_method c) in
  if bool_decide (method = "Tab.list") then (s, Returned (RTabs (handleTabList s)))
  else if bool_decide (method = "Tab.attachAll") then
    let s1 := autoAttachAllTabs (sweep e) s in (s1, Returned (RTabs (handleTabList s1)))
  else if bool_decide (method = "Tab.getStatus") then (s, Returned (handleGetStatus s))
  else if Js.startsWith method "Cookie." then (emit (EExternal method) s, opaque (external_reply e))
  else if Js.startsWith method "Download." then (emit (EExternal method) s, opaque (external_reply e))
  else
    match resolveTabId c s with
    | None => (s, Thrown ("No attached tab for method " +:+ method))
    | Some tabId =>
        if negb (Js.truthy_int tabId)
        then (s, Thrown ("No attached tab for method " +:+ method))
        else if bool_decide (method = "Runtime.enable") then
          let s1 := emit (EDebuggerCommand tabId None "Runtime.disable") s in
          let s2 := if disable_ok e then emit (ESleep 50) s1 else s1 in
          (emit (EDebuggerCommand tabId None "Runtime.enable") s2, opaque (debugger_reply e))
        else if bool_decide (method = "Target.createTarget") then
          let u := default "about:blank" (cmd_url c) in
          let s1 := emit (ETabCreate u) s in
          match created_tab e with
          | None => (s1, Thrown "Failed to create tab")
          | Some newId =>
              if negb (Js.truthy_int newId) then (s1, Thrown "Failed to create tab")
              else
                match attachTab newId false (create_attach e) (emit (ESleep 100) s1) with
                | (s2, Returned (_, target)) => (s2, Returned (RCreated target))
                | (s2, Thrown m) => (s2, Thrown m)
                end
          end
        else if bool_decide (method = "Target.closeTarget") then
          let target := default "" (cmd_targetId c) in
          let toClose := if Js.truthy_string target then getTabByTargetId target s else Some tabId in
          match toClose with
          | None => (s, Returned (RSuccess false))
          | Some t =>
              if negb (Js.truthy_int t) then (s, Returned (RSuccess false))
              else (emit (ETabRemove t) s, Returned (RSuccess (remove_ok e)))
          end
        else if bool_decide (method = "Target.activateTarget") then
          let target := default "" (cmd_targetId c) in
          let toActivate := if Js.truthy_string target then getTabByTargetId target s else Some tabId in
          match toActivate with
          | None => (s, Returned REmpty)
          | Some t =>
              if negb (Js.truthy_int t) then (s, Returned REmpty)
              else if negb (activate_lookup e) then (s, Returned REmpty)
              else (emit (ETabActivate t) s, Returned REmpty)
          end
        else
          let mainSessionId := JsMap.get (tabs s) tabId ≫= sessionId in
          let session :=
            match cmd_sessionId c, mainSessionId with
            | Some sid, Some m =>
                if Js.truthy_string sid && Js.truthy_string m && negb (bool_decide (sid = m))
                then Some sid else None
            | _, _ => None
            end in
          (emit (EDebuggerCommand tabId session method) s, opaque (debugger_reply e))
    end.

(** The [forwardCDPCommand] branch of [onRelayMessage]: the reply goes
    back under the request's id.  When the socket closed meanwhile the
    reply cannot be sent and the handler's promise rejects, which nobody
    observes. *)
Definition onForwardCdpCommand (id : Z) (c : Command) (e : CommandEnv) (s : State)
    : State :=
  match handleForwardCdpCommand c e s with
  | (s1, r) => try_send (Reply id r) s1
  end.

(** *** The keepalive alarm and start-up *)

Definition alarm_candidate (s : State) (tab : TabInfo) : bool :=
  match tab_id tab with
  | Some id => Js.truthy_int id && negb (JsMap.has (tabs s) id)
               && negb (isSkippableUrl (tab_url tab))
  | None => false
  end.

(** The alarm listener.  Its [void autoAttachTab(..)] calls suspend at
    their first [await], so the reconnect test at the end of the listener
    runs before them; they then share the connection attempt it started. *)
Definition onKeepaliveAlarm (e : SweepEnv) (ce : ConnectEnv) (sample : JsNum)
    (s : State) : State :=
  let candidates :=
    if autoAttach_enabled e
    then filter (λ tab, alarm_candidate s tab = true) (all_tabs e)
    else [] in
  let s1 :=
    if negb (relayOpen s) && negb (relayConnectPromise s)
       && negb (bool_decide (is_Some (reconnectTimer s)))
    then
      match ensureRelayConnection ce s with
      | (s', Returned _) => s'
      | (s', Thrown _) =>
          if bool_decide (is_Some (reconnectTimer s')) then s'
          else scheduleReconnect sample s'
      end
    else s in
  foldl (λ acc tab, autoAttachTab (default 0 (tab_id tab)) (tab_url tab) e ce acc)
        s1 candidates.

(** The continuation of [initPromise] at the end of the module. *)
Definition startup (alive info_ok : Z → bool) (e : SweepEnv) (ce : ConnectEnv)
    (sample : JsNum) (s : State) : State :=
  let s0 := rehydrateState alive s in
  match ensureRelayConnection ce s0 with
  | (s1, Returned _) =>
      let s2 := with_reconnectAttempt 0 s1 in
      let s3 := if (0 <? length (tabs s2))%nat
                then reannounceAttachedTabs alive info_ok s2 else s2 in
      autoAttachAllTabs e s3
  | (s1, Thrown _) =>
      let s2 := scheduleReconnect sample s1 in
      if autoAttach_enabled e then autoAttachAllTabs e s2 else s2
  end.

(** *** The event loop

    Every listener the module registers, as one event each.  The timer
    callback runs only while the timer is armed; the socket's close handler
    and its message handler only while the socket is open. *)
Inductive Event : Type :=
| Startup (alive info_ok : Z → bool) (e : SweepEnv) (ce : ConnectEnv) (sample : JsNum)
| KeepaliveAlarm (e : SweepEnv) (ce : ConnectEnv) (sample : JsNum)
| ReconnectTimer (ce : ConnectEnv) (alive info_ok : Z → bool) (sample : JsNum)
| RelayClosed (sample : JsNum)
| RelayCommand (id : Z) (c : Command) (e : CommandEnv)
| ActionClicked (e : SweepEnv) (ce : ConnectEnv)
| TabNeedsAttach (tabId : Z) (u : option string) (e : SweepEnv) (ce : ConnectEnv)
| TabRemoved (tabId : Z)
| TabReplaced (addedTabId removedTabId : Z)
| DebuggerEvent (source_tab : option Z) (source_session : option string)
    (method : string) (child : option string)
| DebuggerDetached (source_tab : option Z) (reason : string)
    (lookup : option TabInfo) (env : nat → RetryEnv).

Definition step (ev : Event) (s : State) : State :=
  match ev with
  | Startup alive info_ok e ce sample => startup alive info_ok e ce sample s
  | KeepaliveAlarm e ce sample => onKeepaliveAlarm e ce sample s
  | ReconnectTimer ce alive info_ok sample =>
      if bool_decide (is_Some (reconnectTimer s))
      then reconnectTimerFired ce alive info_ok sample s else s
  | RelayClosed sample => if relayOpen s then onRelayClosed sample s else s
  | RelayCommand id c e => if relayOpen s then onForwardCdpCommand id c e s else s
  | ActionClicked e ce => onActionClicked e ce s
  | TabNeedsAttach tabId u e ce => autoAttachTab tabId u e ce s
  | TabRemoved tabId => onTabRemoved tabId s
  | TabReplaced a r => onTabReplaced a r s
  | DebuggerEvent t ss m c => onDebuggerEvent t ss m c s
  | DebuggerDetached t reason lookup env => onDebuggerDetach t reason lookup env s
  end.

Definition run (evs : list Event) (s : State) : State :=
  foldl (λ acc ev, step ev acc) s evs.

(** *** The reattach loop among the other listeners

    [reattach_loop] sleeps before each retry, and any listener of the
    event loop may run meanwhile.  [others k] are the events handled during
    the delay before retry [k], after the handlers of [during_delay]; with
    no such event the loop is [reattach_loop]. *)
Fixpoint reattach_loop_among (tabId : Z) (attempt : nat) (ds : list Z)
    (env : nat → RetryEnv) (others : nat → list Event) (s : State) : State :=
  match ds with
  | d :: ds' =>
      let e := env attempt in
      let s1 := run (others attempt)
                    (foldl interleave (emit (ESleep d) s) (during_delay e)) in
      let loud (s2 : State) : State :=
        match attachTab tabId false (attach_loud e) s2 with
        | (s3, Returned _) => clear_pending tabId s3
        | (s3, Thrown _) => reattach_loop_among tabId (S attempt) ds' env others s3
        end in
      if negb (bool_decide (tabId ∈ reattachPending s1)) then s1
      else if negb (tab_exists e) then setBadge tabId badge_off (clear_pending tabId s1)
      else if negb (relayOpen s1) then
        match attachTab tabId true (attach_quiet e) s1 with
        | (s2, Returned _) => clear_pending tabId s2
        | (s2, Thrown _) => loud s2
        end
      else loud s1
  | [] => setBadge tabId badge_off (clear_pending tabId s)
  end.

(** *** Attach and detach as operations on the session table *)

Inductive TableOp : Type :=
| OpAttach (tabId : Z) (skipAttachedEvent : bool) (e : AttachEnv)
| OpDetach (tabId : Z) (reason : string).

Definition apply_op (s : State) (op : TableOp) : State :=
  match op with
  | OpAttach tabId skip e => (attachTab tabId skip e s).1
  | OpDetach tabId reason => detachTab tabId reason s
  end.

(** The guard of the auto-attach callers, [if (tabs.has(tabId)) return],
    evaluated at each attach of a sequence of operations. *)
Fixpoint attach_only_untracked (ops : list TableOp) (s : State) : bool :=
  match ops with
  | [] => true
  | op :: rest =>
      match op with
      | OpAttach tabId _ _ => negb (JsMap.has (tabs s) tabId)
      | OpDetach _ _ => true
      end && attach_only_untracked rest (apply_op s op)
  end.

(** *** The relay token and the socket address (background-utils.ts) *)

Module Hex.

(** The digit of [n < 16] in [Number::toString(16)]. *)
Definition lower_digit (n : N) : ascii :=
  match n with
  | 0 => "0" | 1 => "1" | 2 => "2" | 3 => "3" | 4 => "4" | 5 => "5" | 6 => "6" | 7 => "7"
  | 8 => "8" | 9 => "9" | 10 => "a" | 11 => "b" | 12 => "c" | 13 => "d" | 14 => "e"
  | _ => "f"
  end%N%char.

(** The digit of [n < 16] in a percent escape. *)
Definition upper_digit (n : N) : ascii :=
  match n with
  | 0 => "0" | 1 => "1" | 2 => "2" | 3 => "3" | 4 => "4" | 5 => "5" | 6 => "6" | 7 => "7"
  | 8 => "8" | 9 => "9" | 10 => "A" | 11 => "B" | 12 => "C" | 13 => "D" | 14 => "E"
  | _ => "F"
  end%N%char.

(** [b.toString(16)] for an element [b] of a [Uint8Array]. *)
Definition toString16 (b : Byte.byte) : string :=
  let n := Byte.to_N b in
  if (n <? 16)%N then String (lower_digit n) ""
  else String (lower_digit (n / 16)) (String (lower_digit (n mod 16)) "").

(** [s.padStart(n, c)] with a pad string of one character. *)
Definition padStart (n : nat) (c : ascii) (s : string) : string :=
  Nat.iter (n - String.length s) (String c) s.

(** [[...bytes].map((b) => b.toString(16).padStart(2, '0')).join('')]. *)
Definition of_bytes (bytes : list Byte.byte) : string :=
  String.concat "" (map (λ b, padStart 2 "0" (toString16 b)) bytes).

End Hex.

(** [deriveRelayToken(gatewayToken, port)]; [hmac key message] is the
    HMAC-SHA-256 signature [crypto.subtle] computes for the encoded key and
    message. *)
Definition deriveRelayToken (hmac : Js.Text.t → string → list Byte.byte)
    (gatewayToken : Js.Text.t) (port : Z) : string :=
  Hex.of_bytes (hmac gatewayToken ("openclaw-extension-relay-v1:" +:+ Js.string_of_Z port)).

(** Code units [encodeURIComponent] leaves alone: letters, digits and
    [- _ . ! ~ * ' ( )]. *)
Definition uri_unreserved (c : ascii) : bool :=
  let n := Js.code c in
  ((65 <=? n) && (n <=? 90) || (97 <=? n) && (n <=? 122) || (48 <=? n) && (n <=? 57)
   || (n =? 45) || (n =? 95) || (n =? 46) || (n =? 33) || (n =? 126) || (n =? 42)
   || (n =? 39) || (n =? 40) || (n =? 41))%N.

Definition percent (n : N) : string :=
  String "%" (String (Hex.upper_digit (n / 16)) (String (Hex.upper_digit (n mod 16)) "")).

(** [encodeURIComponent(s)] on code units below 256: the other code units
    are escaped as the bytes of their UTF-8 encoding. *)
Fixpoint encodeURIComponent (s : string) : string :=
  match s with
  | EmptyString => EmptyString
  | String c rest =>
      let n := Js.code c in
      (if uri_unreserved c then String c ""
       else if (n <? 128)%N then percent n
       else percent (192 + n / 64) +:+ percent (128 + n mod 64))
      +:+ encodeURIComponent rest
  end.

(** [buildRelayWsUrl(port, gatewayToken)]. *)
Definition buildRelayWsUrl (hmac : Js.Text.t → string → list Byte.byte)
    (port : Z) (gatewayToken : Js.Text.t) : Outcome string :=
  let token := Js.Text.trim gatewayToken in
  if negb (Js.Text.truthy token) then Thrown missing_token_message
  else
    let relayToken := deriveRelayToken hmac token port in
    Returned ("ws://127.0.0.1:" +:+ Js.string_of_Z port +:+ "/extension?token="
              +:+ encodeURIComponent relayToken).

(** *** Frames from the relay *)

(** A frame after [JSON.parse]: its [method], its [id] when that is a
    number, whether it has a [result] or an [error], and its [params] read as
    a command. *)
Record RelayMessage : Type := mkRelayMessage {
  msg_method : option string;
  msg_id : option Z;
  msg_has_result : bool;    (* msg.result !== undefined *)
  msg_has_error : bool;     (* msg.error !== undefined *)
  msg_command : Command
}.

(** [onRelayMessage(text)]; [parsed] is [None] when [JSON.parse] throws or
    returns [null], on which the handler stops with a type error.  The
    [pending] map is never written in this module, so the lookup of a
    response's id finds nothing and the response is dropped. *)
Definition onRelayMessage (parsed : option RelayMessage) (e : CommandEnv)
    (s : State) : State :=
  match parsed with
  | None => s
  | Some msg =>
      if bool_decide (msg_method msg = Some "ping") then try_send Pong s
      else
        match msg_id msg with
        | Some id =>
            if msg_has_result msg || msg_has_error msg then s
            else if bool_decide (msg_method msg = Some "forwardCDPCommand")
                 then onForwardCdpCommand id (msg_command msg) e s
                 else s
        | None => s
        end
  end.

(** *** Tab listeners *)

(** [chrome.tabs.onCreated]. *)
Definition onTabCreated (tab : TabInfo) (e : SweepEnv) (ce : ConnectEnv)
    (s : State) : State :=
  match tab_id tab with
  | Some id =>
      if Js.truthy_int id && Js.truthy_opt (tab_url tab) && negb (isSkippableUrl (tab_url tab))
      then autoAttachTab id (tab_url tab) e ce s
      else s
  | None => s
  end.

(** [existing.url = changeInfo.url] and [existing.title = changeInfo.title],
    each when the change is truthy. *)
Definition with_metadata (change_url change_title : option string)
    (existing : TabSession) : TabSession :=
  {| state := state existing;
     sessionId := sessionId existing;
     targetId := targetId existing;
     attachOrder := attachOrder existing;
     url := if Js.truthy_opt change_url then change_url else url existing;
     title := if Js.truthy_opt change_title then change_title else title existing;
     attachedAt := attachedAt existing |}.

(** [chrome.tabs.onUpdated].  The [void autoAttachTab(..)] call suspends at
    its first [await]; the metadata update runs before it resumes. *)
Definition onTabUpdated (tabId : Z) (status : option string)
    (change_url change_title : option string) (current_url : option string)
    (e : SweepEnv) (ce : ConnectEnv) (s : State) : State :=
  let s1 :=
    match JsMap.get (tabs s) tabId with
    | Some existing =>
        with_tabs (JsMap.set (tabs s) tabId (with_metadata change_url change_title existing)) s
    | None => s
    end in
  if bool_decide (status = Some "loading") && Js.truthy_opt current_url
     && negb (JsMap.has (tabs s) tabId)
  then autoAttachTab tabId current_url e ce s1
  else s1.

(** [chrome.webNavigation.onCompleted] and [chrome.tabs.onActivated]: the
    badge of a connected tab follows the socket.  ([updateGlobalBadge], which
    the second listener also calls, draws the badge of the toolbar and
    touches none of the module's variables.) *)
Definition refreshBadge (tabId : Z) (s : State) : State :=
  match JsMap.get (tabs s) tabId with
  | Some tab =>
      if bool_decide (state tab = connected)
      then setBadge tabId (if relayOpen s then badge_on else badge_connecting) s
      else s
  | None => s
  end.

Definition onNavigationCompleted (tabId frameId : Z) (s : State) : State :=
  if negb (frameId =? 0) then s else refreshBadge tabId s.

Definition onTabActivated (tabId : Z) (s : State) : State := refreshBadge tabId s.

(** *** Every listener of the module

    The listeners of the event loop above and the remaining ones: the
    socket's message handler with its frame tests, and the tab listeners
    that lead to [autoAttachTab] or only refresh what is shown. *)
Inductive Listener : Type :=
| Core (ev : Event)
| RelayMessageReceived (parsed : option RelayMessage) (e : CommandEnv)
| TabCreated (tab : TabInfo) (e : SweepEnv) (ce : ConnectEnv)
| TabUpdated (tabId : Z) (status change_url change_title current_url : option string)
    (e : SweepEnv) (ce : ConnectEnv)
| NavigationCompleted (tabId frameId : Z)
| TabActivated (tabId : Z).

Definition dispatch (l : Listener) (s : State) : State :=
  match l with
  | Core ev => step ev s
  | RelayMessageReceived parsed e => if relayOpen s then onRelayMessage parsed e s else s
  | TabCreated tab e ce => onTabCreated tab e ce s
  | TabUpdated tabId status cu ct u e ce => onTabUpdated tabId status cu ct u e ce s
  | NavigationCompleted tabId frameId => onNavigationCompleted tabId frameId s
  | TabActivated tabId => onTabActivated tabId s
  end.

Definition dispatch_all (ls : list Listener) (s : State) : State :=
  foldl (λ acc l, dispatch l acc) s ls.

(** ** options.ts: the settings form *)

(** The four settings in [chrome.storage.local]. *)
Record Settings : Type := mkSettings {
  st_relayPort : StoredValue;
  st_gatewayToken : StoredValue;
  st_autoAttach : StoredValue;
  st_downloadDirectory : StoredValue
}.

(** The inputs of the options page. *)
Record Form : Type := mkForm {
  f_port : Js.Text.t;
  f_token : Js.Text.t;
  f_autoAttach : bool;
  f_downloadDir : Js.Text.t
}.

(** What [save()] hands to [chrome.storage.local.set]: a number, a string,
    a boolean and a string. *)
Record Written : Type := mkWritten {
  w_relayPort : Z;
  w_gatewayToken : Js.Text.t;
  w_autoAttach : bool;
  w_downloadDirectory : Js.Text.t
}.

(** [isAutoAttachEnabled]: [stored.autoAttach !== false]. *)
Definition isAutoAttachEnabled (stored : Settings) : bool :=
  match st_autoAttach stored with
  | SBoolean false => false
  | _ => true
  end.

(** [load()]: what the form shows for the stored settings. *)
Definition load (stored : Settings) : Form :=
  {| f_port := Js.Text.of_string (Js.string_of_Z (clampPort (st_relayPort stored)));
     f_token := Js.Text.trim (string_or_empty (st_gatewayToken stored));
     f_autoAttach := match st_autoAttach stored with SBoolean false => false | _ => true end;
     f_downloadDir := string_or_empty (st_downloadDirectory stored) |}.

(** [save()]: what is written to the store, and the form afterwards (the
    port and the token are written back to their inputs). *)
Definition save (form : Form) : Written * Form :=
  let port := clampPort (SString (f_port form)) in
  let token := Js.Text.trim (string_or_empty (SString (f_token form))) in
  let downloadDir := Js.Text.trim (string_or_empty (SString (f_downloadDir form))) in
  ({| w_relayPort := port;
      w_gatewayToken := token;
      w_autoAttach := f_autoAttach form;
      w_downloadDirectory := downloadDir |},
   {| f_port := Js.Text.of_string (Js.string_of_Z port); f_token := token;
      f_autoAttach := f_autoAttach form; f_downloadDir := f_downloadDir form |}).

(** * The vocabulary of the statements *)

(** The text of the stored setting reads as the port number [n]. *)
Definition parses_to_port (v : StoredValue) (n : Z) : Prop :=
  Js.Text.parseInt10_math (string_or_empty v) = Some n ∧ 0 < n < 65536.

(** White space only. *)
Definition blank (ws : Js.Text.t) : Prop :=
  Forall (λ n, Js.Text.isWhiteSpace n = true) ws.

Definition is_digit (n : N) : Prop := (48 <= n <= 57)%N.

(** The text does not start with a digit. *)
Definition no_digit_first (rest : Js.Text.t) : Prop :=
  match rest with
  | n :: _ => ¬ is_digit n
  | [] => True
  end.

(** The text starts with no numeral: it is empty, or it starts with a sign
    that no digit follows, or with a code unit that is neither white space
    nor a sign nor a digit. *)
Definition no_numeral_first (rest : Js.Text.t) : Prop :=
  match rest with
  | [] => True
  | n :: rest' =>
      if ((n =? 45) || (n =? 43))%N then no_digit_first rest'
      else ¬ is_digit n ∧ Js.Text.isWhiteSpace n = false
  end.

(** The decimal numeral of [z], with a minus sign when [z] is negative. *)
Definition numeral (z : Z) : Js.Text.t := Js.Text.of_string (Js.string_of_Z z).

(** The number [x] is finite and its value is [q]. *)
Definition finite_value (x : JsNum) (q : Q) : Prop :=
  match x with
  | Fin d => (d == q)%Q
  | _ => False
  end.

(** The rational [q] is a finite number. *)
Definition is_double (q : Q) : Prop :=
  Binary64.representable q ∧ (Qabs q < Binary64.pow2 1024)%Q.

(** The value of an option of [reconnectDelayMs]: the given number when it
    is finite, the default otherwise. *)
Definition option_value (o : option JsNum) (d : Q) : Q :=
  match o with Some (Fin q) => q | _ => d end.

(** [f] is the smaller of [x] and [y]. *)
Definition is_min (f x y : Q) : Prop := (f <= x ∧ f <= y ∧ (f == x ∨ f == y))%Q.

(** The base, the cap and the jitter [reconnectDelayMs] works with. *)
Definition effective_base (opts : ReconnectOptions) : Q := option_value (baseMs opts) 1000.

Definition effective_max (opts : ReconnectOptions) : Q := option_value (maxMs opts) 30000.

Definition effective_jitter (opts : ReconnectOptions) : Q := option_value (jitterMs opts) 1000.

(** The two session indices agree in both directions. *)
Definition consistent (s : State) : Prop :=
  (∀ session tabId, JsMap.get (tabBySession s) session = Some tabId →
     ∃ tab, JsMap.get (tabs s) tabId = Some tab ∧ sessionId tab = Some session) ∧
  (∀ tabId tab session, JsMap.get (tabs s) tabId = Some tab →
     sessionId tab = Some session →
     JsMap.get (tabBySession s) session = Some tabId).

(** The second direction alone: every tab that carries a session id is
    found under it in the session index. *)
Definition indexed (s : State) : Prop :=
  ∀ tabId tab session, JsMap.get (tabs s) tabId = Some tab →
    sessionId tab = Some session →
    JsMap.get (tabBySession s) session = Some tabId.

(** Every session id in the table was allocated from the counter. *)
Definition allocated (s : State) : Prop :=
  ∀ tabId tab session, JsMap.get (tabs s) tabId = Some tab →
    sessionId tab = Some session →
    ∃ k, session = session_name k ∧ k < nextSession s.

(** Two states with the same session table. *)
Definition same_table (s s' : State) : Prop :=
  tabs s' = tabs s ∧ tabBySession s' = tabBySession s ∧
  childSessionToTab s' = childSessionToTab s ∧ nextSession s' = nextSession s.

(** No child session is mapped to [tabId]. *)
Definition no_child_of (tabId : Z) (s : State) : Prop :=
  ∀ c, JsMap.get (childSessionToTab s) c ≠ Some tabId.

(** The connection manager's view of a step from [s] to [s']: the counter
    stays non-negative, and it is zero afterwards only if it was zero
    before (and an open socket stayed open) or the socket is open now. *)
Definition counter_kept (s s' : State) : Prop :=
  0 <= reconnectAttempt s →
  0 <= reconnectAttempt s' ∧
  (reconnectAttempt s' = 0 →
   (reconnectAttempt s = 0 ∧ (relayOpen s = true → relayOpen s' = true))
   ∨ relayOpen s' = true).

(** The socket and the counter are untouched. *)
Definition same_conn (s s' : State) : Prop :=
  relayOpen s' = relayOpen s ∧ reconnectAttempt s' = reconnectAttempt s.

(** The number of connected tabs [onActionClicked] counts. *)
Definition attachedCount (s : State) : nat :=
  length (filter (λ t, state t = connected) (JsMap.values (tabs s))).

(** The action click that asks for a manual reconnect: no tab is attached,
    so the handler calls [cancelReconnect] and then tries to connect. *)
Definition manual_retry (ev : Event) (s : State) : Prop :=
  match ev with
  | ActionClicked _ _ => attachedCount s = 0%nat
  | _ => False
  end.

(** Tab ids are truthy: the listeners test [tab.id] before they store it,
    and the browser numbers tabs from 1. *)
Definition ids_truthy (s : State) : Prop :=
  (∀ k t, JsMap.get (tabBySession s) k = Some t → t ≠ 0) ∧
  (∀ k t, JsMap.get (childSessionToTab s) k = Some t → t ≠ 0) ∧
  (∀ t tab, (t, tab) ∈ tabs s → t ≠ 0).

(** The command's session id resolves in neither index. *)
Definition session_unresolved (c : Command) (s : State) : Prop :=
  match cmd_sessionId c with
  | Some sid => sid = "" ∨ (JsMap.get (tabBySession s) sid = None
                            ∧ JsMap.get (childSessionToTab s) sid = None)
  | None => True
  end.

(** The command's embedded target id belongs to no tab. *)
Definition target_unresolved (c : Command) (s : State) : Prop :=
  match cmd_targetId c with
  | Some tid => tid = "" ∨ ∀ t tab, (t, tab) ∈ tabs s → targetId tab ≠ Some tid
  | None => True
  end.

(** [t] is the first tab of the table, in iteration order, whose target id
    is [tid]. *)
Definition first_with_target (tid : string) (t : Z) (s : State) : Prop :=
  ∃ pre tab post,
    tabs s = (pre ++ (t, tab) :: post)%list ∧ targetId tab = Some tid ∧
    Forall (λ kv, targetId kv.2 ≠ Some tid) pre.

(** No tab is connected. *)
Definition none_connected (s : State) : Prop :=
  ∀ t tab, (t, tab) ∈ tabs s → state tab ≠ connected.

(** The method is none of the relay's own commands. *)
Definition pass_through (method : string) : Prop :=
  method ≠ "Tab.list" ∧ method ≠ "Tab.attachAll" ∧ method ≠ "Tab.getStatus" ∧
  Js.startsWith method "Cookie." = false ∧ Js.startsWith method "Download." = false.

(** The tab table is a map (one entry per tab id) whose entries carry a
    session id and a target id, as every entry [attachTab] and
    [rehydrateState] write does. *)
Definition table_wf (s : State) : Prop :=
  NoDup (JsMap.keys (tabs s)) ∧
  ∀ t tab, (t, tab) ∈ tabs s →
    Js.truthy_opt (sessionId tab) = true ∧ Js.truthy_opt (targetId tab) = true.

(** The service worker restarts: its variables are the initial ones, the
    session storage area keeps what was written to it. *)
Definition restarted (s : State) : State :=
  with_sessionStore (sessionStore s) initial_state.

(** The delays and the debugger attaches among some effects. *)
Definition in_view (e : Effect) : bool :=
  match e with ESleep _ | EDebuggerAttach _ => true | _ => false end.

Definition protocol_view (t : list Effect) : list Effect :=
  filter (λ e, in_view e = true) t.

(** Rounds of the protocol: each round waits the next delay of the list
    and then asks the debugger to attach to [tabId] at most twice. *)
Inductive well_timed (tabId : Z) : list Z → list Effect → Prop :=
| wt_done ds : well_timed tabId ds []
| wt_round d ds n rest :
    (n ≤ 2)%nat → well_timed tabId ds rest →
    well_timed tabId (d :: ds) (ESleep d :: replicate n (EDebuggerAttach tabId) ++ rest).

(** From [s] to [s'] the trace grew by effects whose view is [v]. *)
Definition grows (s s' : State) (v : list Effect) : Prop :=
  ∃ seg, trace s' = (trace s ++ seg)%list ∧ protocol_view seg = v.

(** The delays waited among some effects. *)
Definition sleeps (t : list Effect) : list Z :=
  omap (λ e, match e with ESleep d => Some d | _ => None end) t.

(** The browser's answers let [attachTab] succeed. *)
Definition attach_ok (e : AttachEnv) : bool :=
  debugger_attaches e &&
  match target_info e with
  | Returned info =>
      Js.truthy_string (Js.trim (default "" (or_string (info ≫= ti_targetId) (Some ""))))
  | Thrown _ => false
  end.

(** A retry attaches: without the relay ([down]) the attach without
    announcement is tried first, then the announced one. *)
Definition retry_succeeds (down : bool) (e : RetryEnv) : bool :=
  (down && attach_ok (attach_quiet e)) || attach_ok (attach_loud e).

(** What the retries before a given one leave alone. *)
Definition frame (s s' : State) : Prop :=
  tabs s' = tabs s ∧ reattachPending s' = reattachPending s ∧
  badges s' = badges s ∧ relayOpen s' = relayOpen s.

(** The retries before retry [i] find the tab and fail to attach, and
    no other handler runs during the delays up to retry [i]. *)
Definition fails_before (env : nat → RetryEnv) (s : State) (i : nat) : Prop :=
  (∀ j, (j ≤ i)%nat → during_delay (env j) = []) ∧
  (∀ j, (j < i)%nat → tab_exists (env j) = true
                      ∧ retry_succeeds (negb (relayOpen s)) (env j) = false).

(** An involuntary detach the reattach protocol handles: the tab is
    tracked, the reason is not a permanent one, the tab still exists with
    an attachable address, and no reattach is under way for it. *)
Definition recoverable_detach (tabId : Z) (reason : string) (info : TabInfo)
    (s : State) : Prop :=
  tabId ≠ 0 ∧ JsMap.has (tabs s) tabId = true ∧ permanent_reason reason = false ∧
  isSkippableUrl (tab_url info) = false ∧ tabId ∉ reattachPending s.

(** The digits of a relay token. *)
Definition is_lower_hex (c : ascii) : bool :=
  let n := Js.code c in
  ((48 <=? n) && (n <=? 57) || (97 <=? n) && (n <=? 102))%N.

(** Every character of [s] satisfies [p]. *)
Fixpoint all_chars (p : ascii → bool) (s : string) : bool :=
  match s with
  | EmptyString => true
  | String c rest => p c && all_chars p rest
  end.

(** Reading a token back: the value of a digit and the bytes of a string of
    digit pairs. *)
Definition hex_value (c : ascii) : option N :=
  let n := Js.code c in
  if ((48 <=? n) && (n <=? 57))%N then Some (n - 48)%N
  else if ((97 <=? n) && (n <=? 102))%N then Some (n - 87)%N
  else None.

Fixpoint bytes_of_hex (s : string) : option (list Byte.byte) :=
  match s with
  | EmptyString => Some []
  | String a (String b rest) =>
      match hex_value a, hex_value b, bytes_of_hex rest with
      | Some x, Some y, Some l => (λ byte, byte :: l) <$> Byte.of_N (16 * x + y)
      | _, _, _ => None
      end
  | String _ EmptyString => None
  end.

(** The message [deriveRelayToken] signs for [port]. *)
Definition token_message (port : Z) : string :=
  "openclaw-extension-relay-v1:" +:+ Js.string_of_Z port.

(** From [s] to [s'] the session counter did not go back and the tab locks
    are the same. *)
Definition steady (s s' : State) : Prop :=
  nextSession s <= nextSession s' ∧ tabOperationLocks s' = tabOperationLocks s.

(** The tab table and its session index are in order: the indices agree,
    every session id came from the counter, the table has one entry per tab,
    and the counter is positive. *)
Definition tidy (s : State) : Prop :=
  consistent s ∧ allocated s ∧ NoDup (JsMap.keys (tabs s)) ∧ 0 < nextSession s.

(** What is kept in [chrome.storage.session] could be the snapshot of a tidy
    table: one entry per tab, one per session, session ids below the stored
    counter. *)
Definition store_wf (s : State) : Prop :=
  match sessionStore s with
  | Some (entries, n) =>
      NoDup (map p_tabId entries) ∧ NoDup (map p_sessionId entries) ∧
      (∀ p, p ∈ entries → ∃ k, p_sessionId p = session_name k ∧ k < n) ∧ 0 < n
  | None => True
  end.

Definition sound (s : State) : Prop := tidy s ∧ store_wf s.

(** The table, the session index, the counter and the store are the same. *)
Definition untouched (s s' : State) : Prop :=
  tabs s' = tabs s ∧ tabBySession s' = tabBySession s ∧
  nextSession s' = nextSession s ∧ sessionStore s' = sessionStore s.

(** What the browser guarantees when a listener runs: the start-up code
    runs on the empty tables of a fresh worker, a replacing tab and a tab
    just created are not tracked yet. *)
Definition fresh_ids (l : Listener) (s : State) : Prop :=
  match l with
  | Core (Startup _ _ _ _ _) => tabs s = [] ∧ tabBySession s = []
  | Core (TabReplaced added _) => JsMap.has (tabs s) added = false
  | Core (RelayCommand _ _ e) | RelayMessageReceived _ e =>
      ∀ newId, created_tab e = Some newId → JsMap.has (tabs s) newId = false
  | _ => True
  end.

Fixpoint orderly (ls : list Listener) (s : State) : Prop :=
  match ls with
  | [] => True
  | l :: rest => fresh_ids l s ∧ orderly rest (dispatch l s)
  end.

(** From [s] to [s'] the trace grew by effects that all satisfy [P]. *)
Definition emits (P : Effect → Prop) (s s' : State) : Prop :=
  ∃ seg, trace s' = (trace s ++ seg)%list ∧ Forall P seg.

(** A frame that answers a relayed command. *)
Definition is_reply (e : Effect) : Prop :=
  match e with ESend (Reply _ _) => True | _ => False end.

(** A tab the sweep may attach: the browser lists it with a truthy id and
    an address that is neither skippable nor the options page, and it was
    not tracked when the sweep began. *)
Definition sweep_eligible (e : SweepEnv) (s : State) (id : Z) : Prop :=
  ∃ tab, tab ∈ all_tabs e ∧ tab_id tab = Some id ∧ id ≠ 0 ∧
    JsMap.has (tabs s) id = false ∧ isSkippableUrl (tab_url tab) = false ∧
    tab_url tab ≠ Some (ownOptionsUrl e).

(** What a sweep may do: attach the debugger to an eligible tab and
    announce a session. *)
Definition sweep_effect (e : SweepEnv) (s : State) (eff : Effect) : Prop :=
  match eff with
  | EDebuggerAttach id => sweep_eligible e s id
  | ESend (AttachedToTarget _) => True
  | _ => False
  end.

(** The frames [detachTab] writes for the child sessions of [tabId]. *)
Definition child_detach_frames (tabId : Z) (s : State) : list Effect :=
  map (λ kv, ESend (DetachedFromTarget kv.1 None "parent_detached"))
      (filter (λ kv, kv.2 = tabId) (childSessionToTab s)).

(** Every entry of the tab table is connected. *)
Definition all_connected (s : State) : Prop :=
  ∀ t tab, (t, tab) ∈ tabs s → state tab = connected.

(** The frames that announce again, after a reconnect, the tabs that
    answered the probe and whose target could be read. *)
Definition reannounce_frames (alive info_ok : Z → bool) (s : State) : list Effect :=
  omap (λ kv, if alive kv.1 && info_ok kv.1
              then Some (ESend (AttachedToTarget (default "" (sessionId kv.2))))
              else None)
       (tabs s).

(** A method the relay hands to the debugger as it is. *)
Definition plain_method (method : string) : Prop :=
  pass_through method ∧ method ≠ "Runtime.enable" ∧ method ≠ "Target.createTarget" ∧
  method ≠ "Target.closeTarget" ∧ method ≠ "Target.activateTarget".

(** A detach after which no reattach is tried: the reason is permanent,
    the tab is gone, or its address cannot be attached. *)
Definition final_detach (reason : string) (lookup : option TabInfo) : Prop :=
  permanent_reason reason = true ∨ lookup = None ∨
  ∃ info, lookup = Some info ∧ isSkippableUrl (tab_url info) = true.

(** The store holds what was written. *)
Definition holds (stored : Settings) (w : Written) : Prop :=
  (∃ safe, st_relayPort stored = SInteger (w_relayPort w) safe) ∧
  st_gatewayToken stored = SString (w_gatewayToken w) ∧
  st_autoAttach stored = SBoolean (w_autoAttach w) ∧
  st_downloadDirectory stored = SString (w_downloadDirectory w).

(** * Scenarios

    Concrete browsers, relays and event sequences on which the program is
    run below. *)

(** A browser that lets the debugger attach and reports target [tid]. *)
Definition attach_succeeds (tid : string) : AttachEnv :=
  {| debugger_attaches := true;
     target_info := Returned (Some (mkTargetInfo (Some tid) None None));
     tab_info := None;
     now := 0 |}.

Definition attach_detach_attach : list TableOp :=
  [OpAttach 7 false (attach_succeeds "T7"); OpDetach 7 "toggle";
   OpAttach 7 false (attach_succeeds "T7"); OpAttach 8 true (attach_succeeds "T8")].

Definition attach_twice : list TableOp :=
  [OpAttach 7 false (attach_succeeds "T7"); OpAttach 7 false (attach_succeeds "T7")].

(** A relay that accepts the connection. *)
Definition relay_up : ConnectEnv :=
  {| stored_relayPort := SUndefined; stored_gatewayToken := SString (Js.Text.of_string "secret");
     head_failure := None; ws_outcome := WsOpen; inflight := Returned () |}.

(** A browser with auto-attach on and one page open in tab [tabId]. *)
Definition one_tab (tabId : Z) (tid : string) : SweepEnv :=
  {| autoAttach_enabled := true;
     all_tabs := [mkTabInfo (Some tabId) (Some "https://example.com/") (Some "Example")];
     ownOptionsUrl := "chrome-extension://relay/options.html";
     attach_env := λ _, attach_succeeds tid |}.

(** Tab 5 is attached and gets a worker session; the relay connection drops
    and comes back; the probe of tab 5 fails during re-announcement. *)
Definition stale_tab_at_reconnect : list Event :=
  [TabNeedsAttach 5 (Some "https://example.com/") (one_tab 5 "T5") relay_up;
   DebuggerEvent (Some 5) None "Target.attachedToTarget" (Some "worker-1");
   RelayClosed (Fin 0);
   ReconnectTimer relay_up (λ _, false) (λ _, true) (Fin 0)].

(** Tab 7 is attached, then navigates: the debugger detaches and the tab
    becomes Pending Reattach. *)
Definition tab7_reattaching : State :=
  begin_reattach 7
    (run [TabNeedsAttach 7 (Some "https://example.com/") (one_tab 7 "T7") relay_up]
         initial_state).

(** No gateway token is stored. *)
Definition relay_without_token : ConnectEnv :=
  {| stored_relayPort := SUndefined; stored_gatewayToken := SUndefined;
     head_failure := None; ws_outcome := WsOpen; inflight := Returned () |}.

Definition no_tabs : SweepEnv :=
  {| autoAttach_enabled := true; all_tabs := [];
     ownOptionsUrl := "chrome-extension://relay/options.html";
     attach_env := λ _, attach_succeeds "T" |}.

(** No relay listens: the reachability probe fails. *)
Definition relay_down : ConnectEnv :=
  {| stored_relayPort := SUndefined; stored_gatewayToken := SString (Js.Text.of_string "secret");
     head_failure := Some "TypeError: Failed to fetch"; ws_outcome := WsError;
     inflight := Thrown "WebSocket connect failed" |}.

Definition two_failed_connects : list Event :=
  [Startup (λ _, true) (λ _, true) no_tabs relay_down (Fin 0);
   ReconnectTimer relay_down (λ _, true) (λ _, true) (Fin 0)].

(** Tab 5 is attached and has a worker session; tab 6 is attached after
    it. *)
Definition two_tabs_one_worker : State :=
  run [TabNeedsAttach 5 (Some "https://example.com/") (one_tab 5 "T5") relay_up;
       DebuggerEvent (Some 5) None "Target.attachedToTarget" (Some "worker-1");
       TabNeedsAttach 6 (Some "https://example.org/") (one_tab 6 "T6") relay_up]
      initial_state.

(** The numbers 0.1 and 0.2, and the largest number below 1. *)
Definition tenth : Q := 3602879701896397 # 36028797018963968.

Definition fifth : Q := 3602879701896397 # 18014398509481984.

Definition almost_one : Q := 9007199254740991 # 9007199254740992.

(** [{ jitterMs: 0.2 }]. *)
Definition jitter_of_a_fifth : ReconnectOptions :=
  {| baseMs := None; maxMs := None; jitterMs := Some (Fin fifth) |}.

(** The debugger refuses to attach. *)
Definition attach_refused : AttachEnv :=
  {| debugger_attaches := false; target_info := Thrown "not attached";
     tab_info := None; now := 0 |}.

(** The page of tab 7 finishes loading only before the third retry. *)
Definition third_retry_attaches (i : nat) : RetryEnv :=
  {| during_delay := []; tab_exists := true;
     attach_quiet := attach_refused;
     attach_loud := if (i =? 2)%nat then attach_succeeds "T7b" else attach_refused |}.

Definition tab7_attached : State :=
  run [TabNeedsAttach 7 (Some "https://example.com/") (one_tab 7 "T7") relay_up]
      initial_state.

Definition tab7_info : TabInfo :=
  mkTabInfo (Some 7) (Some "https://example.com/next") (Some "Next").

(** The first retry of the reattach loop finds the tab and attaches. *)
Definition first_retry_attaches (i : nat) : RetryEnv :=
  {| during_delay := []; tab_exists := true;
     attach_quiet := attach_refused;
     attach_loud := attach_succeeds "T7c" |}.

(** The relay asks for [Tab.attachAll] and the browser lists tab 7. *)
Definition attach_all_finds_tab7 : CommandEnv :=
  {| sweep := one_tab 7 "T7b";
     external_reply := Returned ""; debugger_reply := Returned "";
     disable_ok := true; created_tab := None; create_attach := attach_refused;
     remove_ok := true; activate_lookup := true |}.

(** While the reattach loop of tab 7 waits its first delay, the relay asks
    for [Tab.attachAll]; the page then navigates again and the debugger
    detaches from tab 7 a second time. *)
Definition sweep_and_second_detach (k : nat) : list Event :=
  if (k =? 0)%nat
  then [RelayCommand 1 (mkCommand "Tab.attachAll" None None None) attach_all_finds_tab7;
        DebuggerDetached (Some 7) "target_closed" (Some tab7_info) first_retry_attaches]
  else [].

(** A signature of two bytes, whatever is signed. *)
Definition two_byte_hmac : Js.Text.t → string → list Byte.byte :=
  λ _ _, [Byte.xab; Byte.x01].

(** The entry of tab [t], for a tab that is tracked. *)
Definition tab_of (t : Z) (s : State) : TabSession :=
  default (restored_tab (mkPersistedTab t "" "" 0)) (JsMap.get (tabs s) t).

(** A browser that creates tab 12 on request and lets the debugger attach
    to it. *)
Definition browser_creates_tab12 : CommandEnv :=
  {| sweep := no_tabs; external_reply := Returned "[]"; debugger_reply := Returned "{}";
     disable_ok := true; created_tab := Some 12; create_attach := attach_succeeds "T12";
     remove_ok := true; activate_lookup := true |}.

Definition create_target_request : RelayMessage :=
  {| msg_method := Some "forwardCDPCommand"; msg_id := Some 1;
     msg_has_result := false; msg_has_error := false;
     msg_command := mkCommand "Target.createTarget" None None (Some "https://example.net/") |}.

Definition ping_frame : RelayMessage :=
  {| msg_method := Some "ping"; msg_id := None;
     msg_has_result := false; msg_has_error := false;
     msg_command := mkCommand "" None None None |}.

(** A worker starts and attaches tab 5; tab 6 is created; tab 5 gets a
    worker session, navigates and is replaced by tab 9; the relay asks for a
    new tab; the socket drops and comes back with tab 6 gone; tab 9 is
    closed. *)
Definition working_day : list Listener :=
  [Core (Startup (λ _, true) (λ _, true) (one_tab 5 "T5") relay_up (Fin 0));
   TabCreated (mkTabInfo (Some 6) (Some "https://example.org/") None) (one_tab 6 "T6") relay_up;
   Core (DebuggerEvent (Some 5) None "Target.attachedToTarget" (Some "worker-1"));
   TabUpdated 5 (Some "complete") (Some "https://example.com/next") None
     (Some "https://example.com/next") (one_tab 5 "T5") relay_up;
   Core (TabReplaced 9 5);
   RelayMessageReceived (Some create_target_request) browser_creates_tab12;
   Core (RelayClosed (Fin 0));
   Core (ReconnectTimer relay_up (λ t, negb (t =? 6)) (λ _, true) (Fin 0));
   NavigationCompleted 9 0;
   Core (TabRemoved 9)].

(** The relay's reachability probe is answered with a complaint about the
    token, although a token is stored. *)
Definition relay_rejects_token : ConnectEnv :=
  {| stored_relayPort := SUndefined; stored_gatewayToken := SString (Js.Text.of_string "secret");
     head_failure := Some "401 Missing gatewayToken header"; ws_outcome := WsError;
     inflight := Thrown "WebSocket connect failed" |}.

(** The options page with port 19000, a token between spaces and
    auto-attach off. *)
Definition form_19000 : Form :=
  {| f_port := Js.Text.of_string "19000"; f_token := Js.Text.of_string " secret ";
     f_autoAttach := false; f_downloadDir := Js.Text.of_string "/tmp/downloads " |}.

Definition settings_19000 : Settings :=
  {| st_relayPort := SInteger 19000 eq_refl;
     st_gatewayToken := SString (Js.Text.of_string "secret");
     st_autoAttach := SBoolean false;
     st_downloadDirectory := SString (Js.Text.of_string "/tmp/downloads") |}.

(** * Properties *)

(** ** The embedding on small inputs *)

Example parseInt10_examples :
  Js.Text.parseInt10 (Js.Text.of_string " 42px") = Fin 42 ∧
  Js.Text.parseInt10 (Js.Text.of_string "-0") = Fin 0 ∧
  Js.Text.parseInt10 (Js.Text.of_string "+7") = Fin 7 ∧
  Js.Text.parseInt10 (Js.Text.of_string "port") = NaN ∧
  Js.Text.parseInt10 [] = NaN ∧
  Js.Text.parseInt10 (Js.Text.of_string "1e3") = Fin 1 ∧
  Js.Text.parseInt10 (12288%N :: Js.Text.of_string "8080") = Fin 8080 ∧
  Js.Text.parseInt10 (Js.Text.of_string "9007199254740993") = Fin 9007199254740992.
Proof. by vm_compute. Qed.

Example getRelayPort_examples :
  getRelayPort (SString (Js.Text.of_string "65535")) = 65535 ∧
  getRelayPort (SString (Js.Text.of_string "65536")) = 18792 ∧
  getRelayPort (SInteger 8080 eq_refl) = 8080 ∧
  getRelayPort (SInteger (-1) eq_refl) = 18792 ∧
  getRelayPort (SNumber (Js.Text.of_string "8080.5")) = 8080 ∧
  getRelayPort (SString (Js.Text.of_string "0")) = 18792 ∧
  getRelayPort (SBoolean true) = 18792 ∧
  getRelayPort SUndefined = 18792.
Proof. by vm_compute. Qed.

Example binary64_examples :
  Num.mul (Fin 1000) (Fin (3602879701896397 # 36028797018963968)) = Fin 100 ∧
  Num.add (Fin (3602879701896397 # 36028797018963968))
          (Fin (3602879701896397 # 18014398509481984))
    = Fin (1351079888211149 # 4503599627370496) ∧
  Num.pow2 1023 = Fin (inject_Z (2 ^ 1023)) ∧ Num.pow2 1024 = PosInf ∧
  Num.pow2 (-1075) = Fin 0 ∧
  Num.of_real (inject_Z (2 ^ 1024 - 2 ^ 970 - 1)) = Fin (inject_Z (2 ^ 1024 - 2 ^ 971)) ∧
  Num.of_real (inject_Z (2 ^ 1024 - 2 ^ 970)) = PosInf.
Proof. by vm_compute. Qed.

Example trim_example : Js.trim "  a b  " = "a b".
Proof. reflexivity. Qed.

Example isSkippableUrl_examples :
  isSkippableUrl (Some "chrome://extensions") = true ∧
  isSkippableUrl (Some "about:blank") = true ∧
  isSkippableUrl (Some "") = true ∧ isSkippableUrl None = true ∧
  isSkippableUrl (Some "https://example.com/") = false.
Proof. by repeat split. Qed.

Example session_name_example : session_name 12 = "cb-tab-12".
Proof. reflexivity. Qed.

Example reconnectDelayMs_examples :
  reconnectDelayMs (AInt 0) no_options (Fin 0) = Fin 1000 ∧
  reconnectDelayMs (AInt 3) no_options (Fin 0) = Fin 8000 ∧
  reconnectDelayMs (AInt 5) no_options (Fin 0) = Fin 30000 ∧
  reconnectDelayMs (AInt (-4)) no_options (Fin 0) = Fin 1000 ∧
  reconnectDelayMs ANonFinite no_options (Fin 0) = Fin 1000 ∧
  reconnectDelayMs (AInt 1) no_options (Fin (1 # 2)) = Fin 2500.
Proof. by vm_compute. Qed.

Example isRetryableReconnectError_examples :
  isRetryableReconnectError missing_token_message = false ∧
  isRetryableReconnectError "WebSocket connect timeout" = true.
Proof. by repeat split. Qed.

Example attach_then_detach :
  let s1 := (attachTab 7 false (attach_succeeds "T7") (with_relayOpen true initial_state)).1 in
  let s2 := detachTab 7 "toggle" s1 in
  JsMap.keys (tabs s1) = [7] ∧ tabBySession s1 = [("cb-tab-1", 7)] ∧ nextSession s1 = 2 ∧
  trace s1 = [EDebuggerAttach 7; ESend (AttachedToTarget "cb-tab-1")] ∧
  tabs s2 = [] ∧ tabBySession s2 = [] ∧
  trace s2 = [EDebuggerAttach 7; ESend (AttachedToTarget "cb-tab-1");
              ESend (DetachedFromTarget "cb-tab-1" (Some "T7") "toggle");
              EDebuggerDetach 7].
Proof. by vm_compute. Qed.

(** ** Facts about [JsMap] *)

Module JsMapFacts.
Section Facts.
Context {K V : Type} `{EqDecision K}.
Implicit Types (m : list (K * V)) (k : K) (v : V).

Lemma get_set_eq m k v : JsMap.get (JsMap.set m k v) k = Some v.
Proof.
  induction m as [|[k' v'] m IH]; simpl.
  - by rewrite decide_True.
  - destruct (decide (k' = k)) as [->|Hne]; simpl.
    + by rewrite decide_True.
    + by rewrite decide_False.
Qed.

Lemma get_set_ne m k k' v : k ≠ k' → JsMap.get (JsMap.set m k v) k' = JsMap.get m k'.
Proof.
  intros Hne. induction m as [|[k0 v0] m IH]; simpl.
  - by rewrite decide_False.
  - destruct (decide (k0 = k)) as [->|Hk0]; simpl.
    + by rewrite !decide_False.
    + by rewrite IH.
Qed.

Lemma get_delete_eq m k : JsMap.get (JsMap.delete m k) k = None.
Proof.
  induction m as [|[k0 v0] m IH]; simpl; [done|].
  destruct (decide (k0 = k)) as [->|Hk0]; simpl; [done|].
  by rewrite decide_False.
Qed.

Lemma get_delete_ne m k k' : k ≠ k' → JsMap.get (JsMap.delete m k) k' = JsMap.get m k'.
Proof.
  intros Hne. induction m as [|[k0 v0] m IH]; simpl; [done|].
  destruct (decide (k0 = k)) as [->|Hk0]; simpl.
  - by rewrite decide_False.
  - by rewrite IH.
Qed.

Lemma has_true m k : JsMap.has m k = true ↔ is_Some (JsMap.get m k).
Proof. unfold JsMap.has. destruct (JsMap.get m k); split; (done || by inversion 1). Qed.

Lemma has_false m k : JsMap.has m k = false ↔ JsMap.get m k = None.
Proof. unfold JsMap.has. by destruct (JsMap.get m k). Qed.

Lemma get_Some_In m k v : JsMap.get m k = Some v → (k, v) ∈ m.
Proof.
  induction m as [|[k0 v0] m IH]; simpl; [done|].
  destruct (decide (k0 = k)) as [->|Hk0].
  - intros [= ->]. left.
  - intros Hg. right. by apply IH.
Qed.

Lemma In_get_is_Some m k v : (k, v) ∈ m → is_Some (JsMap.get m k).
Proof.
  induction m as [|[k0 v0] m IH]; simpl; [by inversion 1|].
  intros Hin. destruct (decide (k0 = k)) as [->|Hk0]; [by eexists|].
  apply IH. apply elem_of_cons in Hin as [[= ? ?]|Hin]; [congruence|done].
Qed.

(** With distinct keys, membership and lookup agree. *)
Lemma NoDup_get m k v : NoDup (JsMap.keys m) → (k, v) ∈ m → JsMap.get m k = Some v.
Proof.
  induction m as [|[k0 v0] m IH]; simpl; [by inversion 2|].
  intros Hnd Hin. apply NoDup_cons in Hnd as [Hk0 Hnd].
  apply elem_of_cons in Hin as [[= -> ->]|Hin].
  - by rewrite decide_True.
  - destruct (decide (k0 = k)) as [->|Hne]; [|by apply IH].
    exfalso. apply Hk0. unfold JsMap.keys.
    apply list_elem_of_fmap. by exists (k, v).
Qed.

Lemma keys_set m k v :
  JsMap.keys (JsMap.set m k v) =
  if JsMap.has m k then JsMap.keys m else (JsMap.keys m ++ [k])%list.
Proof.
  unfold JsMap.has. induction m as [|[k0 v0] m IH]; simpl; [done|].
  destruct (decide (k0 = k)) as [->|Hne]; simpl; [done|].
  rewrite IH. by destruct (JsMap.get m k).
Qed.

Lemma keys_delete_subseteq m k : JsMap.keys (JsMap.delete m k) ⊆ JsMap.keys m.
Proof.
  induction m as [|[k0 v0] m IH]; simpl; [done|].
  destruct (decide (k0 = k)); simpl.
  - intros x Hx. right. by apply IH.
  - intros x [->|Hx]%elem_of_cons; [left|right; by apply IH].
Qed.

Lemma NoDup_keys_delete m k : NoDup (JsMap.keys m) → NoDup (JsMap.keys (JsMap.delete m k)).
Proof.
  induction m as [|[k0 v0] m IH]; simpl; [done|].
  intros [Hk0 Hnd]%NoDup_cons. destruct (decide (k0 = k)); simpl; [by apply IH|].
  apply NoDup_cons. split; [|by apply IH].
  intros Hin. apply Hk0. by apply (keys_delete_subseteq m k).
Qed.

Lemma NoDup_keys_set m k v : NoDup (JsMap.keys m) → NoDup (JsMap.keys (JsMap.set m k v)).
Proof.
  intros Hnd. rewrite keys_set. destruct (JsMap.has m k) eqn:Hh; [done|].
  apply NoDup_app. split_and!; [done| |apply NoDup_singleton].
  intros x Hx ->%list_elem_of_singleton.
  apply has_false in Hh. unfold JsMap.keys in Hx.
  apply list_elem_of_fmap in Hx as [[k' v'] [-> Hin]]. simpl in Hh.
  apply In_get_is_Some in Hin. rewrite Hh in Hin. by destruct Hin.
Qed.

Lemma delete_where_elem (p : K → V → bool) m k v :
  (k, v) ∈ JsMap.delete_where p m ↔ (k, v) ∈ m ∧ p k v = false.
Proof.
  unfold JsMap.delete_where. rewrite list_elem_of_filter. simpl.
  destruct (p k v); simpl; split; intros [H1 H2]; done.
Qed.

Lemma get_delete_where_false (p : K → V → bool) m k v :
  JsMap.get (JsMap.delete_where p m) k = Some v → p k v = false.
Proof. intros Hg%get_Some_In. by apply delete_where_elem in Hg as [_ ?]. Qed.

Lemma find_first_Some (p : K → V → bool) m k v :
  JsMap.find_first p m = Some (k, v) → (k, v) ∈ m ∧ p k v = true.
Proof.
  induction m as [|[k0 v0] m IH]; simpl; [done|].
  destruct (p k0 v0) eqn:Hp.
  - intros [= -> ->]. split; [left|done].
  - intros Hf. destruct (IH Hf). split; [by right|done].
Qed.

Lemma find_first_None (p : K → V → bool) m :
  JsMap.find_first p m = None ↔ ∀ k v, (k, v) ∈ m → p k v = false.
Proof.
  induction m as [|[k0 v0] m IH]; simpl.
  - split; [by intros _ ?? ?%elem_of_nil|done].
  - destruct (p k0 v0) eqn:Hp.
    + split; [done|]. intros Hall. specialize (Hall k0 v0 ltac:(left)). congruence.
    + rewrite IH. split.
      * intros Hall k v [[= -> ->]|Hin]%elem_of_cons; [done|by apply Hall].
      * intros Hall k v Hin. apply Hall. by right.
Qed.

End Facts.
End JsMapFacts.

(** ** Rounding to binary64 *)

Module Binary64Facts.
Import Binary64.

Lemma pow2_pos (z : Z) : (0 < pow2 z)%Q.
Proof. apply Qpower_0_lt. done. Qed.

Lemma pow2_nonneg_exp (z : Z) : 0 <= z → (pow2 z == inject_Z (2 ^ z))%Q.
Proof. intros Hz. unfold pow2. by rewrite Zpower_Qpower. Qed.

Lemma pow2_opp (z : Z) : (pow2 (- z) == / pow2 z)%Q.
Proof. apply Qpower_opp. Qed.

Lemma pow2_add (a b : Z) : (pow2 (a + b) == pow2 a * pow2 b)%Q.
Proof. apply Qpower_plus. done. Qed.

Lemma pow2_succ (a : Z) : (pow2 (a + 1) == 2 * pow2 a)%Q.
Proof. rewrite pow2_add. change (pow2 1) with 2%Q. ring. Qed.

Lemma pow2_sub (a b : Z) : (pow2 (a - b) == pow2 a / pow2 b)%Q.
Proof. unfold Z.sub. rewrite pow2_add, pow2_opp. done. Qed.

Lemma pow2_le (a b : Z) : a <= b → (pow2 a <= pow2 b)%Q.
Proof. intros Hab. by apply Qpower_le_compat_l. Qed.

Lemma pow2_lt (a b : Z) : a < b → (pow2 a < pow2 b)%Q.
Proof. intros Hab. by apply Qpower_lt_compat_l. Qed.

Lemma pow2_lt_inv (a b : Z) : (pow2 a < pow2 b)%Q → a < b.
Proof. intros H. by apply (Qpower_lt_compat_l_inv 2). Qed.

Lemma pow2_ge_1 (n : Z) : 0 <= n → (1 <= pow2 n)%Q.
Proof. intros Hn. change 1%Q with (pow2 0). by apply pow2_le. Qed.

(** *** The binary exponent *)

Lemma Q_as_fraction (a : Q) : (a == inject_Z (Qnum a) / inject_Z (Zpos (Qden a)))%Q.
Proof. destruct a as [n d]. simpl. rewrite Qmake_Qdiv. done. Qed.

Lemma mag_spec (a : Q) : (0 < a)%Q → (pow2 (mag a) <= a < pow2 (mag a + 1))%Q.
Proof.
  intros Ha. unfold mag.
  set (n := Qnum a). set (d := Zpos (Qden a)).
  assert (0 < n) as Hn.
  { destruct a as [n' d']. unfold Qlt in Ha. simpl in *. subst n. simpl. lia. }
  assert (0 < d) as Hd by done.
  pose proof (Z.log2_spec n Hn) as [Hn1 Hn2].
  pose proof (Z.log2_spec d Hd) as [Hd1 Hd2].
  pose proof (Z.log2_nonneg n) as Hln. pose proof (Z.log2_nonneg d) as Hld.
  set (ln := Z.log2 n) in *. set (ld := Z.log2 d) in *.
  assert (a == inject_Z n / inject_Z d)%Q as Hfrac by apply Q_as_fraction.
  assert (0 < inject_Z d)%Q as HdQ by (change 0%Q with (inject_Z 0); by rewrite <- Zlt_Qlt).
  assert (pow2 ln <= inject_Z n)%Q as A1 by (rewrite pow2_nonneg_exp by done; by rewrite <- Zle_Qle).
  assert (inject_Z n < pow2 (ln + 1))%Q as A2.
  { rewrite pow2_nonneg_exp by lia. rewrite <- Zlt_Qlt. by rewrite Z.add_1_r. }
  assert (pow2 ld <= inject_Z d)%Q as B1 by (rewrite pow2_nonneg_exp by done; by rewrite <- Zle_Qle).
  assert (inject_Z d < pow2 (ld + 1))%Q as B2.
  { rewrite pow2_nonneg_exp by lia. rewrite <- Zlt_Qlt. by rewrite Z.add_1_r. }
  assert (a * inject_Z d == inject_Z n)%Q as Hmul by (rewrite Hfrac; field; lra).
  pose proof (pow2_pos ld) as Pld. pose proof (pow2_pos (ln - ld)) as Pe.
  assert (pow2 ln == pow2 (ln - ld) * pow2 ld)%Q as Hsplit.
  { rewrite <- pow2_add. by replace (ln - ld + ld) with ln by lia. }
  rewrite pow2_succ in A2, B2.
  destruct (Qle_bool (pow2 (ln - ld)) a) eqn:Hc.
  - apply Qle_bool_iff in Hc. split; [done|].
    rewrite pow2_succ.
    apply Qnot_le_lt. intros Hge.
    assert (2 * pow2 (ln - ld) * pow2 ld <= a * inject_Z d)%Q by nra.
    lra.
  - assert (a < pow2 (ln - ld))%Q as Hlt.
    { apply Qnot_le_lt. intros Hle%Qle_bool_iff. congruence. }
    replace (ln - ld - 1 + 1) with (ln - ld) by lia. split; [|done].
    assert (pow2 (ln - ld) == 2 * pow2 (ln - ld - 1))%Q as Hhalf.
    { rewrite <- pow2_succ. by replace (ln - ld - 1 + 1) with (ln - ld) by lia. }
    apply Qnot_lt_le. intros Hlt'.
    assert (a * inject_Z d < pow2 (ln - ld - 1) * (2 * pow2 ld))%Q by nra.
    nra.
Qed.

Lemma mag_mono (a b : Q) : (0 < a)%Q → (a <= b)%Q → mag a <= mag b.
Proof.
  intros Ha Hab.
  destruct (mag_spec a Ha) as [A1 A2].
  destruct (mag_spec b) as [B1 B2]; [lra|].
  assert (mag a < mag b + 1) by (apply pow2_lt_inv; lra). lia.
Qed.

(** *** Rounding to an integer *)

Lemma Qfloor_bounds (x : Q) : (inject_Z (Qfloor x) <= x < inject_Z (Qfloor x) + 1)%Q.
Proof.
  split; [apply Qfloor_le|].
  pose proof (Qlt_floor x) as H. rewrite inject_Z_plus in H. exact H.
Qed.

Lemma rne_inject_Z (z : Z) : rne (inject_Z z) = z.
Proof.
  unfold rne. rewrite Qfloor_Z.
  destruct (Qcompare_spec (inject_Z z - inject_Z z) (1 # 2)) as [H|H|H]; [lra|done|lra].
Qed.

Lemma rne_bounds (x : Q) : Qfloor x <= rne x <= Qfloor x + 1.
Proof.
  unfold rne. destruct (_ ?= _)%Q; [destruct (Z.even _)|..]; lia.
Qed.

Lemma rne_mono (x y : Q) : (x <= y)%Q → rne x <= rne y.
Proof.
  intros Hxy. pose proof (Qfloor_resp_le x y Hxy) as Hf.
  pose proof (rne_bounds x). pose proof (rne_bounds y).
  destruct (Z.eq_dec (Qfloor x) (Qfloor y)) as [Heq|Hne]; [|lia].
  unfold rne. rewrite <- Heq.
  destruct (Qcompare_spec (x - inject_Z (Qfloor x)) (1 # 2)) as [Hx|Hx|Hx],
           (Qcompare_spec (y - inject_Z (Qfloor x)) (1 # 2)) as [Hy|Hy|Hy];
    try destruct (Z.even _); try lia; lra.
Qed.

Lemma rne_comp (x y : Q) : (x == y)%Q → rne x = rne y.
Proof.
  intros Hxy. apply Z.le_antisymm; apply rne_mono; lra.
Qed.

(** *** Rounding to a number *)

Lemma ulp_exponent_mono (a b : Q) : (0 < a)%Q → (a <= b)%Q → ulp_exponent a <= ulp_exponent b.
Proof. intros Ha Hab. unfold ulp_exponent. pose proof (mag_mono a b Ha Hab). lia. Qed.

Lemma scale_integer (k : Z) (e e' : Z) :
  e' <= e → (inject_Z k * pow2 e / pow2 e' == inject_Z (k * 2 ^ (e - e')))%Q.
Proof.
  intros Hle. rewrite inject_Z_mult. rewrite <- pow2_nonneg_exp by lia.
  rewrite pow2_sub. pose proof (pow2_pos e'). field. lra.
Qed.

Lemma round_pos_mono (x y : Q) : (0 < x)%Q → (x <= y)%Q → (round_pos x <= round_pos y)%Q.
Proof.
  intros Hx Hxy. unfold round_pos.
  pose proof (ulp_exponent_mono x y Hx Hxy) as He.
  set (ex := ulp_exponent x) in *. set (ey := ulp_exponent y) in *.
  pose proof (pow2_pos ex) as Pex. pose proof (pow2_pos ey) as Pey.
  destruct (Z.eq_dec ex ey) as [Heq|Hne].
  - rewrite <- Heq.
    assert (rne (x / pow2 ex) <= rne (y / pow2 ex)) as Hr.
    { apply rne_mono. apply Qmult_le_compat_r; [done|]. apply Qinv_le_0_compat. lra. }
    rewrite Zle_Qle in Hr. nra.
  - assert (ex < ey) as Hlt by lia.
    assert (ey = mag y - 52) as Hey by (unfold ey, ulp_exponent in *; lia).
    assert (mag x - 52 <= ex) as Hex by (unfold ex, ulp_exponent; lia).
    destruct (mag_spec x Hx) as [X1 X2]. destruct (mag_spec y) as [Y1 Y2]; [lra|].
    set (P := pow2 (mag y)).
    apply Qle_trans with P.
    + assert (rne (x / pow2 ex) <= 2 ^ (mag y - ex)) as Hr.
      { rewrite <- (rne_inject_Z (2 ^ (mag y - ex))). apply rne_mono.
        rewrite <- pow2_nonneg_exp by lia. rewrite pow2_sub.
        apply Qmult_le_compat_r; [|apply Qinv_le_0_compat; lra].
        apply Qle_trans with (pow2 (mag x + 1)); [lra|]. apply pow2_le. lia. }
      rewrite Zle_Qle in Hr. rewrite <- pow2_nonneg_exp in Hr by lia.
      rewrite pow2_sub in Hr.
      assert (inject_Z (rne (x / pow2 ex)) * pow2 ex <= pow2 (mag y) / pow2 ex * pow2 ex)%Q by nra.
      assert (pow2 (mag y) / pow2 ex * pow2 ex == pow2 (mag y))%Q by (field; lra).
      unfold P. lra.
    + assert (2 ^ 52 <= rne (y / pow2 ey)) as Hr.
      { rewrite <- (rne_inject_Z (2 ^ 52)). apply rne_mono.
        change (inject_Z (2 ^ 52)) with (pow2 52).
        assert (pow2 52 == pow2 (mag y) / pow2 ey)%Q as ->.
        { rewrite <- pow2_sub. by replace (mag y - ey) with 52 by lia. }
        apply Qmult_le_compat_r; [done|apply Qinv_le_0_compat; lra]. }
      rewrite Zle_Qle in Hr. change (inject_Z (2 ^ 52)) with (pow2 52) in Hr.
      assert (P == pow2 52 * pow2 ey)%Q as ->.
      { unfold P. rewrite <- pow2_add. by replace (52 + ey) with (mag y) by lia. }
      nra.
Qed.

Lemma round_pos_nonneg (x : Q) : (0 < x)%Q → (0 <= round_pos x)%Q.
Proof.
  intros Hx. unfold round_pos. pose proof (pow2_pos (ulp_exponent x)) as Hp.
  assert (0 <= rne (x / pow2 (ulp_exponent x))) as Hr.
  { rewrite <- (rne_inject_Z 0). apply rne_mono. change (inject_Z 0) with 0%Q.
    apply Qle_shift_div_l; [done|]. lra. }
  rewrite Zle_Qle in Hr. change (inject_Z 0) with 0%Q in Hr. nra.
Qed.

Lemma round_pos_comp (x y : Q) : (0 < x)%Q → (x == y)%Q → (round_pos x == round_pos y)%Q.
Proof.
  intros Hx Hxy. apply Qle_antisym; apply round_pos_mono; lra.
Qed.

(** Rounding is monotone. *)
Lemma round_mono (x y : Q) : (x <= y)%Q → (round x <= round y)%Q.
Proof.
  intros Hxy. unfold round.
  destruct (Qcompare_spec x 0) as [Hx|Hx|Hx], (Qcompare_spec y 0) as [Hy|Hy|Hy];
    try lra.
  - pose proof (round_pos_nonneg y Hy). lra.
  - assert (0 < - x)%Q as Hx' by lra. pose proof (round_pos_nonneg _ Hx'). lra.
  - assert (0 < - y)%Q as Hy' by lra. assert (- y <= - x)%Q as Hle by lra.
    pose proof (round_pos_mono (- y) (- x) Hy' Hle). lra.
  - assert (0 < - x)%Q as Hx' by lra. pose proof (round_pos_nonneg _ Hx').
    pose proof (round_pos_nonneg y Hy). lra.
  - by apply round_pos_mono.
Qed.

#[global] Instance round_proper : Proper (Qeq ==> Qeq) round.
Proof. intros x y Hxy. apply Qle_antisym; apply round_mono; lra. Qed.

Lemma round_nonneg (x : Q) : (0 <= x)%Q → (0 <= round x)%Q.
Proof. intros Hx. change 0%Q with (round 0) at 1. by apply round_mono. Qed.

Lemma round_opp (x : Q) : (round (- x) == - round x)%Q.
Proof.
  unfold round.
  destruct (Qcompare_spec x 0) as [Hx|Hx|Hx], (Qcompare_spec (- x) 0) as [Hy|Hy|Hy];
    try lra.
  rewrite (round_pos_comp (- - x) x); lra.
Qed.

Lemma round_pos_exact (m e : Z) :
  0 < m → m < 2 ^ 53 → -1074 <= e →
  (round_pos (inject_Z m * pow2 e) == inject_Z m * pow2 e)%Q.
Proof.
  intros Hm Hm' He. set (x := (inject_Z m * pow2 e)%Q).
  pose proof (pow2_pos e) as Pe.
  assert (0 < inject_Z m)%Q as HmQ by (change 0%Q with (inject_Z 0); by rewrite <- Zlt_Qlt).
  assert (0 < x)%Q as Hx by (unfold x; nra).
  destruct (mag_spec x Hx) as [X1 X2].
  assert (ulp_exponent x <= e) as Hle.
  { unfold ulp_exponent. apply Z.max_lub; [|done].
    assert (mag x < 53 + e); [|lia].
    apply pow2_lt_inv. apply Qle_lt_trans with x; [done|].
    rewrite (pow2_add 53 e). change (pow2 53) with (inject_Z (2 ^ 53)).
    rewrite Zlt_Qlt in Hm'. unfold x. nra. }
  unfold round_pos. set (e' := ulp_exponent x) in *.
  rewrite (rne_comp _ (inject_Z (m * 2 ^ (e - e')))) by (by apply scale_integer).
  rewrite rne_inject_Z. rewrite <- scale_integer by done.
  unfold x. pose proof (pow2_pos e'). field. lra.
Qed.

(** Rounding leaves a number as it is. *)
Lemma round_exact (q : Q) : representable q → (round q == q)%Q.
Proof.
  intros (m & e & Hm & He & Hq).
  destruct (Z.lt_trichotomy m 0) as [Hneg|[->|Hpos]].
  - assert (q == - (inject_Z (- m) * pow2 e))%Q as Hq'.
    { rewrite Hq, inject_Z_opp. ring. }
    rewrite Hq', round_opp.
    assert (0 < inject_Z (- m) * pow2 e)%Q as Hpos.
    { pose proof (pow2_pos e). assert (0 < inject_Z (- m))%Q; [|nra].
      change 0%Q with (inject_Z 0). rewrite <- Zlt_Qlt. lia. }
    unfold round. destruct (Qcompare_spec (inject_Z (- m) * pow2 e) 0) as [H|H|H]; [lra|lra|].
    rewrite round_pos_exact; [done|lia|lia|done].
  - assert (q == 0)%Q as -> by (rewrite Hq; change (inject_Z 0) with 0%Q; ring). done.
  - rewrite Hq.
    assert (0 < inject_Z m * pow2 e)%Q as Hpos'.
    { pose proof (pow2_pos e). assert (0 < inject_Z m)%Q; [|nra].
      change 0%Q with (inject_Z 0). by rewrite <- Zlt_Qlt. }
    unfold round. destruct (Qcompare_spec (inject_Z m * pow2 e) 0) as [H|H|H]; [lra|lra|].
    apply round_pos_exact; [done|lia|done].
Qed.

Lemma representable_Z (z : Z) : Z.abs z <= 2 ^ 53 → representable (inject_Z z).
Proof.
  intros Hz. destruct (Z.eq_dec (Z.abs z) (2 ^ 53)) as [Heq|Hne].
  - exists (z / 2), 1. split_and!; [|done|].
    + destruct (Z.abs_eq_or_opp z) as [H|H]; rewrite H in Heq.
      * subst z. done.
      * assert (z = - 2 ^ 53) as -> by lia. done.
    + destruct (Z.abs_eq_or_opp z) as [H|H]; rewrite H in Heq.
      * subst z. done.
      * assert (z = - 2 ^ 53) as -> by lia. done.
  - exists z, 0. split_and!; [lia|done|]. change (pow2 0) with 1%Q. ring.
Qed.

Lemma representable_scale (q : Q) (n : Z) :
  0 <= n → representable q → representable (q * pow2 n).
Proof.
  intros Hn (m & e & Hm & He & Hq). exists m, (e + n).
  split_and!; [done|lia|]. rewrite Hq, pow2_add. ring.
Qed.

Lemma representable_pow2 (n : Z) : -1074 <= n → representable (pow2 n).
Proof. intros Hn. exists 1, n. split_and!; [done|done|]. change (inject_Z 1) with 1%Q. ring. Qed.

Lemma representable_comp (x y : Q) : (x == y)%Q → representable x → representable y.
Proof. intros Hxy (m & e & ? & ? & Hq). exists m, e. split_and!; [done|done|]. by rewrite <- Hxy. Qed.

Lemma round_le (x b : Q) : representable b → (x <= b)%Q → (round x <= b)%Q.
Proof. intros Hb Hx. rewrite <- (round_exact b Hb). by apply round_mono. Qed.

Lemma round_ge (x b : Q) : representable b → (b <= x)%Q → (b <= round x)%Q.
Proof. intros Hb Hx. rewrite <- (round_exact b Hb). by apply round_mono. Qed.

End Binary64Facts.

Import Binary64Facts.

Lemma Qle_bool_false (x y : Q) : Qle_bool x y = false ↔ (y < x)%Q.
Proof.
  split.
  - intros Hf. apply Qnot_le_lt. intros Hle%Qle_bool_iff. congruence.
  - intros Hlt. destruct (Qle_bool x y) eqn:Hb; [|done].
    apply Qle_bool_iff in Hb. exfalso. lra.
Qed.

Ltac case_Qle :=
  match goal with
  | |- context [Qle_bool ?x ?y] =>
      let H := fresh "Hq" in
      destruct (Qle_bool x y) eqn:H;
      [apply Qle_bool_iff in H | apply Qle_bool_false in H]
  end.

(** An operation whose rounded result stays inside the range returns that
    result. *)
Lemma of_real_Fin (q : Q) :
  (- Binary64.pow2 1024 < Binary64.round q)%Q → (Binary64.round q < Binary64.pow2 1024)%Q →
  ∃ d, Num.of_real q = Fin d ∧ (d == Binary64.round q)%Q.
Proof.
  intros Hlo Hhi. unfold Num.of_real. cbv zeta.
  repeat case_Qle; try lra. eexists. split; [done|]. apply Qred_correct.
Qed.

Lemma of_real_PosInf (q : Q) :
  (Binary64.pow2 1024 <= Binary64.round q)%Q → Num.of_real q = PosInf.
Proof. intros Hq. unfold Num.of_real. cbv zeta. case_Qle; [done|lra]. Qed.

Lemma Qred_inject_Z (m : Z) : Qred (inject_Z m) = inject_Z m.
Proof.
  unfold Qred, inject_Z.
  pose proof (Z.ggcd_gcd m 1) as Hg. pose proof (Z.ggcd_correct_divisors m 1) as Hd.
  destruct (Z.ggcd m 1) as [g [r1 r2]]. simpl in *. rewrite Z.gcd_1_r in Hg. subst g.
  destruct Hd as [H1 H2]. assert (r1 = m) as -> by lia. assert (r2 = 1) as -> by lia.
  done.
Qed.

(** An integer of at most 53 bits is a number. *)
Lemma of_real_Z (m : Z) : Z.abs m <= 2 ^ 53 → Num.of_real (inject_Z m) = Fin (inject_Z m).
Proof.
  intros Hm. pose proof (round_exact _ (representable_Z m Hm)) as Hr.
  assert (- Binary64.pow2 1024 < inject_Z m < Binary64.pow2 1024)%Q as [Hlo Hhi].
  { assert (- 2 ^ 1024 < m < 2 ^ 1024) as [H1 H2].
    { assert (2 ^ 53 < 2 ^ 1024) by done. lia. }
    rewrite Zlt_Qlt in H1, H2. rewrite inject_Z_opp in H1.
    rewrite (pow2_nonneg_exp 1024) by done. done. }
  unfold Num.of_real. cbv zeta. rewrite <- Hr in Hlo, Hhi.
  repeat case_Qle; try lra. f_equal.
  rewrite (Qred_complete _ _ Hr). apply Qred_inject_Z.
Qed.

(** ** Decimal text of integers *)

Lemma digit_None (n : N) : ¬ is_digit n → Js.Text.digit n = None.
Proof.
  intros Hn. unfold Js.Text.digit.
  destruct (N.leb_spec 48 n), (N.leb_spec n 57); simpl; try done.
  exfalso. apply Hn. by split.
Qed.

Lemma digit_prefix_no_digit (rest : Js.Text.t) :
  no_digit_first rest → Js.Text.digit_prefix rest = Decimal.Nil.
Proof. destruct rest as [|n rest]; [done|]. simpl. intros Hn. by rewrite digit_None. Qed.

Lemma digit_prefix_numeral (d : Decimal.uint) (rest : Js.Text.t) :
  no_digit_first rest →
  Js.Text.digit_prefix (Js.Text.of_string (NilEmpty.string_of_uint d) ++ rest)%list = d.
Proof.
  intros Hrest. induction d; simpl; [by apply digit_prefix_no_digit|..];
    change (Js.Text.digit (Js.code _)) with (Some Decimal.D0)
    || change (Js.Text.digit (Js.code _)) with (Some Decimal.D1)
    || change (Js.Text.digit (Js.code _)) with (Some Decimal.D2)
    || change (Js.Text.digit (Js.code _)) with (Some Decimal.D3)
    || change (Js.Text.digit (Js.code _)) with (Some Decimal.D4)
    || change (Js.Text.digit (Js.code _)) with (Some Decimal.D5)
    || change (Js.Text.digit (Js.code _)) with (Some Decimal.D6)
    || change (Js.Text.digit (Js.code _)) with (Some Decimal.D7)
    || change (Js.Text.digit (Js.code _)) with (Some Decimal.D8)
    || change (Js.Text.digit (Js.code _)) with (Some Decimal.D9);
    by f_equal.
Qed.

Lemma to_uint_not_Nil (n : N) : N.to_uint n ≠ Decimal.Nil.
Proof.
  rewrite <- (Unsigned.of_to n), Unsigned.to_of.
  apply DecimalFacts.unorm_nonnil.
Qed.

Lemma string_of_N_digits (n : N) :
  Js.string_of_N n = NilEmpty.string_of_uint (N.to_uint n).
Proof.
  unfold Js.string_of_N, NilZero.string_of_uint.
  pose proof (to_uint_not_Nil n). by destruct (N.to_uint n).
Qed.

Lemma trimStart_blank (ws x : Js.Text.t) :
  blank ws → Js.Text.trimStart (ws ++ x)%list = Js.Text.trimStart x.
Proof. induction 1 as [|n ws Hn _ IH]; [done|]. simpl. by rewrite Hn. Qed.

(** A numeral starts with a digit: no white space, no sign. *)
Lemma numeral_head (d : Decimal.uint) (rest : Js.Text.t) :
  d ≠ Decimal.Nil →
  ∃ n tl, (Js.Text.of_string (NilEmpty.string_of_uint d) ++ rest)%list = n :: tl ∧
          Js.Text.isWhiteSpace n = false ∧ (n =? 45)%N = false ∧ (n =? 43)%N = false.
Proof. intros Hd. destruct d; [done|..]; simpl; eexists _, _; by split_and!. Qed.

Lemma parseInt10_math_digits (ws : Js.Text.t) (d : Decimal.uint) (rest : Js.Text.t) :
  blank ws → d ≠ Decimal.Nil → no_digit_first rest →
  Js.Text.parseInt10_math (ws ++ Js.Text.of_string (NilEmpty.string_of_uint d) ++ rest)%list
  = Some (Z.of_N (N.of_uint d)).
Proof.
  intros Hws Hd Hrest. unfold Js.Text.parseInt10_math. rewrite trimStart_blank by done.
  destruct (numeral_head d rest Hd) as (n & tl & Heq & Hw & H45 & H43).
  pose proof (digit_prefix_numeral d rest Hrest) as Hp.
  rewrite Heq in *. simpl. rewrite Hw, H45, H43, Hp. by destruct d.
Qed.

Lemma parseInt10_math_minus_digits (ws : Js.Text.t) (d : Decimal.uint) (rest : Js.Text.t) :
  blank ws → d ≠ Decimal.Nil → no_digit_first rest →
  Js.Text.parseInt10_math
    (ws ++ Js.Text.of_string (String "-" (NilEmpty.string_of_uint d)) ++ rest)%list
  = Some (- Z.of_N (N.of_uint d)).
Proof.
  intros Hws Hd Hrest. unfold Js.Text.parseInt10_math. rewrite trimStart_blank by done.
  simpl. rewrite (digit_prefix_numeral d rest Hrest). by destruct d.
Qed.

(** Reading back the decimal text of an integer gives the integer,
    whatever white space comes before and whatever text, other than a
    digit, comes after. *)
Lemma parseInt10_math_numeral (ws : Js.Text.t) (z : Z) (rest : Js.Text.t) :
  blank ws → no_digit_first rest →
  Js.Text.parseInt10_math (ws ++ numeral z ++ rest)%list = Some z.
Proof.
  intros Hws Hrest. unfold numeral, Js.string_of_Z.
  destruct (Z.ltb_spec z 0) as [Hneg|Hpos].
  - rewrite string_of_N_digits, parseInt10_math_minus_digits;
      [|done|apply to_uint_not_Nil|done].
    rewrite Unsigned.of_to. f_equal. lia.
  - rewrite string_of_N_digits, parseInt10_math_digits;
      [|done|apply to_uint_not_Nil|done].
    rewrite Unsigned.of_to. f_equal. lia.
Qed.

Lemma parseInt10_math_string_of_Z (z : Z) :
  Js.Text.parseInt10_math (Js.Text.of_string (Js.string_of_Z z)) = Some z.
Proof.
  pose proof (parseInt10_math_numeral [] z [] (Forall_nil_2 _) I) as H.
  simpl in H. by rewrite app_nil_r in H.
Qed.

Lemma parseInt10_math_no_numeral (ws rest : Js.Text.t) :
  blank ws → no_numeral_first rest → Js.Text.parseInt10_math (ws ++ rest)%list = None.
Proof.
  intros Hws Hrest. unfold Js.Text.parseInt10_math. rewrite trimStart_blank by done.
  destruct rest as [|n rest]; [done|]. simpl in Hrest.
  destruct (N.eqb_spec n 45) as [->|H45]; simpl in *.
  - by rewrite digit_prefix_no_digit.
  - destruct (N.eqb_spec n 43) as [->|H43]; simpl in *.
    + by rewrite digit_prefix_no_digit.
    + destruct Hrest as [Hd Hw]. rewrite Hw.
      destruct (N.eqb_spec n 45); [done|]. destruct (N.eqb_spec n 43); [done|].
      simpl. by rewrite digit_None.
Qed.

Lemma string_of_Z_inj (a b : Z) : Js.string_of_Z a = Js.string_of_Z b → a = b.
Proof.
  intros Hab. apply (f_equal (λ s, Js.Text.parseInt10_math (Js.Text.of_string s))) in Hab.
  rewrite !parseInt10_math_string_of_Z in Hab. congruence.
Qed.

Lemma string_of_N_inj (a b : N) : Js.string_of_N a = Js.string_of_N b → a = b.
Proof.
  intros Hab. assert (Z.of_N a = Z.of_N b); [|lia].
  apply string_of_Z_inj. unfold Js.string_of_Z.
  destruct (Z.ltb_spec (Z.of_N a) 0), (Z.ltb_spec (Z.of_N b) 0); try lia.
  by rewrite !N2Z.id.
Qed.

(** ** The relay port *)

(** The port a number read by [parseInt] gives. *)
Lemma port_of_integer (m : Z) :
  let n := Num.of_real (inject_Z m) in
  (if negb (Num.isFinite (Some n)) || Num.leb n (Fin 0) || Num.ltb (Fin 65535) n
   then DEFAULT_PORT else Num.to_Z n)
  = if (0 <? m) && (m <=? 65535) then m else DEFAULT_PORT.
Proof.
  cbv zeta.
  destruct (Z.ltb_spec 0 m) as [Hpos|Hneg]; [destruct (Z.leb_spec m 65535) as [Hle|Hgt]|];
    simpl.
  - rewrite of_real_Z by lia. simpl.
    assert (Qle_bool (inject_Z m) 0 = false) as ->.
    { apply Qle_bool_false. change 0%Q with (inject_Z 0). by rewrite <- Zlt_Qlt. }
    assert (Qle_bool (inject_Z m) 65535 = true) as ->.
    { apply Qle_bool_iff. change 65535%Q with (inject_Z 65535). by rewrite <- Zle_Qle. }
    simpl. apply Qfloor_Z.
  - assert (65536 <= Binary64.round (inject_Z m))%Q as Hr.
    { apply (round_ge _ 65536); [by apply (representable_Z 65536)|].
      change 65536%Q with (inject_Z 65536). rewrite <- Zle_Qle. lia. }
    unfold Num.of_real. cbv zeta. repeat case_Qle; simpl; try done.
    assert (Qle_bool 65535 (Qred (Binary64.round (inject_Z m))) = true) as Hge.
    { apply Qle_bool_iff. rewrite Qred_correct. lra. }
    assert (Qle_bool (Qred (Binary64.round (inject_Z m))) 65535 = false) as ->.
    { apply Qle_bool_false. rewrite Qred_correct. lra. }
    by rewrite orb_true_r.
  - assert (Binary64.round (inject_Z m) <= 0)%Q as Hr.
    { apply (round_le _ 0); [by apply (representable_Z 0)|].
      change 0%Q with (inject_Z 0). by rewrite <- Zle_Qle. }
    unfold Num.of_real. cbv zeta. repeat case_Qle; simpl; try done.
    assert (Qle_bool (Qred (Binary64.round (inject_Z m))) 0 = true) as ->.
    { apply Qle_bool_iff. rewrite Qred_correct. lra. }
    done.
Qed.

(** [getRelayPort] in terms of the integer read from the text. *)
Lemma getRelayPort_math (v : StoredValue) :
  getRelayPort v =
    match Js.Text.parseInt10_math (string_or_empty v) with
    | Some m => if (0 <? m) && (m <=? 65535) then m else DEFAULT_PORT
    | None => DEFAULT_PORT
    end.
Proof.
  unfold getRelayPort, Js.Text.parseInt10.
  destruct (Js.Text.parseInt10_math _) as [m|]; [|done]. apply port_of_integer.
Qed.

Lemma getRelayPort_clampPort (v : StoredValue) : clampPort v = getRelayPort v.
Proof.
  unfold clampPort, getRelayPort. cbv zeta.
  by destruct (Num.isFinite _).
Qed.

Lemma getRelayPort_valid (v : StoredValue) (n : Z) :
  parses_to_port v n → getRelayPort v = n.
Proof.
  intros [Hp Hn]. rewrite getRelayPort_math, Hp.
  destruct (Z.ltb_spec 0 n), (Z.leb_spec n 65535); simpl; lia.
Qed.

Lemma getRelayPort_invalid (v : StoredValue) :
  (∀ n, ¬ parses_to_port v n) → getRelayPort v = DEFAULT_PORT.
Proof.
  intros Hno. rewrite getRelayPort_math.
  destruct (Js.Text.parseInt10_math _) as [n|] eqn:Hp; [|done].
  destruct (Z.ltb_spec 0 n), (Z.leb_spec n 65535); simpl; try done.
  exfalso. apply (Hno n). split; [done|lia].
Qed.

Lemma getRelayPort_range (v : StoredValue) : 0 < getRelayPort v < 65536.
Proof.
  rewrite getRelayPort_math. unfold DEFAULT_PORT.
  destruct (Js.Text.parseInt10_math _) as [n|]; [|lia].
  destruct (Z.ltb_spec 0 n), (Z.leb_spec n 65535); simpl; lia.
Qed.

Lemma getRelayPort_of_text (ws : Js.Text.t) (z : Z) (rest : Js.Text.t) :
  blank ws → no_digit_first rest →
  getRelayPort (SString (ws ++ numeral z ++ rest)%list) =
    if (0 <? z) && (z <=? 65535) then z else DEFAULT_PORT.
Proof.
  intros Hws Hrest. rewrite getRelayPort_math. simpl.
  by rewrite parseInt10_math_numeral.
Qed.

Lemma getRelayPort_of_integer (z : Z) (safe : Js.isSafeInteger z = true) :
  getRelayPort (SInteger z safe) =
    if (0 <? z) && (z <=? 65535) then z else DEFAULT_PORT.
Proof.
  rewrite getRelayPort_math. simpl. unfold Js.truthy_int.
  destruct (Z.eqb_spec z 0) as [->|Hz]; [done|]. simpl.
  by rewrite parseInt10_math_string_of_Z.
Qed.

(** C10 (amended). The relay port is the integer that [parseInt] reads from
    the text [String(v || '')] of the stored setting when that integer is
    strictly between 0 and 65536, and the default 18792 in every other
    case.  So the default is used for an absent setting, for null, for a
    boolean, for an empty text, for a text that starts with no numeral, and
    for zero, a negative integer or an integer above 65535, stored as a
    number in the safe range or as its decimal numeral of any length (white
    space before the numeral and any text after it are ignored); an
    integer strictly between 0 and 65536 stored in either of these ways is
    the port.  [getRelayPort] and the options page's [clampPort] agree on
    every setting, and the port is always strictly between 0 and 65536. *)
Theorem relay_port_default_unless_valid :
  (∀ v n, parses_to_port v n → getRelayPort v = n ∧ clampPort v = n) ∧
  (∀ v, (∀ n, ¬ parses_to_port v n) →
        getRelayPort v = 18792 ∧ clampPort v = 18792) ∧
  (∀ z safe, 0 < z < 65536 → getRelayPort (SInteger z safe) = z) ∧
  (∀ z safe, z <= 0 ∨ 65535 < z → getRelayPort (SInteger z safe) = 18792) ∧
  (∀ ws z rest, blank ws → no_digit_first rest → 0 < z < 65536 →
        getRelayPort (SString (ws ++ numeral z ++ rest)%list) = z) ∧
  (∀ ws z rest, blank ws → no_digit_first rest → z <= 0 ∨ 65535 < z →
        getRelayPort (SString (ws ++ numeral z ++ rest)%list) = 18792) ∧
  (∀ ws rest, blank ws → no_numeral_first rest →
        getRelayPort (SString (ws ++ rest)%list) = 18792) ∧
  getRelayPort SUndefined = 18792 ∧
  getRelayPort SNull = 18792 ∧
  (∀ b, getRelayPort (SBoolean b) = 18792) ∧
  getRelayPort (SString []) = 18792 ∧
  (∀ v, clampPort v = getRelayPort v ∧ 0 < getRelayPort v < 65536).
Proof.
  split_and!.
  - intros v n Hv. rewrite getRelayPort_clampPort. split; by apply getRelayPort_valid.
  - intros v Hno. rewrite getRelayPort_clampPort. split; by apply getRelayPort_invalid.
  - intros z safe Hz. rewrite getRelayPort_of_integer.
    destruct (Z.ltb_spec 0 z), (Z.leb_spec z 65535); simpl; lia.
  - intros z safe Hz. rewrite getRelayPort_of_integer.
    destruct (Z.ltb_spec 0 z), (Z.leb_spec z 65535); simpl; unfold DEFAULT_PORT; lia.
  - intros ws z rest Hws Hrest Hz. rewrite getRelayPort_of_text by done.
    destruct (Z.ltb_spec 0 z), (Z.leb_spec z 65535); simpl; lia.
  - intros ws z rest Hws Hrest Hz. rewrite getRelayPort_of_text by done.
    destruct (Z.ltb_spec 0 z), (Z.leb_spec z 65535); simpl; unfold DEFAULT_PORT; lia.
  - intros ws rest Hws Hrest. rewrite getRelayPort_math. simpl.
    by rewrite parseInt10_math_no_numeral.
  - done.
  - done.
  - by intros [].
  - done.
  - intros v. split; [apply getRelayPort_clampPort|apply getRelayPort_range].
Qed.

Lemma relay_port_default_unless_valid_witness :
  getRelayPort (SString (Js.Text.of_string " 19000 tcp")) = 19000 ∧
  getRelayPort (SString (12288%N :: Js.Text.of_string "70000")) = 18792 ∧
  getRelayPort (SString (Js.Text.of_string "port 19000")) = 18792 ∧
  getRelayPort (SInteger 19000 eq_refl) = 19000 ∧
  getRelayPort (SNumber (Js.Text.of_string "8080.5")) = 8080.
Proof.
  destruct relay_port_default_unless_valid
    as (Hvalid & _ & Hint & _ & Htext & Htext' & Hnone & _).
  split_and!.
  - apply (Htext [32%N] 19000 (Js.Text.of_string " tcp"));
      [by repeat constructor|by intros [? ?]|lia].
  - apply (Htext' [12288%N] 70000 []); [by repeat constructor|done|lia].
  - apply (Hnone [] (Js.Text.of_string "port 19000")); [constructor|].
    split; [by intros [? ?]|done].
  - apply Hint. lia.
  - apply (Hvalid (SNumber (Js.Text.of_string "8080.5")) 8080). split; [reflexivity|lia].
Defined.

(** C10, as stated, fails for a stored number above 65535 that prints with
    an exponent: [String(1e21)] is [1e+21], of which [parseInt] reads the
    leading 1, and the port is 1 where the claim gives the default.  The
    same happens below [1e-6]: [String(5e-7)] is [5e-7] and the port is
    5. *)
Lemma exponent_text_read_as_port :
  string_or_empty (SNumber (Js.Text.of_string "1e+21")) = Js.Text.of_string "1e+21" ∧
  getRelayPort (SNumber (Js.Text.of_string "1e+21")) = 1 ∧
  clampPort (SNumber (Js.Text.of_string "1e+21")) = 1 ∧
  getRelayPort (SNumber (Js.Text.of_string "5e-7")) = 5 ∧
  getRelayPort (SNumber (Js.Text.of_string "1e+21")) ≠ 18792.
Proof. by vm_compute. Qed.

(** ** The reconnect delay *)

Lemma finite_or_value (o : option JsNum) (d : Q) : finite_or o d = Fin (option_value o d).
Proof. unfold finite_or. by destruct o as [[]|]. Qed.

Lemma is_min_mono (f f' x x' y : Q) :
  is_min f x y → is_min f' x' y → (x <= x')%Q → (f <= f')%Q.
Proof. intros (?&?&?) (?&?&[->| ->]) ?; lra. Qed.

Lemma is_double_bound (q : Q) : is_double q → (0 <= q)%Q → (q < Binary64.pow2 1024)%Q.
Proof. intros [_ Hq] Hpos. by rewrite Qabs_pos in Hq. Qed.

Section Delay.
Variables (b m j : Q).
Hypothesis Hb : is_double b.
Hypothesis Hb1 : (1 <= b)%Q.
Hypothesis Hm : is_double m.
Hypothesis Hm0 : (0 <= m)%Q.
Hypothesis Hj : is_double j.
Hypothesis Hj0 : (0 <= j)%Q.
Hypothesis Hfit : (Binary64.round (m + j) < Binary64.pow2 1024)%Q.

Lemma backoff_floor (n : Z) :
  0 <= n →
  ∃ f, Num.min (Num.mul (Fin b) (Num.pow2 n)) (Fin m) = Fin f ∧
       is_min f (b * Binary64.pow2 n) m ∧ Binary64.representable f ∧ (0 <= f)%Q.
Proof using Hb Hb1 Hm Hm0.
  intros Hn. pose proof (pow2_ge_1 n Hn) as HP. pose proof (pow2_pos 1024) as HT.
  pose proof (is_double_bound m Hm Hm0) as Hmax.
  pose proof (round_exact _ (representable_pow2 n ltac:(lia))) as HrP.
  assert (Binary64.representable (b * Binary64.pow2 n)) as Hrep
    by (apply representable_scale; [done|apply Hb]).
  pose proof (round_exact _ Hrep) as HrbP.
  unfold Num.pow2. set (P := Binary64.pow2 n) in *.
  destruct (Qlt_le_dec P (Binary64.pow2 1024)) as [Hsmall|Hover].
  - destruct (of_real_Fin P) as (p & -> & Hp); [lra|lra|]. rewrite HrP in Hp.
    cbn [Num.mul].
    assert (Binary64.round (b * p) == b * P)%Q as Hr by (by rewrite Hp).
    destruct (Qlt_le_dec (b * P) (Binary64.pow2 1024)) as [Hsmall'|Hover'].
    + destruct (of_real_Fin (b * p)) as (v & -> & Hv); [nra|lra|]. rewrite Hr in Hv.
      cbn [Num.min]. case_Qle.
      * exists v. split_and!; [done| |by apply (representable_comp (b * P))|nra].
        repeat split; [lra|done|by left].
      * exists m. split_and!; [done| |apply Hm|done].
        repeat split; [lra|lra|by right].
    + rewrite of_real_PosInf by lra. cbn [Num.min].
      exists m. split_and!; [done| |apply Hm|done].
      repeat split; [lra|lra|by right].
  - rewrite of_real_PosInf by lra. cbn [Num.mul].
    unfold Num.Qltb. case_Qle; [lra|]. cbn [negb Num.min].
    exists m. split_and!; [done| |apply Hm|done].
    repeat split; [nra|lra|by right].
Qed.

Lemma jitter_term (r : Q) :
  (0 <= r < 1)%Q →
  ∃ x, Num.mul (Num.max (Fin 0) (Fin j)) (Fin r) = Fin x ∧
       (x == Binary64.round (j * r))%Q ∧ (0 <= x <= j)%Q.
Proof using Hj Hj0.
  intros Hr. pose proof (is_double_bound j Hj Hj0) as Hmax.
  cbn [Num.max]. case_Qle; [|lra]. cbn [Num.mul].
  assert (0 <= Binary64.round (j * r))%Q as Hlo by (apply round_nonneg; nra).
  assert (Binary64.round (j * r) <= j)%Q as Hhi by (apply round_le; [apply Hj|nra]).
  destruct (of_real_Fin (j * r)) as (x & -> & Hx); [lra|lra|].
  exists x. split_and!; [done|done|lra|lra].
Qed.

Lemma delay_core (n : Z) (r : Q) :
  0 <= n → (0 <= r < 1)%Q →
  ∃ f x d,
    is_min f (b * Binary64.pow2 n) m ∧ Binary64.representable f ∧
    (x == Binary64.round (j * r))%Q ∧ (0 <= x <= j)%Q ∧
    Num.add (Num.min (Num.mul (Fin b) (Num.pow2 n)) (Fin m))
            (Num.mul (Num.max (Fin 0) (Fin j)) (Fin r)) = Fin d ∧
    (d == Binary64.round (f + x))%Q ∧
    (f <= Binary64.round (f + x) <= Binary64.round (m + j))%Q.
Proof using Hb Hb1 Hm Hm0 Hj Hj0 Hfit.
  intros Hn Hr. destruct (backoff_floor n Hn) as (f & -> & Hf & Hrep & Hf0).
  destruct (jitter_term r Hr) as (x & -> & Hx & Hx0).
  assert (f <= m)%Q as Hfm by apply Hf.
  assert (f <= Binary64.round (f + x))%Q as Hlo by (apply round_ge; [done|lra]).
  assert (Binary64.round (f + x) <= Binary64.round (m + j))%Q as Hhi
    by (apply round_mono; lra).
  pose proof (pow2_pos 1024).
  cbn [Num.add]. destruct (of_real_Fin (f + x)) as (d & -> & Hd); [lra|lra|].
  exists f, x, d. split_and!; [done|done|done|apply Hx0|apply Hx0|done|done|done|done].
Qed.

End Delay.

Lemma delay_without_jitter (f x : Q) :
  Binary64.representable f → (x == Binary64.round 0)%Q → (Binary64.round (f + x) == f)%Q.
Proof.
  intros Hf Hx. change (Binary64.round 0) with 0%Q in Hx.
  assert (f + x == f)%Q as -> by lra. by apply round_exact.
Qed.

(** The delay for an attempt count [k >= 0]: its floor, its jitter term
    and their rounded sum. *)
Lemma reconnectDelayMs_value (opts : ReconnectOptions) (k : Z) (r : Q) :
  is_double (effective_base opts) → is_double (effective_max opts) →
  is_double (effective_jitter opts) →
  (1 <= effective_base opts)%Q → (0 <= effective_max opts)%Q →
  (0 <= effective_jitter opts)%Q →
  (Binary64.round (effective_max opts + effective_jitter opts) < Binary64.pow2 1024)%Q →
  0 <= k → (0 <= r < 1)%Q →
  ∃ f x d,
    is_min f (effective_base opts * Binary64.pow2 k) (effective_max opts) ∧
    Binary64.representable f ∧
    (x == Binary64.round (effective_jitter opts * r))%Q ∧
    (0 <= x <= effective_jitter opts)%Q ∧
    reconnectDelayMs (AInt k) opts (Fin r) = Fin d ∧
    (d == Binary64.round (f + x))%Q ∧
    (f <= Binary64.round (f + x)
       <= Binary64.round (effective_max opts + effective_jitter opts))%Q.
Proof.
  intros Hb Hm Hj Hb1 Hm0 Hj0 Hfit Hk Hr.
  unfold reconnectDelayMs, backoff_product, safeAttempt.
  rewrite !finite_or_value, Z.max_r by done.
  by apply delay_core.
Qed.

(** C7 (amended). Let base, max and jitter be finite numbers with base at
    least 1, max and jitter non-negative and max + jitter finite (the
    defaults 1000, 30000 and 1000 among them), and let the sample of
    [random()] lie in [0, 1).  For every attempt count n >= 0, however
    large, the delay is a finite number: the sum, rounded to binary64, of
    the floor f = min(base * 2^n, max), which is exact, and of the jitter
    term x, the product jitter * sample rounded to binary64, which lies in
    [0, jitter].  The delay is at least f and at most the rounded sum of
    max and jitter, hence at most max + jitter when that sum is a number,
    as 31000 is; it is exactly f + jitter * sample when the product and the
    sum are numbers.  The floor is the delay for sample 0 and does not
    decrease when n grows.  A negative or non-finite attempt counts as
    attempt 0. *)
Theorem reconnect_delay_envelope (opts : ReconnectOptions) (n : Z) (r : Q) :
  is_double (effective_base opts) → is_double (effective_max opts) →
  is_double (effective_jitter opts) →
  (1 <= effective_base opts)%Q → (0 <= effective_max opts)%Q →
  (0 <= effective_jitter opts)%Q →
  (Binary64.round (effective_max opts + effective_jitter opts) < Binary64.pow2 1024)%Q →
  (0 <= r < 1)%Q → 0 <= n →
  ∃ f x : Q,
    is_min f (effective_base opts * Binary64.pow2 n) (effective_max opts) ∧
    (x == Binary64.round (effective_jitter opts * r))%Q ∧
    (0 <= x <= effective_jitter opts)%Q ∧
    finite_value (reconnectDelayMs (AInt n) opts (Fin r)) (Binary64.round (f + x)) ∧
    (f <= Binary64.round (f + x)
       <= Binary64.round (effective_max opts + effective_jitter opts))%Q ∧
    (Binary64.representable (effective_max opts + effective_jitter opts) →
     (Binary64.round (f + x) <= effective_max opts + effective_jitter opts)%Q) ∧
    (Binary64.representable (effective_jitter opts * r) →
     Binary64.representable (f + effective_jitter opts * r) →
     finite_value (reconnectDelayMs (AInt n) opts (Fin r))
                  (f + effective_jitter opts * r)) ∧
    finite_value (reconnectDelayMs (AInt n) opts (Fin 0)) f ∧
    (∀ n', n <= n' →
       ∃ f', finite_value (reconnectDelayMs (AInt n') opts (Fin 0)) f' ∧
             is_min f' (effective_base opts * Binary64.pow2 n') (effective_max opts) ∧
             (f <= f')%Q) ∧
    (∀ a, a = ANonFinite ∨ (∃ z, a = AInt z ∧ z < 0) →
       reconnectDelayMs a opts (Fin r) = reconnectDelayMs (AInt 0) opts (Fin r)).
Proof.
  intros Hb Hm Hj Hb1 Hm0 Hj0 Hfit Hr Hn.
  pose proof (λ k s, reconnectDelayMs_value opts k s Hb Hm Hj Hb1 Hm0 Hj0 Hfit) as Hcore.
  destruct (Hcore n r Hn Hr) as (f & x & d & Hf & Hrep & Hx & Hx0 & Hd & Hdv & Hbounds).
  exists f, x. split_and!; [done|done|apply Hx0|apply Hx0| |apply Hbounds|apply Hbounds|..].
  - by rewrite Hd.
  - intros Hsum. rewrite <- (round_exact _ Hsum). apply Hbounds.
  - intros Hjr Hsum. rewrite Hd. simpl. rewrite Hdv, Hx, (round_exact _ Hjr).
    by apply round_exact.
  - destruct (Hcore n 0%Q Hn) as (f0 & x0 & d0 & Hf0 & Hrep0 & Hx0' & _ & Hd0 & Hdv0 & _);
      [lra|].
    rewrite Hd0. simpl. rewrite Hdv0.
    assert (effective_jitter opts * 0 == 0)%Q as Hz by ring. rewrite Hz in Hx0'.
    rewrite (delay_without_jitter f0 x0 Hrep0 Hx0').
    destruct Hf as (? & ? & [?|?]), Hf0 as (? & ? & [?|?]); lra.
  - intros n' Hn'.
    destruct (Hcore n' 0%Q ltac:(lia)) as (f' & x' & d' & Hf' & Hrep' & Hx' & _ & Hd' & Hdv' & _);
      [lra|].
    exists f'. split_and!; [|done|].
    + rewrite Hd'. simpl. rewrite Hdv'.
      assert (effective_jitter opts * 0 == 0)%Q as Hz by ring. rewrite Hz in Hx'.
      by apply delay_without_jitter.
    + eapply is_min_mono; [exact Hf|exact Hf'|].
      assert (Binary64.pow2 n <= Binary64.pow2 n')%Q by (by apply pow2_le).
      nra.
  - intros a [->|(z & -> & Hz)]; unfold reconnectDelayMs, backoff_product, safeAttempt;
      [done|]. by rewrite Z.max_l by lia.
Qed.

Lemma default_options_are_numbers :
  is_double 1000 ∧ is_double 30000 ∧ is_double 1000.
Proof.
  split_and!; (split; [|reflexivity]).
  - exists 1000, 0. by split_and!.
  - exists 30000, 0. by split_and!.
  - exists 1000, 0. by split_and!.
Defined.

Lemma reconnect_delay_envelope_witness :
  ∃ f x : Q,
    is_min f (1000 * Binary64.pow2 3) 30000 ∧
    finite_value (reconnectDelayMs (AInt 3) no_options (Fin (1 # 2)))
                 (Binary64.round (f + x)) ∧
    finite_value (reconnectDelayMs (AInt 3) no_options (Fin 0)) f.
Proof.
  destruct default_options_are_numbers as (Hb & Hm & Hj).
  destruct (reconnect_delay_envelope no_options 3 (1 # 2))
    as (f & x & Hf & _ & _ & Hd & _ & _ & _ & Hfloor & _);
    [exact Hb|exact Hm|exact Hj|done|done|done|reflexivity|split; done|done|].
  exists f, x. split_and!; [exact Hf|exact Hd|exact Hfloor].
Defined.

(** C7, as stated, fails.  The exponent is not capped: at attempt 2000 the
    power [2 ** 2000] is already +Infinity and so is the product with the
    default base; only [Math.min] brings the default delay back to 30000,
    and with a base of 0 the same product is NaN, and so is the delay.  The
    sum and the product are rounded: at attempt 1 with the sample 0.1 the
    delay is 2100, not 2000 + 1000 * 0.1 (the number 0.1 is a little above
    one tenth); with the largest sample below 1 the default delay at the
    cap is 31000, the floor plus the whole jitter; and with a jitter of 0.2
    the delay for that sample exceeds max + jitter. *)
Lemma reconnect_delay_exponent_uncapped :
  Num.pow2 (safeAttempt (AInt 2000)) = PosInf ∧
  backoff_product (Fin 1000) (AInt 2000) = PosInf ∧
  reconnectDelayMs (AInt 2000) no_options (Fin 0) = Fin 30000 ∧
  reconnectDelayMs (AInt 2000)
    {| baseMs := Some (Fin 0); maxMs := None; jitterMs := None |} (Fin 0) = NaN ∧
  reconnectDelayMs (AInt 1) no_options (Fin tenth) = Fin 2100 ∧
  ¬ (2100 == 2000 + 1000 * tenth)%Q ∧
  (almost_one < 1)%Q ∧
  reconnectDelayMs (AInt 5) no_options (Fin almost_one) = Fin (30000 + 1000) ∧
  reconnectDelayMs (AInt 5) jitter_of_a_fifth (Fin almost_one)
    = Fin (8246392183901389 # 274877906944) ∧
  (30000 + fifth < 8246392183901389 # 274877906944)%Q.
Proof. split_and!; by vm_compute. Qed.

(** ** The session table under attach and detach *)

Import JsMapFacts.

Lemma same_table_refl s : same_table s s.
Proof. done. Qed.

Lemma same_table_trans s1 s2 s3 : same_table s1 s2 → same_table s2 s3 → same_table s1 s3.
Proof. unfold same_table. intros (?&?&?&?) (?&?&?&?). split_and!; congruence. Qed.

Lemma same_table_emit e s : same_table s (emit e s).
Proof. done. Qed.

Lemma same_table_try_send f s : same_table s (try_send f s).
Proof. unfold try_send, sendToRelay. by destruct (relayOpen s). Qed.

Lemma same_table_setBadge t k s : same_table s (setBadge t k s).
Proof. done. Qed.

Lemma same_table_persistState s : same_table s (persistState s).
Proof. unfold persistState. by destruct (storageAvailable s). Qed.

Lemma session_name_inj (a b : Z) : session_name a = session_name b → a = b.
Proof. unfold session_name. intros [= Hab]. by apply string_of_Z_inj. Qed.


(** What a successful [attachTab] does to the table, and that a failed one
    leaves it alone. *)
Lemma attachTab_table tabId skip e s s' r :
  attachTab tabId skip e s = (s', r) →
  match r with
  | Returned (session, tid) =>
      session = session_name (nextSession s) ∧
      ∃ tab, sessionId tab = Some session ∧ targetId tab = Some tid ∧
             state tab = connected ∧ Js.truthy_string tid = true ∧
             tabs s' = JsMap.set (tabs s) tabId tab ∧
             tabBySession s' = JsMap.set (tabBySession s) session tabId ∧
             childSessionToTab s' = childSessionToTab s ∧
             nextSession s' = nextSession s + 1
  | Thrown _ => same_table s s'
  end.
Proof.
  unfold attachTab. destruct (debugger_attaches e); simpl; [|by intros [= <- <-]].
  destruct (target_info e) as [targetInfo|m]; [|by intros [= <- <-]].
  destruct (Js.truthy_string _) eqn:Htid; simpl; [|by intros [= <- <-]].
  intros [= <- <-]. split; [done|].
  eexists (attached_session _ _ targetInfo e). split_and!; try done.
  - rewrite (proj1 (same_table_persistState _)). simpl.
    destruct skip; [done|]. by rewrite (proj1 (same_table_try_send _ _)).
  - rewrite (proj1 (proj2 (same_table_persistState _))). simpl.
    destruct skip; [done|]. by rewrite (proj1 (proj2 (same_table_try_send _ _))).
  - rewrite (proj1 (proj2 (proj2 (same_table_persistState _)))). simpl.
    destruct skip; [done|]. by rewrite (proj1 (proj2 (proj2 (same_table_try_send _ _)))).
  - rewrite (proj2 (proj2 (proj2 (same_table_persistState _)))). simpl.
    destruct skip; [done|]. by rewrite (proj2 (proj2 (proj2 (same_table_try_send _ _)))).
Qed.

Lemma consistent_same_table s s' :
  same_table s s' → consistent s → consistent s'.
Proof. intros (Ht & Hb & _ & _). unfold consistent. by rewrite Ht, Hb. Qed.

Lemma allocated_same_table s s' :
  same_table s s' → allocated s → allocated s'.
Proof. intros (Ht & _ & _ & Hn). unfold allocated. by rewrite Ht, Hn. Qed.

Lemma attachTab_preserves tabId skip e s :
  JsMap.has (tabs s) tabId = false →
  consistent s → allocated s →
  consistent (attachTab tabId skip e s).1 ∧ allocated (attachTab tabId skip e s).1.
Proof.
  intros Hfree%has_false [Hfwd Hbwd] Halloc.
  destruct (attachTab tabId skip e s) as [s' r] eqn:Hat.
  apply attachTab_table in Hat. simpl. destruct r as [[session tid]|m]; last first.
  { split; [by eapply consistent_same_table|by eapply allocated_same_table]. }
  destruct Hat as (-> & tab & Hsid & _ & _ & _ & Ht & Hb & _ & Hn).
  split; [split|].
  - intros session t. rewrite Hb, Ht.
    destruct (decide (session_name (nextSession s) = session)) as [<-|Hne].
    + rewrite get_set_eq. intros [= <-]. exists tab. by rewrite get_set_eq.
    + rewrite get_set_ne by done. intros Hg.
      destruct (Hfwd _ _ Hg) as (tab0 & Hg0 & Hs0). exists tab0.
      rewrite get_set_ne; [done|]. intros <-. congruence.
  - intros t tab0 session. rewrite Hb, Ht.
    destruct (decide (tabId = t)) as [<-|Hne].
    + rewrite get_set_eq. intros [= <-] Hs0.
      assert (session = session_name (nextSession s)) as -> by congruence.
      by rewrite get_set_eq.
    + rewrite get_set_ne by done. intros Hg Hs0.
      rewrite get_set_ne; [by eapply Hbwd|].
      destruct (Halloc _ _ _ Hg Hs0) as (k & -> & Hk).
      intros Heq%session_name_inj. lia.
  - intros t tab0 session. rewrite Ht, Hn.
    destruct (decide (tabId = t)) as [<-|Hne].
    + rewrite get_set_eq. intros [= <-] Hs0. exists (nextSession s).
      split; [congruence|lia].
    + rewrite get_set_ne by done. intros Hg Hs0.
      destruct (Halloc _ _ _ Hg Hs0) as (k & -> & Hk). exists k. split; [done|lia].
Qed.

Lemma announce_children_same_table tabId s :
  same_table s (announce_children_detached tabId s).
Proof.
  unfold announce_children_detached. generalize (childSessionToTab s) as l.
  intros l. revert s. induction l as [|kv l IH]; intros s; simpl; [done|].
  destruct (decide (kv.2 = tabId)); [|apply IH].
  eapply same_table_trans; [apply same_table_try_send|apply IH].
Qed.

Lemma announce_detached_same_table tab reason s :
  same_table s (announce_detached tab reason s).
Proof.
  unfold announce_detached.
  destruct (tab ≫= sessionId), (tab ≫= targetId); try done.
  destruct (_ && _); [apply same_table_try_send|done].
Qed.

(** The session indices after [detachTab]. *)
Lemma detachTab_table tabId reason s :
  tabs (detachTab tabId reason s) = JsMap.delete (tabs s) tabId ∧
  tabBySession (detachTab tabId reason s) =
    tabBySession (drop_session_of (JsMap.get (tabs s) tabId) s) ∧
  childSessionToTab (detachTab tabId reason s) =
    JsMap.delete_where (λ _ parent, bool_decide (parent = tabId)) (childSessionToTab s) ∧
  nextSession (detachTab tabId reason s) = nextSession s.
Proof.
  unfold detachTab.
  destruct (announce_children_same_table tabId s) as (Ht & Hb & Hc & Hn).
  set (s0 := announce_children_detached tabId s) in *.
  set (tab := JsMap.get (tabs s) tabId).
  pose proof (announce_detached_same_table tab reason (drop_children tabId s0))
    as (Ht' & Hb' & Hc' & Hn').
  set (s2 := announce_detached tab reason (drop_children tabId s0)) in *.
  rewrite !(proj1 (same_table_persistState _)),
    !(proj1 (proj2 (same_table_persistState _))),
    !(proj1 (proj2 (proj2 (same_table_persistState _)))),
    !(proj2 (proj2 (proj2 (same_table_persistState _)))).
  simpl in *. unfold drop_session_of.
  destruct (tab ≫= sessionId) as [sid|]; [destruct (Js.truthy_string sid)|]; simpl;
    rewrite ?Ht', ?Hb', ?Hc', ?Hn', ?Ht, ?Hb, ?Hc, ?Hn; done.
Qed.

Lemma allocated_truthy s tabId tab session :
  allocated s → JsMap.get (tabs s) tabId = Some tab → sessionId tab = Some session →
  Js.truthy_string session = true.
Proof. intros Ha Hg Hs. by destruct (Ha _ _ _ Hg Hs) as (k & -> & _). Qed.

(** The session index once the entry of [tabId] is dropped. *)
Lemma drop_session_of_get s tabId session :
  allocated s →
  JsMap.get (tabBySession (drop_session_of (JsMap.get (tabs s) tabId) s)) session =
  if bool_decide (JsMap.get (tabs s) tabId ≫= sessionId = Some session)
  then None else JsMap.get (tabBySession s) session.
Proof.
  intros Ha. unfold drop_session_of.
  destruct (JsMap.get (tabs s) tabId) as [tab|] eqn:Htab; simpl; [|done].
  destruct (sessionId tab) as [sid|] eqn:Hsid; [|done].
  rewrite (allocated_truthy _ _ _ _ Ha Htab Hsid). simpl.
  case_bool_decide as Heq.
  - injection Heq as ->. apply get_delete_eq.
  - apply get_delete_ne. congruence.
Qed.

Lemma detachTab_preserves tabId reason s :
  consistent s → allocated s →
  consistent (detachTab tabId reason s) ∧ allocated (detachTab tabId reason s).
Proof.
  intros [Hfwd Hbwd] Halloc.
  destruct (detachTab_table tabId reason s) as (Ht & Hb & _ & Hn).
  split; [split|].
  - intros session t. rewrite Hb, Ht, drop_session_of_get by done.
    case_bool_decide as Hown; [done|]. intros Hg.
    destruct (Hfwd _ _ Hg) as (tab & Hg' & Hs). exists tab. split; [|done].
    rewrite get_delete_ne; [done|]. intros <-. apply Hown. by rewrite Hg'.
  - intros t tab session. rewrite Hb, Ht, drop_session_of_get by done.
    destruct (decide (tabId = t)) as [<-|Hne]; [by rewrite get_delete_eq|].
    rewrite get_delete_ne by done. intros Hg Hs.
    pose proof (Hbwd _ _ _ Hg Hs) as Hidx.
    case_bool_decide as Hown; [|done].
    destruct (JsMap.get (tabs s) tabId) as [tab0|] eqn:Htab0; [|done].
    simpl in Hown. pose proof (Hbwd _ _ _ Htab0 Hown). congruence.
  - intros t tab session. rewrite Ht, Hn.
    destruct (decide (tabId = t)) as [<-|Hne]; [by rewrite get_delete_eq|].
    rewrite get_delete_ne by done. apply Halloc.
Qed.

Lemma initial_state_consistent : consistent initial_state ∧ allocated initial_state.
Proof. split; [split|]; by intros. Qed.

Lemma apply_ops_preserve (ops : list TableOp) (s : State) :
  consistent s → allocated s → attach_only_untracked ops s = true →
  ∀ k, consistent (foldl apply_op s (take k ops)).
Proof.
  revert s. induction ops as [|op ops IH]; intros s Hc Ha Hg k.
  - by rewrite take_nil.
  - destruct k as [|k]; [done|]. simpl in *.
    apply andb_true_iff in Hg as [Hop Hrest].
    destruct op as [tabId skip e|tabId reason]; simpl in *.
    + apply negb_true_iff in Hop.
      destruct (attachTab_preserves tabId skip e s Hop Hc Ha). by apply IH.
    + destruct (detachTab_preserves tabId reason s Hc Ha). by apply IH.
Qed.

Lemma reattach_loop_among_alone tabId env others :
  (∀ k, others k = []) →
  ∀ ds attempt s,
    reattach_loop_among tabId attempt ds env others s = reattach_loop tabId attempt ds env s.
Proof.
  intros Hnone. induction ds as [|d ds IH]; intros attempt s; simpl; [done|].
  rewrite Hnone. simpl.
  destruct (negb (bool_decide _)); [done|].
  destruct (negb (tab_exists _)); [done|].
  destruct (negb (relayOpen _)).
  - destruct (attachTab tabId true _ _) as [s2 [?|?]]; [done|].
    destruct (attachTab tabId false _ _) as [s3 [?|?]]; [done|apply IH].
  - destruct (attachTab tabId false _ _) as [s3 [?|?]]; [done|apply IH].
Qed.

(** The second direction of the agreement needs no guard: a successful
    attach indexes the session it records, under a fresh name. *)
Lemma attachTab_indexed tabId skip e s :
  indexed s → allocated s →
  indexed (attachTab tabId skip e s).1 ∧ allocated (attachTab tabId skip e s).1.
Proof.
  intros Hbwd Halloc.
  destruct (attachTab tabId skip e s) as [s' r] eqn:Hat.
  apply attachTab_table in Hat. simpl. destruct r as [[session tid]|m]; last first.
  { destruct Hat as (Ht & Hb & _ & Hn). unfold indexed, allocated.
    rewrite Ht, Hb, Hn. by split. }
  destruct Hat as (-> & tab & Hsid & _ & _ & _ & Ht & Hb & _ & Hn).
  split.
  - intros t tab0 session. rewrite Hb, Ht.
    destruct (decide (tabId = t)) as [<-|Hne].
    + rewrite get_set_eq. intros [= <-] Hs0.
      assert (session = session_name (nextSession s)) as -> by congruence.
      by rewrite get_set_eq.
    + rewrite get_set_ne by done. intros Hg Hs0.
      rewrite get_set_ne; [by eapply Hbwd|].
      destruct (Halloc _ _ _ Hg Hs0) as (k & -> & Hk).
      intros Heq%session_name_inj. lia.
  - intros t tab0 session. rewrite Ht, Hn.
    destruct (decide (tabId = t)) as [<-|Hne].
    + rewrite get_set_eq. intros [= <-] Hs0. exists (nextSession s).
      split; [congruence|lia].
    + rewrite get_set_ne by done. intros Hg Hs0.
      destruct (Halloc _ _ _ Hg Hs0) as (k & -> & Hk). exists k. split; [done|lia].
Qed.

Lemma detachTab_indexed tabId reason s :
  indexed s → allocated s →
  indexed (detachTab tabId reason s) ∧ allocated (detachTab tabId reason s).
Proof.
  intros Hbwd Halloc.
  destruct (detachTab_table tabId reason s) as (Ht & Hb & _ & Hn).
  split.
  - intros t tab session. rewrite Hb, Ht, drop_session_of_get by done.
    destruct (decide (tabId = t)) as [<-|Hne]; [by rewrite get_delete_eq|].
    rewrite get_delete_ne by done. intros Hg Hs.
    pose proof (Hbwd _ _ _ Hg Hs) as Hidx.
    case_bool_decide as Hown; [|done].
    destruct (JsMap.get (tabs s) tabId) as [tab0|] eqn:Htab0; [|done].
    simpl in Hown. pose proof (Hbwd _ _ _ Htab0 Hown). congruence.
  - intros t tab session. rewrite Ht, Hn.
    destruct (decide (tabId = t)) as [<-|Hne]; [by rewrite get_delete_eq|].
    rewrite get_delete_ne by done. apply Halloc.
Qed.

(** X25. After any sequence of attach and detach operations, guarded or not,
    every tab that carries a session id is found under it in the session
    index, and every session id in the table came from the counter. *)
Theorem tab_sessions_indexed (ops : list TableOp) :
  indexed (foldl apply_op initial_state ops) ∧ allocated (foldl apply_op initial_state ops).
Proof.
  induction ops as [|op ops IH] using rev_ind; [by split; intros ???|].
  rewrite foldl_app. simpl. destruct IH as [Hi Ha].
  destruct op as [tabId skip e|tabId reason]; simpl.
  - by apply attachTab_indexed.
  - by apply detachTab_indexed.
Qed.

(** X26. With the guard of the auto-attach callers at each attach, the two
    session indices agree in both directions after every operation. *)
Theorem guarded_sequence_consistent (ops : list TableOp) (k : nat) :
  attach_only_untracked ops initial_state = true →
  consistent (foldl apply_op initial_state (take k ops)).
Proof.
  intros Hg. destruct initial_state_consistent as [Hc Ha].
  by apply apply_ops_preserve.
Qed.

Lemma guarded_sequence_consistent_witness :
  consistent (foldl apply_op initial_state (take 4 attach_detach_attach)).
Proof. apply (guarded_sequence_consistent attach_detach_attach 4). reflexivity. Defined.

(** Two attaches of the same tab in a row. *)
Lemma attach_twice_orphans_session :
  let s := foldl apply_op initial_state attach_twice in
  JsMap.get (tabBySession s) "cb-tab-1" = Some 7 ∧
  (JsMap.get (tabs s) 7 ≫= sessionId) = Some "cb-tab-2" ∧
  ¬ consistent s.
Proof.
  split_and!; [reflexivity|reflexivity|].
  intros [Hfwd _]. destruct (Hfwd "cb-tab-1" 7 eq_refl) as (tab & Hg & Hs).
  vm_compute in Hg. injection Hg as <-. discriminate Hs.
Qed.

(** C1, the defect: [attachTab] records a new session for a tab without
    removing the session the tab already has, and the reattach loop calls
    it without the test [tabs.has(tabId)] that the auto-attach callers
    make.  Tab 7 is Pending Reattach; alone, the loop attaches it once and
    the indices agree.  When the relay's [Tab.attachAll] attaches tab 7
    during the loop's first delay (session cb-tab-2) and the debugger
    detaches again, which the detach listener ignores for a Pending
    Reattach tab, the retry attaches tab 7 a second time: the tab carries
    cb-tab-3, the session index still maps cb-tab-2 to tab 7, and the
    indices disagree.  The single-tab auto-attach, which has the guard,
    leaves the attached tab alone. *)
Theorem reattach_of_attached_tab_orphans_session :
  let alone := reattach_loop 7 0 delays first_retry_attaches tab7_reattaching in
  let swept := run (sweep_and_second_detach 0) (emit (ESleep 300) tab7_reattaching) in
  let s := reattach_loop_among 7 0 delays first_retry_attaches sweep_and_second_detach
             tab7_reattaching in
  onDebuggerDetach (Some 7) "target_closed" (Some tab7_info) first_retry_attaches
    tab7_attached = alone ∧
  consistent alone ∧
  (JsMap.get (tabs swept) 7 ≫= sessionId) = Some "cb-tab-2" ∧
  bool_decide (7 ∈ reattachPending swept) = true ∧
  autoAttachTab 7 (Some "https://example.com/next") (one_tab 7 "T7c") relay_up swept = swept ∧
  omap (λ e, match e with EDebuggerAttach t => Some t | _ => None end)
       (drop (length (trace tab7_reattaching)) (trace s)) = [7; 7] ∧
  (JsMap.get (tabs s) 7 ≫= sessionId) = Some "cb-tab-3" ∧
  JsMap.get (tabBySession s) "cb-tab-2" = Some 7 ∧
  JsMap.get (tabBySession s) "cb-tab-3" = Some 7 ∧
  ¬ consistent s.
Proof.
  split_and!; try (vm_compute; reflexivity).
  - split.
    + intros session t Hg.
      assert ((session, t) ∈ [("cb-tab-2", 7)]) as Hin
        by (apply get_Some_In in Hg; vm_compute in Hg; exact Hg).
      apply list_elem_of_singleton in Hin as [= -> ->].
      eexists. split; vm_compute; reflexivity.
    + intros t tab session Hg Hs.
      assert ((t, tab) ∈ tabs (reattach_loop 7 0 delays first_retry_attaches tab7_reattaching))
        as Hin by (by apply get_Some_In).
      vm_compute in Hin. apply list_elem_of_singleton in Hin as [= -> ->].
      vm_compute in Hs. injection Hs as <-. vm_compute. reflexivity.
  - intros [Hfwd _]. destruct (Hfwd "cb-tab-2" 7) as (tab & Hg & Hs).
    + vm_compute. reflexivity.
    + vm_compute in Hg. injection Hg as <-. discriminate Hs.
Qed.

(** ** Child sessions of a removed session *)

Lemma drop_children_no_child tabId s : no_child_of tabId (drop_children tabId s).
Proof.
  intros c Hc. apply get_delete_where_false in Hc. by case_bool_decide.
Qed.

(** Explicit detach removes the tab's child sessions. *)
Lemma detachTab_no_child tabId reason s : no_child_of tabId (detachTab tabId reason s).
Proof.
  intros c. destruct (detachTab_table tabId reason s) as (_ & _ & -> & _).
  apply (drop_children_no_child tabId s c).
Qed.

(** So does the involuntary detach, before the reattach loop starts. *)
Lemma begin_reattach_no_child tabId s : no_child_of tabId (begin_reattach tabId s).
Proof.
  intros c. unfold begin_reattach.
  set (s2 := with_tabs _ _).
  change (childSessionToTab (setBadge tabId badge_connecting ?x)) with (childSessionToTab x).
  change (childSessionToTab (with_reattachPending ?v ?x)) with (childSessionToTab x).
  rewrite (proj1 (proj2 (proj2 (announce_detached_same_table _ _ _)))).
  apply (drop_children_no_child tabId s2 c).
Qed.

(** So does the removal of the tab. *)
Lemma onTabRemoved_no_child tabId s :
  JsMap.has (tabs s) tabId = true → no_child_of tabId (onTabRemoved tabId s).
Proof.
  intros Hhas c. unfold onTabRemoved.
  change (tabs (with_reattachPending ?v ?x)) with (tabs x). rewrite Hhas. simpl.
  rewrite (proj1 (proj2 (proj2 (same_table_persistState _)))).
  rewrite (proj1 (proj2 (proj2 (announce_detached_same_table _ _ _)))).
  apply (drop_children_no_child tabId _ c).
Qed.

(** C8, the defect: pruning a stale session during re-announcement drops
    the tab and its session-index entry but keeps its child sessions, and a
    command for the child session is still routed to the dropped tab. *)
Lemma reannounce_prune_keeps_child_sessions :
  let before := run (take 3 stale_tab_at_reconnect) initial_state in
  let after := run stale_tab_at_reconnect initial_state in
  (JsMap.get (tabs before) 5 ≫= sessionId) = Some "cb-tab-1" ∧
  JsMap.get (childSessionToTab before) "worker-1" = Some 5 ∧
  JsMap.get (tabs after) 5 = None ∧
  JsMap.get (tabBySession after) "cb-tab-1" = None ∧
  JsMap.get (childSessionToTab after) "worker-1" = Some 5 ∧
  resolveTabId (mkCommand "Runtime.evaluate" (Some "worker-1") None None) after = Some 5.
Proof. by vm_compute. Qed.

(** ** Auto-attach while a tab is Pending Reattach *)

(** The single-tab auto-attach leaves a Pending Reattach tab alone. *)
Lemma autoAttachTab_suppressed tabId u e ce s :
  tabId ∈ reattachPending s → autoAttachTab tabId u e ce s = s.
Proof.
  intros Hp. unfold autoAttachTab.
  destruct (autoAttach_enabled e); [|done]. simpl.
  destruct (JsMap.has _ _); [done|].
  destruct (isSkippableUrl u); [done|].
  case_bool_decide; [done|]. by rewrite bool_decide_true.
Qed.

(** C3, the defect: the attach-all sweep does not look at Pending Reattach.
    While tab 7 is Pending Reattach the single-tab path does nothing, but
    the sweep calls [chrome.debugger.attach] for tab 7 and records a
    session for it, with the tab still Pending Reattach. *)
Lemma sweep_attaches_pending_tab :
  let s := tab7_reattaching in
  let swept := autoAttachAllTabs (one_tab 7 "T7") s in
  bool_decide (7 ∈ reattachPending s) = true ∧
  JsMap.has (tabs s) 7 = false ∧
  autoAttachTab 7 (Some "https://example.com/") (one_tab 7 "T7") relay_up s = s ∧
  drop (length (trace s)) (trace swept) =
    [EDebuggerAttach 7; ESend (AttachedToTarget "cb-tab-2")] ∧
  (JsMap.get (tabs swept) 7 ≫= sessionId) = Some "cb-tab-2" ∧
  bool_decide (7 ∈ reattachPending swept) = true.
Proof.
  split_and!; by vm_compute.
Qed.

(** ** Reconnecting without a gateway token *)

Lemma connect_without_token (e : ConnectEnv) :
  Js.Text.truthy (Js.Text.trim (getGatewayToken (stored_gatewayToken e))) = false →
  connect_body e = Thrown missing_token_message ∧
  isRetryableReconnectError missing_token_message = false.
Proof. intros Htok. unfold connect_body. by rewrite Htok. Qed.

(** The timer callback classifies the error: after a failure that is not
    retryable the timer stays disarmed. *)
Lemma timer_callback_checks_class e alive info_ok sample s m :
  relayOpen s = false → relayConnectPromise s = false →
  connect_body e = Thrown m → isRetryableReconnectError m = false →
  reconnectTimer (reconnectTimerFired e alive info_ok sample s) = None.
Proof.
  intros Ho Hp Hc Hr. unfold reconnectTimerFired, ensureRelayConnection. simpl.
  by rewrite Ho, Hp, Hc, Hr.
Qed.

(** C9, the defect: the keepalive alarm and the start-up path re-arm the
    reconnect timer after a failed connect without looking at the error.
    With no gateway token stored the connect fails with the non-retryable
    error; the timer callback then leaves the timer disarmed, and the next
    alarm arms it again. *)
Lemma keepalive_rearms_without_token :
  let started := startup (λ _, true) (λ _, true) no_tabs relay_without_token (Fin 0)
                   initial_state in
  let fired := step (ReconnectTimer relay_without_token (λ _, true) (λ _, true) (Fin 0))
                 started in
  let alarmed := step (KeepaliveAlarm no_tabs relay_without_token (Fin 0)) fired in
  connect_body relay_without_token = Thrown missing_token_message ∧
  isRetryableReconnectError missing_token_message = false ∧
  reconnectTimer started = Some (Fin (1000 * inject_Z (2 ^ 0) + 1000 * 0)) ∧
  reconnectTimer fired = None ∧
  reconnectAttempt fired = 1 ∧
  reconnectTimer alarmed = Some (Fin (1000 * inject_Z (2 ^ 1) + 1000 * 0)) ∧
  reconnectAttempt alarmed = 2.
Proof. by vm_compute. Qed.

(** ** The reconnect counter *)

Lemma counter_kept_refl s : counter_kept s s.
Proof. intros ?. split; [done|]. intros ?. by left. Qed.

Lemma counter_kept_trans s1 s2 s3 :
  counter_kept s1 s2 → counter_kept s2 s3 → counter_kept s1 s3.
Proof.
  intros H12 H23 H1. destruct (H12 H1) as [H2 H12']. destruct (H23 H2) as [H3 H23'].
  split; [done|]. intros Hz. destruct (H23' Hz) as [[Hz2 Ho]|Ho]; [|by right].
  destruct (H12' Hz2) as [[Hz1 Ho1]|Ho1]; [left|right]; naive_solver.
Qed.

Lemma same_conn_counter_kept s s' : same_conn s s' → counter_kept s s'.
Proof. intros [Ho Ha] H0. rewrite Ho, Ha. split; [done|]. intros ?. by left. Qed.

Lemma same_conn_refl s : same_conn s s.
Proof. done. Qed.

Lemma same_conn_trans s1 s2 s3 : same_conn s1 s2 → same_conn s2 s3 → same_conn s1 s3.
Proof. intros [] []. split; congruence. Qed.

Lemma same_conn_foldl {A} (f : State → A → State) (l : list A) s :
  (∀ acc x, same_conn acc (f acc x)) → same_conn s (foldl f s l).
Proof.
  intros Hf. revert s. induction l as [|x l IH]; intros s; simpl; [done|].
  eapply same_conn_trans; [apply Hf|apply IH].
Qed.

Lemma counter_kept_foldl {A} (f : State → A → State) (l : list A) s :
  (∀ acc x, counter_kept acc (f acc x)) → counter_kept s (foldl f s l).
Proof.
  intros Hf. revert s. induction l as [|x l IH]; intros s; simpl.
  - apply counter_kept_refl.
  - eapply counter_kept_trans; [apply Hf|apply IH].
Qed.

Lemma same_conn_emit e s : same_conn s (emit e s).
Proof. done. Qed.

Lemma same_conn_try_send f s : same_conn s (try_send f s).
Proof. unfold try_send, sendToRelay. by destruct (relayOpen s). Qed.

Lemma same_conn_setBadge t k s : same_conn s (setBadge t k s).
Proof. done. Qed.

Lemma same_conn_persistState s : same_conn s (persistState s).
Proof. unfold persistState. by destruct (storageAvailable s). Qed.

Lemma same_conn_drop_session_of tab s : same_conn s (drop_session_of tab s).
Proof.
  unfold drop_session_of. destruct (tab ≫= sessionId) as [sid|]; [|done].
  by destruct (Js.truthy_string sid).
Qed.

Lemma same_conn_announce_detached tab reason s : same_conn s (announce_detached tab reason s).
Proof.
  unfold announce_detached.
  destruct (tab ≫= sessionId), (tab ≫= targetId); try done.
  destruct (_ && _); [apply same_conn_try_send|done].
Qed.

Lemma same_conn_announce_children tabId s : same_conn s (announce_children_detached tabId s).
Proof.
  unfold announce_children_detached. apply same_conn_foldl. intros acc kv.
  destruct (decide _); [apply same_conn_try_send|done].
Qed.

Lemma same_conn_attachTab tabId skip e s : same_conn s (attachTab tabId skip e s).1.
Proof.
  unfold attachTab. destruct (debugger_attaches e); simpl; [|done].
  destruct (target_info e); [|done].
  destruct (Js.truthy_string _); simpl; [|done].
  eapply same_conn_trans; [|apply same_conn_persistState].
  eapply same_conn_trans; [|apply same_conn_setBadge].
  destruct skip; [done|].
  eapply same_conn_trans; [|apply same_conn_try_send]. done.
Qed.

Lemma same_conn_detachTab tabId reason s : same_conn s (detachTab tabId reason s).
Proof.
  unfold detachTab.
  eapply same_conn_trans; [|apply same_conn_persistState].
  eapply same_conn_trans; [|apply same_conn_setBadge].
  eapply same_conn_trans; [|apply same_conn_emit].
  eapply same_conn_trans; [|by split].
  eapply same_conn_trans; [|apply same_conn_drop_session_of].
  eapply same_conn_trans; [|apply same_conn_announce_detached].
  eapply same_conn_trans; [|by split].
  apply same_conn_announce_children.
Qed.

Lemma same_conn_reannounce alive info_ok s :
  same_conn s (reannounceAttachedTabs alive info_ok s).
Proof.
  unfold reannounceAttachedTabs.
  eapply same_conn_trans; [|apply same_conn_persistState].
  apply same_conn_foldl. intros acc [tabId tab]. unfold reannounce_one.
  destruct (_ || _); [done|]. destruct (negb (alive tabId)).
  - eapply same_conn_trans; [|apply same_conn_setBadge].
    eapply same_conn_trans; [|apply same_conn_drop_session_of]. done.
  - eapply same_conn_trans; [|apply same_conn_setBadge].
    destruct (info_ok tabId); [apply same_conn_try_send|done].
Qed.

Lemma same_conn_rehydrate alive s : same_conn s (rehydrateState alive s).
Proof.
  unfold rehydrateState. destruct (storageAvailable s); [|done].
  destruct (sessionStore s) as [[entries storedNext]|]; [|done].
  eapply same_conn_trans; [|apply same_conn_foldl].
  - eapply same_conn_trans; [|apply same_conn_foldl].
    + by destruct (Js.truthy_int storedNext).
    + by intros acc e.
  - intros acc e. unfold rehydrate_probe. by destruct (alive _).
Qed.

Lemma same_conn_sweep e s : same_conn s (autoAttachAllTabs e s).
Proof.
  unfold autoAttachAllTabs. destruct (negb _); [done|].
  apply same_conn_foldl. intros acc tab. unfold sweep_one.
  destruct (tab_id tab) as [id|]; [|done].
  repeat (match goal with |- same_conn _ (if ?b then _ else _) => destruct b end; [done|]).
  eapply same_conn_trans; [|by split].
  eapply same_conn_trans; [|apply same_conn_attachTab]. done.
Qed.

Lemma same_conn_drop_children tabId s : same_conn s (drop_children tabId s).
Proof. done. Qed.

Lemma same_conn_onTabRemoved tabId s : same_conn s (onTabRemoved tabId s).
Proof.
  unfold onTabRemoved. destruct (negb _); [done|].
  eapply same_conn_trans; [|apply same_conn_persistState].
  eapply same_conn_trans; [|apply same_conn_announce_detached].
  eapply same_conn_trans; [|apply same_conn_drop_children].
  eapply same_conn_trans; [|by split].
  eapply same_conn_trans; [|apply same_conn_drop_session_of]. done.
Qed.

Lemma same_conn_onTabReplaced a r s : same_conn s (onTabReplaced a r s).
Proof.
  unfold onTabReplaced. destruct (JsMap.get _ _) as [tab|]; [|done].
  eapply same_conn_trans; [|apply same_conn_persistState].
  eapply same_conn_trans; [|apply same_conn_setBadge].
  eapply same_conn_trans; [|by split].
  by destruct (Js.truthy_opt _).
Qed.

Lemma same_conn_onDebuggerEvent t ss m c s : same_conn s (onDebuggerEvent t ss m c s).
Proof.
  unfold onDebuggerEvent. destruct t as [tabId|]; [|done].
  destruct (negb _); [done|]. destruct (JsMap.get _ _) as [tab|]; [|done].
  destruct (negb _); [done|].
  eapply same_conn_trans; [|apply same_conn_try_send].
  destruct c as [c|]; [|done].
  eapply same_conn_trans; [|by destruct (_ && _)]. by destruct (_ && _).
Qed.

Lemma same_conn_begin_reattach tabId s : same_conn s (begin_reattach tabId s).
Proof.
  unfold begin_reattach.
  eapply same_conn_trans; [|apply same_conn_setBadge].
  eapply same_conn_trans; [|by split].
  eapply same_conn_trans; [|apply same_conn_announce_detached].
  eapply same_conn_trans; [|apply same_conn_drop_children].
  eapply same_conn_trans; [|by split].
  apply same_conn_drop_session_of.
Qed.

(** A connect resets the counter only by succeeding, and then the socket
    is open. *)
Lemma ensureRelayConnection_counter e s :
  counter_kept s (ensureRelayConnection e s).1 ∧
  ((ensureRelayConnection e s).2 = Returned () →
   relayOpen (ensureRelayConnection e s).1 = true) ∧
  (∀ m, (ensureRelayConnection e s).2 = Thrown m →
        same_conn s (ensureRelayConnection e s).1).
Proof.
  unfold ensureRelayConnection. destruct (relayOpen s) eqn:Ho.
  { split_and!; [apply counter_kept_refl|done|done]. }
  destruct (relayConnectPromise s).
  - destruct (inflight e) as [[]|m]; simpl.
    + split_and!; [|done|done]. intros ?. split; [done|]. by right.
    + split_and!; [by apply same_conn_counter_kept|done|done].
  - destruct (connect_body e) as [[]|m]; simpl.
    + split_and!; [|done|done]. intros ?. split; [done|]. by right.
    + split_and!; [apply counter_kept_refl|done|done].
Qed.

(** Scheduling a reconnect counts the attempt. *)
Lemma scheduleReconnect_counter sample s : counter_kept s (scheduleReconnect sample s).
Proof. intros H0. simpl. split; [lia|]. intros ?. lia. Qed.

Lemma onRelayClosed_counter sample s : counter_kept s (onRelayClosed sample s).
Proof.
  unfold onRelayClosed. intros H0.
  set (s3 := foldl _ _ _).
  assert (same_conn (with_reattachPending ∅ (with_relayOpen false s)) s3) as [_ Ha].
  { apply same_conn_foldl. intros acc kv. by case_bool_decide. }
  simpl in Ha. simpl. rewrite Ha. split; [lia|]. intros ?. lia.
Qed.

Lemma reconnectTimerFired_counter e alive info_ok sample s :
  counter_kept s (reconnectTimerFired e alive info_ok sample s).
Proof.
  unfold reconnectTimerFired.
  pose proof (ensureRelayConnection_counter e (with_reconnectTimer None s)) as (Hk & Hok & _).
  destruct (ensureRelayConnection e _) as [s1 [[]|m]]; simpl in *.
  - eapply counter_kept_trans; [|apply same_conn_counter_kept, same_conn_reannounce].
    intros H0. simpl. split; [done|]. intros _. right. by apply Hok.
  - destruct (negb _); [exact Hk|].
    eapply counter_kept_trans; [exact Hk|apply scheduleReconnect_counter].
Qed.

Lemma autoAttachTab_counter tabId u e ce s : counter_kept s (autoAttachTab tabId u e ce s).
Proof.
  unfold autoAttachTab.
  repeat (match goal with |- counter_kept _ (if ?b then _ else _) => destruct b end;
          [apply counter_kept_refl|]).
  pose proof (ensureRelayConnection_counter ce s) as (Hk & _ & _).
  destruct (ensureRelayConnection ce s) as [s1 [[]|m]]; simpl in *; [|done].
  eapply counter_kept_trans; [exact Hk|]. apply same_conn_counter_kept.
  eapply same_conn_trans; [|by split].
  eapply same_conn_trans; [|apply same_conn_attachTab]. done.
Qed.

Lemma interleave_counter s i : counter_kept s (interleave s i).
Proof.
  destruct i; simpl.
  - destruct (relayOpen s); [apply onRelayClosed_counter|apply counter_kept_refl].
  - apply ensureRelayConnection_counter.
  - apply same_conn_counter_kept, same_conn_onTabRemoved.
Qed.

Lemma reattach_loop_counter tabId attempt ds env s :
  counter_kept s (reattach_loop tabId attempt ds env s).
Proof.
  revert attempt s. induction ds as [|d ds IH]; intros attempt s; simpl.
  { by apply same_conn_counter_kept. }
  set (s1 := foldl interleave _ _).
  assert (counter_kept s s1) as Hs1.
  { eapply counter_kept_trans; [apply same_conn_counter_kept, (same_conn_emit (ESleep d))|].
    apply counter_kept_foldl. intros; apply interleave_counter. }
  assert (∀ s2, counter_kept s1 s2 →
            counter_kept s
              match attachTab tabId false (attach_loud (env attempt)) s2 with
              | (s3, Returned _) => clear_pending tabId s3
              | (s3, Thrown _) => reattach_loop tabId (S attempt) ds env s3
              end) as Hloud.
  { intros s2 Hs2. pose proof (same_conn_attachTab tabId false (attach_loud (env attempt)) s2) as Hat.
    destruct (attachTab _ _ _ s2) as [s3 [r|m]]; simpl in Hat.
    - eapply counter_kept_trans; [exact Hs1|]. eapply counter_kept_trans; [exact Hs2|].
      apply same_conn_counter_kept. eapply same_conn_trans; [exact Hat|done].
    - eapply counter_kept_trans; [exact Hs1|]. eapply counter_kept_trans; [exact Hs2|].
      eapply counter_kept_trans; [apply same_conn_counter_kept, Hat|apply IH]. }
  destruct (negb (bool_decide _)); [done|].
  destruct (negb (tab_exists _)).
  { eapply counter_kept_trans; [exact Hs1|]. by apply same_conn_counter_kept. }
  destruct (negb (relayOpen s1)); [|apply Hloud, counter_kept_refl].
  pose proof (same_conn_attachTab tabId true (attach_quiet (env attempt)) s1) as Hq.
  destruct (attachTab tabId true _ s1) as [s2 [r|m]]; simpl in Hq.
  - eapply counter_kept_trans; [exact Hs1|]. apply same_conn_counter_kept.
    eapply same_conn_trans; [exact Hq|done].
  - apply Hloud. by apply same_conn_counter_kept.
Qed.

Lemma onDebuggerDetach_counter t reason lookup env s :
  counter_kept s (onDebuggerDetach t reason lookup env s).
Proof.
  unfold onDebuggerDetach. destruct t as [tabId|]; [|apply counter_kept_refl].
  destruct (negb _); [apply counter_kept_refl|].
  destruct (negb _); [apply counter_kept_refl|].
  destruct (permanent_reason _); [apply same_conn_counter_kept, same_conn_detachTab|].
  destruct lookup as [info|]; [|apply same_conn_counter_kept, same_conn_detachTab].
  destruct (isSkippableUrl _); [apply same_conn_counter_kept, same_conn_detachTab|].
  case_bool_decide; [apply counter_kept_refl|].
  eapply counter_kept_trans; [apply same_conn_counter_kept, same_conn_begin_reattach|].
  apply reattach_loop_counter.
Qed.

Lemma handleForwardCdpCommand_conn c e s : same_conn s (handleForwardCdpCommand c e s).1.
Proof.
  unfold handleForwardCdpCommand.
  repeat (match goal with
          | |- same_conn _ (if ?b then _ else _).1 => destruct b
          end; [try done; apply same_conn_sweep|]).
  destruct (resolveTabId c s) as [tabId|]; [|done].
  destruct (negb _); [done|].
  case_bool_decide.
  { simpl. eapply same_conn_trans; [|apply same_conn_emit]. by destruct (disable_ok e). }
  case_bool_decide.
  { destruct (created_tab e) as [newId|]; [|done]. destruct (negb _); [done|].
    pose proof (same_conn_attachTab newId false (create_attach e)
                  (emit (ESleep 100) (emit (ETabCreate (default "about:blank" (cmd_url c))) s))) as Hat.
    by destruct (attachTab _ _ _ _) as [s2 [[]|]]. }
  case_bool_decide.
  { destruct (if Js.truthy_string _ then _ else _) as [t|]; [|done]. by destruct (negb _). }
  case_bool_decide; [|done].
  destruct (if Js.truthy_string _ then _ else _) as [t|]; [|done].
  destruct (negb _); [done|]. by destruct (negb _).
Qed.

Lemma onForwardCdpCommand_conn id c e s : same_conn s (onForwardCdpCommand id c e s).
Proof.
  unfold onForwardCdpCommand. pose proof (handleForwardCdpCommand_conn c e s) as Hh.
  destruct (handleForwardCdpCommand c e s) as [s1 r].
  eapply same_conn_trans; [exact Hh|apply same_conn_try_send].
Qed.

Lemma onKeepaliveAlarm_counter e ce sample s : counter_kept s (onKeepaliveAlarm e ce sample s).
Proof.
  unfold onKeepaliveAlarm.
  eapply counter_kept_trans; [|apply counter_kept_foldl; intros; apply autoAttachTab_counter].
  destruct (_ && _); [|apply counter_kept_refl].
  pose proof (ensureRelayConnection_counter ce s) as (Hk & _ & _).
  destruct (ensureRelayConnection ce s) as [s1 [[]|m]]; simpl in *; [done|].
  case_bool_decide; [done|].
  eapply counter_kept_trans; [exact Hk|apply scheduleReconnect_counter].
Qed.

Lemma startup_counter alive info_ok e ce sample s :
  counter_kept s (startup alive info_ok e ce sample s).
Proof.
  unfold startup.
  eapply counter_kept_trans; [apply same_conn_counter_kept, (same_conn_rehydrate alive)|].
  pose proof (ensureRelayConnection_counter ce (rehydrateState alive s)) as (Hk & Hok & _).
  destruct (ensureRelayConnection ce _) as [s1 [[]|m]]; simpl in *.
  - eapply counter_kept_trans; [|apply same_conn_counter_kept, same_conn_sweep].
    assert (counter_kept (rehydrateState alive s) (with_reconnectAttempt 0 s1)) as Hreset.
    { intros H0. simpl. split; [done|]. intros _. right. by apply Hok. }
    destruct (_ <? _)%nat; [|done].
    eapply counter_kept_trans; [exact Hreset|].
    apply same_conn_counter_kept, same_conn_reannounce.
  - eapply counter_kept_trans; [exact Hk|].
    eapply counter_kept_trans; [apply scheduleReconnect_counter|].
    destruct (autoAttach_enabled e); [|apply counter_kept_refl].
    apply same_conn_counter_kept, same_conn_sweep.
Qed.

Lemma onActionClicked_nonneg e ce s :
  0 <= reconnectAttempt s → 0 <= reconnectAttempt (onActionClicked e ce s).
Proof.
  intros H0. unfold onActionClicked. destruct (_ <? _)%nat.
  - assert (same_conn s (foldl (λ acc kv, detachTab kv.1 "toggle" acc) s (tabs s))) as [_ ->];
      [|done].
    apply same_conn_foldl. intros; apply same_conn_detachTab.
  - pose proof (ensureRelayConnection_counter ce (cancelReconnect s)) as (Hk & _ & _).
    destruct (ensureRelayConnection ce _) as [s2 [[]|m]]; simpl in *.
    + destruct (same_conn_sweep e s2) as [_ ->]. by apply Hk.
    + by apply Hk.
Qed.

Lemma step_counter ev s :
  (∀ e ce, ev ≠ ActionClicked e ce) → counter_kept s (step ev s).
Proof.
  intros Hev. destruct ev; simpl.
  - apply startup_counter.
  - apply onKeepaliveAlarm_counter.
  - case_bool_decide; [apply reconnectTimerFired_counter|apply counter_kept_refl].
  - destruct (relayOpen s); [apply onRelayClosed_counter|apply counter_kept_refl].
  - destruct (relayOpen s); [|apply counter_kept_refl].
    apply same_conn_counter_kept, onForwardCdpCommand_conn.
  - by destruct (Hev e ce).
  - apply autoAttachTab_counter.
  - apply same_conn_counter_kept, same_conn_onTabRemoved.
  - apply same_conn_counter_kept, same_conn_onTabReplaced.
  - apply same_conn_counter_kept, same_conn_onDebuggerEvent.
  - apply onDebuggerDetach_counter.
Qed.

Lemma action_click_detach_all_conn e ce s :
  attachedCount s ≠ 0%nat → same_conn s (onActionClicked e ce s).
Proof.
  intros Hn. unfold onActionClicked. fold (attachedCount s).
  destruct (Nat.ltb_spec 0 (attachedCount s)); [|lia].
  apply same_conn_foldl. intros; apply same_conn_detachTab.
Qed.

Lemma step_nonneg ev s : 0 <= reconnectAttempt s → 0 <= reconnectAttempt (step ev s).
Proof.
  intros H0. destruct ev; try (apply step_counter; [by intros|done]).
  by apply onActionClicked_nonneg.
Qed.

Lemma run_nonneg evs s : 0 <= reconnectAttempt s → 0 <= reconnectAttempt (run evs s).
Proof.
  unfold run. revert s. induction evs as [|ev evs IH]; intros s H0; simpl; [done|].
  by apply IH, step_nonneg.
Qed.

(** C4 (amended). In every state reached from start-up, a step of the event
    loop brings the reconnect counter from a non-zero value to zero only by
    completing a connect, after which the socket is open, or by the action
    click with no tab attached, whose handler calls [cancelReconnect] before
    it tries to connect.  No other step, and no failed connection attempt
    outside that handler, resets the counter. *)
Theorem counter_reset_only_on_connect_or_manual_retry (evs : list Event) (ev : Event) :
  let s := run evs initial_state in
  reconnectAttempt (step ev s) = 0 →
  reconnectAttempt s = 0 ∨ relayOpen (step ev s) = true ∨ manual_retry ev s.
Proof.
  intros s Hz.
  assert (0 <= reconnectAttempt s) as H0 by (by apply run_nonneg).
  assert ((∀ e ce, ev ≠ ActionClicked e ce) →
          reconnectAttempt s = 0 ∨ relayOpen (step ev s) = true ∨ manual_retry ev s)
    as Hother.
  { intros Hev. destruct (step_counter ev s Hev H0) as [_ Hk].
    destruct (Hk Hz) as [[? _]|?]; [by left|by right; left]. }
  destruct ev; try (apply Hother; by intros).
  destruct (decide (attachedCount s = 0%nat)) as [Hnone|Hsome].
  - right; right. exact Hnone.
  - left. destruct (action_click_detach_all_conn e ce s Hsome) as [_ Ha].
    simpl in Hz. congruence.
Qed.

Lemma counter_reset_only_on_connect_or_manual_retry_witness :
  reconnectAttempt (run two_failed_connects initial_state) = 2 ∧
  relayOpen (step (ReconnectTimer relay_up (λ _, true) (λ _, true) (Fin 0))
               (run two_failed_connects initial_state)) = true.
Proof.
  split; [reflexivity|].
  destruct (counter_reset_only_on_connect_or_manual_retry two_failed_connects
              (ReconnectTimer relay_up (λ _, true) (λ _, true) (Fin 0)))
    as [Hzero|[Hopen|Hclick]].
  - reflexivity.
  - discriminate Hzero.
  - exact Hopen.
  - destruct Hclick.
Defined.

(** C4, as stated, fails: after two failed connects the counter is 2; the
    action click resets it to 0 although its own connect fails too and the
    socket stays closed. *)
Lemma action_click_resets_counter_without_connect :
  let s := run two_failed_connects initial_state in
  let s' := step (ActionClicked no_tabs relay_down) s in
  reconnectAttempt s = 2 ∧ relayOpen s = false ∧
  (ensureRelayConnection relay_down (cancelReconnect s)).2 =
    Thrown "Relay server not reachable at http://127.0.0.1:18792 (TypeError: Failed to fetch)" ∧
  reconnectAttempt s' = 0 ∧ relayOpen s' = false.
Proof. by vm_compute. Qed.

(** ** Routing a relayed command *)

Lemma truthy_int_ne (t : Z) : t ≠ 0 → Js.truthy_int t = true.
Proof. unfold Js.truthy_int. intros. by destruct (Z.eqb_spec t 0). Qed.

Lemma truthy_string_ne (x : string) : x ≠ "" → Js.truthy_string x = true.
Proof. by destruct x. Qed.

Lemma resolve_by_main c s sid t :
  ids_truthy s → cmd_sessionId c = Some sid → sid ≠ "" →
  JsMap.get (tabBySession s) sid = Some t → resolveTabId c s = Some t.
Proof.
  intros (Hm & _ & _) Hc Hsid Hg. unfold resolveTabId, getTabBySessionId.
  by rewrite Hc, (truthy_string_ne _ Hsid), Hg, (truthy_int_ne _ (Hm _ _ Hg)).
Qed.

Lemma resolve_by_child c s sid t :
  ids_truthy s → cmd_sessionId c = Some sid → sid ≠ "" →
  JsMap.get (tabBySession s) sid = None →
  JsMap.get (childSessionToTab s) sid = Some t → resolveTabId c s = Some t.
Proof.
  intros (_ & Hch & _) Hc Hsid Hg Hg'. unfold resolveTabId, getTabBySessionId.
  by rewrite Hc, (truthy_string_ne _ Hsid), Hg, Hg', (truthy_int_ne _ (Hch _ _ Hg')).
Qed.

Lemma session_unresolved_None c s :
  session_unresolved c s →
  match cmd_sessionId c with
  | Some sid => if Js.truthy_string sid then getTabBySessionId sid s else None
  | None => None
  end = None.
Proof.
  unfold session_unresolved, getTabBySessionId.
  destruct (cmd_sessionId c) as [sid|]; [|done].
  intros [-> | [-> ->]]; [done|]. by destruct (Js.truthy_string sid).
Qed.

Lemma getTabByTargetId_Some tid s t :
  getTabByTargetId tid s = Some t →
  ∃ tab, (t, tab) ∈ tabs s ∧ targetId tab = Some tid.
Proof.
  unfold getTabByTargetId. destruct (JsMap.find_first _ _) as [[t' tab]|] eqn:Hf; [|done].
  intros [= <-]. apply find_first_Some in Hf as [Hin Hp]. exists tab.
  split; [done|]. by apply bool_decide_eq_true in Hp.
Qed.

Lemma getTabByTargetId_None tid s :
  getTabByTargetId tid s = None ↔ ∀ t tab, (t, tab) ∈ tabs s → targetId tab ≠ Some tid.
Proof.
  unfold getTabByTargetId. rewrite fmap_None, find_first_None.
  split; intros H t tab Hin; specialize (H t tab Hin).
  - by apply bool_decide_eq_false in H.
  - by apply bool_decide_eq_false.
Qed.

(** The loop of [getTabByTargetId] stops at the first tab that carries the
    target id. *)
Lemma getTabByTargetId_first tid t s :
  first_with_target tid t s → getTabByTargetId tid s = Some t.
Proof.
  intros (pre & tab & post & Heq & Htid & Hpre). unfold getTabByTargetId.
  rewrite Heq. clear Heq. induction Hpre as [|[t0 tab0] pre Hne _ IH]; simpl.
  - by rewrite bool_decide_true.
  - by rewrite bool_decide_false.
Qed.

(** A tab that carries the target id makes one of them the first. *)
Lemma first_with_target_exists tid t tab s :
  (t, tab) ∈ tabs s → targetId tab = Some tid →
  ∃ t', first_with_target tid t' s.
Proof.
  intros Hin Htid. unfold first_with_target.
  induction (tabs s) as [|[t0 tab0] l IH]; [by apply elem_of_nil in Hin|].
  destruct (decide (targetId tab0 = Some tid)) as [Heq|Hne].
  - exists t0, [], tab0, l. by split_and!.
  - apply elem_of_cons in Hin as [[= <- <-]|Hin]; [done|].
    destruct (IH Hin) as (t' & pre & tab' & post & -> & Ht' & Hpre).
    exists t', ((t0, tab0) :: pre), tab', post. split_and!; [done|done|].
    by constructor.
Qed.

Lemma first_with_target_elem tid t s :
  first_with_target tid t s → ∃ tab, (t, tab) ∈ tabs s ∧ targetId tab = Some tid.
Proof.
  intros (pre & tab & post & Heq & Htid & _). exists tab. split; [|done].
  rewrite Heq. apply elem_of_app. right. left.
Qed.

Lemma resolve_by_target c s tid t :
  ids_truthy s → session_unresolved c s → cmd_targetId c = Some tid → tid ≠ "" →
  first_with_target tid t s → resolveTabId c s = Some t.
Proof.
  intros (_ & _ & Ht) Hs Hc Htid Hfirst. unfold resolveTabId.
  rewrite (session_unresolved_None c s Hs), Hc, (truthy_string_ne _ Htid),
    (getTabByTargetId_first _ _ _ Hfirst).
  destruct (first_with_target_elem _ _ _ Hfirst) as (tab & Hin & _).
  by rewrite (truthy_int_ne _ (Ht _ _ Hin)).
Qed.

Lemma resolve_by_fallback c s :
  session_unresolved c s → target_unresolved c s →
  resolveTabId c s = any_connected_tab s.
Proof.
  intros Hs Ht. unfold resolveTabId. rewrite (session_unresolved_None c s Hs).
  unfold target_unresolved in Ht. destruct (cmd_targetId c) as [tid|]; [|done].
  destruct Ht as [-> | Hnone]; [done|].
  apply getTabByTargetId_None in Hnone. rewrite Hnone.
  by destruct (Js.truthy_string tid).
Qed.

Lemma any_connected_tab_Some s t :
  any_connected_tab s = Some t → ∃ tab, (t, tab) ∈ tabs s ∧ state tab = connected.
Proof.
  unfold any_connected_tab. destruct (JsMap.find_first _ _) as [[t' tab]|] eqn:Hf; [|done].
  intros [= <-]. apply find_first_Some in Hf as [Hin Hp]. exists tab.
  split; [done|]. by apply bool_decide_eq_true in Hp.
Qed.

Lemma any_connected_tab_None s : any_connected_tab s = None ↔ none_connected s.
Proof.
  unfold any_connected_tab, none_connected. rewrite fmap_None, find_first_None.
  split; intros H t tab Hin; specialize (H t tab Hin).
  - by apply bool_decide_eq_false in H.
  - by apply bool_decide_eq_false.
Qed.

Lemma any_connected_tab_single s t tab :
  filter (λ kv, state kv.2 = connected) (tabs s) = [(t, tab)] →
  any_connected_tab s = Some t.
Proof.
  unfold any_connected_tab. induction (tabs s) as [|[t0 tab0] l IH]; simpl; [done|].
  rewrite filter_cons. simpl. case_bool_decide as Hc.
  - rewrite decide_True by done. by intros [= -> ->].
  - rewrite decide_False by done. apply IH.
Qed.

Lemma unresolved_command_fails c e s :
  pass_through (Js.trim (cmd_method c)) → resolveTabId c s = None →
  handleForwardCdpCommand c e s =
    (s, Thrown ("No attached tab for method " +:+ Js.trim (cmd_method c))).
Proof.
  intros (H1 & H2 & H3 & H4 & H5) Hr. unfold handleForwardCdpCommand.
  by rewrite !bool_decide_false, H4, H5, Hr by done.
Qed.

Lemma unresolved_command_reply id c e s :
  pass_through (Js.trim (cmd_method c)) → resolveTabId c s = None → relayOpen s = true →
  onForwardCdpCommand id c e s =
    emit (ESend (Reply id (Thrown ("No attached tab for method " +:+ Js.trim (cmd_method c))))) s.
Proof.
  intros Hp Hr Ho. unfold onForwardCdpCommand.
  rewrite (unresolved_command_fails c e s Hp Hr). unfold try_send, sendToRelay.
  by rewrite Ho.
Qed.

Lemma ids_truthy_Forall s :
  Forall (λ kv, kv.2 ≠ 0) (tabBySession s) →
  Forall (λ kv, kv.2 ≠ 0) (childSessionToTab s) →
  Forall (λ kv, kv.1 ≠ 0) (tabs s) →
  ids_truthy s.
Proof.
  rewrite !Forall_forall. intros Hm Hc Ht. split_and!.
  - intros k t Hg%get_Some_In. apply (Hm _ Hg).
  - intros k t Hg%get_Some_In. apply (Hc _ Hg).
  - intros t tab Hin. apply (Ht _ Hin).
Qed.

(** C5. A pass-through command finds its tab (1) through its session id,
    in the main-session index first and the child-session index second,
    whatever else the command carries; (2) failing that, through the target
    id in its nested parameters: the tab is the first one of the table, in
    iteration order, that carries this target id, hence the tab that
    carries it when there is only one; (3) failing that, it takes a
    connected tab: the only one when there is exactly one.  When no step
    finds a tab, which in step (3) means that no tab is connected, the
    handler throws "No attached tab for method ..." and the relay gets that
    error under the request's id; nothing is sent to the debugger. *)
Theorem command_target_resolution (c : Command) (s : State) :
  ids_truthy s →
  (∀ sid t, cmd_sessionId c = Some sid → sid ≠ "" →
     JsMap.get (tabBySession s) sid = Some t → resolveTabId c s = Some t) ∧
  (∀ sid t, cmd_sessionId c = Some sid → sid ≠ "" →
     JsMap.get (tabBySession s) sid = None →
     JsMap.get (childSessionToTab s) sid = Some t → resolveTabId c s = Some t) ∧
  (∀ tid t, session_unresolved c s → cmd_targetId c = Some tid → tid ≠ "" →
     first_with_target tid t s → resolveTabId c s = Some t) ∧
  (∀ tid t tab, session_unresolved c s → cmd_targetId c = Some tid → tid ≠ "" →
     (t, tab) ∈ tabs s → targetId tab = Some tid →
     (∀ t' tab', (t', tab') ∈ tabs s → targetId tab' = Some tid → t' = t) →
     resolveTabId c s = Some t) ∧
  (session_unresolved c s → target_unresolved c s →
     (∀ t, resolveTabId c s = Some t → ∃ tab, (t, tab) ∈ tabs s ∧ state tab = connected) ∧
     (∀ t tab, filter (λ kv, state kv.2 = connected) (tabs s) = [(t, tab)] →
        resolveTabId c s = Some t) ∧
     (resolveTabId c s = None ↔ none_connected s)) ∧
  (pass_through (Js.trim (cmd_method c)) →
   session_unresolved c s → target_unresolved c s → none_connected s →
     ∀ e id,
       handleForwardCdpCommand c e s =
         (s, Thrown ("No attached tab for method " +:+ Js.trim (cmd_method c))) ∧
       (relayOpen s = true →
        onForwardCdpCommand id c e s =
          emit (ESend (Reply id (Thrown ("No attached tab for method "
                                         +:+ Js.trim (cmd_method c))))) s)).
Proof.
  intros Hids. split_and!.
  - intros. by eapply resolve_by_main.
  - intros. by eapply resolve_by_child.
  - intros. by eapply resolve_by_target.
  - intros tid t tab Hs Hc Htid Hin Htab Huniq.
    destruct (first_with_target_exists tid t tab s Hin Htab) as (t' & Hfirst).
    destruct (first_with_target_elem _ _ _ Hfirst) as (tab' & Hin' & Htab').
    rewrite <- (Huniq t' tab' Hin' Htab'). by eapply resolve_by_target.
  - intros Hs Ht. rewrite (resolve_by_fallback c s Hs Ht). split_and!.
    + apply any_connected_tab_Some.
    + apply any_connected_tab_single.
    + apply any_connected_tab_None.
  - intros Hp Hs Ht Hnone e id.
    assert (resolveTabId c s = None) as Hr.
    { rewrite (resolve_by_fallback c s Hs Ht). by apply any_connected_tab_None. }
    split; [by apply unresolved_command_fails|]. by apply unresolved_command_reply.
Qed.

Lemma two_tabs_ids_truthy : ids_truthy two_tabs_one_worker.
Proof. apply ids_truthy_Forall; vm_compute; repeat constructor; discriminate. Defined.

Lemma command_target_resolution_witness :
  resolveTabId (mkCommand "Runtime.evaluate" (Some "worker-1") (Some "T6") None)
    two_tabs_one_worker = Some 5 ∧
  resolveTabId (mkCommand "Runtime.evaluate" (Some "gone") (Some "T6") None)
    two_tabs_one_worker = Some 6 ∧
  any_connected_tab two_tabs_one_worker = Some 5.
Proof.
  split_and!.
  - apply (proj1 (proj2 (command_target_resolution
                           (mkCommand "Runtime.evaluate" (Some "worker-1") (Some "T6") None)
                           two_tabs_one_worker two_tabs_ids_truthy)) "worker-1" 5);
      [reflexivity|discriminate|vm_compute; reflexivity|vm_compute; reflexivity].
  - apply (proj1 (proj2 (proj2 (command_target_resolution
                                  (mkCommand "Runtime.evaluate" (Some "gone") (Some "T6") None)
                                  two_tabs_one_worker two_tabs_ids_truthy))) "T6" 6);
      [right; split; vm_compute; reflexivity|reflexivity|discriminate|].
    eexists [_], _, []. split_and!; [vm_compute; reflexivity|reflexivity|].
    repeat constructor. discriminate.
  - vm_compute. reflexivity.
Defined.

(** ** The persisted snapshot *)

Lemma persisted_entry_Some tabId tab p :
  persisted_entry tabId tab = Some p ↔
  state tab = connected ∧ Js.truthy_opt (sessionId tab) = true ∧
  Js.truthy_opt (targetId tab) = true ∧
  p = mkPersistedTab tabId (default "" (sessionId tab)) (default "" (targetId tab))
        (default 0 (attachOrder tab)).
Proof.
  unfold persisted_entry.
  destruct (state tab), (sessionId tab) as [sid|], (targetId tab) as [tid|]; simpl;
    try (split; [done|by intros (?&?&?&?)]).
  destruct (Js.truthy_string sid), (Js.truthy_string tid); simpl;
    try (split; [done|by intros (?&?&?&?)]).
  split; [by intros [= <-]|by intros (_&_&_&->)].
Qed.

Lemma snapshot_elem m p :
  p ∈ snapshot m ↔ ∃ tab, (p_tabId p, tab) ∈ m ∧ persisted_entry (p_tabId p) tab = Some p.
Proof.
  unfold snapshot. rewrite list_elem_of_omap. split.
  - intros ([t tab] & Hin & Hp). simpl in Hp.
    assert (p_tabId p = t) as ->.
    { apply persisted_entry_Some in Hp as (_&_&_&->). done. }
    by exists tab.
  - intros (tab & Hin & Hp). by exists (p_tabId p, tab).
Qed.

Lemma snapshot_ids_sublist m : map p_tabId (snapshot m) `sublist_of` JsMap.keys m.
Proof.
  induction m as [|[t tab] m IH]; simpl; [done|].
  unfold snapshot. simpl. destruct (persisted_entry t tab) as [p|] eqn:Hp; simpl.
  - apply persisted_entry_Some in Hp as (_&_&_&->). simpl. by apply sublist_skip.
  - by apply sublist_cons.
Qed.

Lemma snapshot_ids_NoDup m : NoDup (JsMap.keys m) → NoDup (map p_tabId (snapshot m)).
Proof. intros Hnd. eapply sublist_NoDup; [exact Hnd|apply snapshot_ids_sublist]. Qed.

(** The tab table after the first loop of [rehydrateState]. *)
Lemma rehydrate_put_tabs entries s t :
  NoDup (map p_tabId entries) →
  JsMap.get (tabs (foldl rehydrate_put s entries)) t =
  match list_find (λ p, p_tabId p = t) entries with
  | Some (_, p) => Some (restored_tab p)
  | None => JsMap.get (tabs s) t
  end.
Proof.
  revert s. induction entries as [|p l IH]; intros s Hnd; simpl; [done|].
  apply NoDup_cons in Hnd as [Hp Hnd]. rewrite IH by done.
  destruct (decide (p_tabId p = t)) as [<-|Hne]; simpl.
  - assert (list_find (λ q, p_tabId q = p_tabId p) l = None) as ->.
    { apply list_find_None, Forall_forall. intros q Hq Heq. apply Hp.
      rewrite <- Heq. apply list_elem_of_fmap. by exists q. }
    simpl. apply get_set_eq.
  - destruct (list_find _ l) as [[i q]|]; simpl; [done|].
    by apply get_set_ne.
Qed.

(** The tab table after the second loop. *)
Lemma rehydrate_probe_tabs alive entries s t :
  JsMap.get (tabs (foldl (rehydrate_probe alive) s entries)) t =
  if bool_decide (t ∈ map p_tabId entries) && negb (alive t) then None
  else JsMap.get (tabs s) t.
Proof.
  revert s. induction entries as [|p l IH]; intros s; simpl; [done|].
  rewrite IH. unfold rehydrate_probe.
  destruct (decide (p_tabId p = t)) as [<-|Hne].
  - rewrite (bool_decide_true (_ ∈ _ :: _)) by left.
    destruct (alive (p_tabId p)) eqn:Halive; simpl.
    + by rewrite andb_false_r.
    + rewrite andb_true_r. case_bool_decide; [done|]. apply get_delete_eq.
  - assert (bool_decide (t ∈ p_tabId p :: map p_tabId l) = bool_decide (t ∈ map p_tabId l)) as ->.
    { apply bool_decide_ext. rewrite elem_of_cons.
      split; [intros [?|?]; [congruence|done]|by right]. }
    destruct (_ && _); [done|].
    destruct (alive (p_tabId p)); [done|]. simpl. by apply get_delete_ne.
Qed.

Lemma persisted_entry_id t tab p : persisted_entry t tab = Some p → p_tabId p = t.
Proof. by intros (_&_&_&->)%persisted_entry_Some. Qed.

(** Looking a tab up in the snapshot is persisting its entry. *)
Lemma snapshot_lookup m t :
  NoDup (JsMap.keys m) →
  snd <$> list_find (λ p, p_tabId p = t) (snapshot m) = JsMap.get m t ≫= persisted_entry t.
Proof.
  intros Hnd. destruct (list_find _ _) as [[i p]|] eqn:Hf; simpl.
  - apply list_find_Some in Hf as (Hi & <- & _).
    apply list_elem_of_lookup_2, snapshot_elem in Hi as (tab & Hin & Hp).
    by rewrite (NoDup_get _ _ _ Hnd Hin).
  - destruct (JsMap.get m t) as [tab|] eqn:Hg; simpl; [|done].
    destruct (persisted_entry t tab) as [p|] eqn:Hp; [|done].
    exfalso. apply list_find_None in Hf. rewrite Forall_forall in Hf.
    apply (Hf p); [|by eapply persisted_entry_id].
    apply snapshot_elem. exists tab. rewrite (persisted_entry_id _ _ _ Hp).
    split; [by apply get_Some_In|done].
Qed.

(** The tab table [rehydrateState] rebuilds after a restart from what
    [persistState] stored. *)
Lemma rehydrate_after_persist s alive t :
  NoDup (JsMap.keys (tabs s)) → storageAvailable s = true →
  JsMap.get (tabs (rehydrateState alive (restarted (persistState s)))) t =
  if alive t then restored_tab <$> (JsMap.get (tabs s) t ≫= persisted_entry t) else None.
Proof.
  intros Hnd Hst. unfold persistState. rewrite Hst. unfold rehydrateState, restarted. simpl.
  set (s1 := if Js.truthy_int (nextSession s) then _ else _).
  assert (tabs s1 = []) as Hs1 by (unfold s1; by destruct (Js.truthy_int _)).
  rewrite rehydrate_probe_tabs, rehydrate_put_tabs, Hs1 by by apply snapshot_ids_NoDup.
  rewrite <- (snapshot_lookup _ t Hnd).
  destruct (list_find _ _) as [[i p]|] eqn:Hf; simpl.
  - apply list_find_Some in Hf as (Hi & <- & _).
    rewrite bool_decide_true.
    + by destruct (alive (p_tabId p)).
    + apply list_elem_of_fmap. exists p. split; [done|]. by eapply list_elem_of_lookup_2.
  - by destruct (_ && _), (alive t).
Qed.

(** C6. With a tab table whose entries carry a session id and a target id,
    [persistState] stores exactly the connected tabs, each with its session
    id, target id and attach order: no entry in state "connecting" is
    stored.  After a restart, [rehydrateState] rebuilds from that snapshot
    the same tab -> session (and target) mapping for every connected tab
    that passes the liveness probe, as a connected entry; the tabs that fail
    the probe, and the tabs that were not connected, have no entry. *)
Theorem snapshot_round_trip (s : State) (alive : Z → bool) :
  table_wf s → storageAvailable s = true →
  let s' := rehydrateState alive (restarted (persistState s)) in
  sessionStore (persistState s) = Some (snapshot (tabs s), nextSession s) ∧
  (∀ p, p ∈ snapshot (tabs s) ↔
        ∃ tab, JsMap.get (tabs s) (p_tabId p) = Some tab ∧ state tab = connected ∧
               sessionId tab = Some (p_sessionId p) ∧ targetId tab = Some (p_targetId p) ∧
               p_attachOrder p = default 0 (attachOrder tab)) ∧
  (∀ t tab, JsMap.get (tabs s) t = Some tab → state tab = connected → alive t = true →
        ∃ tab', JsMap.get (tabs s') t = Some tab' ∧ state tab' = connected ∧
                sessionId tab' = sessionId tab ∧ targetId tab' = targetId tab) ∧
  (∀ t tab', JsMap.get (tabs s') t = Some tab' →
        alive t = true ∧
        ∃ tab, JsMap.get (tabs s) t = Some tab ∧ state tab = connected ∧
               sessionId tab' = sessionId tab ∧ targetId tab' = targetId tab).
Proof.
  intros [Hnd Hfull] Hst s'. split_and!.
  - unfold persistState. by rewrite Hst.
  - intros p. rewrite snapshot_elem. split.
    + intros (tab & Hin & Hp). exists tab.
      apply persisted_entry_Some in Hp as (Hc & Hs & Ht & Hp).
      rewrite (NoDup_get _ _ _ Hnd Hin). rewrite Hp. simpl.
      destruct (sessionId tab), (targetId tab); done.
    + intros (tab & Hg & Hc & Hs & Ht & Ho). exists tab.
      apply get_Some_In in Hg. split; [done|].
      destruct (Hfull _ _ Hg) as [Hs' Ht'].
      apply persisted_entry_Some. split_and!; try done.
      destruct p. simpl in *. by rewrite Hs, Ht, Ho.
  - intros t tab Hg Hc Halive. unfold s'.
    rewrite (rehydrate_after_persist s alive t Hnd Hst), Halive, Hg. simpl.
    destruct (Hfull _ _ (get_Some_In _ _ _ Hg)) as [Hs Ht].
    destruct (persisted_entry t tab) as [p|] eqn:Hp.
    + apply persisted_entry_Some in Hp as (_&_&_&->). eexists. split; [done|]. simpl.
      destruct (sessionId tab), (targetId tab); done.
    + exfalso. destruct (persisted_entry_Some t tab
        (mkPersistedTab t (default "" (sessionId tab)) (default "" (targetId tab))
           (default 0 (attachOrder tab)))) as [_ Hex].
      by rewrite Hex in Hp.
  - intros t tab'. unfold s'. rewrite (rehydrate_after_persist s alive t Hnd Hst).
    destruct (alive t); [|done]. intros Hg. split; [done|].
    destruct (JsMap.get (tabs s) t) as [tab|] eqn:Hg0; [|done]. simpl in Hg.
    destruct (persisted_entry t tab) as [p|] eqn:Hp; [|done].
    injection Hg as <-. exists tab.
    apply persisted_entry_Some in Hp as (Hc & Hs & Ht & ->). simpl.
    split_and!; [done|done| |]; destruct (sessionId tab), (targetId tab); done.
Qed.

Lemma table_wf_Forall s :
  NoDup (JsMap.keys (tabs s)) →
  Forall (λ kv, Js.truthy_opt (sessionId kv.2) = true ∧ Js.truthy_opt (targetId kv.2) = true)
         (tabs s) →
  table_wf s.
Proof.
  intros Hnd Hall. split; [done|]. rewrite Forall_forall in Hall.
  intros t tab Hin. apply (Hall _ Hin).
Qed.

Lemma snapshot_round_trip_witness :
  table_wf two_tabs_one_worker ∧
  sessionStore (persistState two_tabs_one_worker) =
    Some (snapshot (tabs two_tabs_one_worker), nextSession two_tabs_one_worker).
Proof.
  assert (table_wf two_tabs_one_worker) as Hwf.
  { apply table_wf_Forall.
    - apply (bool_decide_unpack _). by vm_compute.
    - vm_compute. repeat constructor. }
  split; [exact Hwf|].
  exact (proj1 (snapshot_round_trip two_tabs_one_worker (λ _, true) Hwf eq_refl)).
Defined.

(** ** The reattach protocol *)

Lemma grows_refl s : grows s s [].
Proof. exists []. by rewrite app_nil_r. Qed.

Lemma grows_same s s' : trace s' = trace s → grows s s' [].
Proof. intros Ht. exists []. by rewrite app_nil_r. Qed.

Lemma grows_trans s1 s2 s3 v v' :
  grows s1 s2 v → grows s2 s3 v' → grows s1 s3 (v ++ v').
Proof.
  intros (g & Hg & <-) (g' & Hg' & <-). exists (g ++ g')%list.
  rewrite Hg', Hg, <- app_assoc. split; [done|]. unfold protocol_view. apply filter_app.
Qed.

Lemma grows_trans_nil_l s1 s2 s3 v : grows s1 s2 [] → grows s2 s3 v → grows s1 s3 v.
Proof. intros H1 H2. apply (grows_trans _ _ _ _ _ H1 H2). Qed.

Lemma grows_trans_nil_r s1 s2 s3 v : grows s1 s2 v → grows s2 s3 [] → grows s1 s3 v.
Proof. intros H1 H2. rewrite <- (app_nil_r v). apply (grows_trans _ _ _ _ _ H1 H2). Qed.

Lemma grows_emit e s : grows s (emit e s) (protocol_view [e]).
Proof. by exists [e]. Qed.

Lemma grows_try_send f s : grows s (try_send f s) [].
Proof.
  unfold try_send, sendToRelay. destruct (relayOpen s); [|apply grows_refl].
  apply (grows_emit (ESend f)).
Qed.

Lemma grows_persistState s : grows s (persistState s) [].
Proof. apply grows_same. unfold persistState. by destruct (storageAvailable s). Qed.

Lemma grows_foldl_nil {A} (f : State → A → State) (l : list A) s :
  (∀ acc x, grows acc (f acc x) []) → grows s (foldl f s l) [].
Proof.
  intros Hf. revert s. induction l as [|x l IH]; intros s; simpl; [apply grows_refl|].
  eapply grows_trans_nil_l; [apply Hf|apply IH].
Qed.

Lemma grows_announce_detached tab reason s : grows s (announce_detached tab reason s) [].
Proof.
  unfold announce_detached.
  destruct (tab ≫= sessionId), (tab ≫= targetId); try apply grows_refl.
  destruct (_ && _); [apply grows_try_send|apply grows_refl].
Qed.

Lemma grows_drop_session_of tab s : grows s (drop_session_of tab s) [].
Proof.
  apply grows_same. unfold drop_session_of.
  destruct (tab ≫= sessionId) as [sid|]; [|done]. by destruct (Js.truthy_string sid).
Qed.

Lemma grows_attachTab tabId skip e s :
  grows s (attachTab tabId skip e s).1 [EDebuggerAttach tabId].
Proof.
  unfold attachTab. pose proof (grows_emit (EDebuggerAttach tabId) s) as Hemit.
  destruct (debugger_attaches e); simpl; [|done].
  destruct (target_info e); [|done].
  destruct (Js.truthy_string _); simpl; [|done].
  eapply grows_trans_nil_r; [|apply grows_persistState].
  eapply grows_trans_nil_r; [|by apply grows_same].
  destruct skip.
  - eapply grows_trans_nil_r; [exact Hemit|by apply grows_same].
  - eapply grows_trans_nil_r; [|apply grows_try_send].
    eapply grows_trans_nil_r; [exact Hemit|by apply grows_same].
Qed.

Lemma grows_onRelayClosed sample s : grows s (onRelayClosed sample s) [].
Proof.
  unfold onRelayClosed. eapply grows_trans_nil_r; [|by apply grows_same].
  eapply (grows_trans_nil_l _ (with_reattachPending ∅ (with_relayOpen false s)));
    [by apply grows_same|].
  apply grows_foldl_nil. intros acc kv. case_bool_decide; [by apply grows_same|apply grows_refl].
Qed.

Lemma grows_ensureRelayConnection e s : grows s (ensureRelayConnection e s).1 [].
Proof.
  apply grows_same. unfold ensureRelayConnection.
  destruct (relayOpen s); [done|]. destruct (relayConnectPromise s).
  - by destruct (inflight e).
  - by destruct (connect_body e).
Qed.

Lemma grows_onTabRemoved tabId s : grows s (onTabRemoved tabId s) [].
Proof.
  unfold onTabRemoved. destruct (negb _); [by apply grows_same|].
  eapply grows_trans_nil_r; [|apply grows_persistState].
  eapply grows_trans_nil_r; [|apply grows_announce_detached].
  eapply grows_trans_nil_r; [|by apply grows_same].
  eapply grows_trans_nil_r; [|by apply grows_same].
  eapply grows_trans_nil_l; [|apply grows_drop_session_of]. by apply grows_same.
Qed.

Lemma grows_interleave s i : grows s (interleave s i) [].
Proof.
  destruct i; simpl;
    [|apply grows_ensureRelayConnection|apply grows_onTabRemoved].
  destruct (relayOpen s); [apply grows_onRelayClosed|apply grows_refl].
Qed.

Lemma grows_begin_reattach tabId s : grows s (begin_reattach tabId s) [].
Proof.
  unfold begin_reattach.
  eapply grows_trans_nil_r; [|by apply grows_same].
  eapply grows_trans_nil_r; [|by apply grows_same].
  eapply grows_trans_nil_r; [|apply grows_announce_detached].
  eapply grows_trans_nil_r; [|by apply grows_same].
  eapply grows_trans_nil_r; [|by apply grows_same].
  apply grows_drop_session_of.
Qed.

Lemma round_snoc (d : Z) (n : nat) (a : Effect) (v : list Effect) :
  (((ESleep d :: replicate n a) ++ [a]) ++ v = ESleep d :: replicate (S n) a ++ v)%list.
Proof. rewrite replicate_S_end. simpl. by rewrite <- !app_assoc. Qed.

Lemma not_pending_after_clear (tabId : Z) (s : State) :
  tabId ∉ reattachPending (clear_pending tabId s).
Proof. intros [_ Hn]%elem_of_difference. apply Hn. by apply elem_of_singleton. Qed.

(** Whatever happens around it, the loop waits the fixed delays in order,
    asks for at most two attaches after each, and ends with the tab out of
    the Pending Reattach set. *)
Lemma reattach_loop_shape tabId attempt ds env s :
  (∃ v, grows s (reattach_loop tabId attempt ds env s) v ∧ well_timed tabId ds v) ∧
  tabId ∉ reattachPending (reattach_loop tabId attempt ds env s).
Proof.
  revert attempt s. induction ds as [|d ds IH]; intros attempt s; simpl.
  { split; [|apply not_pending_after_clear].
    exists []. split; [by apply grows_same|constructor]. }
  set (s1 := foldl interleave _ _).
  assert (grows s s1 [ESleep d]) as Hs1.
  { eapply grows_trans_nil_r; [apply (grows_emit (ESleep d))|].
    apply grows_foldl_nil. intros; apply grows_interleave. }
  assert (∀ s2 n, (n ≤ 1)%nat →
            grows s s2 (ESleep d :: replicate n (EDebuggerAttach tabId)) →
            let r := match attachTab tabId false (attach_loud (env attempt)) s2 with
                     | (s3, Returned _) => clear_pending tabId s3
                     | (s3, Thrown _) => reattach_loop tabId (S attempt) ds env s3
                     end in
            (∃ v, grows s r v ∧ well_timed tabId (d :: ds) v) ∧ tabId ∉ reattachPending r)
    as Hloud.
  { intros s2 n Hn Hs2.
    pose proof (grows_attachTab tabId false (attach_loud (env attempt)) s2) as Hat.
    destruct (attachTab _ _ _ s2) as [s3 [r|m]]; simpl in *.
    - split; [|apply not_pending_after_clear].
      exists (ESleep d :: replicate (S n) (EDebuggerAttach tabId) ++ []). split.
      + rewrite <- round_snoc. eapply grows_trans_nil_r; [|by apply grows_same].
        rewrite app_nil_r. apply (grows_trans _ _ _ _ _ Hs2 Hat).
      + constructor; [lia|constructor].
    - destruct (IH (S attempt) s3) as [(v & Hv & Hwt) Hp]. split; [|done].
      exists (ESleep d :: replicate (S n) (EDebuggerAttach tabId) ++ v). split.
      + rewrite <- round_snoc.
        apply (grows_trans _ _ _ _ _ (grows_trans _ _ _ _ _ Hs2 Hat) Hv).
      + constructor; [lia|done]. }
  case_bool_decide as Hpend; simpl; last first.
  { split; [|done]. exists (ESleep d :: replicate 0 (EDebuggerAttach tabId) ++ []).
    split; [done|]. constructor; [lia|constructor]. }
  destruct (tab_exists (env attempt)); simpl; last first.
  { split; [|apply not_pending_after_clear].
    exists (ESleep d :: replicate 0 (EDebuggerAttach tabId) ++ []).
    split; [|constructor; [lia|constructor]].
    eapply grows_trans_nil_r; [exact Hs1|by apply grows_same]. }
  destruct (relayOpen s1); cbn [negb]; [apply (Hloud s1 0%nat); [lia|exact Hs1]|].
  pose proof (grows_attachTab tabId true (attach_quiet (env attempt)) s1) as Hq.
  destruct (attachTab tabId true _ s1) as [s2 [r|m]]; simpl in Hq.
  - split; [|apply not_pending_after_clear].
    exists (ESleep d :: replicate 1 (EDebuggerAttach tabId) ++ []).
    split; [|constructor; [lia|constructor]].
    eapply grows_trans_nil_r; [|by apply grows_same].
    apply (grows_trans _ _ _ _ _ Hs1 Hq).
  - apply (Hloud s2 1%nat); [lia|]. apply (grows_trans _ _ _ _ _ Hs1 Hq).
Qed.

Lemma sleeps_app (a b : list Effect) : sleeps (a ++ b) = (sleeps a ++ sleeps b)%list.
Proof. unfold sleeps. apply omap_app. Qed.

Lemma sleeps_cons (e : Effect) (t : list Effect) :
  sleeps (e :: t) = match e with ESleep d => d :: sleeps t | _ => sleeps t end.
Proof. by destruct e. Qed.

Lemma sleeps_view (t : list Effect) : sleeps (protocol_view t) = sleeps t.
Proof.
  induction t as [|e t IH]; [done|]. unfold protocol_view in *.
  destruct e;
    first [rewrite filter_cons_True by done | rewrite filter_cons_False by done];
    rewrite ?sleeps_cons; by rewrite IH.
Qed.

Lemma sleeps_replicate_attach n tabId : sleeps (replicate n (EDebuggerAttach tabId)) = [].
Proof. induction n; [done|]. simpl. done. Qed.

Lemma attachTab_fails tabId skip e s :
  attach_ok e = false →
  ∃ m, attachTab tabId skip e s = (emit (EDebuggerAttach tabId) s, Thrown m).
Proof.
  unfold attach_ok, attachTab. destruct (debugger_attaches e); simpl; [|by eexists].
  destruct (target_info e) as [info|m]; [|by eexists].
  intros ->. simpl. by eexists.
Qed.

Lemma attachTab_succeeds tabId skip e s :
  attach_ok e = true →
  ∃ s' r, attachTab tabId skip e s = (s', Returned r) ∧
          (∃ tab, JsMap.get (tabs s') tabId = Some tab ∧ state tab = connected
                  ∧ is_Some (sessionId tab)) ∧
          reattachPending s' = reattachPending s.
Proof.
  intros Hok. destruct (attachTab tabId skip e s) as [s' r] eqn:Hat.
  pose proof Hat as Htab%attachTab_table.
  unfold attach_ok, attachTab in *. destruct (debugger_attaches e); [|done]. simpl in *.
  destruct (target_info e) as [info|m]; [|done]. rewrite Hok in Hat. simpl in Hat.
  injection Hat as <- <-. destruct Htab as (_ & tab & Hs & _ & Hc & _ & Ht & _).
  eexists _, _. split; [done|]. split.
  - exists tab. rewrite Ht, get_set_eq. split_and!; [done|done|by rewrite Hs].
  - unfold persistState. destruct (storageAvailable _); simpl;
      destruct skip; simpl; unfold try_send, sendToRelay; simpl;
      by destruct (relayOpen s).
Qed.

(** A retry that finds the tab and fails to attach hands over to the next
    one with nothing changed but the trace. *)
Lemma loop_retry_fails tabId a d ds env s :
  during_delay (env a) = [] → tabId ∈ reattachPending s →
  tab_exists (env a) = true → retry_succeeds (negb (relayOpen s)) (env a) = false →
  ∃ s1 seg, frame s s1 ∧ trace s1 = (trace s ++ seg)%list ∧ sleeps seg = [d] ∧
            reattach_loop tabId a (d :: ds) env s = reattach_loop tabId (S a) ds env s1.
Proof.
  intros Hq Hp He Hf. simpl. rewrite Hq, He. simpl.
  rewrite bool_decide_true by done. simpl.
  unfold retry_succeeds in Hf. apply orb_false_iff in Hf as [Hquiet Hloud].
  destruct (relayOpen s) eqn:Ho; simpl in *.
  - destruct (attachTab_fails tabId false _ (emit (ESleep d) s) Hloud) as [m ->].
    exists (emit (EDebuggerAttach tabId) (emit (ESleep d) s)),
           [ESleep d; EDebuggerAttach tabId].
    split_and!; try done. simpl. by rewrite <- ?app_assoc.
  - destruct (attachTab_fails tabId true _ (emit (ESleep d) s) Hquiet) as [m ->].
    destruct (attachTab_fails tabId false _
                (emit (EDebuggerAttach tabId) (emit (ESleep d) s)) Hloud) as [m' ->].
    exists (emit (EDebuggerAttach tabId) (emit (EDebuggerAttach tabId) (emit (ESleep d) s))),
           [ESleep d; EDebuggerAttach tabId; EDebuggerAttach tabId].
    split_and!; try done. simpl. by rewrite <- ?app_assoc.
Qed.

Lemma frame_trans s1 s2 s3 : frame s1 s2 → frame s2 s3 → frame s1 s3.
Proof. intros (?&?&?&?) (?&?&?&?). split_and!; congruence. Qed.

(** [i] failed retries in a row. *)
Lemma loop_failed_prefix tabId env (i : nat) : ∀ a ds s,
  (i ≤ length ds)%nat →
  (∀ j, (j < i)%nat → during_delay (env (a + j)%nat) = [] ∧ tab_exists (env (a + j)%nat) = true
                     ∧ retry_succeeds (negb (relayOpen s)) (env (a + j)%nat) = false) →
  tabId ∈ reattachPending s →
  ∃ s1 seg, frame s s1 ∧ trace s1 = (trace s ++ seg)%list ∧ sleeps seg = take i ds ∧
            reattach_loop tabId a ds env s = reattach_loop tabId (a + i) (drop i ds) env s1.
Proof.
  induction i as [|i IH]; intros a ds s Hlen Hfail Hp.
  { exists s, []. rewrite Nat.add_0_r, app_nil_r. by split_and!. }
  destruct ds as [|d ds]; [simpl in Hlen; lia|].
  destruct (Hfail 0%nat ltac:(lia)) as (Hq & He & Hf). rewrite Nat.add_0_r in Hq, He, Hf.
  destruct (loop_retry_fails tabId a d ds env s Hq Hp He Hf)
    as (s1 & seg1 & Hfr & Ht1 & Hs1 & ->).
  destruct Hfr as (Hft & Hfp & Hfb & Hfo).
  destruct (IH (S a) ds s1) as (s2 & seg2 & Hfr2 & Ht2 & Hs2 & ->).
  - simpl in Hlen. lia.
  - intros j Hj. rewrite Hfo. replace (S a + j)%nat with (a + S j)%nat by lia.
    apply Hfail. lia.
  - by rewrite Hfp.
  - exists s2, (seg1 ++ seg2)%list. split_and!.
    + by apply (frame_trans s s1 s2).
    + by rewrite Ht2, Ht1, <- app_assoc.
    + by rewrite sleeps_app, Hs1, Hs2.
    + simpl. by replace (a + S i)%nat with (S a + i)%nat by lia.
Qed.

Lemma grows_sleeps s s' v :
  grows s s' v → ∃ seg, trace s' = (trace s ++ seg)%list ∧ sleeps seg = sleeps v.
Proof. intros (seg & Ht & <-). exists seg. by rewrite sleeps_view. Qed.

Section Scenarios.
Variables (tabId : Z) (env : nat → RetryEnv) (ds : list Z) (s0 : State).
Hypothesis Hpending : tabId ∈ reattachPending s0.

Let result : State := reattach_loop tabId 0 ds env s0.

Lemma failed_prefix_from_start (i : nat) :
  (i ≤ length ds)%nat → fails_before env s0 i →
  ∃ s1 seg, frame s0 s1 ∧ trace s1 = (trace s0 ++ seg)%list ∧ sleeps seg = take i ds ∧
            result = reattach_loop tabId i (drop i ds) env s1.
Proof using Hpending.
  intros Hlen [Hq Hf]. apply (loop_failed_prefix tabId env i 0 ds s0 Hlen); [|done].
  intros j Hj. simpl. split; [apply Hq; lia|by apply Hf].
Qed.

(** The tab is gone at retry [i]: the protocol stops right after the
    delay, without an attach. *)
Lemma loop_tab_gone (i : nat) (d : Z) :
  ds !! i = Some d → fails_before env s0 i → tab_exists (env i) = false →
  ∃ seg, trace result = (trace s0 ++ seg)%list ∧ sleeps seg = take (S i) ds ∧
         last seg = Some (ESleep d) ∧ tabs result = tabs s0 ∧
         JsMap.get (badges result) tabId = Some badge_off ∧
         tabId ∉ reattachPending result.
Proof using Hpending.
  intros Hd Hfb Hgone.
  destruct (failed_prefix_from_start i) as (s1 & seg & (Hft & Hfp & _ & _) & Ht & Hs & ->);
    [apply lookup_lt_Some in Hd; lia|done|].
  rewrite (drop_S _ _ _ Hd). simpl. rewrite (proj1 Hfb i) by lia. simpl.
  rewrite Hfp, bool_decide_true, Hgone by done. simpl.
  exists (seg ++ [ESleep d])%list. split_and!.
  - by rewrite Ht, <- app_assoc.
  - by rewrite sleeps_app, Hs, (take_S_r _ _ _ Hd).
  - apply last_snoc.
  - done.
  - apply get_set_eq.
  - apply not_pending_after_clear.
Qed.

(** Retry [i] attaches: the protocol stops there, with the tab connected
    under a session. *)
Lemma loop_attached (i : nat) (d : Z) :
  ds !! i = Some d → fails_before env s0 i → tab_exists (env i) = true →
  retry_succeeds (negb (relayOpen s0)) (env i) = true →
  ∃ seg, trace result = (trace s0 ++ seg)%list ∧ sleeps seg = take (S i) ds ∧
         (∃ tab, JsMap.get (tabs result) tabId = Some tab ∧ state tab = connected
                 ∧ is_Some (sessionId tab)) ∧
         tabId ∉ reattachPending result.
Proof using Hpending.
  intros Hd Hfb Hthere Hok.
  destruct (failed_prefix_from_start i) as (s1 & seg & (Hft & Hfp & _ & Hfo) & Ht & Hs & ->);
    [apply lookup_lt_Some in Hd; lia|done|].
  rewrite (drop_S _ _ _ Hd). simpl. rewrite (proj1 Hfb i) by lia. simpl.
  rewrite Hfp, bool_decide_true, Hthere, Hfo by done. simpl.
  assert (∀ skip e s2 segq,
            attach_ok e = true → trace s2 = (trace s0 ++ segq)%list →
            sleeps segq = take (S i) ds →
            ∃ s3 r, attachTab tabId skip e s2 = (s3, Returned r) ∧
              ∃ seg', trace (clear_pending tabId s3) = (trace s0 ++ seg')%list ∧
                      sleeps seg' = take (S i) ds ∧
                      (∃ tab, JsMap.get (tabs (clear_pending tabId s3)) tabId = Some tab
                              ∧ state tab = connected ∧ is_Some (sessionId tab)) ∧
                      tabId ∉ reattachPending (clear_pending tabId s3)) as Hwin.
  { intros skip e s2 segq Hattach Hq Hsq.
    destruct (attachTab_succeeds tabId skip e s2 Hattach) as (s3 & r & Hat & Htab & _).
    exists s3, r. split; [done|].
    pose proof (grows_attachTab tabId skip e s2) as Hg. rewrite Hat in Hg.
    apply grows_sleeps in Hg as (sega & Hta & Hsa).
    exists (segq ++ sega)%list. split_and!.
    - simpl in *. by rewrite Hta, Hq, <- app_assoc.
    - rewrite sleeps_app, Hsq, Hsa. simpl. by rewrite app_nil_r.
    - done.
    - apply not_pending_after_clear. }
  assert (trace (emit (ESleep d) s1) = (trace s0 ++ (seg ++ [ESleep d]))%list) as Htr
    by (simpl; by rewrite Ht, <- app_assoc).
  assert (sleeps (seg ++ [ESleep d]) = take (S i) ds) as Hsl
    by (by rewrite sleeps_app, Hs, (take_S_r _ _ _ Hd)).
  unfold retry_succeeds in Hok.
  destruct (relayOpen s0); cbn [negb andb orb] in Hok |- *.
  - destruct (Hwin false _ _ _ Hok Htr Hsl) as (s3 & r & -> & Hres). exact Hres.
  - destruct (attach_ok (attach_quiet (env i))) eqn:Hquiet; simpl in Hok.
    + destruct (Hwin true _ _ _ Hquiet Htr Hsl) as (s3 & r & -> & Hres). exact Hres.
    + destruct (attachTab_fails tabId true _ (emit (ESleep d) s1) Hquiet) as [m ->].
      destruct (Hwin false (attach_loud (env i))
                  (emit (EDebuggerAttach tabId) (emit (ESleep d) s1))
                  (seg ++ [ESleep d; EDebuggerAttach tabId])%list Hok)
        as (s3 & r & -> & Hres); [| |exact Hres].
      * simpl. by rewrite Ht, <- !app_assoc.
      * by rewrite sleeps_app, Hs, (take_S_r _ _ _ Hd).
Qed.

(** Every retry finds the tab and fails to attach: after the last delay
    the tab is left without an entry, its badge off. *)
Lemma loop_exhausted :
  fails_before env s0 (length ds) →
  ∃ seg, trace result = (trace s0 ++ seg)%list ∧ sleeps seg = ds ∧
         tabs result = tabs s0 ∧
         JsMap.get (badges result) tabId = Some badge_off ∧
         tabId ∉ reattachPending result.
Proof using Hpending.
  intros Hfb.
  destruct (failed_prefix_from_start (length ds))
    as (s1 & seg & (Hft & Hfp & _ & _) & Ht & Hs & ->); [done|done|].
  rewrite drop_all. simpl. exists seg. split_and!; try done.
  - by rewrite Hs, firstn_all.
  - apply get_set_eq.
  - apply not_pending_after_clear.
Qed.

End Scenarios.

Lemma onDebuggerDetach_recoverable tabId reason info env s :
  recoverable_detach tabId reason info s →
  onDebuggerDetach (Some tabId) reason (Some info) env s =
  reattach_loop tabId 0 delays env (begin_reattach tabId s).
Proof.
  intros (Hid & Hhas & Hreason & Hurl & Hpend). unfold onDebuggerDetach.
  rewrite (truthy_int_ne _ Hid), Hhas, Hreason, Hurl. simpl.
  by rewrite bool_decide_false.
Qed.

Lemma begin_reattach_state tabId s :
  tabId ∈ reattachPending (begin_reattach tabId s) ∧
  tabs (begin_reattach tabId s) = JsMap.delete (tabs s) tabId ∧
  relayOpen (begin_reattach tabId s) = relayOpen s.
Proof.
  split_and!.
  - unfold begin_reattach. simpl. set_solver.
  - unfold begin_reattach. simpl.
    rewrite (proj1 (announce_detached_same_table _ _ _)). simpl.
    unfold drop_session_of. destruct (_ ≫= sessionId) as [sid|]; [|done].
    by destruct (Js.truthy_string sid).
  - apply same_conn_begin_reattach.
Qed.

Lemma fails_before_relay env s s0 i :
  relayOpen s0 = relayOpen s → fails_before env s i → fails_before env s0 i.
Proof. unfold fails_before. by intros ->. Qed.

(** C2. After an involuntary recoverable detach the reattach protocol
    waits 300 ms, 700 ms and 1500 ms, in this order, before its first,
    second and third retry, runs no fourth retry, asks the debugger to
    attach only after a delay (at most twice per retry: once without and
    once with the announcement when the relay is down), and always ends
    with the tab out of the Pending Reattach set.  When no other handler
    interferes and the earlier retries found the tab but failed to attach:
    a retry that finds the tab gone stops the protocol right after its
    delay, without an attach, the tab untracked and its badge off; a retry
    whose attach succeeds stops the protocol with the tab connected under
    a session; and when all three retries fail the tab is left untracked
    with its badge off. *)
Theorem reattach_protocol (tabId : Z) (reason : string) (info : TabInfo)
    (env : nat → RetryEnv) (s : State) :
  recoverable_detach tabId reason info s →
  let s' := onDebuggerDetach (Some tabId) reason (Some info) env s in
  (∃ seg, trace s' = (trace s ++ seg)%list ∧
          well_timed tabId [300; 700; 1500] (protocol_view seg)) ∧
  (tabId ∉ reattachPending s') ∧
  (∀ i d, [300; 700; 1500] !! i = Some d → fails_before env s i →
     tab_exists (env i) = false →
     ∃ seg, trace s' = (trace s ++ seg)%list ∧ sleeps seg = take (S i) [300; 700; 1500] ∧
            last seg = Some (ESleep d) ∧ JsMap.has (tabs s') tabId = false ∧
            JsMap.get (badges s') tabId = Some badge_off) ∧
  (∀ i d, [300; 700; 1500] !! i = Some d → fails_before env s i →
     tab_exists (env i) = true → retry_succeeds (negb (relayOpen s)) (env i) = true →
     ∃ seg, trace s' = (trace s ++ seg)%list ∧ sleeps seg = take (S i) [300; 700; 1500] ∧
            (∃ tab, JsMap.get (tabs s') tabId = Some tab ∧ state tab = connected
                    ∧ is_Some (sessionId tab))) ∧
  (fails_before env s 3 →
     ∃ seg, trace s' = (trace s ++ seg)%list ∧ sleeps seg = [300; 700; 1500] ∧
            JsMap.has (tabs s') tabId = false ∧
            JsMap.get (badges s') tabId = Some badge_off).
Proof.
  intros Hrec s'. unfold s'. rewrite (onDebuggerDetach_recoverable _ _ _ _ _ Hrec).
  destruct (begin_reattach_state tabId s) as (Hp0 & Ht0 & Ho0).
  destruct (grows_begin_reattach tabId s) as (seg0 & Htr0 & Hv0).
  assert (sleeps seg0 = []) as Hsl0 by (by rewrite <- sleeps_view, Hv0).
  assert (JsMap.has (JsMap.delete (tabs s) tabId) tabId = false) as Hgone
    by (apply has_false, get_delete_eq).
  change delays with [300; 700; 1500] in *.
  split_and!.
  - destruct (reattach_loop_shape tabId 0 [300; 700; 1500] env (begin_reattach tabId s))
      as [(v & (seg & Htr & Hv) & Hwt) _].
    exists (seg0 ++ seg)%list. split; [by rewrite Htr, Htr0, <- app_assoc|].
    unfold protocol_view in *. by rewrite filter_app, Hv0, Hv.
  - apply reattach_loop_shape.
  - intros i d Hd Hfb Hex.
    destruct (loop_tab_gone tabId env [300; 700; 1500] _ Hp0 i d Hd
                (fails_before_relay _ _ _ _ Ho0 Hfb) Hex)
      as (seg & Htr & Hsl & Hlast & Htabs & Hbadge & _).
    exists (seg0 ++ seg)%list. split_and!.
    + by rewrite Htr, Htr0, <- app_assoc.
    + by rewrite sleeps_app, Hsl0, Hsl.
    + by rewrite last_app, Hlast.
    + by rewrite Htabs, Ht0.
    + done.
  - intros i d Hd Hfb Hex Hok. rewrite <- Ho0 in Hok.
    destruct (loop_attached tabId env [300; 700; 1500] _ Hp0 i d Hd
                (fails_before_relay _ _ _ _ Ho0 Hfb) Hex Hok)
      as (seg & Htr & Hsl & Htab & _).
    exists (seg0 ++ seg)%list. split_and!.
    + by rewrite Htr, Htr0, <- app_assoc.
    + by rewrite sleeps_app, Hsl0, Hsl.
    + done.
  - intros Hfb.
    destruct (loop_exhausted tabId env [300; 700; 1500] _ Hp0
                (fails_before_relay _ _ _ _ Ho0 Hfb))
      as (seg & Htr & Hsl & Htabs & Hbadge & _).
    exists (seg0 ++ seg)%list. split_and!.
    + by rewrite Htr, Htr0, <- app_assoc.
    + by rewrite sleeps_app, Hsl0, Hsl.
    + by rewrite Htabs, Ht0.
    + done.
Qed.

Lemma tab7_detach_recoverable : recoverable_detach 7 "target_closed" tab7_info tab7_attached.
Proof.
  split_and!; [done|reflexivity|reflexivity|reflexivity|].
  assert (reattachPending tab7_attached = ∅) as -> by reflexivity.
  apply not_elem_of_empty.
Defined.

Lemma reattach_protocol_witness :
  let s' := onDebuggerDetach (Some 7) "target_closed" (Some tab7_info)
              third_retry_attaches tab7_attached in
  ∃ seg, trace s' = (trace tab7_attached ++ seg)%list ∧
         sleeps seg = take 3 [300; 700; 1500] ∧
         (∃ tab, JsMap.get (tabs s') 7 = Some tab ∧ state tab = connected
                 ∧ is_Some (sessionId tab)).
Proof.
  apply (proj1 (proj2 (proj2 (proj2
           (reattach_protocol 7 "target_closed" tab7_info third_retry_attaches
              tab7_attached tab7_detach_recoverable)))) 2%nat 1500);
    [reflexivity| |reflexivity|reflexivity].
  split.
  - intros j _. reflexivity.
  - intros j Hj. split; [reflexivity|].
    destruct j as [|[|j]]; [reflexivity|reflexivity|lia].
Defined.

(** A socket close during a delay empties the Pending Reattach set, and
    the loop then returns without a retry: tab 7 stays untracked, its badge
    still "connecting". *)
Lemma socket_close_cancels_reattach :
  let env := λ _ : nat, mkRetryEnv [IRelayClosed (Fin 0)] true attach_refused
                          (attach_succeeds "T7b") in
  let s' := onDebuggerDetach (Some 7) "target_closed" (Some tab7_info) env tab7_attached in
  sleeps (drop (length (trace tab7_attached)) (trace s')) = [300] ∧
  protocol_view (drop (length (trace tab7_attached)) (trace s')) = [ESleep 300] ∧
  JsMap.has (tabs s') 7 = false ∧
  JsMap.get (badges s') 7 = Some badge_connecting ∧
  reattachPending s' = ∅.
Proof. by vm_compute. Qed.

(** ** Tables built by attach and detach *)

Lemma elem_of_set_inv {K V} `{EqDecision K} (m : list (K * V)) k v k' v' :
  (k', v') ∈ JsMap.set m k v → (k', v') = (k, v) ∨ (k', v') ∈ m.
Proof.
  induction m as [|[k0 v0] m IH]; simpl.
  - intros ->%list_elem_of_singleton. by left.
  - destruct (decide (k0 = k)) as [->|Hne].
    + intros [->|Hin]%elem_of_cons; [by left|right; by right].
    + intros [->|Hin]%elem_of_cons; [right; left|].
      destruct (IH Hin) as [->|Hin']; [by left|right; by right].
Qed.

Lemma elem_of_delete_inv {K V} `{EqDecision K} (m : list (K * V)) k k' v' :
  (k', v') ∈ JsMap.delete m k → (k', v') ∈ m.
Proof.
  induction m as [|[k0 v0] m IH]; simpl; [done|].
  destruct (decide (k0 = k)) as [->|Hne].
  - intros Hin. right. by apply IH.
  - intros [->|Hin]%elem_of_cons; [left|right; by apply IH].
Qed.

Lemma attachTab_table_wf tabId skip e s :
  table_wf s → table_wf (attachTab tabId skip e s).1.
Proof.
  intros [Hnd Hfull]. destruct (attachTab tabId skip e s) as [s' r] eqn:Hat.
  apply attachTab_table in Hat. simpl. destruct r as [[session tid]|m].
  - destruct Hat as (-> & tab & Hs & Ht & _ & Htid & Htabs & _). split.
    + rewrite Htabs. by apply NoDup_keys_set.
    + intros t tab' Hin. rewrite Htabs in Hin.
      apply elem_of_set_inv in Hin as [[= -> ->]|Hin]; [|by apply (Hfull t)].
      by rewrite Hs, Ht.
  - destruct Hat as (Ht & _). split; by rewrite Ht.
Qed.

Lemma detachTab_table_wf tabId reason s :
  table_wf s → table_wf (detachTab tabId reason s).
Proof.
  intros [Hnd Hfull]. destruct (detachTab_table tabId reason s) as (Ht & _). split.
  - rewrite Ht. by apply NoDup_keys_delete.
  - intros t tab Hin. rewrite Ht in Hin. apply elem_of_delete_inv in Hin.
    by apply (Hfull t).
Qed.

(** Every table that attach and detach build from the empty one has one
    entry per tab, each with a session id and a target id. *)
Lemma table_wf_ops (ops : list TableOp) : table_wf (foldl apply_op initial_state ops).
Proof.
  assert (table_wf initial_state) as Hinit.
  { split; [constructor|]. by intros t tab Hin%elem_of_nil. }
  revert Hinit. generalize initial_state as s.
  induction ops as [|op ops IH]; intros s Hs; simpl; [done|].
  apply IH. destruct op; simpl; [by apply attachTab_table_wf|by apply detachTab_table_wf].
Qed.

(** Both auto-attach paths test [tabs.has] before they attach, so they
    keep the session indices consistent. *)
Lemma guarded_attach_consistent tabId e s :
  JsMap.has (tabs s) tabId = false → consistent s → allocated s →
  consistent (without_lock tabId (attachTab tabId false e (with_lock tabId s)).1) ∧
  allocated (without_lock tabId (attachTab tabId false e (with_lock tabId s)).1).
Proof.
  intros Hfree Hc Ha.
  destruct (attachTab_preserves tabId false e (with_lock tabId s) Hfree Hc Ha) as [Hc' Ha'].
  split; [exact Hc'|exact Ha'].
Qed.

Lemma autoAttachAllTabs_consistent e s :
  consistent s → allocated s →
  consistent (autoAttachAllTabs e s) ∧ allocated (autoAttachAllTabs e s).
Proof.
  unfold autoAttachAllTabs. destruct (negb _); [done|].
  revert s. induction (all_tabs e) as [|tab l IH]; intros s Hc Ha; simpl; [done|].
  apply IH; unfold sweep_one; destruct (tab_id tab) as [id|]; try done;
    destruct (negb _); try done;
    destruct (JsMap.has (tabs s) id) eqn:Hhas; try done;
    destruct (isSkippableUrl _); try done;
    repeat (case_bool_decide; try done);
    by apply guarded_attach_consistent.
Qed.

Lemma ensureRelayConnection_same_table e s : same_table s (ensureRelayConnection e s).1.
Proof.
  unfold ensureRelayConnection. destruct (relayOpen s); [done|].
  destruct (relayConnectPromise s).
  - by destruct (inflight e).
  - by destruct (connect_body e).
Qed.

Lemma autoAttachTab_consistent tabId u e ce s :
  consistent s → allocated s →
  consistent (autoAttachTab tabId u e ce s) ∧ allocated (autoAttachTab tabId u e ce s).
Proof.
  intros Hc Ha. unfold autoAttachTab.
  destruct (negb _); [done|].
  destruct (JsMap.has (tabs s) tabId) eqn:Hhas; [done|].
  destruct (isSkippableUrl u); [done|].
  repeat (case_bool_decide; [done|]).
  pose proof (ensureRelayConnection_same_table ce s) as Hsame.
  destruct (ensureRelayConnection ce s) as [s1 [[]|m]]; simpl in Hsame.
  - apply guarded_attach_consistent.
    + destruct Hsame as (-> & _). exact Hhas.
    + by eapply consistent_same_table.
    + by eapply allocated_same_table.
  - split; [by eapply consistent_same_table|by eapply allocated_same_table].
Qed.

(** ** Strings *)

Lemma append_cons (x : ascii) (a b : string) : String x a +:+ b = String x (a +:+ b).
Proof. reflexivity. Qed.

Lemma append_assoc (a b c : string) : (a +:+ b) +:+ c = a +:+ (b +:+ c).
Proof. induction a as [|x a IH]; [done|]. by rewrite !append_cons, IH. Qed.

Lemma append_nil_r (a : string) : a +:+ "" = a.
Proof. induction a as [|x a IH]; [done|]. by rewrite append_cons, IH. Qed.

Lemma text_trimStart_idemp (s : Js.Text.t) :
  Js.Text.trimStart (Js.Text.trimStart s) = Js.Text.trimStart s.
Proof.
  induction s as [|n s IH]; [done|].
  cbn [Js.Text.trimStart]. destruct (Js.Text.isWhiteSpace n) eqn:Hn; [done|].
  cbn [Js.Text.trimStart]. by rewrite Hn.
Qed.

Lemma text_trimEnd_idemp (s : Js.Text.t) :
  Js.Text.trimEnd (Js.Text.trimEnd s) = Js.Text.trimEnd s.
Proof. unfold Js.Text.trimEnd. by rewrite rev_involutive, text_trimStart_idemp. Qed.

(** The white space at the end goes, a visible first code unit stays. *)
Lemma text_trimStart_snoc (a : Js.Text.t) (n : N) :
  Js.Text.isWhiteSpace n = false →
  Js.Text.trimStart (a ++ [n])%list = (Js.Text.trimStart a ++ [n])%list.
Proof.
  intros Hn. induction a as [|d a IH]; simpl; [by rewrite Hn|].
  by destruct (Js.Text.isWhiteSpace d).
Qed.

Lemma text_trimEnd_cons (n : N) (r : Js.Text.t) :
  Js.Text.isWhiteSpace n = false →
  ∃ r', Js.Text.trimEnd (n :: r) = n :: r'.
Proof.
  intros Hn. unfold Js.Text.trimEnd. simpl.
  rewrite text_trimStart_snoc by done. rewrite rev_app_distr. simpl. eauto.
Qed.

Lemma text_trimStart_shape (s : Js.Text.t) :
  Js.Text.trimStart s = [] ∨
  ∃ n r, Js.Text.trimStart s = n :: r ∧ Js.Text.isWhiteSpace n = false.
Proof.
  induction s as [|n s IH]; [by left|].
  cbn [Js.Text.trimStart]. destruct (Js.Text.isWhiteSpace n) eqn:Hn; [done|]. right. eauto.
Qed.

Lemma text_trim_idemp (s : Js.Text.t) : Js.Text.trim (Js.Text.trim s) = Js.Text.trim s.
Proof.
  unfold Js.Text.trim.
  assert (Js.Text.trimStart (Js.Text.trimEnd (Js.Text.trimStart s))
          = Js.Text.trimEnd (Js.Text.trimStart s)) as ->.
  { destruct (text_trimStart_shape s) as [->|(n & r & -> & Hn)]; [done|].
    destruct (text_trimEnd_cons n r Hn) as [r' ->]. cbn [Js.Text.trimStart]. by rewrite Hn. }
  apply text_trimEnd_idemp.
Qed.

Lemma text_truthy_empty (s : Js.Text.t) : Js.Text.truthy s = false ↔ s = [].
Proof. by destruct s. Qed.

(** ** The settings form *)

Lemma clampPort_range (v : StoredValue) : 0 < clampPort v < 65536.
Proof. rewrite getRelayPort_clampPort. apply getRelayPort_range. Qed.

Lemma port_is_safe (p : Z) : 0 < p < 65536 → Js.isSafeInteger p = true.
Proof. intros Hp. unfold Js.isSafeInteger, Js.MAX_SAFE_INTEGER. apply Z.leb_le. lia. Qed.

Lemma getRelayPort_of_port (p : Z) (safe : Js.isSafeInteger p = true) :
  0 < p < 65536 → getRelayPort (SInteger p safe) = p.
Proof.
  intros Hp. rewrite getRelayPort_of_integer.
  destruct (Z.ltb_spec 0 p), (Z.leb_spec p 65535); simpl; lia.
Qed.

Lemma clampPort_of_text (p : Z) :
  0 < p < 65536 → clampPort (SString (Js.Text.of_string (Js.string_of_Z p))) = p.
Proof.
  intros Hp. rewrite getRelayPort_clampPort.
  pose proof (getRelayPort_of_text [] p [] (Forall_nil_2 _) I) as H.
  simpl in H. rewrite app_nil_r in H. unfold numeral in H. rewrite H.
  destruct (Z.ltb_spec 0 p), (Z.leb_spec p 65535); simpl; lia.
Qed.

(** Whatever the form holds, what [save] writes can be stored. *)
Lemma written_can_be_held (form : Form) :
  ∃ stored, holds stored (save form).1.
Proof.
  pose proof (port_is_safe _ (clampPort_range (SString (f_port form)))) as Hsafe.
  exists {| st_relayPort := SInteger (w_relayPort (save form).1) Hsafe;
            st_gatewayToken := SString (w_gatewayToken (save form).1);
            st_autoAttach := SBoolean (w_autoAttach (save form).1);
            st_downloadDirectory := SString (w_downloadDirectory (save form).1) |}.
  split_and!; try done. by exists Hsafe.
Qed.

(** X1. What the options page saves is what the service worker reads: for
    every content of the form, the stored port is the clamped input, a
    number strictly between 0 and 65536, and [getRelayPort] returns it;
    [getGatewayToken] returns the trimmed token, and [isAutoAttachEnabled]
    the state of the check box. *)
Theorem saved_settings_read_back (form : Form) (stored : Settings) :
  holds stored (save form).1 →
  getRelayPort (st_relayPort stored) = clampPort (SString (f_port form)) ∧
  0 < getRelayPort (st_relayPort stored) < 65536 ∧
  getGatewayToken (st_gatewayToken stored) = Js.Text.trim (f_token form) ∧
  isAutoAttachEnabled stored = f_autoAttach form.
Proof.
  intros ([safe Hport] & Htoken & Hauto & _).
  pose proof (clampPort_range (SString (f_port form))) as Hr.
  cbn [save fst w_relayPort w_gatewayToken w_autoAttach] in *.
  rewrite Hport, getRelayPort_of_port by done. do 2 (split; [done|]). split.
  - rewrite Htoken. unfold getGatewayToken. cbn [string_or_empty]. apply text_trim_idemp.
  - unfold isAutoAttachEnabled. rewrite Hauto. by destruct (f_autoAttach form).
Qed.

Lemma holds_settings_19000 : holds settings_19000 (save form_19000).1.
Proof. split_and!; [by exists eq_refl|reflexivity|reflexivity|reflexivity]. Defined.

Lemma saved_settings_read_back_witness :
  getRelayPort (st_relayPort settings_19000) = 19000 ∧
  getGatewayToken (st_gatewayToken settings_19000) = Js.Text.of_string "secret" ∧
  isAutoAttachEnabled settings_19000 = false.
Proof.
  destruct (saved_settings_read_back form_19000 settings_19000 holds_settings_19000)
    as (Hport & _ & Htoken & Hauto).
  split_and!; [exact Hport|exact Htoken|exact Hauto].
Defined.

(** X2. Saving normalises the form: loading what was saved shows the
    clamped port, the trimmed token and the trimmed download directory, and
    saving that form again writes the same settings. *)
Theorem save_load_stable (form : Form) (stored : Settings) :
  holds stored (save form).1 →
  load stored =
    {| f_port := Js.Text.of_string (Js.string_of_Z (clampPort (SString (f_port form))));
       f_token := Js.Text.trim (f_token form);
       f_autoAttach := f_autoAttach form;
       f_downloadDir := Js.Text.trim (f_downloadDir form) |} ∧
  (save (load stored)).1 = (save form).1.
Proof.
  intros ([safe Hport] & Htoken & Hauto & Hdir).
  pose proof (clampPort_range (SString (f_port form))) as Hr.
  cbn [save fst w_relayPort w_gatewayToken w_autoAttach w_downloadDirectory] in *.
  assert (load stored =
          {| f_port := Js.Text.of_string (Js.string_of_Z (clampPort (SString (f_port form))));
             f_token := Js.Text.trim (f_token form);
             f_autoAttach := f_autoAttach form;
             f_downloadDir := Js.Text.trim (f_downloadDir form) |}) as Hload.
  { unfold load. rewrite Hport, Htoken, Hauto, Hdir. cbn [string_or_empty].
    rewrite (getRelayPort_clampPort (SInteger _ _)), getRelayPort_of_port by done.
    rewrite text_trim_idemp. by destruct (f_autoAttach form). }
  split; [done|]. rewrite Hload.
  unfold save. cbn [fst f_port f_token f_autoAttach f_downloadDir string_or_empty].
  by rewrite clampPort_of_text, !text_trim_idemp.
Qed.

Lemma save_load_stable_witness :
  load settings_19000 =
    {| f_port := Js.Text.of_string "19000"; f_token := Js.Text.of_string "secret";
       f_autoAttach := false; f_downloadDir := Js.Text.of_string "/tmp/downloads" |} ∧
  (save (load settings_19000)).1 = (save form_19000).1.
Proof.
  destruct (save_load_stable form_19000 settings_19000 holds_settings_19000)
    as (Hload & Hsave).
  split; [exact Hload|exact Hsave].
Defined.

(** ** The relay token and the socket address *)

Lemma hex_pair_match (b : Byte.byte) :
  match Hex.padStart 2 "0" (Hex.toString16 b) with
  | String c1 (String c2 EmptyString) =>
      is_lower_hex c1 = true ∧ is_lower_hex c2 = true ∧
      (hex_value c1 ≫= λ x, hex_value c2 ≫= λ y, Byte.of_N (16 * x + y)) = Some b
  | _ => False
  end.
Proof. destruct b; vm_compute; auto. Qed.

Lemma hex_pair (b : Byte.byte) :
  ∃ c1 c2, Hex.padStart 2 "0" (Hex.toString16 b) = String c1 (String c2 "") ∧
    is_lower_hex c1 = true ∧ is_lower_hex c2 = true ∧
    ∃ x y, hex_value c1 = Some x ∧ hex_value c2 = Some y ∧
           Byte.of_N (16 * x + y) = Some b.
Proof.
  pose proof (hex_pair_match b) as H.
  destruct (Hex.padStart 2 "0" (Hex.toString16 b)) as [|c1 [|c2 [|]]]; try done.
  destruct H as (H1 & H2 & Hb). exists c1, c2. split_and!; try done.
  destruct (hex_value c1) as [x|]; [|done]. destruct (hex_value c2) as [y|]; [|done].
  by exists x, y.
Qed.

Lemma concat_empty_cons (x : string) (l : list string) :
  String.concat "" (x :: l) = x +:+ String.concat "" l.
Proof.
  destruct l as [|y l]; [by rewrite append_nil_r|]. reflexivity.
Qed.

Lemma of_bytes_cons (b : Byte.byte) (l : list Byte.byte) :
  Hex.of_bytes (b :: l) = Hex.padStart 2 "0" (Hex.toString16 b) +:+ Hex.of_bytes l.
Proof. unfold Hex.of_bytes. cbn [map]. apply concat_empty_cons. Qed.

Lemma of_bytes_length (l : list Byte.byte) :
  String.length (Hex.of_bytes l) = (2 * length l)%nat.
Proof.
  induction l as [|b l IH]; [done|]. rewrite of_bytes_cons.
  destruct (hex_pair b) as (c1 & c2 & -> & _). rewrite !append_cons.
  cbn [String.length length]. change ("" +:+ Hex.of_bytes l) with (Hex.of_bytes l). lia.
Qed.

Lemma of_bytes_digits (l : list Byte.byte) :
  all_chars is_lower_hex (Hex.of_bytes l) = true.
Proof.
  induction l as [|b l IH]; [done|]. rewrite of_bytes_cons.
  destruct (hex_pair b) as (c1 & c2 & -> & H1 & H2 & _). rewrite !append_cons.
  cbn [all_chars]. change ("" +:+ Hex.of_bytes l) with (Hex.of_bytes l).
  by rewrite H1, H2, IH.
Qed.

Lemma bytes_of_hex_of_bytes (l : list Byte.byte) :
  bytes_of_hex (Hex.of_bytes l) = Some l.
Proof.
  induction l as [|b l IH]; [done|]. rewrite of_bytes_cons.
  destruct (hex_pair b) as (c1 & c2 & -> & _ & _ & x & y & Hx & Hy & Hb).
  rewrite !append_cons. change ("" +:+ Hex.of_bytes l) with (Hex.of_bytes l).
  cbn [bytes_of_hex]. by rewrite Hx, Hy, IH, Hb.
Qed.

Lemma lower_hex_unreserved (c : ascii) : is_lower_hex c = true → uri_unreserved c = true.
Proof.
  unfold is_lower_hex, uri_unreserved. generalize (Js.code c). intros n Hn.
  repeat match goal with
         | |- context [(?a <=? ?b)%N] => destruct (N.leb_spec a b)
         | H : context [(?a <=? ?b)%N] |- _ => destruct (N.leb_spec a b)
         end; cbn [andb orb] in *; try done; lia.
Qed.

Lemma encodeURIComponent_unreserved (s : string) :
  all_chars uri_unreserved s = true → encodeURIComponent s = s.
Proof.
  induction s as [|c s IH]; [done|]. cbn [all_chars encodeURIComponent].
  intros [Hc Hs]%andb_true_iff. rewrite Hc, IH by done. by rewrite append_cons.
Qed.

Lemma all_chars_impl (p q : ascii → bool) (s : string) :
  (∀ c, p c = true → q c = true) → all_chars p s = true → all_chars q s = true.
Proof.
  intros Hpq. induction s as [|c s IH]; [done|]. cbn [all_chars].
  intros [Hc Hs]%andb_true_iff. by rewrite (Hpq c Hc), IH.
Qed.

(** X3. The relay token is the signature in lower-case hexadecimal: two
    digits per byte of the HMAC, every character in [0-9a-f], so
    [encodeURIComponent] puts it into the address unchanged. *)
Theorem relay_token_is_hex (hmac : Js.Text.t → string → list Byte.byte)
    (gatewayToken : Js.Text.t) (port : Z) :
  let token := deriveRelayToken hmac gatewayToken port in
  String.length token = (2 * length (hmac gatewayToken (token_message port)))%nat ∧
  all_chars is_lower_hex token = true ∧
  encodeURIComponent token = token.
Proof.
  cbn zeta. unfold deriveRelayToken. fold (token_message port).
  split; [apply of_bytes_length|]. split; [apply of_bytes_digits|].
  apply encodeURIComponent_unreserved.
  eapply all_chars_impl; [apply lower_hex_unreserved|apply of_bytes_digits].
Qed.

(** X4. The encoding loses nothing: the bytes of the signature can be
    read back from the digits of the token, so signatures that differ give
    tokens that differ. *)
Theorem relay_token_encoding_reversible (sig : list Byte.byte) :
  bytes_of_hex (Hex.of_bytes sig) = Some sig.
Proof. apply bytes_of_hex_of_bytes. Qed.


(** X5. [buildRelayWsUrl] rejects with the missing-token error when the
    token is empty after trimming; otherwise the address is the loopback
    address with the port and the hexadecimal token, and white space around
    the gateway token does not change it. *)
Theorem relay_url_of_token (hmac : Js.Text.t → string → list Byte.byte)
    (port : Z) (gatewayToken : Js.Text.t) :
  (Js.Text.trim gatewayToken = [] →
   buildRelayWsUrl hmac port gatewayToken = Thrown missing_token_message) ∧
  (Js.Text.trim gatewayToken ≠ [] →
   buildRelayWsUrl hmac port gatewayToken =
   Returned ("ws://127.0.0.1:" +:+ Js.string_of_Z port +:+ "/extension?token="
             +:+ Hex.of_bytes (hmac (Js.Text.trim gatewayToken) (token_message port)))) ∧
  buildRelayWsUrl hmac port (Js.Text.trim gatewayToken) = buildRelayWsUrl hmac port gatewayToken.
Proof.
  split_and!.
  - intros H. unfold buildRelayWsUrl. by rewrite H.
  - intros H. unfold buildRelayWsUrl.
    destruct (Js.Text.truthy (Js.Text.trim gatewayToken)) eqn:Ht;
      [|by apply text_truthy_empty in Ht].
    cbn [negb]. do 4 f_equal. unfold deriveRelayToken. fold (token_message port).
    apply encodeURIComponent_unreserved.
    eapply all_chars_impl; [apply lower_hex_unreserved|apply of_bytes_digits].
  - unfold buildRelayWsUrl. by rewrite text_trim_idemp.
Qed.

Lemma relay_url_of_token_witness :
  buildRelayWsUrl two_byte_hmac 18792 (Js.Text.of_string " secret ") =
  Returned "ws://127.0.0.1:18792/extension?token=ab01".
Proof.
  apply (proj1 (proj2 (relay_url_of_token two_byte_hmac 18792 (Js.Text.of_string " secret ")))).
  intros H. vm_compute in H. discriminate H.
Defined.

(** X6. A connection attempt rejects with the missing-token error exactly
    when the stored gateway token is undefined, zero or white space only;
    that is when [buildRelayWsUrl] throws, and the error is the one
    [isRetryableReconnectError] refuses to retry. *)
Theorem connect_rejects_missing_token (hmac : Js.Text.t → string → list Byte.byte)
    (e : ConnectEnv) :
  (connect_body e = Thrown missing_token_message ↔
   Js.Text.trim (string_or_empty (stored_gatewayToken e)) = []) ∧
  (connect_body e = Thrown missing_token_message ↔
   buildRelayWsUrl hmac (getRelayPort (stored_relayPort e))
     (getGatewayToken (stored_gatewayToken e)) = Thrown missing_token_message) ∧
  isRetryableReconnectError missing_token_message = false.
Proof.
  assert (connect_body e = Thrown missing_token_message ↔
          Js.Text.trim (string_or_empty (stored_gatewayToken e)) = []) as Hbody.
  { unfold connect_body, getGatewayToken. rewrite text_trim_idemp.
    destruct (Js.Text.truthy (Js.Text.trim _)) eqn:Ht; cbn [negb].
    - split; [|intros H; by rewrite H in Ht].
      intros H. exfalso. unfold missing_token_message in H.
      destruct (head_failure e); [by rewrite append_cons in H|].
      by destruct (ws_outcome e).
    - by apply text_truthy_empty in Ht. }
  split; [done|]. split; [|done]. rewrite Hbody.
  unfold buildRelayWsUrl, getGatewayToken. rewrite text_trim_idemp.
  destruct (Js.Text.truthy (Js.Text.trim _)) eqn:Ht; cbn [negb].
  - split; [intros H; by rewrite H in Ht|done].
  - by apply text_truthy_empty in Ht.
Qed.

Lemma connect_rejects_missing_token_witness :
  connect_body relay_without_token = Thrown missing_token_message.
Proof.
  apply (proj2 (proj1 (connect_rejects_missing_token two_byte_hmac relay_without_token))).
  reflexivity.
Defined.

(** ** The session counter and the tab locks under every listener *)

Lemma steady_refl s : steady s s.
Proof. split; [lia|done]. Qed.

Lemma steady_trans s1 s2 s3 : steady s1 s2 → steady s2 s3 → steady s1 s3.
Proof. intros [? ?] [? ?]. split; [lia|congruence]. Qed.

Lemma steady_eq s s' :
  nextSession s' = nextSession s → tabOperationLocks s' = tabOperationLocks s → steady s s'.
Proof. intros Hn Hl. split; [lia|done]. Qed.

Lemma steady_foldl {A} (f : State → A → State) (l : list A) s :
  (∀ acc x, steady acc (f acc x)) → steady s (foldl f s l).
Proof.
  intros Hf. revert s. induction l as [|x l IH]; intros s; simpl; [apply steady_refl|].
  eapply steady_trans; [apply Hf|apply IH].
Qed.

Lemma steady_emit e s : steady s (emit e s).
Proof. by apply steady_eq. Qed.

Lemma steady_setBadge t k s : steady s (setBadge t k s).
Proof. by apply steady_eq. Qed.

Lemma steady_with_tabs v s : steady s (with_tabs v s).
Proof. by apply steady_eq. Qed.

Lemma steady_with_tabBySession v s : steady s (with_tabBySession v s).
Proof. by apply steady_eq. Qed.

Lemma steady_with_childSessionToTab v s : steady s (with_childSessionToTab v s).
Proof. by apply steady_eq. Qed.

Lemma steady_with_reattachPending v s : steady s (with_reattachPending v s).
Proof. by apply steady_eq. Qed.

Lemma steady_with_reconnectAttempt v s : steady s (with_reconnectAttempt v s).
Proof. by apply steady_eq. Qed.

Lemma steady_with_reconnectTimer v s : steady s (with_reconnectTimer v s).
Proof. by apply steady_eq. Qed.

Lemma steady_with_relayOpen v s : steady s (with_relayOpen v s).
Proof. by apply steady_eq. Qed.

Lemma steady_drop_children t s : steady s (drop_children t s).
Proof. by apply steady_eq. Qed.

Lemma steady_clear_pending t s : steady s (clear_pending t s).
Proof. by apply steady_eq. Qed.

Lemma steady_cancelReconnect s : steady s (cancelReconnect s).
Proof. by apply steady_eq. Qed.

Ltac steady_atom :=
  first [apply steady_drop_children | apply steady_clear_pending
        | apply steady_cancelReconnect | apply steady_emit | apply steady_setBadge | apply steady_with_tabs
        | apply steady_with_tabBySession | apply steady_with_childSessionToTab
        | apply steady_with_reattachPending | apply steady_with_reconnectAttempt
        | apply steady_with_reconnectTimer | apply steady_with_relayOpen].

Lemma steady_try_send f s : steady s (try_send f s).
Proof. unfold try_send, sendToRelay. destruct (relayOpen s); by apply steady_eq. Qed.

Lemma steady_persistState s : steady s (persistState s).
Proof. unfold persistState. destruct (storageAvailable s); by apply steady_eq. Qed.

Lemma steady_drop_session_of tab s : steady s (drop_session_of tab s).
Proof.
  unfold drop_session_of. destruct (tab ≫= sessionId) as [sid|]; [|apply steady_refl].
  destruct (Js.truthy_string sid); by apply steady_eq.
Qed.

Lemma steady_announce_detached tab reason s : steady s (announce_detached tab reason s).
Proof.
  unfold announce_detached.
  destruct (tab ≫= sessionId), (tab ≫= targetId); try apply steady_refl.
  destruct (_ && _); [apply steady_try_send|apply steady_refl].
Qed.

Lemma steady_announce_children tabId s : steady s (announce_children_detached tabId s).
Proof.
  unfold announce_children_detached. apply steady_foldl. intros acc kv.
  destruct (decide _); [apply steady_try_send|apply steady_refl].
Qed.

Lemma steady_attachTab tabId skip e s : steady s (attachTab tabId skip e s).1.
Proof.
  unfold attachTab. destruct (debugger_attaches e); simpl; [|steady_atom].
  destruct (target_info e); [|steady_atom].
  destruct (Js.truthy_string _); simpl; [|steady_atom].
  eapply steady_trans; [|apply steady_persistState].
  eapply steady_trans; [|steady_atom].
  destruct skip.
  - split; simpl; [lia|done].
  - eapply steady_trans; [|apply steady_try_send]. split; simpl; [lia|done].
Qed.

Lemma steady_detachTab tabId reason s : steady s (detachTab tabId reason s).
Proof.
  unfold detachTab.
  eapply steady_trans; [|apply steady_persistState].
  eapply steady_trans; [|steady_atom].
  eapply steady_trans; [|steady_atom].
  eapply steady_trans; [|apply steady_drop_session_of].
  eapply steady_trans; [|apply steady_announce_detached].
  eapply steady_trans; [|steady_atom].
  apply steady_announce_children.
Qed.

Lemma steady_reannounce alive info_ok s : steady s (reannounceAttachedTabs alive info_ok s).
Proof.
  unfold reannounceAttachedTabs.
  eapply steady_trans; [|apply steady_persistState].
  apply steady_foldl. intros acc [tabId tab]. unfold reannounce_one.
  destruct (_ || _); [apply steady_refl|]. destruct (negb (alive tabId)).
  - eapply steady_trans; [|steady_atom].
    eapply steady_trans; [|apply steady_drop_session_of]. by apply steady_eq.
  - eapply steady_trans; [|steady_atom].
    destruct (info_ok tabId); [apply steady_try_send|apply steady_refl].
Qed.

Lemma steady_rehydrate alive s : steady s (rehydrateState alive s).
Proof.
  unfold rehydrateState. destruct (storageAvailable s); [|apply steady_refl].
  destruct (sessionStore s) as [[entries storedNext]|]; [|apply steady_refl].
  eapply steady_trans; [|apply steady_foldl].
  - eapply steady_trans; [|apply steady_foldl].
    + destruct (Js.truthy_int storedNext); [|apply steady_refl]. split; simpl; [lia|done].
    + intros acc e. by apply steady_eq.
  - intros acc e. unfold rehydrate_probe. destruct (alive _); by apply steady_eq.
Qed.

Lemma steady_ensureRelayConnection e s : steady s (ensureRelayConnection e s).1.
Proof.
  unfold ensureRelayConnection. destruct (relayOpen s); [apply steady_refl|].
  destruct (relayConnectPromise s).
  - destruct (inflight e); by apply steady_eq.
  - destruct (connect_body e); by apply steady_eq.
Qed.

Lemma steady_scheduleReconnect sample s : steady s (scheduleReconnect sample s).
Proof. by apply steady_eq. Qed.

Lemma steady_onRelayClosed sample s : steady s (onRelayClosed sample s).
Proof.
  unfold onRelayClosed.
  eapply steady_trans; [|apply steady_scheduleReconnect].
  eapply steady_trans; [|apply steady_foldl].
  - by apply steady_eq.
  - intros acc kv. case_bool_decide; by apply steady_eq.
Qed.

Lemma steady_reconnectTimerFired e alive info_ok sample s :
  steady s (reconnectTimerFired e alive info_ok sample s).
Proof.
  unfold reconnectTimerFired.
  pose proof (steady_ensureRelayConnection e (with_reconnectTimer None s)) as Hc.
  destruct (ensureRelayConnection e _) as [s1 [[]|m]]; simpl in Hc.
  - eapply steady_trans; [|apply steady_reannounce].
    eapply steady_trans; [|steady_atom].
    eapply steady_trans; [|exact Hc]. by apply steady_eq.
  - assert (steady s s1) as Hs1.
    { eapply steady_trans; [|exact Hc]. by apply steady_eq. }
    destruct (negb _); [done|].
    eapply steady_trans; [exact Hs1|apply steady_scheduleReconnect].
Qed.

(** The lock taken around an attach is released, whether the attach
    succeeds or throws. *)
Lemma steady_locked_attach tabId skip e s :
  tabId ∉ tabOperationLocks s →
  steady s (without_lock tabId (attachTab tabId skip e (with_lock tabId s)).1).
Proof.
  intros Hfree.
  destruct (steady_attachTab tabId skip e (with_lock tabId s)) as [Hn Hl].
  split; [exact Hn|]. unfold without_lock. cbn [tabOperationLocks with_tabOperationLocks].
  rewrite Hl. cbn. apply set_eq. intros x.
  rewrite elem_of_difference, elem_of_union, elem_of_singleton.
  split; [by intros [[->|?] ?]|]. intros Hx. split; [by right|]. by intros ->.
Qed.

Lemma steady_sweep_one e s tab : steady s (sweep_one e s tab).
Proof.
  unfold sweep_one. destruct (tab_id tab) as [id|]; [|apply steady_refl].
  repeat (match goal with |- steady _ (if ?b then _ else _) => destruct b eqn:? end;
          [apply steady_refl|]).
  apply steady_locked_attach. by eapply bool_decide_eq_false_1.
Qed.

Lemma steady_sweep e s : steady s (autoAttachAllTabs e s).
Proof.
  unfold autoAttachAllTabs. destruct (negb _); [apply steady_refl|].
  apply steady_foldl. intros; apply steady_sweep_one.
Qed.

Lemma steady_autoAttachTab tabId u e ce s : steady s (autoAttachTab tabId u e ce s).
Proof.
  unfold autoAttachTab.
  destruct (negb _); [apply steady_refl|].
  destruct (JsMap.has _ _); [apply steady_refl|].
  destruct (isSkippableUrl _); [apply steady_refl|].
  case_bool_decide as Hlock; [apply steady_refl|].
  case_bool_decide; [apply steady_refl|].
  case_bool_decide; [apply steady_refl|].
  pose proof (steady_ensureRelayConnection ce s) as Hc.
  destruct (ensureRelayConnection ce s) as [s1 [[]|m]]; simpl in Hc; [|done].
  eapply steady_trans; [exact Hc|]. apply steady_locked_attach.
  destruct Hc as [_ ->]. done.
Qed.

Lemma steady_onActionClicked e ce s : steady s (onActionClicked e ce s).
Proof.
  unfold onActionClicked. destruct (_ <? _)%nat.
  - apply steady_foldl. intros; apply steady_detachTab.
  - pose proof (steady_ensureRelayConnection ce (cancelReconnect s)) as Hc.
    destruct (ensureRelayConnection ce _) as [s2 [[]|m]]; simpl in Hc.
    + eapply steady_trans; [|apply steady_sweep].
      eapply steady_trans; [|exact Hc]. by apply steady_eq.
    + eapply steady_trans; [|exact Hc]. by apply steady_eq.
Qed.

Lemma steady_onDebuggerEvent t ss m c s : steady s (onDebuggerEvent t ss m c s).
Proof.
  unfold onDebuggerEvent. destruct t as [tabId|]; [|apply steady_refl].
  destruct (negb _); [apply steady_refl|].
  destruct (JsMap.get _ _) as [tab|]; [|apply steady_refl].
  destruct (negb _); [apply steady_refl|].
  eapply steady_trans; [|apply steady_try_send].
  destruct c as [c|]; [|apply steady_refl].
  eapply steady_trans; [|destruct (_ && bool_decide (m = "Target.detachedFromTarget"));
                          [steady_atom|apply steady_refl]].
  destruct (_ && _); [steady_atom|apply steady_refl].
Qed.

Lemma steady_onTabRemoved tabId s : steady s (onTabRemoved tabId s).
Proof.
  unfold onTabRemoved. destruct (negb _); [by apply steady_eq|].
  eapply steady_trans; [|apply steady_persistState].
  eapply steady_trans; [|apply steady_announce_detached].
  eapply steady_trans; [|steady_atom].
  eapply steady_trans; [|steady_atom].
  eapply steady_trans; [|apply steady_drop_session_of]. by apply steady_eq.
Qed.

Lemma steady_onTabReplaced a r s : steady s (onTabReplaced a r s).
Proof.
  unfold onTabReplaced. destruct (JsMap.get _ _) as [tab|]; [|apply steady_refl].
  eapply steady_trans; [|apply steady_persistState].
  eapply steady_trans; [|steady_atom].
  eapply steady_trans; [|steady_atom].
  destruct (Js.truthy_opt _); by apply steady_eq.
Qed.

Lemma steady_interleave s i : steady s (interleave s i).
Proof.
  destruct i; simpl.
  - destruct (relayOpen s); [apply steady_onRelayClosed|apply steady_refl].
  - apply steady_ensureRelayConnection.
  - apply steady_onTabRemoved.
Qed.

Lemma steady_reattach_loop tabId attempt ds env s :
  steady s (reattach_loop tabId attempt ds env s).
Proof.
  revert attempt s. induction ds as [|d ds IH]; intros attempt s; simpl.
  { by apply steady_eq. }
  set (s1 := foldl interleave _ _).
  assert (steady s s1) as Hs1.
  { eapply steady_trans; [apply (steady_emit (ESleep d))|].
    apply steady_foldl. intros; apply steady_interleave. }
  assert (∀ s2, steady s1 s2 →
            steady s
              match attachTab tabId false (attach_loud (env attempt)) s2 with
              | (s3, Returned _) => clear_pending tabId s3
              | (s3, Thrown _) => reattach_loop tabId (S attempt) ds env s3
              end) as Hloud.
  { intros s2 Hs2.
    pose proof (steady_attachTab tabId false (attach_loud (env attempt)) s2) as Hat.
    destruct (attachTab _ _ _ s2) as [s3 [r|m]]; simpl in Hat;
      (eapply steady_trans; [exact Hs1|]); (eapply steady_trans; [exact Hs2|]);
      (eapply steady_trans; [exact Hat|]); [by apply steady_eq|apply IH]. }
  destruct (negb (bool_decide _)); [done|].
  destruct (negb (tab_exists _)).
  { eapply steady_trans; [exact Hs1|]. by apply steady_eq. }
  destruct (negb (relayOpen s1)); [|apply Hloud, steady_refl].
  pose proof (steady_attachTab tabId true (attach_quiet (env attempt)) s1) as Hq.
  destruct (attachTab tabId true _ s1) as [s2 [r|m]]; simpl in Hq.
  - eapply steady_trans; [exact Hs1|]. eapply steady_trans; [exact Hq|]. by apply steady_eq.
  - by apply Hloud.
Qed.

Lemma steady_begin_reattach tabId s : steady s (begin_reattach tabId s).
Proof.
  unfold begin_reattach.
  eapply steady_trans; [|steady_atom].
  eapply steady_trans; [|steady_atom].
  eapply steady_trans; [|apply steady_announce_detached].
  eapply steady_trans; [|steady_atom].
  eapply steady_trans; [|steady_atom].
  apply steady_drop_session_of.
Qed.

Lemma steady_onDebuggerDetach t reason lookup env s :
  steady s (onDebuggerDetach t reason lookup env s).
Proof.
  unfold onDebuggerDetach. destruct t as [tabId|]; [|apply steady_refl].
  destruct (negb _); [apply steady_refl|].
  destruct (negb _); [apply steady_refl|].
  destruct (permanent_reason _); [apply steady_detachTab|].
  destruct lookup as [info|]; [|apply steady_detachTab].
  destruct (isSkippableUrl _); [apply steady_detachTab|].
  case_bool_decide; [apply steady_refl|].
  eapply steady_trans; [apply steady_begin_reattach|apply steady_reattach_loop].
Qed.

Lemma steady_handleForwardCdpCommand c e s : steady s (handleForwardCdpCommand c e s).1.
Proof.
  unfold handleForwardCdpCommand.
  repeat (match goal with
          | |- steady _ (if ?b then _ else _).1 => destruct b
          end; [first [apply steady_sweep|by apply steady_eq]|]).
  destruct (resolveTabId c s) as [tabId|]; [|apply steady_refl].
  destruct (negb _); [apply steady_refl|].
  case_bool_decide.
  { simpl. eapply steady_trans; [|steady_atom]. destruct (disable_ok e); by apply steady_eq. }
  case_bool_decide.
  { destruct (created_tab e) as [newId|]; [|steady_atom].
    destruct (negb _); [by apply steady_eq|].
    pose proof (steady_attachTab newId false (create_attach e)
                  (emit (ESleep 100) (emit (ETabCreate (default "about:blank" (cmd_url c))) s))) as Hat.
    destruct (attachTab _ _ _ _) as [s2 [[]|]]; simpl in *;
      (eapply steady_trans; [|exact Hat]); by apply steady_eq. }
  case_bool_decide.
  { destruct (if Js.truthy_string _ then _ else _) as [t|]; [|apply steady_refl].
    destruct (negb _); by apply steady_eq. }
  case_bool_decide; [|steady_atom].
  destruct (if Js.truthy_string _ then _ else _) as [t|]; [|apply steady_refl].
  destruct (negb _); [apply steady_refl|]. destruct (negb _); by apply steady_eq.
Qed.

Lemma steady_onForwardCdpCommand id c e s : steady s (onForwardCdpCommand id c e s).
Proof.
  unfold onForwardCdpCommand. pose proof (steady_handleForwardCdpCommand c e s) as Hh.
  destruct (handleForwardCdpCommand c e s) as [s1 r].
  eapply steady_trans; [exact Hh|apply steady_try_send].
Qed.

Lemma steady_onKeepaliveAlarm e ce sample s : steady s (onKeepaliveAlarm e ce sample s).
Proof.
  unfold onKeepaliveAlarm.
  eapply steady_trans; [|apply steady_foldl; intros; apply steady_autoAttachTab].
  destruct (_ && _); [|apply steady_refl].
  pose proof (steady_ensureRelayConnection ce s) as Hc.
  destruct (ensureRelayConnection ce s) as [s1 [[]|m]]; simpl in Hc; [done|].
  case_bool_decide; [done|].
  eapply steady_trans; [exact Hc|apply steady_scheduleReconnect].
Qed.

Lemma steady_startup alive info_ok e ce sample s :
  steady s (startup alive info_ok e ce sample s).
Proof.
  unfold startup.
  eapply steady_trans; [apply (steady_rehydrate alive)|].
  pose proof (steady_ensureRelayConnection ce (rehydrateState alive s)) as Hc.
  destruct (ensureRelayConnection ce _) as [s1 [[]|m]]; simpl in Hc.
  - eapply steady_trans; [|apply steady_sweep].
    eapply steady_trans; [exact Hc|].
    destruct (_ <? _)%nat; [|steady_atom].
    eapply steady_trans; [|apply steady_reannounce]. by apply steady_eq.
  - eapply steady_trans; [exact Hc|].
    eapply steady_trans; [apply steady_scheduleReconnect|].
    destruct (autoAttach_enabled e); [apply steady_sweep|apply steady_refl].
Qed.

Lemma steady_step ev s : steady s (step ev s).
Proof.
  destruct ev; simpl.
  - apply steady_startup.
  - apply steady_onKeepaliveAlarm.
  - case_bool_decide; [apply steady_reconnectTimerFired|apply steady_refl].
  - destruct (relayOpen s); [apply steady_onRelayClosed|apply steady_refl].
  - destruct (relayOpen s); [apply steady_onForwardCdpCommand|apply steady_refl].
  - apply steady_onActionClicked.
  - apply steady_autoAttachTab.
  - apply steady_onTabRemoved.
  - apply steady_onTabReplaced.
  - apply steady_onDebuggerEvent.
  - apply steady_onDebuggerDetach.
Qed.

Lemma steady_onRelayMessage parsed e s : steady s (onRelayMessage parsed e s).
Proof.
  unfold onRelayMessage. destruct parsed as [msg|]; [|apply steady_refl].
  case_bool_decide; [apply steady_try_send|].
  destruct (msg_id msg) as [id|]; [|apply steady_refl].
  destruct (_ || _); [apply steady_refl|].
  case_bool_decide; [apply steady_onForwardCdpCommand|apply steady_refl].
Qed.

Lemma steady_onTabCreated tab e ce s : steady s (onTabCreated tab e ce s).
Proof.
  unfold onTabCreated. destruct (tab_id tab) as [id|]; [|apply steady_refl].
  destruct (_ && _); [apply steady_autoAttachTab|apply steady_refl].
Qed.

Lemma steady_onTabUpdated tabId status cu ct u e ce s :
  steady s (onTabUpdated tabId status cu ct u e ce s).
Proof.
  unfold onTabUpdated.
  assert (steady s match JsMap.get (tabs s) tabId with
                   | Some existing =>
                       with_tabs (JsMap.set (tabs s) tabId (with_metadata cu ct existing)) s
                   | None => s
                   end) as Hm.
  { destruct (JsMap.get _ _); [by apply steady_eq|apply steady_refl]. }
  destruct (_ && _); [|done].
  eapply steady_trans; [exact Hm|apply steady_autoAttachTab].
Qed.

Lemma steady_refreshBadge tabId s : steady s (refreshBadge tabId s).
Proof.
  unfold refreshBadge. destruct (JsMap.get _ _) as [tab|]; [|apply steady_refl].
  case_bool_decide; [by apply steady_eq|apply steady_refl].
Qed.

Lemma steady_dispatch l s : steady s (dispatch l s).
Proof.
  destruct l; simpl.
  - apply steady_step.
  - destruct (relayOpen s); [apply steady_onRelayMessage|apply steady_refl].
  - apply steady_onTabCreated.
  - apply steady_onTabUpdated.
  - unfold onNavigationCompleted. destruct (negb _); [apply steady_refl|apply steady_refreshBadge].
  - apply steady_refreshBadge.
Qed.

Lemma steady_dispatch_all ls s : steady s (dispatch_all ls s).
Proof. apply steady_foldl. intros; apply steady_dispatch. Qed.

(** ** The session indices under every listener *)

Lemma untouched_refl s : untouched s s.
Proof. done. Qed.

Lemma untouched_trans s1 s2 s3 : untouched s1 s2 → untouched s2 s3 → untouched s1 s3.
Proof. unfold untouched. intros (?&?&?&?) (?&?&?&?). split_and!; congruence. Qed.

Lemma untouched_foldl {A} (f : State → A → State) (l : list A) s :
  (∀ acc x, untouched acc (f acc x)) → untouched s (foldl f s l).
Proof.
  intros Hf. revert s. induction l as [|x l IH]; intros s; simpl; [done|].
  eapply untouched_trans; [apply Hf|apply IH].
Qed.

Lemma untouched_try_send f s : untouched s (try_send f s).
Proof. unfold try_send, sendToRelay. by destruct (relayOpen s). Qed.

Lemma untouched_announce_detached tab reason s : untouched s (announce_detached tab reason s).
Proof.
  unfold announce_detached.
  destruct (tab ≫= sessionId), (tab ≫= targetId); try done.
  destruct (_ && _); [apply untouched_try_send|done].
Qed.

Lemma untouched_announce_children tabId s : untouched s (announce_children_detached tabId s).
Proof.
  unfold announce_children_detached. apply untouched_foldl. intros acc kv.
  destruct (decide _); [apply untouched_try_send|done].
Qed.

Lemma untouched_ensureRelayConnection e s : untouched s (ensureRelayConnection e s).1.
Proof.
  unfold ensureRelayConnection. destruct (relayOpen s); [done|].
  destruct (relayConnectPromise s).
  - by destruct (inflight e).
  - by destruct (connect_body e).
Qed.

Lemma untouched_onRelayClosed sample s : untouched s (onRelayClosed sample s).
Proof.
  unfold onRelayClosed.
  eapply untouched_trans; [|by split].
  eapply untouched_trans; [|apply untouched_foldl].
  - by split.
  - intros acc kv. by case_bool_decide.
Qed.

Lemma untouched_onDebuggerEvent t ss m c s : untouched s (onDebuggerEvent t ss m c s).
Proof.
  unfold onDebuggerEvent. destruct t as [tabId|]; [|done].
  destruct (negb _); [done|]. destruct (JsMap.get _ _) as [tab|]; [|done].
  destruct (negb _); [done|].
  eapply untouched_trans; [|apply untouched_try_send].
  destruct c as [c|]; [|done].
  eapply untouched_trans; [|by destruct (_ && _)]. by destruct (_ && _).
Qed.

Lemma untouched_refreshBadge tabId s : untouched s (refreshBadge tabId s).
Proof.
  unfold refreshBadge. destruct (JsMap.get _ _) as [tab|]; [|done]. by case_bool_decide.
Qed.

Lemma store_kept_try_send f s : sessionStore (try_send f s) = sessionStore s.
Proof. apply untouched_try_send. Qed.

Lemma store_kept_announce_detached tab reason s :
  sessionStore (announce_detached tab reason s) = sessionStore s.
Proof. apply untouched_announce_detached. Qed.

Lemma store_kept_announce_children tabId s :
  sessionStore (announce_children_detached tabId s) = sessionStore s.
Proof. apply untouched_announce_children. Qed.

Lemma tidy_ext s s' :
  tabs s' = tabs s → tabBySession s' = tabBySession s → nextSession s' = nextSession s →
  tidy s → tidy s'.
Proof.
  intros Ht Hb Hn (Hc & Ha & Hnd & Hpos). unfold tidy, consistent, allocated.
  by rewrite Ht, Hb, Hn.
Qed.

Lemma sound_untouched s s' : untouched s s' → sound s → sound s'.
Proof.
  intros (Ht & Hb & Hn & Hst) [Htidy Hstore]. split; [by eapply tidy_ext|].
  unfold store_wf. by rewrite Hst.
Qed.

(** In a tidy table a session belongs to one tab. *)
Lemma tidy_session_tab s t1 t2 tab1 tab2 sid :
  consistent s →
  JsMap.get (tabs s) t1 = Some tab1 → JsMap.get (tabs s) t2 = Some tab2 →
  sessionId tab1 = Some sid → sessionId tab2 = Some sid → t1 = t2.
Proof.
  intros [_ Hbwd] H1 H2 Hs1 Hs2.
  pose proof (Hbwd _ _ _ H1 Hs1). pose proof (Hbwd _ _ _ H2 Hs2). congruence.
Qed.

(** The snapshot of a tidy table is a well-formed store. *)
Lemma snapshot_store_wf s :
  tidy s →
  NoDup (map p_tabId (snapshot (tabs s))) ∧ NoDup (map p_sessionId (snapshot (tabs s))) ∧
  (∀ p, p ∈ snapshot (tabs s) → ∃ k, p_sessionId p = session_name k ∧ k < nextSession s).
Proof.
  intros (Hc & Ha & Hnd & _).
  assert (∀ p, p ∈ snapshot (tabs s) →
            ∃ tab, JsMap.get (tabs s) (p_tabId p) = Some tab ∧
                   sessionId tab = Some (p_sessionId p)) as Hentry.
  { intros p (tab & Hin & Hp)%snapshot_elem. exists tab.
    split; [by apply NoDup_get|].
    apply persisted_entry_Some in Hp as (_ & Hs & _ & ->). simpl.
    by destruct (sessionId tab). }
  split; [by apply snapshot_ids_NoDup|]. split.
  - assert (NoDup (snapshot (tabs s))) as Hsnap.
    { eapply NoDup_fmap_1. by apply snapshot_ids_NoDup. }
    apply NoDup_fmap_2_strong; [|done].
    intros p q Hp Hq Hpq.
    destruct (Hentry p Hp) as (tab1 & Hg1 & Hs1). destruct (Hentry q Hq) as (tab2 & Hg2 & Hs2).
    rewrite Hpq in Hs1.
    pose proof (tidy_session_tab _ _ _ _ _ _ Hc Hg1 Hg2 Hs1 Hs2) as Hid.
    apply snapshot_elem in Hp as (tp & Hinp & Hpp). apply snapshot_elem in Hq as (tq & Hinq & Hqq).
    rewrite Hid in Hinp, Hpp.
    pose proof (NoDup_get _ _ _ Hnd Hinp). pose proof (NoDup_get _ _ _ Hnd Hinq).
    congruence.
  - intros p Hp. destruct (Hentry p Hp) as (tab & Hg & Hs). eapply Ha; done.
Qed.

Lemma sound_persistState s : sound s → sound (persistState s).
Proof.
  intros [Htidy Hstore]. split.
  - eapply tidy_ext; [| | |exact Htidy]; apply same_table_persistState.
  - unfold persistState, store_wf. destruct (storageAvailable s); [|done]. simpl.
    destruct (snapshot_store_wf s Htidy) as (? & ? & ?). split_and!; try done. apply Htidy.
Qed.

(** A handler that ends by persisting: the store is the old one or the
    snapshot of the final table. *)
Lemma sound_after_persist s inner :
  sessionStore inner = sessionStore s → store_wf s →
  tidy (persistState inner) → sound (persistState inner).
Proof.
  intros Hst Hstore Htidy. split; [done|].
  assert (tidy inner) as Hin.
  { eapply tidy_ext; [| | |exact Htidy]; symmetry; apply same_table_persistState. }
  unfold persistState in *. destruct (storageAvailable inner).
  - unfold store_wf. simpl.
    destruct (snapshot_store_wf inner Hin) as (? & ? & ?). split_and!; try done. apply Hin.
  - unfold store_wf. by rewrite Hst.
Qed.

Lemma sound_attachTab tabId skip e s :
  JsMap.has (tabs s) tabId = false → sound s → sound (attachTab tabId skip e s).1.
Proof.
  intros Hfree [(Hc & Ha & Hnd & Hpos) Hstore].
  destruct (attachTab_preserves tabId skip e s Hfree Hc Ha) as [Hc' Ha'].
  assert (tidy (attachTab tabId skip e s).1) as Htidy.
  { split_and!; try done.
    - destruct (attachTab tabId skip e s) as [s' r] eqn:Hat. apply attachTab_table in Hat.
      destruct r as [[session tid]|m]; simpl.
      + destruct Hat as (_ & tab & _ & _ & _ & _ & -> & _). by apply NoDup_keys_set.
      + destruct Hat as (-> & _). done.
    - destruct (attachTab tabId skip e s) as [s' r] eqn:Hat. apply attachTab_table in Hat.
      destruct r as [[session tid]|m]; simpl.
      + destruct Hat as (_ & tab & _ & _ & _ & _ & _ & _ & _ & ->). lia.
      + destruct Hat as (_ & _ & _ & ->). done. }
  revert Htidy. unfold attachTab.
  destruct (debugger_attaches e); cbn [negb]; [|intros; by split].
  destruct (target_info e); [|intros; by split].
  destruct (Js.truthy_string _); cbn [negb fst]; [|intros; by split].
  apply (sound_after_persist s); [|done]. cbn [sessionStore setBadge with_badges].
  destruct skip; [done|]. by rewrite store_kept_try_send.
Qed.

(** Dropping the entry of a tab, with its session. *)
Lemma tidy_drop_entry s s' t :
  tidy s →
  tabs s' = JsMap.delete (tabs s) t →
  tabBySession s' = tabBySession (drop_session_of (JsMap.get (tabs s) t) s) →
  nextSession s' = nextSession s →
  tidy s'.
Proof.
  intros ([Hfwd Hbwd] & Halloc & Hnd & Hpos) Ht Hb Hn.
  split_and!.
  - split.
    + intros session t0. rewrite Hb, Ht, drop_session_of_get by done.
      case_bool_decide as Hown; [done|]. intros Hg.
      destruct (Hfwd _ _ Hg) as (tab & Hg' & Hs). exists tab. split; [|done].
      rewrite get_delete_ne; [done|]. intros <-. apply Hown. by rewrite Hg'.
    + intros t0 tab session. rewrite Hb, Ht, drop_session_of_get by done.
      destruct (decide (t = t0)) as [<-|Hne]; [by rewrite get_delete_eq|].
      rewrite get_delete_ne by done. intros Hg Hs.
      pose proof (Hbwd _ _ _ Hg Hs) as Hidx.
      case_bool_decide as Hown; [|done].
      destruct (JsMap.get (tabs s) t) as [tab0|] eqn:Htab0; [|done].
      simpl in Hown. pose proof (Hbwd _ _ _ Htab0 Hown). congruence.
  - intros t0 tab session. rewrite Ht, Hn.
    destruct (decide (t = t0)) as [<-|Hne]; [by rewrite get_delete_eq|].
    rewrite get_delete_ne by done. apply Halloc.
  - rewrite Ht. by apply NoDup_keys_delete.
  - by rewrite Hn.
Qed.

Lemma store_kept_drop_session_of tab s :
  sessionStore (drop_session_of tab s) = sessionStore s.
Proof.
  unfold drop_session_of. destruct (tab ≫= sessionId) as [sid|]; [|done].
  by destruct (Js.truthy_string sid).
Qed.

Lemma drop_session_of_kept tab s :
  tabs (drop_session_of tab s) = tabs s ∧
  nextSession (drop_session_of tab s) = nextSession s.
Proof.
  unfold drop_session_of. destruct (tab ≫= sessionId) as [sid|]; [|done].
  by destruct (Js.truthy_string sid).
Qed.

Lemma drop_session_of_with_tabs tab v s :
  tabBySession (drop_session_of tab (with_tabs v s)) = tabBySession (drop_session_of tab s).
Proof.
  unfold drop_session_of. destruct (tab ≫= sessionId) as [sid|]; [|done].
  by destruct (Js.truthy_string sid).
Qed.

Lemma sound_detachTab tabId reason s : sound s → sound (detachTab tabId reason s).
Proof.
  intros [Htidy Hstore].
  assert (tidy (detachTab tabId reason s)) as Htidy'.
  { destruct (detachTab_table tabId reason s) as (Ht & Hb & _ & Hn).
    by eapply tidy_drop_entry. }
  revert Htidy'. unfold detachTab. apply (sound_after_persist s); [|done]. simpl.
  rewrite store_kept_drop_session_of, store_kept_announce_detached. simpl.
  apply store_kept_announce_children.
Qed.

Lemma onTabRemoved_table tabId s :
  JsMap.has (tabs s) tabId = true →
  tabs (onTabRemoved tabId s) = JsMap.delete (tabs s) tabId ∧
  tabBySession (onTabRemoved tabId s) =
    tabBySession (drop_session_of (JsMap.get (tabs s) tabId) s) ∧
  nextSession (onTabRemoved tabId s) = nextSession s.
Proof.
  intros Hhas. unfold onTabRemoved. cbn [tabs with_reattachPending]. rewrite Hhas. cbn [negb].
  set (s0 := with_reattachPending _ s). set (tab := JsMap.get (tabs s) tabId).
  rewrite !(proj1 (same_table_persistState _)),
    !(proj1 (proj2 (same_table_persistState _))),
    !(proj2 (proj2 (proj2 (same_table_persistState _)))).
  rewrite !(proj1 (untouched_announce_detached _ _ _)),
    !(proj1 (proj2 (untouched_announce_detached _ _ _))),
    !(proj1 (proj2 (proj2 (untouched_announce_detached _ _ _)))).
  simpl. unfold drop_session_of.
  destruct (tab ≫= sessionId) as [sid|]; [destruct (Js.truthy_string sid)|]; done.
Qed.

Lemma sound_onTabRemoved tabId s : sound s → sound (onTabRemoved tabId s).
Proof.
  intros [Htidy Hstore].
  destruct (JsMap.has (tabs s) tabId) eqn:Hhas; last first.
  { unfold onTabRemoved. cbn [tabs with_reattachPending]. rewrite Hhas. cbn [negb].
    eapply sound_untouched; [|by split]. done. }
  assert (tidy (onTabRemoved tabId s)) as Htidy'.
  { destruct (onTabRemoved_table tabId s Hhas) as (Ht & Hb & Hn). by eapply tidy_drop_entry. }
  revert Htidy'. unfold onTabRemoved. cbn [tabs with_reattachPending]. rewrite Hhas. cbn [negb].
  apply (sound_after_persist s); [|done].
  rewrite store_kept_announce_detached. simpl.
  by rewrite store_kept_drop_session_of.
Qed.

Lemma begin_reattach_table tabId s :
  tabs (begin_reattach tabId s) = JsMap.delete (tabs s) tabId ∧
  tabBySession (begin_reattach tabId s) =
    tabBySession (drop_session_of (JsMap.get (tabs s) tabId) s) ∧
  nextSession (begin_reattach tabId s) = nextSession s ∧
  sessionStore (begin_reattach tabId s) = sessionStore s.
Proof.
  unfold begin_reattach. set (tab := JsMap.get (tabs s) tabId). cbn.
  rewrite !(proj1 (untouched_announce_detached _ _ _)),
    !(proj1 (proj2 (untouched_announce_detached _ _ _))),
    !(proj1 (proj2 (proj2 (untouched_announce_detached _ _ _)))),
    !(proj2 (proj2 (proj2 (untouched_announce_detached _ _ _)))).
  simpl. rewrite store_kept_drop_session_of. unfold drop_session_of.
  destruct (tab ≫= sessionId) as [sid|]; [destruct (Js.truthy_string sid)|]; done.
Qed.

Lemma sound_begin_reattach tabId s : sound s → sound (begin_reattach tabId s).
Proof.
  intros [Htidy Hstore]. destruct (begin_reattach_table tabId s) as (Ht & Hb & Hn & Hst).
  split; [by eapply tidy_drop_entry|]. unfold store_wf. by rewrite Hst.
Qed.

Lemma has_delete_false {V} (m : list (Z * V)) (k t : Z) :
  JsMap.has m k = false → JsMap.has (JsMap.delete m t) k = false.
Proof.
  rewrite !has_false. intros Hk.
  destruct (decide (t = k)) as [->|Hne]; [apply get_delete_eq|by rewrite get_delete_ne].
Qed.

Lemma sound_reannounce_fold alive info_ok l acc :
  sound acc → NoDup (map fst l) →
  (∀ t tab, (t, tab) ∈ l → JsMap.get (tabs acc) t = Some tab) →
  sound (foldl (reannounce_one alive info_ok) acc l).
Proof.
  revert acc. induction l as [|[tabId tab] l IH]; intros acc Hs Hnd Hl; [done|].
  cbn [foldl]. apply NoDup_cons in Hnd as [Hfresh Hnd]. cbn [map fst] in Hfresh.
  assert (JsMap.get (tabs acc) tabId = Some tab) as Hg by (apply Hl; left).
  unfold reannounce_one at 2.
  destruct (_ || _); [apply IH; [done|done|intros; apply Hl; by right]|].
  destruct (negb (alive tabId)).
  - apply IH; [|done|].
    + destruct Hs as [Htidy Hstore]. split.
      * eapply (tidy_drop_entry acc _ tabId); [done| | |].
        -- cbn [tabs setBadge with_badges]. by rewrite (proj1 (drop_session_of_kept _ _)).
        -- cbn [tabBySession setBadge with_badges]. by rewrite Hg, drop_session_of_with_tabs.
        -- cbn [nextSession setBadge with_badges].
           by rewrite (proj2 (drop_session_of_kept _ _)).
      * unfold store_wf. cbn [sessionStore setBadge with_badges].
        by rewrite store_kept_drop_session_of.
    + intros t tab0 Hin. cbn [tabs setBadge with_badges].
      rewrite (proj1 (drop_session_of_kept _ _)). cbn [tabs with_tabs].
      rewrite get_delete_ne; [apply Hl; by right|].
      intros <-. apply Hfresh. apply list_elem_of_fmap. by exists (tabId, tab0).
  - apply IH; [|done|].
    + eapply sound_untouched; [|exact Hs].
      eapply untouched_trans; [|by split].
      destruct (info_ok tabId); [apply untouched_try_send|done].
    + intros t tab0 Hin. cbn [tabs setBadge with_badges].
      assert (tabs (if info_ok tabId
                    then try_send (AttachedToTarget (default "" (sessionId tab))) acc
                    else acc) = tabs acc) as ->.
      { destruct (info_ok tabId); [apply untouched_try_send|done]. }
      apply Hl. by right.
Qed.

Lemma sound_reannounce alive info_ok s :
  sound s → sound (reannounceAttachedTabs alive info_ok s).
Proof.
  intros Hs. unfold reannounceAttachedTabs. apply sound_persistState.
  apply sound_reannounce_fold; [done|apply Hs|].
  intros t tab Hin. apply NoDup_get; [apply Hs|done].
Qed.

Lemma onTabReplaced_table a r s tab :
  JsMap.get (tabs s) r = Some tab →
  tabs (onTabReplaced a r s) = JsMap.set (JsMap.delete (tabs s) r) a tab ∧
  tabBySession (onTabReplaced a r s) =
    (if Js.truthy_opt (sessionId tab)
     then JsMap.set (tabBySession s) (default "" (sessionId tab)) a
     else tabBySession s) ∧
  nextSession (onTabReplaced a r s) = nextSession s ∧
  childSessionToTab (onTabReplaced a r s) =
    map (λ kv, if decide (kv.2 = r) then (kv.1, a) else kv) (childSessionToTab s) ∧
  (sessionStore (onTabReplaced a r s) = sessionStore s ∨
   sessionStore (onTabReplaced a r s) =
     Some (snapshot (tabs (onTabReplaced a r s)), nextSession (onTabReplaced a r s))).
Proof.
  intros Hr. unfold onTabReplaced. rewrite Hr.
  rewrite !(proj1 (same_table_persistState _)),
    !(proj1 (proj2 (same_table_persistState _))),
    !(proj1 (proj2 (proj2 (same_table_persistState _)))),
    !(proj2 (proj2 (proj2 (same_table_persistState _)))).
  split_and!; try (cbn; by destruct (Js.truthy_opt (sessionId tab))).
  unfold persistState. destruct (storageAvailable _); [by right|left].
  cbn. by destruct (Js.truthy_opt (sessionId tab)).
Qed.

Lemma store_wf_synced s s' :
  store_wf s → tidy s' →
  sessionStore s' = sessionStore s ∨
  sessionStore s' = Some (snapshot (tabs s'), nextSession s') →
  store_wf s'.
Proof.
  intros Hstore Htidy [Hst|Hst]; unfold store_wf; rewrite Hst; [done|].
  destruct (snapshot_store_wf s' Htidy) as (? & ? & ?). split_and!; try done. apply Htidy.
Qed.

Lemma sound_onTabReplaced a r s :
  JsMap.has (tabs s) a = false → sound s → sound (onTabReplaced a r s).
Proof.
  intros Hfree%has_false [Htidy Hstore].
  destruct (JsMap.get (tabs s) r) as [tab|] eqn:Hr;
    [|unfold onTabReplaced; rewrite Hr; by split].
  assert (a ≠ r) as Har by (intros ->; congruence).
  destruct (onTabReplaced_table a r s tab Hr) as (Ht & Hb & Hn & _ & Hst).
  assert (tidy (onTabReplaced a r s)) as Htidy'; [|split; [done|by eapply store_wf_synced]].
  destruct Htidy as ([Hfwd Hbwd] & Halloc & Hnd & Hpos).
  assert (∀ sid, sessionId tab = Some sid → Js.truthy_string sid = true) as Htruthy.
  { intros sid Hsid. by eapply (allocated_truthy s r tab sid). }
  assert (∀ t, t ≠ a → JsMap.get (tabs (onTabReplaced a r s)) t =
                        if decide (t = r) then None else JsMap.get (tabs s) t) as Hother.
  { intros t Hta. rewrite Ht, get_set_ne by done.
    destruct (decide (t = r)) as [->|Htr]; [apply get_delete_eq|by rewrite get_delete_ne]. }
  assert (JsMap.get (tabs (onTabReplaced a r s)) a = Some tab) as Hnew
    by (rewrite Ht; apply get_set_eq).
  split_and!.
  - split.
    + intros session t. rewrite Hb.
      destruct (sessionId tab) as [sid|] eqn:Hsid; cbn [Js.truthy_opt default from_option id].
      * rewrite (Htruthy sid eq_refl).
        destruct (decide (sid = session)) as [<-|Hne].
        { rewrite get_set_eq. intros [= <-]. by exists tab. }
        rewrite get_set_ne by done. intros Hg.
        destruct (Hfwd _ _ Hg) as (tab0 & Hg0 & Hs0). exists tab0. split; [|done].
        rewrite Hother by (intros ->; congruence).
        destruct (decide (t = r)) as [->|]; [|done]. congruence.
      * intros Hg. destruct (Hfwd _ _ Hg) as (tab0 & Hg0 & Hs0). exists tab0. split; [|done].
        rewrite Hother by (intros ->; congruence).
        destruct (decide (t = r)) as [->|]; [|done]. congruence.
    + intros t tab0 session. rewrite Hb.
      destruct (decide (t = a)) as [->|Hta].
      * rewrite Hnew. intros [= <-] Hsid. rewrite Hsid. cbn [Js.truthy_opt default from_option id].
        rewrite (Htruthy _ Hsid). apply get_set_eq.
      * rewrite Hother by done. destruct (decide (t = r)) as [->|Htr]; [done|].
        intros Hg Hs0. pose proof (Hbwd _ _ _ Hg Hs0) as Hidx.
        destruct (sessionId tab) as [sid|] eqn:Hsid; cbn [Js.truthy_opt default from_option id]; [|done].
        rewrite (Htruthy sid eq_refl). rewrite get_set_ne; [done|].
        intros ->. pose proof (Hbwd _ _ _ Hr Hsid). congruence.
  - intros t tab0 session. rewrite Hn.
    destruct (decide (t = a)) as [->|Hta].
    + rewrite Hnew. intros [= <-] Hs0. by eapply (Halloc r).
    + rewrite Hother by done. destruct (decide (t = r)); [done|]. apply Halloc.
  - rewrite Ht. by apply NoDup_keys_set, NoDup_keys_delete.
  - by rewrite Hn.
Qed.

(** Adding the entry of an untracked tab under a session nobody has. *)
Lemma tidy_add_entry s s' t tab sid k :
  tidy s → JsMap.get (tabs s) t = None → JsMap.get (tabBySession s) sid = None →
  sessionId tab = Some sid → sid = session_name k → k < nextSession s →
  tabs s' = JsMap.set (tabs s) t tab →
  tabBySession s' = JsMap.set (tabBySession s) sid t →
  nextSession s' = nextSession s →
  tidy s'.
Proof.
  intros ([Hfwd Hbwd] & Halloc & Hnd & Hpos) Hfree Hsfree Hsid -> Hk Ht Hb Hn.
  split_and!.
  - split.
    + intros session t0. rewrite Hb, Ht.
      destruct (decide (session_name k = session)) as [<-|Hne].
      * rewrite get_set_eq. intros [= <-]. exists tab. by rewrite get_set_eq.
      * rewrite get_set_ne by done. intros Hg.
        destruct (Hfwd _ _ Hg) as (tab0 & Hg0 & Hs0). exists tab0.
        rewrite get_set_ne; [done|]. intros <-. congruence.
    + intros t0 tab0 session. rewrite Hb, Ht.
      destruct (decide (t = t0)) as [<-|Hne].
      * rewrite get_set_eq. intros [= <-] Hs0.
        assert (session = session_name k) as -> by congruence. by rewrite get_set_eq.
      * rewrite get_set_ne by done. intros Hg Hs0.
        rewrite get_set_ne; [by eapply Hbwd|].
        intros <-. pose proof (Hbwd _ _ _ Hg Hs0). congruence.
  - intros t0 tab0 session. rewrite Ht, Hn.
    destruct (decide (t = t0)) as [<-|Hne].
    + rewrite get_set_eq. intros [= <-] Hs0. exists k. split; [congruence|done].
    + rewrite get_set_ne by done. apply Halloc.
  - rewrite Ht. by apply NoDup_keys_set.
  - by rewrite Hn.
Qed.

Lemma rehydrate_put_tidy entries acc :
  tidy acc → NoDup (map p_tabId entries) → NoDup (map p_sessionId entries) →
  (∀ p, p ∈ entries →
     JsMap.get (tabs acc) (p_tabId p) = None ∧
     JsMap.get (tabBySession acc) (p_sessionId p) = None ∧
     ∃ k, p_sessionId p = session_name k ∧ k < nextSession acc) →
  tidy (foldl rehydrate_put acc entries) ∧
  sessionStore (foldl rehydrate_put acc entries) = sessionStore acc ∧
  ∀ p, p ∈ entries →
    JsMap.get (tabs (foldl rehydrate_put acc entries)) (p_tabId p) = Some (restored_tab p).
Proof.
  revert acc. induction entries as [|p l IH]; intros acc Htidy Hnt Hns Hfree.
  { split_and!; [done|done|]. by intros p Hp%elem_of_nil. }
  cbn [foldl]. apply NoDup_cons in Hnt as [Hpt Hnt]. apply NoDup_cons in Hns as [Hps Hns].
  destruct (Hfree p) as (Hft & Hfs & k & Hk & Hlt); [left|].
  assert (tidy (rehydrate_put acc p)) as Htidy1.
  { by eapply (tidy_add_entry acc _ (p_tabId p) (restored_tab p) (p_sessionId p) k). }
  destruct (IH (rehydrate_put acc p)) as (Htidy' & Hst & Hget); [done|done|done| |].
  { intros q Hq. destruct (Hfree q) as (Hqt & Hqs & Hqk); [by right|].
    cbn [rehydrate_put tabs tabBySession nextSession setBadge with_badges with_tabBySession
         with_tabs].
    split_and!; [| |done].
    - rewrite get_set_ne; [done|]. intros Heq. apply Hpt.
      rewrite Heq. apply list_elem_of_fmap. by exists q.
    - rewrite get_set_ne; [done|]. intros Heq. apply Hps.
      rewrite Heq. apply list_elem_of_fmap. by exists q. }
  split_and!; [done|by rewrite Hst|].
  intros q [->|Hq]%elem_of_cons; [|by apply Hget].
  rewrite rehydrate_put_tabs by done.
  assert (list_find (λ q, p_tabId q = p_tabId p) l = None) as ->.
  { apply list_find_None, Forall_forall. intros q Hq Heq. apply Hpt.
    rewrite <- Heq. apply list_elem_of_fmap. by exists q. }
  apply get_set_eq.
Qed.

Lemma rehydrate_probe_tidy alive entries acc :
  tidy acc → NoDup (map p_tabId entries) →
  (∀ p, p ∈ entries → JsMap.get (tabs acc) (p_tabId p) = Some (restored_tab p)) →
  tidy (foldl (rehydrate_probe alive) acc entries) ∧
  sessionStore (foldl (rehydrate_probe alive) acc entries) = sessionStore acc.
Proof.
  revert acc. induction entries as [|p l IH]; intros acc Htidy Hnt Hget; [done|].
  cbn [foldl]. apply NoDup_cons in Hnt as [Hpt Hnt].
  unfold rehydrate_probe at 2 4. destruct (alive (p_tabId p)).
  { apply IH; [done|done|]. intros q Hq. apply Hget. by right. }
  set (acc' := setBadge _ _ _).
  destruct (IH acc') as [Htidy' Hst]; [|done| |by split].
  - pose proof (Hget p (list_elem_of_here _ _)) as Hp.
    eapply (tidy_drop_entry acc acc' (p_tabId p)); [done|done| |done].
    rewrite Hp. unfold drop_session_of. cbn [mbind option_bind restored_tab sessionId].
    destruct Htidy as (_ & Halloc & _).
    by rewrite (allocated_truthy _ _ _ _ Halloc Hp eq_refl).
  - intros q Hq. cbn [acc' tabs setBadge with_badges with_tabBySession with_tabs].
    rewrite get_delete_ne; [apply Hget; by right|].
    intros Heq. apply Hpt. rewrite Heq. apply list_elem_of_fmap. by exists q.
Qed.

(** Start-up on the empty tables of a fresh worker. *)
Lemma sound_rehydrate alive s :
  tabs s = [] → tabBySession s = [] → sound s → sound (rehydrateState alive s).
Proof.
  intros Ht Hb [Htidy Hstore]. unfold rehydrateState.
  destruct (storageAvailable s); [|by split].
  unfold store_wf in Hstore.
  destruct (sessionStore s) as [[entries n]|] eqn:Hst;
    [|split; [done|unfold store_wf; by rewrite Hst]].
  destruct Hstore as (Hnt & Hns & Hnames & Hn).
  set (s1 := if Js.truthy_int n then with_nextSession (Z.max (nextSession s) n) s else s).
  assert (tabs s1 = [] ∧ tabBySession s1 = [] ∧ n <= nextSession s1 ∧ 0 < nextSession s1
          ∧ sessionStore s1 = sessionStore s) as (Ht1 & Hb1 & Hn1 & Hpos1 & Hst1).
  { destruct Htidy as (_ & _ & _ & Hpos). unfold s1, Js.truthy_int.
    destruct (Z.eqb_spec n 0); cbn [negb]; [lia|]. split_and!; try done; cbn; lia. }
  assert (tidy s1) as Htidy1.
  { split_and!; [split| | |done].
    - intros session t. by rewrite Hb1.
    - intros t tab session. by rewrite Ht1.
    - intros t tab session. by rewrite Ht1.
    - rewrite Ht1. constructor. }
  destruct (rehydrate_put_tidy entries s1) as (Htidy2 & Hst2 & Hget); [done|done|done| |].
  { intros p Hp. rewrite Ht1, Hb1. split_and!; [done|done|].
    destruct (Hnames p Hp) as (k & Hk & Hlt). exists k. split; [done|lia]. }
  destruct (rehydrate_probe_tidy alive entries (foldl rehydrate_put s1 entries))
    as (Htidy3 & Hst3); [done|done|done|].
  split; [done|]. unfold store_wf. rewrite Hst3, Hst2, Hst1, Hst. done.
Qed.

Lemma untouched_with_lock t s : untouched s (with_lock t s).
Proof. done. Qed.

Lemma untouched_without_lock t s : untouched s (without_lock t s).
Proof. done. Qed.

Lemma sound_locked_attach tabId e s :
  JsMap.has (tabs s) tabId = false → sound s →
  sound (without_lock tabId (attachTab tabId false e (with_lock tabId s)).1).
Proof.
  intros Hfree Hs. eapply sound_untouched; [apply untouched_without_lock|].
  apply sound_attachTab; [done|]. eapply sound_untouched; [apply untouched_with_lock|done].
Qed.

Lemma sound_sweep e s : sound s → sound (autoAttachAllTabs e s).
Proof.
  intros Hs. unfold autoAttachAllTabs. destruct (negb _); [done|].
  revert s Hs. induction (all_tabs e) as [|tab l IH]; intros s Hs; [done|].
  cbn [foldl]. apply IH. unfold sweep_one.
  destruct (tab_id tab) as [id|]; [|done].
  destruct (negb _); [done|].
  destruct (JsMap.has (tabs s) id) eqn:Hhas; [done|].
  destruct (isSkippableUrl _); [done|].
  case_bool_decide; [done|]. case_bool_decide; [done|].
  by apply sound_locked_attach.
Qed.

Lemma sound_ensureRelayConnection e s : sound s → sound (ensureRelayConnection e s).1.
Proof. apply sound_untouched, untouched_ensureRelayConnection. Qed.

Lemma sound_autoAttachTab tabId u e ce s : sound s → sound (autoAttachTab tabId u e ce s).
Proof.
  intros Hs. unfold autoAttachTab.
  destruct (negb _); [done|].
  destruct (JsMap.has (tabs s) tabId) eqn:Hhas; [done|].
  destruct (isSkippableUrl _); [done|].
  case_bool_decide; [done|]. case_bool_decide; [done|]. case_bool_decide; [done|].
  pose proof (sound_ensureRelayConnection ce s Hs) as Hs1.
  pose proof (untouched_ensureRelayConnection ce s) as (Ht & _).
  destruct (ensureRelayConnection ce s) as [s1 [[]|m]]; simpl in *; [|done].
  apply sound_locked_attach; [by rewrite Ht|done].
Qed.

Lemma sound_foldl {A} (f : State → A → State) (l : list A) s :
  (∀ acc x, sound acc → sound (f acc x)) → sound s → sound (foldl f s l).
Proof.
  intros Hf. revert s. induction l as [|x l IH]; intros s Hs; simpl; [done|].
  by apply IH, Hf.
Qed.

Lemma sound_onActionClicked e ce s : sound s → sound (onActionClicked e ce s).
Proof.
  intros Hs. unfold onActionClicked. destruct (_ <? _)%nat.
  - apply sound_foldl; [|done]. intros; by apply sound_detachTab.
  - pose proof (sound_ensureRelayConnection ce (cancelReconnect s)) as Hs1.
    destruct (ensureRelayConnection ce _) as [s2 [[]|m]]; simpl in *.
    + apply sound_sweep, Hs1. by eapply sound_untouched; [|exact Hs].
    + apply Hs1. by eapply sound_untouched; [|exact Hs].
Qed.

Lemma sound_scheduleReconnect sample s : sound s → sound (scheduleReconnect sample s).
Proof. by apply sound_untouched. Qed.

Lemma sound_reconnectTimerFired e alive info_ok sample s :
  sound s → sound (reconnectTimerFired e alive info_ok sample s).
Proof.
  intros Hs. unfold reconnectTimerFired.
  pose proof (sound_ensureRelayConnection e (with_reconnectTimer None s)) as Hs1.
  destruct (ensureRelayConnection e _) as [s1 [[]|m]]; simpl in Hs1.
  - apply sound_reannounce. eapply sound_untouched; [|apply Hs1]; [done|].
    by eapply sound_untouched; [|exact Hs].
  - assert (sound s1) as Hs1' by (apply Hs1; by eapply sound_untouched; [|exact Hs]).
    destruct (negb _); [done|]. by apply sound_scheduleReconnect.
Qed.

Lemma sound_onKeepaliveAlarm e ce sample s :
  sound s → sound (onKeepaliveAlarm e ce sample s).
Proof.
  intros Hs. unfold onKeepaliveAlarm.
  apply sound_foldl; [intros; by apply sound_autoAttachTab|].
  destruct (_ && _); [|done].
  pose proof (sound_ensureRelayConnection ce s Hs) as Hs1.
  destruct (ensureRelayConnection ce s) as [s1 [[]|m]]; simpl in Hs1; [done|].
  case_bool_decide; [done|]. by apply sound_scheduleReconnect.
Qed.

Lemma sound_startup alive info_ok e ce sample s :
  tabs s = [] → tabBySession s = [] → sound s →
  sound (startup alive info_ok e ce sample s).
Proof.
  intros Ht Hb Hs. unfold startup.
  pose proof (sound_rehydrate alive s Ht Hb Hs) as Hs0.
  pose proof (sound_ensureRelayConnection ce _ Hs0) as Hs1.
  destruct (ensureRelayConnection ce _) as [s1 [[]|m]]; simpl in Hs1.
  - apply sound_sweep.
    assert (sound (with_reconnectAttempt 0 s1)) as Hs2
      by (by eapply sound_untouched; [|exact Hs1]).
    destruct (_ <? _)%nat; [by apply sound_reannounce|done].
  - assert (sound (scheduleReconnect sample s1)) as Hs2 by (by apply sound_scheduleReconnect).
    destruct (autoAttach_enabled e); [by apply sound_sweep|done].
Qed.

Lemma sound_interleave tabId s i :
  sound s → JsMap.has (tabs s) tabId = false →
  sound (interleave s i) ∧ JsMap.has (tabs (interleave s i)) tabId = false.
Proof.
  intros Hs Hfree. destruct i as [sample|e|t]; cbn [interleave].
  - destruct (relayOpen s); [|done].
    split; [by eapply sound_untouched; [apply untouched_onRelayClosed|]|].
    by rewrite (proj1 (untouched_onRelayClosed sample s)).
  - split; [by apply sound_ensureRelayConnection|].
    by rewrite (proj1 (untouched_ensureRelayConnection e s)).
  - split; [by apply sound_onTabRemoved|].
    destruct (JsMap.has (tabs s) t) eqn:Hhas.
    + rewrite (proj1 (onTabRemoved_table t s Hhas)). by apply has_delete_false.
    + unfold onTabRemoved. cbn [tabs with_reattachPending]. by rewrite Hhas.
Qed.

Lemma sound_interleave_all tabId l s :
  sound s → JsMap.has (tabs s) tabId = false →
  sound (foldl interleave s l) ∧ JsMap.has (tabs (foldl interleave s l)) tabId = false.
Proof.
  revert s. induction l as [|i l IH]; intros s Hs Hfree; [done|].
  cbn [foldl]. destruct (sound_interleave tabId s i Hs Hfree). by apply IH.
Qed.

Lemma sound_reattach_loop tabId attempt ds env s :
  sound s → JsMap.has (tabs s) tabId = false →
  sound (reattach_loop tabId attempt ds env s).
Proof.
  revert attempt s. induction ds as [|d ds IH]; intros attempt s Hs Hfree; simpl.
  { by eapply sound_untouched; [|exact Hs]. }
  destruct (sound_interleave_all tabId (during_delay (env attempt)) (emit (ESleep d) s))
    as [Hs1 Hfree1]; [by eapply sound_untouched; [|exact Hs]|done|].
  set (s1 := foldl interleave _ _) in *.
  assert (∀ s2, sound s2 → JsMap.has (tabs s2) tabId = false →
            sound
              match attachTab tabId false (attach_loud (env attempt)) s2 with
              | (s3, Returned _) => clear_pending tabId s3
              | (s3, Thrown _) => reattach_loop tabId (S attempt) ds env s3
              end) as Hloud.
  { intros s2 Hs2 Hfree2.
    pose proof (sound_attachTab tabId false (attach_loud (env attempt)) s2 Hfree2 Hs2) as Hat.
    destruct (attachTab _ _ _ s2) as [s3 [r|m]] eqn:Heq; simpl in Hat.
    - by eapply sound_untouched; [|exact Hat].
    - apply IH; [done|]. apply attachTab_table in Heq as (-> & _). done. }
  destruct (negb (bool_decide _)); [done|].
  destruct (negb (tab_exists _)); [by eapply sound_untouched; [|exact Hs1]|].
  destruct (negb (relayOpen s1)); [|by apply Hloud].
  pose proof (sound_attachTab tabId true (attach_quiet (env attempt)) s1 Hfree1 Hs1) as Hq.
  destruct (attachTab tabId true _ s1) as [s2 [r|m]] eqn:Heq; simpl in Hq.
  - by eapply sound_untouched; [|exact Hq].
  - apply Hloud; [done|]. apply attachTab_table in Heq as (-> & _). done.
Qed.

Lemma sound_onDebuggerDetach t reason lookup env s :
  sound s → sound (onDebuggerDetach t reason lookup env s).
Proof.
  intros Hs. unfold onDebuggerDetach. destruct t as [tabId|]; [|done].
  destruct (negb _); [done|]. destruct (negb _); [done|].
  destruct (permanent_reason _); [by apply sound_detachTab|].
  destruct lookup as [info|]; [|by apply sound_detachTab].
  destruct (isSkippableUrl _); [by apply sound_detachTab|].
  case_bool_decide; [done|].
  apply sound_reattach_loop; [by apply sound_begin_reattach|].
  rewrite (proj1 (begin_reattach_table tabId s)). apply has_false, get_delete_eq.
Qed.

Lemma sound_handleForwardCdpCommand c e s :
  (∀ newId, created_tab e = Some newId → JsMap.has (tabs s) newId = false) →
  sound s → sound (handleForwardCdpCommand c e s).1.
Proof.
  intros Hnew Hs. unfold handleForwardCdpCommand.
  repeat (match goal with
          | |- sound (if ?b then _ else _).1 => destruct b
          end; [first [by apply sound_sweep|done|by eapply sound_untouched; [|exact Hs]]|]).
  destruct (resolveTabId c s) as [tabId|]; [|done].
  destruct (negb _); [done|].
  case_bool_decide.
  { simpl. eapply sound_untouched; [|exact Hs]. by destruct (disable_ok e). }
  case_bool_decide.
  { destruct (created_tab e) as [newId|]; [|by eapply sound_untouched; [|exact Hs]].
    destruct (negb _); [by eapply sound_untouched; [|exact Hs]|].
    pose proof (sound_attachTab newId false (create_attach e)
                  (emit (ESleep 100) (emit (ETabCreate (default "about:blank" (cmd_url c))) s)))
      as Hat.
    destruct (attachTab _ _ _ _) as [s2 [[]|]]; simpl in *;
      (apply Hat; [by apply Hnew|by eapply sound_untouched; [|exact Hs]]). }
  case_bool_decide.
  { destruct (if Js.truthy_string _ then _ else _) as [t|]; [|done].
    destruct (negb _); [done|]. by eapply sound_untouched; [|exact Hs]. }
  case_bool_decide; [|by eapply sound_untouched; [|exact Hs]].
  destruct (if Js.truthy_string _ then _ else _) as [t|]; [|done].
  destruct (negb _); [done|]. destruct (negb _); [done|].
  by eapply sound_untouched; [|exact Hs].
Qed.

Lemma sound_onForwardCdpCommand id c e s :
  (∀ newId, created_tab e = Some newId → JsMap.has (tabs s) newId = false) →
  sound s → sound (onForwardCdpCommand id c e s).
Proof.
  intros Hnew Hs. unfold onForwardCdpCommand.
  pose proof (sound_handleForwardCdpCommand c e s Hnew Hs) as Hh.
  destruct (handleForwardCdpCommand c e s) as [s1 r].
  eapply sound_untouched; [apply untouched_try_send|exact Hh].
Qed.

Lemma sound_onTabUpdated tabId status cu ct u e ce s :
  sound s → sound (onTabUpdated tabId status cu ct u e ce s).
Proof.
  intros Hs. unfold onTabUpdated.
  assert (sound match JsMap.get (tabs s) tabId with
                | Some existing =>
                    with_tabs (JsMap.set (tabs s) tabId (with_metadata cu ct existing)) s
                | None => s
                end) as Hm.
  { destruct (JsMap.get (tabs s) tabId) as [existing|] eqn:Hg; [|done].
    destruct Hs as [([Hfwd Hbwd] & Halloc & Hnd & Hpos) Hstore]. split; [|done].
    assert (∀ t, JsMap.get (JsMap.set (tabs s) tabId (with_metadata cu ct existing)) t =
                 if decide (tabId = t) then Some (with_metadata cu ct existing)
                 else JsMap.get (tabs s) t) as Hget.
    { intros t. destruct (decide (tabId = t)) as [<-|Hne];
        [apply get_set_eq|by apply get_set_ne]. }
    split_and!.
    - split.
      + intros session t Hg0. cbn in Hg0. destruct (Hfwd _ _ Hg0) as (tab0 & Hg1 & Hs1).
        cbn. rewrite Hget. destruct (decide (tabId = t)) as [<-|Hne]; [|by exists tab0].
        exists (with_metadata cu ct existing). split; [done|]. cbn. congruence.
      + intros t tab0 session. cbn. rewrite Hget.
        destruct (decide (tabId = t)) as [<-|Hne]; [|apply Hbwd].
        intros [= <-] Hs0. by apply (Hbwd tabId existing).
    - intros t tab0 session. cbn. rewrite Hget.
      destruct (decide (tabId = t)) as [<-|Hne]; [|apply Halloc].
      intros [= <-] Hs0. by apply (Halloc tabId existing).
    - cbn. by apply NoDup_keys_set.
    - done. }
  destruct (_ && _); [|done]. by apply sound_autoAttachTab.
Qed.

Lemma sound_dispatch l s : fresh_ids l s → sound s → sound (dispatch l s).
Proof.
  intros Hfresh Hs. destruct l as [ev|parsed e|tab e ce| | |]; cbn [dispatch].
  - destruct ev; cbn [step fresh_ids] in *.
    + destruct Hfresh. by apply sound_startup.
    + by apply sound_onKeepaliveAlarm.
    + case_bool_decide; [by apply sound_reconnectTimerFired|done].
    + destruct (relayOpen s); [|done]. by eapply sound_untouched; [apply untouched_onRelayClosed|].
    + destruct (relayOpen s); [|done]. by apply sound_onForwardCdpCommand.
    + by apply sound_onActionClicked.
    + by apply sound_autoAttachTab.
    + by apply sound_onTabRemoved.
    + by apply sound_onTabReplaced.
    + by eapply sound_untouched; [apply untouched_onDebuggerEvent|].
    + by apply sound_onDebuggerDetach.
  - destruct (relayOpen s); [|done]. unfold onRelayMessage.
    destruct parsed as [msg|]; [|done].
    case_bool_decide; [by eapply sound_untouched; [apply untouched_try_send|]|].
    destruct (msg_id msg) as [id|]; [|done].
    destruct (_ || _); [done|].
    case_bool_decide; [|done]. by apply sound_onForwardCdpCommand.
  - unfold onTabCreated. destruct (tab_id tab) as [id|]; [|done].
    destruct (_ && _); [|done]. by apply sound_autoAttachTab.
  - by apply sound_onTabUpdated.
  - unfold onNavigationCompleted. destruct (negb _); [done|].
    by eapply sound_untouched; [apply untouched_refreshBadge|].
  - by eapply sound_untouched; [apply untouched_refreshBadge|].
Qed.

Lemma sound_initial : sound initial_state.
Proof.
  split; [|done]. split_and!; [split| | |done]; try by intros. constructor.
Qed.

Lemma dispatch_all_sound ls s : sound s → orderly ls s → sound (dispatch_all ls s).
Proof.
  unfold dispatch_all. revert s. induction ls as [|l ls IH]; intros s Hs Hord; [done|].
  destruct Hord as [Hfresh Hord]. cbn [foldl]. apply IH; [|done]. by apply sound_dispatch.
Qed.



(** X8. Every listener leaves the set of locked tabs as it found it: the
    lock the auto-attach paths take around [attachTab] is released whether
    the attach succeeds or throws, so no tab stays locked between events. *)
Theorem tab_locks_released (ls : list Listener) (s : State) :
  tabOperationLocks (dispatch_all ls s) = tabOperationLocks s ∧
  tabOperationLocks (dispatch_all ls initial_state) = ∅.
Proof. split; apply steady_dispatch_all. Qed.

Lemma same_conn_refreshBadge tabId s : same_conn s (refreshBadge tabId s).
Proof.
  unfold refreshBadge. destruct (JsMap.get _ _) as [tab|]; [|done]. by case_bool_decide.
Qed.

Lemma onRelayMessage_conn parsed e s : same_conn s (onRelayMessage parsed e s).
Proof.
  unfold onRelayMessage. destruct parsed as [msg|]; [|done].
  case_bool_decide; [apply same_conn_try_send|].
  destruct (msg_id msg) as [id|]; [|done].
  destruct (_ || _); [done|].
  case_bool_decide; [apply onForwardCdpCommand_conn|done].
Qed.

Lemma onTabUpdated_counter tabId status cu ct u e ce s :
  counter_kept s (onTabUpdated tabId status cu ct u e ce s).
Proof.
  unfold onTabUpdated.
  assert (same_conn s match JsMap.get (tabs s) tabId with
                      | Some existing =>
                          with_tabs (JsMap.set (tabs s) tabId (with_metadata cu ct existing)) s
                      | None => s
                      end) as Hm by (by destruct (JsMap.get _ _)).
  destruct (_ && _); [|by apply same_conn_counter_kept].
  eapply counter_kept_trans; [by apply same_conn_counter_kept|apply autoAttachTab_counter].
Qed.

Lemma dispatch_counter l s :
  (∀ e ce, l ≠ Core (ActionClicked e ce)) → counter_kept s (dispatch l s).
Proof.
  intros Hl. destruct l as [ev|parsed e|tab e ce| | |]; cbn [dispatch].
  - apply step_counter. intros e ce ->. by apply (Hl e ce).
  - destruct (relayOpen s); [|apply counter_kept_refl].
    apply same_conn_counter_kept, onRelayMessage_conn.
  - unfold onTabCreated. destruct (tab_id tab) as [id|]; [|apply counter_kept_refl].
    destruct (_ && _); [apply autoAttachTab_counter|apply counter_kept_refl].
  - apply onTabUpdated_counter.
  - unfold onNavigationCompleted. destruct (negb _); [apply counter_kept_refl|].
    apply same_conn_counter_kept, same_conn_refreshBadge.
  - apply same_conn_counter_kept, same_conn_refreshBadge.
Qed.

(** X9. The listeners outside the connection manager (frames from the
    relay, created and updated tabs, finished navigations, activated tabs)
    treat the reconnect counter like the others: a listener other than the
    action click leaves a non-negative counter non-negative, and brings it
    to zero only by connecting, after which the socket is open. *)
Theorem listeners_reset_counter_only_by_connecting (l : Listener) (s : State) :
  (∀ e ce, l ≠ Core (ActionClicked e ce)) →
  0 <= reconnectAttempt s →
  0 <= reconnectAttempt (dispatch l s) ∧
  (reconnectAttempt (dispatch l s) = 0 →
   reconnectAttempt s = 0 ∨ relayOpen (dispatch l s) = true).
Proof.
  intros Hl H0. destruct (dispatch_counter l s Hl H0) as [Hnn Hz]. split; [done|].
  intros Hzero. destruct (Hz Hzero) as [[? _]|?]; [by left|by right].
Qed.

Lemma listeners_reset_counter_only_by_connecting_witness :
  reconnectAttempt (run two_failed_connects initial_state) = 2 ∧
  relayOpen (dispatch (Core (ReconnectTimer relay_up (λ _, true) (λ _, true) (Fin 0)))
               (run two_failed_connects initial_state)) = true.
Proof.
  split; [reflexivity|].
  destruct (listeners_reset_counter_only_by_connecting
              (Core (ReconnectTimer relay_up (λ _, true) (λ _, true) (Fin 0)))
              (run two_failed_connects initial_state)) as [_ Hz].
  - intros e ce. discriminate.
  - vm_compute. discriminate.
  - destruct Hz as [Hzero|Hopen]; [reflexivity|discriminate Hzero|exact Hopen].
Defined.

Lemma nextSession_put_fold l acc :
  nextSession (foldl rehydrate_put acc l) = nextSession acc.
Proof. revert acc. induction l as [|p l IH]; intros acc; [done|]. cbn [foldl]. by rewrite IH. Qed.

Lemma nextSession_probe_fold alive l acc :
  nextSession (foldl (rehydrate_probe alive) acc l) = nextSession acc.
Proof.
  revert acc. induction l as [|p l IH]; intros acc; [done|]. cbn [foldl]. rewrite IH.
  unfold rehydrate_probe. by destruct (alive _).
Qed.

Lemma sound_restarted s : sound s → sound (restarted s).
Proof.
  intros [_ Hstore]. split; [|done].
  split_and!; [split| | |done]; try by intros. constructor.
Qed.

(** X10. A restart of the service worker keeps the sessions apart: when the
    tables were in order and the snapshot was written, the worker that
    starts from the snapshot has its tables in order again and its session
    counter where it was, so the sessions it issues next are different from
    the restored ones. *)
Theorem restart_resumes_session_counter (s : State) (alive : Z → bool) :
  sound s → storageAvailable s = true →
  let s' := rehydrateState alive (restarted (persistState s)) in
  sound s' ∧ nextSession s' = nextSession s ∧
  ∀ t tab sid, JsMap.get (tabs s') t = Some tab → sessionId tab = Some sid →
    sid ≠ session_name (nextSession s').
Proof.
  intros Hs Hav. cbn zeta.
  assert (sound (rehydrateState alive (restarted (persistState s)))) as Hs'.
  { apply sound_rehydrate; [done|done|]. by apply sound_restarted, sound_persistState. }
  assert (nextSession (rehydrateState alive (restarted (persistState s))) = nextSession s) as Hn.
  { destruct Hs as [(_ & _ & _ & Hpos) _].
    unfold rehydrateState, persistState. rewrite Hav.
    cbn [restarted storageAvailable with_sessionStore initial_state sessionStore].
    unfold Js.truthy_int. destruct (Z.eqb_spec (nextSession s) 0); [lia|]. cbn [negb].
    rewrite nextSession_probe_fold, nextSession_put_fold. cbn. lia. }
  split; [done|]. split; [done|].
  intros t tab sid Hg Hsid. destruct Hs' as [(_ & Halloc & _) _].
  destruct (Halloc _ _ _ Hg Hsid) as (k & -> & Hk). intros Heq%session_name_inj. lia.
Qed.

Lemma sound_tab7_attached : sound tab7_attached.
Proof.
  change tab7_attached
    with (dispatch_all
            [Core (TabNeedsAttach 7 (Some "https://example.com/") (one_tab 7 "T7") relay_up)]
            initial_state).
  apply dispatch_all_sound; [apply sound_initial|]. by cbn.
Qed.

Lemma sound_two_tabs_one_worker : sound two_tabs_one_worker.
Proof.
  change two_tabs_one_worker
    with (dispatch_all
            [Core (TabNeedsAttach 5 (Some "https://example.com/") (one_tab 5 "T5") relay_up);
             Core (DebuggerEvent (Some 5) None "Target.attachedToTarget" (Some "worker-1"));
             Core (TabNeedsAttach 6 (Some "https://example.org/") (one_tab 6 "T6") relay_up)]
            initial_state).
  apply dispatch_all_sound; [apply sound_initial|]. by cbn.
Qed.

Lemma restart_resumes_session_counter_witness :
  nextSession (rehydrateState (λ _, true) (restarted (persistState tab7_attached))) = 2.
Proof.
  destruct (restart_resumes_session_counter tab7_attached (λ _, true) sound_tab7_attached)
    as (_ & Hn & _); [reflexivity|].
  exact Hn.
Defined.

(** ** What the handlers write *)

Lemma emits_refl P s : emits P s s.
Proof. exists []. by rewrite app_nil_r. Qed.

Lemma emits_trans P s1 s2 s3 : emits P s1 s2 → emits P s2 s3 → emits P s1 s3.
Proof.
  intros (a & Ha & HPa) (b & Hb & HPb). exists (a ++ b)%list.
  split; [by rewrite Hb, Ha, app_assoc|by apply Forall_app].
Qed.

Lemma emits_same P s s' : trace s' = trace s → emits P s s'.
Proof. intros H. exists []. by rewrite app_nil_r. Qed.

Lemma emits_emit (P : Effect → Prop) e s : P e → emits P s (emit e s).
Proof. intros HP. exists [e]. split; [done|by constructor]. Qed.

Lemma emits_try_send (P : Effect → Prop) f s : P (ESend f) → emits P s (try_send f s).
Proof.
  intros HP. unfold try_send, sendToRelay.
  destruct (relayOpen s); [by apply emits_emit|apply emits_refl].
Qed.

Lemma emits_foldl {A} P (f : State → A → State) (l : list A) s :
  (∀ acc x, x ∈ l → emits P acc (f acc x)) → emits P s (foldl f s l).
Proof.
  revert s. induction l as [|x l IH]; intros s Hf; simpl; [apply emits_refl|].
  eapply emits_trans; [apply Hf; left|]. apply IH. intros acc y Hy. apply Hf. by right.
Qed.

Lemma emits_impl (P Q : Effect → Prop) s s' :
  (∀ e, P e → Q e) → emits P s s' → emits Q s s'.
Proof. intros HPQ (seg & Hseg & HP). exists seg. split; [done|]. by eapply Forall_impl. Qed.

Lemma trace_persistState s : trace (persistState s) = trace s.
Proof. unfold persistState. by destruct (storageAvailable s). Qed.

Lemma trace_drop_session_of tab s : trace (drop_session_of tab s) = trace s.
Proof.
  unfold drop_session_of. destruct (tab ≫= sessionId) as [sid|]; [|done].
  by destruct (Js.truthy_string sid).
Qed.

Lemma emits_attachTab (P : Effect → Prop) tabId skip e s :
  P (EDebuggerAttach tabId) → (∀ session, P (ESend (AttachedToTarget session))) →
  emits P s (attachTab tabId skip e s).1.
Proof.
  intros Hattach Hsend. unfold attachTab.
  destruct (debugger_attaches e); cbn [negb]; [|by apply emits_emit].
  destruct (target_info e); [|by apply emits_emit].
  destruct (Js.truthy_string _); cbn [negb fst]; [|by apply emits_emit].
  eapply emits_trans; [by apply (emits_emit P (EDebuggerAttach tabId))|].
  eapply emits_trans; [|apply emits_same, trace_persistState].
  eapply emits_trans; [|by apply emits_same].
  destruct skip; [by apply emits_same|].
  eapply emits_trans; [|by apply emits_try_send]. by apply emits_same.
Qed.

Lemma has_set_true {V} (m : list (Z * V)) (k t : Z) (v : V) :
  JsMap.has m k = true → JsMap.has (JsMap.set m t v) k = true.
Proof.
  rewrite !has_true. intros Hk.
  destruct (decide (t = k)) as [->|Hne]; [by rewrite get_set_eq|by rewrite get_set_ne].
Qed.

Lemma attachTab_keeps_tracked tabId skip e s k :
  JsMap.has (tabs s) k = true → JsMap.has (tabs (attachTab tabId skip e s).1) k = true.
Proof.
  intros Hk. destruct (attachTab tabId skip e s) as [s' r] eqn:Hat.
  apply attachTab_table in Hat. destruct r as [[session tid]|m]; simpl.
  - destruct Hat as (_ & tab & _ & _ & _ & _ & -> & _). by apply has_set_true.
  - destruct Hat as (-> & _). done.
Qed.

Lemma sweep_one_keeps_tracked e s tab k :
  JsMap.has (tabs s) k = true → JsMap.has (tabs (sweep_one e s tab)) k = true.
Proof.
  intros Hk. unfold sweep_one. destruct (tab_id tab) as [id|]; [|done].
  repeat (match goal with |- context [if ?b then _ else _] => destruct b end; [done|]).
  cbn [without_lock tabs with_tabOperationLocks]. by apply attachTab_keeps_tracked.
Qed.

Lemma emits_sweep_fold e s0 l acc :
  (∀ tab, tab ∈ l → tab ∈ all_tabs e) →
  (∀ k, JsMap.has (tabs s0) k = true → JsMap.has (tabs acc) k = true) →
  emits (sweep_effect e s0) acc (foldl (sweep_one e) acc l).
Proof.
  revert acc. induction l as [|tab l IH]; intros acc Hl Hmono; [apply emits_refl|].
  cbn [foldl]. eapply emits_trans; [|apply IH].
  - unfold sweep_one. destruct (tab_id tab) as [id|] eqn:Hid; [|apply emits_refl].
    destruct (negb (Js.truthy_int id)) eqn:Htruthy; [apply emits_refl|].
    destruct (JsMap.has (tabs acc) id) eqn:Hhas; [apply emits_refl|].
    destruct (isSkippableUrl _) eqn:Hskip; [apply emits_refl|].
    case_bool_decide as Hopt; [apply emits_refl|].
    case_bool_decide; [apply emits_refl|].
    eapply emits_trans; [|by apply emits_same].
    eapply emits_trans; [apply (emits_same _ acc (with_lock id acc)); done|].
    apply emits_attachTab; [|done].
    exists tab. split_and!; try done.
    + apply Hl. left.
    + apply negb_false_iff in Htruthy. unfold Js.truthy_int in Htruthy.
      intros ->. done.
    + destruct (JsMap.has (tabs s0) id) eqn:H0; [|done]. apply Hmono in H0. congruence.
  - intros t Ht. apply Hl. by right.
  - intros k Hk. by apply sweep_one_keeps_tracked, Hmono.
Qed.

Lemma emits_sweep e s : emits (sweep_effect e s) s (autoAttachAllTabs e s).
Proof.
  unfold autoAttachAllTabs. destruct (negb _); [apply emits_refl|]. by apply emits_sweep_fold.
Qed.

(** X11. The sweep attaches the debugger only to tabs the browser lists
    with a truthy id and an attachable address other than the options page,
    and that were not tracked when it began; apart from those attaches it
    only announces sessions. *)
Theorem sweep_attaches_only_eligible_tabs (e : SweepEnv) (s : State) :
  emits (sweep_effect e s) s (autoAttachAllTabs e s).
Proof. apply emits_sweep. Qed.

Lemma announce_children_fold_trace tabId l acc :
  relayOpen acc = true →
  let s' := foldl (λ acc kv, if decide (kv.2 = tabId)
                             then try_send (DetachedFromTarget kv.1 None "parent_detached") acc
                             else acc) acc l in
  trace s' =
    (trace acc ++ map (λ kv : string * Z, ESend (DetachedFromTarget kv.1 None "parent_detached"))
                      (filter (λ kv, kv.2 = tabId) l))%list ∧
  relayOpen s' = true.
Proof.
  revert acc. induction l as [|kv l IH]; intros acc Hopen; cbn zeta.
  { by rewrite app_nil_r. }
  cbn [foldl]. destruct (decide (kv.2 = tabId)) as [Heq|Hne].
  - rewrite filter_cons_True by done.
    destruct (IH (try_send (DetachedFromTarget kv.1 None "parent_detached") acc)) as [Ht Ho].
    { by rewrite (proj1 (same_conn_try_send _ _)). }
    split; [|done]. rewrite Ht. unfold try_send, sendToRelay. rewrite Hopen.
    cbn [trace emit with_trace map]. by rewrite <- app_assoc.
  - rewrite filter_cons_False by done. by apply IH.
Qed.

Lemma get_filter_keep {V} (p : string * V → Prop) `{∀ x, Decision (p x)}
    (m : list (string * V)) (c : string) (v : V) :
  JsMap.get m c = Some v → p (c, v) → JsMap.get (filter p m) c = Some v.
Proof.
  intros Hg Hp. induction m as [|[k w] m IH]; [done|]. cbn [JsMap.get] in Hg.
  destruct (decide (k = c)) as [->|Hne].
  - injection Hg as ->. rewrite filter_cons_True by done. cbn [JsMap.get].
    by rewrite decide_True.
  - destruct (decide (p (k, w))).
    + rewrite filter_cons_True by done. cbn [JsMap.get]. rewrite decide_False by done.
      by apply IH.
    + rewrite filter_cons_False by done. by apply IH.
Qed.

Lemma detachTab_trace tabId reason s :
  trace (detachTab tabId reason s) =
  (trace (announce_detached (JsMap.get (tabs s) tabId) reason
            (drop_children tabId (announce_children_detached tabId s)))
   ++ [EDebuggerDetach tabId])%list.
Proof.
  unfold detachTab. rewrite trace_persistState.
  cbn [trace setBadge with_badges emit with_trace with_tabs].
  by rewrite trace_drop_session_of.
Qed.

Lemma announce_detached_trace tab reason s sid tid :
  sessionId tab = Some sid → targetId tab = Some tid → sid ≠ "" → tid ≠ "" →
  trace (announce_detached (Some tab) reason s) =
  if relayOpen s then (trace s ++ [ESend (DetachedFromTarget sid (Some tid) reason)])%list
  else trace s.
Proof.
  intros Hsid Htid Hs Ht. unfold announce_detached. cbn [mbind option_bind].
  rewrite Hsid, Htid.
  assert (Js.truthy_string sid && Js.truthy_string tid = true) as -> by (by destruct sid, tid).
  unfold try_send, sendToRelay. by destruct (relayOpen s).
Qed.

Lemma announce_children_closed tabId s :
  relayOpen s = false → announce_children_detached tabId s = s.
Proof.
  intros Hclosed. unfold announce_children_detached. generalize (childSessionToTab s) as l.
  induction l as [|kv l IH]; [done|]. cbn [foldl].
  destruct (decide _); [|done]. unfold try_send, sendToRelay. by rewrite Hclosed.
Qed.

(** X12. [detachTab] on a tab with a session: with the socket open the
    relay is told of every child session of the tab ([parent_detached]), in
    the order of the child table, then of the tab's own session with the
    given reason, and then the debugger is detached; with the socket closed
    only the debugger is detached. Either way the tab's entry and its child
    sessions are gone and the entries and child sessions of the other tabs
    are as before. *)
Theorem detach_announces_children_first (tabId : Z) (reason : string) (s : State)
    (tab : TabSession) (sid tid : string) :
  JsMap.get (tabs s) tabId = Some tab →
  sessionId tab = Some sid → targetId tab = Some tid → sid ≠ "" → tid ≠ "" →
  let s' := detachTab tabId reason s in
  (relayOpen s = true →
   trace s' = (trace s ++ child_detach_frames tabId s ++
               [ESend (DetachedFromTarget sid (Some tid) reason); EDebuggerDetach tabId])%list) ∧
  (relayOpen s = false → trace s' = (trace s ++ [EDebuggerDetach tabId])%list) ∧
  JsMap.get (tabs s') tabId = None ∧ no_child_of tabId s' ∧
  (∀ t, t ≠ tabId → JsMap.get (tabs s') t = JsMap.get (tabs s) t) ∧
  (∀ c t, t ≠ tabId → JsMap.get (childSessionToTab s) c = Some t →
          JsMap.get (childSessionToTab s') c = Some t).
Proof.
  intros Hg Hsid Htid Hs Ht. cbn zeta.
  destruct (detachTab_table tabId reason s) as (Htabs & _ & Hchild & _).
  split_and!.
  - intros Hopen. rewrite detachTab_trace, Hg.
    destruct (announce_children_fold_trace tabId (childSessionToTab s) s Hopen) as [Htr Ho].
    fold (announce_children_detached tabId s) in Htr, Ho.
    rewrite (announce_detached_trace tab reason _ sid tid) by done.
    cbn [relayOpen drop_children with_childSessionToTab trace]. rewrite Ho, Htr.
    unfold child_detach_frames. by rewrite <- !app_assoc.
  - intros Hclosed. rewrite detachTab_trace, Hg, announce_children_closed by done.
    rewrite (announce_detached_trace tab reason _ sid tid) by done.
    cbn [relayOpen drop_children with_childSessionToTab trace]. by rewrite Hclosed.
  - rewrite Htabs. apply get_delete_eq.
  - by apply detachTab_no_child.
  - intros t Hne. rewrite Htabs. by apply get_delete_ne.
  - intros c t Hne Hc. rewrite Hchild. unfold JsMap.delete_where.
    apply (get_filter_keep (λ kv, negb (bool_decide (kv.2 = tabId)))); [done|].
    cbn. by rewrite bool_decide_false.
Qed.

Lemma detach_announces_children_first_witness :
  trace (detachTab 5 "toggle" two_tabs_one_worker) =
  (trace two_tabs_one_worker ++
   [ESend (DetachedFromTarget "worker-1" None "parent_detached");
    ESend (DetachedFromTarget "cb-tab-1" (Some "T5") "toggle");
    EDebuggerDetach 5])%list.
Proof.
  destruct (detach_announces_children_first 5 "toggle" two_tabs_one_worker
              (tab_of 5 two_tabs_one_worker) "cb-tab-1" "T5") as (Hopen & _);
    [reflexivity|reflexivity|reflexivity|discriminate|discriminate|].
  apply Hopen. reflexivity.
Defined.

(** ** Reconnecting *)

Lemma delete_absent {V} (m : list (Z * V)) (k : Z) :
  k ∉ JsMap.keys m → JsMap.delete m k = m.
Proof.
  induction m as [|[k' v] m IH]; [done|]. cbn [JsMap.keys map fst JsMap.delete].
  intros Hk. apply not_elem_of_cons in Hk as [Hne Hk].
  rewrite decide_False by done. f_equal. by apply IH.
Qed.

Lemma delete_app {V} (a b : list (Z * V)) (k : Z) :
  JsMap.delete (a ++ b) k = (JsMap.delete a k ++ JsMap.delete b k)%list.
Proof.
  induction a as [|[k' v] a IH]; [done|]. cbn [app JsMap.delete].
  destruct (decide (k' = k)); [done|]. cbn [app]. by f_equal.
Qed.

(** Deleting, while going through the table, the entries whose probe
    fails leaves the entries whose probe succeeds, in their order. *)
Lemma prune_is_filter (alive : Z → bool) (pre l : list (Z * TabSession)) :
  NoDup (JsMap.keys (pre ++ l)%list) →
  foldl (λ m kv, if alive kv.1 then m else JsMap.delete m kv.1) (pre ++ l)%list l =
  (pre ++ filter (λ kv, alive kv.1 = true) l)%list.
Proof.
  revert pre. induction l as [|[t tab] l IH]; intros pre Hnd; [done|].
  cbn [foldl fst]. destruct (alive t) eqn:Halive.
  - rewrite filter_cons_True by done.
    rewrite (cons_middle (t, tab) pre l), app_assoc. rewrite IH; [by rewrite <- app_assoc|].
    by rewrite <- app_assoc.
  - rewrite filter_cons_False by (cbn; congruence).
    unfold JsMap.keys in Hnd. rewrite fmap_app in Hnd.
    apply NoDup_app in Hnd as (Hpre & Hdisj & Hl). cbn [fmap list_fmap fst] in Hdisj, Hl.
    apply NoDup_cons in Hl as [Hfresh Hl].
    assert (JsMap.delete (pre ++ (t, tab) :: l)%list t = (pre ++ l)%list) as ->.
    { rewrite delete_app. cbn [JsMap.delete]. rewrite decide_True by done.
      rewrite !delete_absent; [done|done|].
      intros Hin. apply (Hdisj t Hin). left. }
    apply IH. unfold JsMap.keys. rewrite fmap_app. apply NoDup_app. split_and!; try done.
    intros x Hx Hx'. apply (Hdisj x Hx). by right.
Qed.

Lemma reannounce_fold alive info_ok l acc :
  relayOpen acc = true →
  (∀ t tab, (t, tab) ∈ l → state tab = connected ∧ Js.truthy_opt (sessionId tab) = true ∧
                           Js.truthy_opt (targetId tab) = true) →
  let s' := foldl (reannounce_one alive info_ok) acc l in
  relayOpen s' = true ∧
  trace s' =
    (trace acc ++ omap (λ kv : Z * TabSession,
                          if alive kv.1 && info_ok kv.1
                          then Some (ESend (AttachedToTarget (default "" (sessionId kv.2))))
                          else None) l)%list ∧
  tabs s' = foldl (λ m kv, if alive kv.1 then m else JsMap.delete m kv.1) (tabs acc) l ∧
  nextSession s' = nextSession acc ∧ childSessionToTab s' = childSessionToTab acc ∧
  reconnectAttempt s' = reconnectAttempt acc ∧ reconnectTimer s' = reconnectTimer acc.
Proof.
  revert acc. induction l as [|[t tab] l IH]; intros acc Hopen Hok; cbn zeta.
  { by rewrite app_nil_r. }
  destruct (Hok t tab) as (Hst & Hsid & Htid); [left|].
  cbn [foldl omap list_omap fst snd]. unfold reannounce_one at 2 4 6 8 10 12 14.
  rewrite Hst, Hsid, Htid, bool_decide_true by done. cbn [negb orb].
  destruct (alive t) eqn:Halive; cbn [negb andb].
  - set (acc' := setBadge t badge_on _).
    destruct (IH acc') as (Ho & Htr & Ht & Hn & Hc & Ha & Htm).
    { unfold acc'. destruct (info_ok t); [|done]. cbn.
      by rewrite (proj1 (same_conn_try_send _ _)). }
    { intros t0 tab0 Hin. apply (Hok t0 tab0). by right. }
    rewrite Ho, Htr, Ht, Hn, Hc, Ha, Htm. unfold acc'.
    destruct (info_ok t).
    + unfold try_send, sendToRelay. rewrite Hopen. cbn. by rewrite <- app_assoc.
    + done.
  - set (acc' := setBadge t badge_off _).
    assert (relayOpen acc' = relayOpen acc ∧ trace acc' = trace acc ∧
            tabs acc' = JsMap.delete (tabs acc) t ∧ nextSession acc' = nextSession acc ∧
            childSessionToTab acc' = childSessionToTab acc ∧
            reconnectAttempt acc' = reconnectAttempt acc ∧
            reconnectTimer acc' = reconnectTimer acc) as (Ho' & Htr' & Ht' & Hn' & Hc' & Ha' & Htm').
    { unfold acc', drop_session_of. destruct (Some tab ≫= sessionId) as [sid|]; [|done].
      by destruct (Js.truthy_string sid). }
    destruct (IH acc') as (Ho & Htr & Ht & Hn & Hc & Ha & Htm).
    { by rewrite Ho'. }
    { intros t0 tab0 Hin. apply (Hok t0 tab0). by right. }
    by rewrite Ho, Htr, Ht, Hn, Hc, Ha, Htm, Htr', Ht', Hn', Hc', Ha', Htm'.
Qed.

Lemma onRelayClosed_fields sample s :
  let s' := onRelayClosed sample s in
  relayOpen s' = false ∧ relayConnectPromise s' = relayConnectPromise s ∧
  is_Some (reconnectTimer s') ∧ reattachPending s' = ∅ ∧ trace s' = trace s ∧
  tabs s' = tabs s ∧ nextSession s' = nextSession s ∧
  childSessionToTab s' = childSessionToTab s ∧ tabBySession s' = tabBySession s.
Proof.
  cbn zeta. unfold onRelayClosed.
  set (s2 := with_reattachPending ∅ (with_relayOpen false s)).
  assert (∀ l acc,
            let r := foldl (λ acc kv, if bool_decide (state kv.2 = connected)
                                      then setBadge kv.1 badge_connecting acc else acc)
                           acc (l : list (Z * TabSession)) in
            relayOpen r = relayOpen acc ∧ relayConnectPromise r = relayConnectPromise acc ∧
            reattachPending r = reattachPending acc ∧ trace r = trace acc ∧
            tabs r = tabs acc ∧ nextSession r = nextSession acc ∧
            childSessionToTab r = childSessionToTab acc ∧ tabBySession r = tabBySession acc)
    as Hfold.
  { induction l as [|kv l IH]; intros acc; [done|]. cbn [foldl].
    destruct (IH (if bool_decide (state kv.2 = connected)
                  then setBadge kv.1 badge_connecting acc else acc))
      as (-> & -> & -> & -> & -> & -> & -> & ->).
    by case_bool_decide. }
  destruct (Hfold (tabs s2) s2) as (Ho & Hp & Hr & Htr & Ht & Hn & Hc & Hb).
  cbn [scheduleReconnect relayOpen relayConnectPromise reconnectTimer reattachPending trace tabs
       nextSession childSessionToTab tabBySession with_reconnectTimer with_reconnectAttempt].
  rewrite Ho, Hp, Hr, Htr, Ht, Hn, Hc, Hb. by split_and!.
Qed.

(** X13. The socket closes and the reconnect timer then connects: the tabs
    whose probe answers keep their entries, in the same order and with the
    same session ids, and the tabs whose probe fails are dropped; every
    surviving tab whose target can be read is announced to the relay once,
    under the session id it had; no session id is issued, the child
    sessions are kept, the counter is back at zero and no timer is armed. *)
Theorem reconnect_reannounces_sessions (s : State) (ce : ConnectEnv)
    (alive info_ok : Z → bool) (sample sample' : JsNum) :
  relayOpen s = true → relayConnectPromise s = false →
  table_wf s → all_connected s → connect_body ce = Returned () →
  let s' := run [RelayClosed sample; ReconnectTimer ce alive info_ok sample'] s in
  relayOpen s' = true ∧ reconnectAttempt s' = 0 ∧ reconnectTimer s' = None ∧
  tabs s' = filter (λ kv, alive kv.1 = true) (tabs s) ∧
  nextSession s' = nextSession s ∧ childSessionToTab s' = childSessionToTab s ∧
  trace s' = (trace s ++ reannounce_frames alive info_ok s)%list.
Proof.
  intros Hopen Hnopromise [Hnd Hwf] Hconn Hce. cbn zeta.
  unfold run. cbn [foldl step]. rewrite Hopen.
  destruct (onRelayClosed_fields sample s) as (Ho & Hp & Htimer & _ & Htr & Ht & Hn & Hc & _).
  generalize dependent (onRelayClosed sample s). intros s1 Ho Hp Htimer Htr Ht Hn Hc.
  rewrite bool_decide_true by done. unfold reconnectTimerFired, ensureRelayConnection.
  cbn [relayOpen relayConnectPromise with_reconnectTimer]. rewrite Ho, Hp, Hnopromise, Hce.
  unfold reannounceAttachedTabs.
  set (s2 := with_reconnectAttempt 0 _).
  destruct (reannounce_fold alive info_ok (tabs s2) s2) as (Ho' & Htr' & Ht' & Hn' & Hc' & Ha' & Htm').
  { done. }
  { intros t tab Hin. cbn in Hin. rewrite Ht in Hin.
    destruct (Hwf t tab Hin). split_and!; try done. by eapply Hconn. }
  rewrite (proj1 (same_conn_persistState _)), (proj2 (same_conn_persistState _)).
  rewrite (proj1 (same_table_persistState _)),
    (proj1 (proj2 (proj2 (same_table_persistState _)))),
    (proj2 (proj2 (proj2 (same_table_persistState _)))), trace_persistState.
  assert (reconnectTimer (persistState (foldl (reannounce_one alive info_ok) s2 (tabs s2)))
          = reconnectTimer (foldl (reannounce_one alive info_ok) s2 (tabs s2))) as ->.
  { unfold persistState. by destruct (storageAvailable _). }
  rewrite Ho', Htr', Ht', Hn', Hc', Ha', Htm'.
  cbn [s2 tabs trace nextSession childSessionToTab reconnectAttempt reconnectTimer
       with_reconnectAttempt with_relayOpen with_reconnectTimer].
  rewrite Ht, Htr, Hn, Hc.
  split_and!; try done.
  apply (prune_is_filter alive [] (tabs s)). done.
Qed.

Lemma all_connected_Forall s :
  Forall (λ kv, state kv.2 = connected) (tabs s) → all_connected s.
Proof. intros H t tab Hin. by apply (proj1 (Forall_forall _ _) H (t, tab)). Qed.

Lemma two_tabs_wf : table_wf two_tabs_one_worker ∧ all_connected two_tabs_one_worker.
Proof.
  split.
  - apply table_wf_Forall; [apply (proj1 (proj2 (proj2 (proj1 sound_two_tabs_one_worker))))|].
    vm_compute. repeat constructor.
  - apply all_connected_Forall. vm_compute. repeat constructor.
Qed.

Lemma reconnect_reannounces_sessions_witness :
  let s' := run [RelayClosed (Fin 0);
                 ReconnectTimer relay_up (λ t, negb (t =? 5)) (λ _, true) (Fin 0)]
                two_tabs_one_worker in
  JsMap.keys (tabs s') = [6] ∧
  trace s' = (trace two_tabs_one_worker ++ [ESend (AttachedToTarget "cb-tab-2")])%list.
Proof.
  destruct (reconnect_reannounces_sessions two_tabs_one_worker relay_up
              (λ t, negb (t =? 5)) (λ _, true) (Fin 0) (Fin 0))
    as (_ & _ & _ & Htabs & _ & _ & Htrace).
  - vm_compute; reflexivity.
  - vm_compute; reflexivity.
  - apply two_tabs_wf.
  - apply two_tabs_wf.
  - vm_compute; reflexivity.
  - cbn zeta. rewrite Htabs, Htrace. split; vm_compute; reflexivity.
Defined.

(** ** Frames from the relay *)

Lemma emits_no_reply e s : ¬ is_reply e → emits (λ eff, ¬ is_reply eff) s (emit e s).
Proof. intros H. exact (emits_emit (λ eff, ¬ is_reply eff) e s H). Qed.

Lemma emits_handleForwardCdpCommand c e s :
  emits (λ eff, ¬ is_reply eff) s (handleForwardCdpCommand c e s).1.
Proof.
  unfold handleForwardCdpCommand.
  case_bool_decide; [apply emits_refl|].
  case_bool_decide.
  { cbn [fst]. eapply emits_impl; [|apply (emits_sweep (sweep e) s)].
    intros eff Heff Hr. destruct eff as [f| | | | | | | |]; try done. by destruct f. }
  case_bool_decide; [apply emits_refl|].
  destruct (Js.startsWith _ "Cookie."); [apply emits_no_reply; by intros []|].
  destruct (Js.startsWith _ "Download."); [apply emits_no_reply; by intros []|].
  destruct (resolveTabId c s) as [tabId|]; [|apply emits_refl].
  destruct (negb _); [apply emits_refl|].
  case_bool_decide.
  { cbn [fst]. eapply emits_trans; [|apply emits_no_reply; by intros []].
    eapply emits_trans;
      [apply (emits_no_reply (EDebuggerCommand tabId None "Runtime.disable")); by intros []|].
    destruct (disable_ok e); [apply emits_no_reply; by intros []|apply emits_refl]. }
  case_bool_decide.
  { assert (emits (λ eff, ¬ is_reply eff) s
              (emit (ETabCreate (default "about:blank" (cmd_url c))) s)) as Hcreate
      by (apply emits_no_reply; by intros []).
    destruct (created_tab e) as [newId|]; [|done].
    destruct (negb _); [done|].
    pose proof (emits_attachTab (λ eff, ¬ is_reply eff) newId false (create_attach e)
                  (emit (ESleep 100) (emit (ETabCreate (default "about:blank" (cmd_url c))) s)))
      as Hat.
    assert (emits (λ eff, ¬ is_reply eff) s
              (emit (ESleep 100) (emit (ETabCreate (default "about:blank" (cmd_url c))) s)))
      as Hpre.
    { eapply emits_trans; [exact Hcreate|]. apply emits_no_reply. by intros []. }
    destruct (attachTab _ _ _ _) as [s2 [[]|]]; cbn [fst] in *;
      (eapply emits_trans; [exact Hpre|apply Hat; [by intros []|intros session; by intros []]]). }
  case_bool_decide.
  { destruct (if Js.truthy_string _ then _ else _) as [t|]; [|apply emits_refl].
    destruct (negb _); [apply emits_refl|apply emits_no_reply; by intros []]. }
  case_bool_decide; [|apply emits_no_reply; by intros []].
  destruct (if Js.truthy_string _ then _ else _) as [t|]; [|apply emits_refl].
  destruct (negb _); [apply emits_refl|].
  destruct (negb _); [apply emits_refl|apply emits_no_reply; by intros []].
Qed.

(** X14. What the socket's message handler does with a frame, while the
    socket is open: a ping is answered by one pong and nothing else
    changes; a frame that carries a result or an error is dropped, even
    when its method is forwardCDPCommand; a forwardCDPCommand request is
    answered by exactly one reply, under the request's id, written after
    everything else the command wrote; a frame that is not JSON is
    ignored. *)
Theorem relay_frame_handling (msg : RelayMessage) (e : CommandEnv) (s : State) :
  relayOpen s = true →
  (msg_method msg = Some "ping" → onRelayMessage (Some msg) e s = emit (ESend Pong) s) ∧
  (msg_method msg ≠ Some "ping" → is_Some (msg_id msg) →
   msg_has_result msg || msg_has_error msg = true → onRelayMessage (Some msg) e s = s) ∧
  (∀ id, msg_method msg = Some "forwardCDPCommand" → msg_id msg = Some id →
   msg_has_result msg || msg_has_error msg = false →
   ∃ seg, trace (onRelayMessage (Some msg) e s) =
            (trace s ++ seg ++
             [ESend (Reply id (handleForwardCdpCommand (msg_command msg) e s).2)])%list ∧
          Forall (λ eff, ¬ is_reply eff) seg) ∧
  onRelayMessage None e s = s.
Proof.
  intros Hopen. split_and!.
  - intros Hm. unfold onRelayMessage. rewrite bool_decide_true by done.
    unfold try_send, sendToRelay. by rewrite Hopen.
  - intros Hm [id Hid] Hres. unfold onRelayMessage.
    rewrite bool_decide_false by done. by rewrite Hid, Hres.
  - intros id Hm Hid Hres. unfold onRelayMessage.
    rewrite bool_decide_false by (rewrite Hm; discriminate).
    rewrite Hid, Hres, bool_decide_true by done. unfold onForwardCdpCommand.
    destruct (emits_handleForwardCdpCommand (msg_command msg) e s) as (seg & Hseg & Hno).
    pose proof (handleForwardCdpCommand_conn (msg_command msg) e s) as [Ho _].
    destruct (handleForwardCdpCommand (msg_command msg) e s) as [s1 r]. cbn [fst snd] in *.
    exists seg. split; [|done]. unfold try_send, sendToRelay. rewrite Ho, Hopen.
    cbn [trace emit with_trace]. by rewrite Hseg, <- app_assoc.
  - done.
Qed.

Lemma relay_frame_handling_witness :
  onRelayMessage (Some ping_frame) browser_creates_tab12 tab7_attached =
  emit (ESend Pong) tab7_attached.
Proof.
  apply (proj1 (relay_frame_handling ping_frame browser_creates_tab12 tab7_attached eq_refl)).
  reflexivity.
Defined.

(** ** Detaches that end the session *)

Lemma emits_announce_children (P : Effect → Prop) tabId s :
  (∀ f, P (ESend f)) → emits P s (announce_children_detached tabId s).
Proof.
  intros HP. unfold announce_children_detached. apply emits_foldl. intros acc kv _.
  destruct (decide _); [by apply emits_try_send|apply emits_refl].
Qed.

Lemma emits_announce_detached (P : Effect → Prop) tab reason s :
  (∀ f, P (ESend f)) → emits P s (announce_detached tab reason s).
Proof.
  intros HP. unfold announce_detached.
  destruct (tab ≫= sessionId), (tab ≫= targetId); try apply emits_refl.
  destruct (_ && _); [by apply emits_try_send|apply emits_refl].
Qed.

Lemma emits_detachTab (P : Effect → Prop) tabId reason s :
  (∀ f, P (ESend f)) → P (EDebuggerDetach tabId) → emits P s (detachTab tabId reason s).
Proof.
  intros Hsend Hdetach. destruct (emits_announce_children P tabId s Hsend) as (a & Ha & HPa).
  destruct (emits_announce_detached P (JsMap.get (tabs s) tabId) reason
              (drop_children tabId (announce_children_detached tabId s)) Hsend)
    as (b & Hb & HPb).
  exists (a ++ b ++ [EDebuggerDetach tabId])%list. split.
  - rewrite detachTab_trace, Hb. cbn [trace drop_children with_childSessionToTab].
    by rewrite Ha, <- !app_assoc.
  - apply Forall_app. split; [done|]. apply Forall_app. split; [done|]. by constructor.
Qed.

Lemma pending_try_send f s : reattachPending (try_send f s) = reattachPending s.
Proof. unfold try_send, sendToRelay. by destruct (relayOpen s). Qed.

Lemma detachTab_pending_badge tabId reason s :
  reattachPending (detachTab tabId reason s) = reattachPending s ∧
  JsMap.get (badges (detachTab tabId reason s)) tabId = Some badge_off.
Proof.
  unfold detachTab.
  assert (∀ x, reattachPending (persistState x) = reattachPending x ∧
               badges (persistState x) = badges x) as Hpersist.
  { intros x. unfold persistState. by destruct (storageAvailable x). }
  rewrite (proj1 (Hpersist _)), (proj2 (Hpersist _)).
  cbn [reattachPending badges setBadge with_badges emit with_trace with_tabs].
  split; [|apply get_set_eq].
  assert (∀ tab x, reattachPending (drop_session_of tab x) = reattachPending x) as Hdrop.
  { intros tab x. unfold drop_session_of. destruct (tab ≫= sessionId) as [sid|]; [|done].
    by destruct (Js.truthy_string sid). }
  assert (∀ tab x, reattachPending (announce_detached tab reason x) = reattachPending x) as Hann.
  { intros tab x. unfold announce_detached.
    destruct (tab ≫= sessionId), (tab ≫= targetId); try done.
    destruct (_ && _); [apply pending_try_send|done]. }
  rewrite Hdrop, Hann. cbn [reattachPending drop_children with_childSessionToTab].
  unfold announce_children_detached. generalize (childSessionToTab s) as l.
  intros l. revert s. induction l as [|kv l IH]; intros s; [done|]. cbn [foldl].
  rewrite IH. destruct (decide _); [apply pending_try_send|done].
Qed.

(** X15. A detach with a permanent reason ([canceled_by_user],
    [replaced_with_devtools]), of a tab that is gone, or of a tab whose
    address cannot be attached ends the session at once: the handler does
    what [detachTab] does, waits for no delay and tries no attach, the tab
    is not marked Pending Reattach, its entry is removed and its badge is
    off. *)
Theorem final_detach_ends_session (tabId : Z) (reason : string)
    (lookup : option TabInfo) (env : nat → RetryEnv) (s : State) :
  tabId ≠ 0 → JsMap.has (tabs s) tabId = true → final_detach reason lookup →
  let s' := onDebuggerDetach (Some tabId) reason lookup env s in
  s' = detachTab tabId reason s ∧
  emits (λ eff, in_view eff = false) s s' ∧
  JsMap.get (tabs s') tabId = None ∧ no_child_of tabId s' ∧
  reattachPending s' = reattachPending s ∧
  JsMap.get (badges s') tabId = Some badge_off.
Proof.
  intros Hid Hhas Hfinal. cbn zeta.
  assert (onDebuggerDetach (Some tabId) reason lookup env s = detachTab tabId reason s) as ->.
  { unfold onDebuggerDetach, Js.truthy_int. rewrite Hhas.
    destruct (Z.eqb_spec tabId 0); [done|]. cbn [negb].
    destruct Hfinal as [->|[->|(info & -> & Hskip)]]; [done| |].
    - by destruct (permanent_reason reason).
    - rewrite Hskip. by destruct (permanent_reason reason). }
  destruct (detachTab_pending_badge tabId reason s) as [Hp Hb].
  split_and!; try done.
  - by apply emits_detachTab.
  - rewrite (proj1 (detachTab_table tabId reason s)). apply get_delete_eq.
  - apply detachTab_no_child.
Qed.

Lemma final_detach_ends_session_witness :
  onDebuggerDetach (Some 7) "canceled_by_user" (Some tab7_info) third_retry_attaches
    tab7_attached = detachTab 7 "canceled_by_user" tab7_attached.
Proof.
  destruct (final_detach_ends_session 7 "canceled_by_user" (Some tab7_info)
              third_retry_attaches tab7_attached) as (Heq & _);
    [discriminate|vm_compute; reflexivity|by left|].
  exact Heq.
Defined.

(** ** Child sessions *)

(** X16. The debugger reports a child session of a tracked tab: from then
    on a command addressed to the child session is resolved to the tab;
    when the debugger reports that the child session is gone, the session
    resolves to nothing. Neither event changes the tab table or the session
    index. *)
Theorem child_session_registered_then_removed (tabId : Z) (ss : option string)
    (c : string) (s : State) (tab : TabSession) (method : string)
    (target u : option string) :
  tabId ≠ 0 → JsMap.get (tabs s) tabId = Some tab →
  Js.truthy_opt (sessionId tab) = true → c ≠ "" →
  JsMap.get (tabBySession s) c = None →
  let s1 := onDebuggerEvent (Some tabId) ss "Target.attachedToTarget" (Some c) s in
  let s2 := onDebuggerEvent (Some tabId) ss "Target.detachedFromTarget" (Some c) s1 in
  getTabBySessionId c s1 = Some (tabId, child) ∧
  resolveTabId (mkCommand method (Some c) target u) s1 = Some tabId ∧
  JsMap.get (childSessionToTab s2) c = None ∧ getTabBySessionId c s2 = None ∧
  tabs s2 = tabs s ∧ tabBySession s2 = tabBySession s.
Proof.
  intros Hid Hg Hsid Hc Hfree. cbn zeta.
  assert (Js.truthy_int tabId = true) as Htid.
  { unfold Js.truthy_int. by destruct (Z.eqb_spec tabId 0). }
  assert (Js.truthy_string c = true) as Hct by (by destruct c).
  assert (∀ f x, tabs (try_send f x) = tabs x ∧ tabBySession (try_send f x) = tabBySession x ∧
                 childSessionToTab (try_send f x) = childSessionToTab x) as Hsend.
  { intros f x. unfold try_send, sendToRelay. by destruct (relayOpen x). }
  assert (bool_decide ("Target.attachedToTarget" = "Target.attachedToTarget") = true ∧
          bool_decide ("Target.attachedToTarget" = "Target.detachedFromTarget") = false ∧
          bool_decide ("Target.detachedFromTarget" = "Target.attachedToTarget") = false ∧
          bool_decide ("Target.detachedFromTarget" = "Target.detachedFromTarget") = true)
    as (Haa & Had & Hda & Hdd) by (by vm_compute).
  set (s1 := onDebuggerEvent (Some tabId) ss "Target.attachedToTarget" (Some c) s).
  assert (tabs s1 = tabs s ∧ tabBySession s1 = tabBySession s ∧
          childSessionToTab s1 = JsMap.set (childSessionToTab s) c tabId) as (Ht1 & Hb1 & Hc1).
  { unfold s1, onDebuggerEvent. rewrite Htid, Hg, Hsid, Hct. cbn [negb andb].
    rewrite Haa, Had.
    destruct (Hsend (ForwardedEvent (or_string ss (sessionId tab)) "Target.attachedToTarget")
                (with_childSessionToTab (JsMap.set (childSessionToTab s) c tabId) s))
      as (-> & -> & ->). done. }
  set (s2 := onDebuggerEvent (Some tabId) ss "Target.detachedFromTarget" (Some c) s1).
  assert (tabs s2 = tabs s1 ∧ tabBySession s2 = tabBySession s1 ∧
          childSessionToTab s2 = JsMap.delete (childSessionToTab s1) c) as (Ht2 & Hb2 & Hc2).
  { unfold s2, onDebuggerEvent. rewrite Htid, Ht1, Hg, Hsid, Hct. cbn [negb andb].
    rewrite Hda, Hdd.
    destruct (Hsend (ForwardedEvent (or_string ss (sessionId tab)) "Target.detachedFromTarget")
                (with_childSessionToTab (JsMap.delete (childSessionToTab s1) c) s1))
      as (-> & -> & ->). done. }
  assert (getTabBySessionId c s1 = Some (tabId, child)) as Hres.
  { unfold getTabBySessionId. by rewrite Hb1, Hfree, Hc1, get_set_eq, Htid. }
  split_and!.
  - done.
  - unfold resolveTabId. cbn [cmd_sessionId]. by rewrite Hct, Hres.
  - rewrite Hc2. apply get_delete_eq.
  - unfold getTabBySessionId. by rewrite Hb2, Hb1, Hfree, Hc2, get_delete_eq.
  - congruence.
  - congruence.
Qed.

Lemma child_session_registered_then_removed_witness :
  resolveTabId (mkCommand "Runtime.evaluate" (Some "worker-9") None None)
    (onDebuggerEvent (Some 7) None "Target.attachedToTarget" (Some "worker-9") tab7_attached)
  = Some 7.
Proof.
  destruct (child_session_registered_then_removed 7 None "worker-9" tab7_attached
              (tab_of 7 tab7_attached) "Runtime.evaluate" None None) as (_ & Hres & _);
    [discriminate|vm_compute; reflexivity|vm_compute; reflexivity|discriminate|vm_compute; reflexivity|].
  exact Hres.
Defined.

(** ** The tab list and the snapshot *)

Lemma map_omap_ext {A B C D} (g : A → option B) (g' : A → option C)
    (f : B → D) (f' : C → D) (l : list A) :
  (∀ x, f <$> g x = f' <$> g' x) → map f (omap g l) = map f' (omap g' l).
Proof.
  intros Hext. induction l as [|x l IH]; [done|]. cbn [omap list_omap].
  specialize (Hext x). destruct (g x), (g' x); cbn in Hext; try done.
  cbn [map]. congruence.
Qed.

(** X17. [Tab.list] and the persisted snapshot show the same tabs: the
    list the relay is given names, in the same order, the tab, session and
    target ids that [persistState] writes to the session storage. *)
Theorem tab_list_matches_snapshot (s : State) :
  map (λ l, (l_tabId l, l_sessionId l, l_targetId l)) (handleTabList s) =
  map (λ p, (p_tabId p, p_sessionId p, p_targetId p)) (snapshot (tabs s)).
Proof.
  unfold handleTabList, snapshot. apply map_omap_ext. intros [t tab].
  unfold persisted_entry. cbn [fst snd].
  destruct (state tab); [done|]. rewrite bool_decide_true by done. cbn [andb].
  destruct (sessionId tab) as [sid|]; [|done].
  destruct (targetId tab) as [tid|]; cbn [Js.truthy_opt]; [|by rewrite andb_false_r].
  by destruct (Js.truthy_string sid), (Js.truthy_string tid).
Qed.

(** ** Tab updates *)

Lemma snapshot_set_same_ids m tabId existing tab' :
  JsMap.get m tabId = Some existing →
  persisted_entry tabId tab' = persisted_entry tabId existing →
  snapshot (JsMap.set m tabId tab') = snapshot m ∧
  JsMap.keys (JsMap.set m tabId tab') = JsMap.keys m.
Proof.
  intros Hg Hp. unfold snapshot, JsMap.keys.
  induction m as [|[k v] m IH]; [done|]. cbn [JsMap.get] in Hg. cbn [JsMap.set].
  destruct (decide (k = tabId)) as [->|Hne].
  - injection Hg as ->. cbn [omap list_omap map fst snd]. by rewrite Hp.
  - destruct (IH Hg) as [IH1 IH2]. cbn [omap list_omap map fst snd]. by rewrite IH1, IH2.
Qed.

(** X18. An update of a tracked tab changes what is shown of it and nothing
    else: the entry takes the new address and title when they are given and
    keeps its state, session id and target id; the other entries, the order
    of the table, the session index and the persisted snapshot are the same;
    nothing is attached and nothing is sent, whatever the status of the
    update. *)
Theorem tab_update_keeps_session (tabId : Z)
    (status change_url change_title current_url : option string)
    (e : SweepEnv) (ce : ConnectEnv) (s : State) (existing : TabSession) :
  JsMap.get (tabs s) tabId = Some existing →
  let s' := onTabUpdated tabId status change_url change_title current_url e ce s in
  (∃ tab', JsMap.get (tabs s') tabId = Some tab' ∧
           state tab' = state existing ∧ sessionId tab' = sessionId existing ∧
           targetId tab' = targetId existing ∧
           url tab' = (if Js.truthy_opt change_url then change_url else url existing) ∧
           title tab' = (if Js.truthy_opt change_title then change_title else title existing)) ∧
  (∀ t, t ≠ tabId → JsMap.get (tabs s') t = JsMap.get (tabs s) t) ∧
  JsMap.keys (tabs s') = JsMap.keys (tabs s) ∧
  snapshot (tabs s') = snapshot (tabs s) ∧
  tabBySession s' = tabBySession s ∧ nextSession s' = nextSession s ∧ trace s' = trace s.
Proof.
  intros Hg. cbn zeta. unfold onTabUpdated.
  assert (JsMap.has (tabs s) tabId = true) as -> by (apply has_true; by rewrite Hg).
  rewrite Hg, andb_false_r.
  destruct (snapshot_set_same_ids (tabs s) tabId existing
              (with_metadata change_url change_title existing) Hg eq_refl) as [Hsnap Hkeys].
  cbn [tabs tabBySession nextSession trace with_tabs]. split_and!; try done.
  - exists (with_metadata change_url change_title existing). by rewrite get_set_eq.
  - intros t Hne. by rewrite get_set_ne.
Qed.

Lemma tab_update_keeps_session_witness :
  snapshot (tabs (onTabUpdated 7 (Some "loading") (Some "https://example.com/next") None
                    (Some "https://example.com/next") (one_tab 7 "T7") relay_up tab7_attached))
  = snapshot (tabs tab7_attached).
Proof.
  destruct (tab_update_keeps_session 7 (Some "loading") (Some "https://example.com/next") None
              (Some "https://example.com/next") (one_tab 7 "T7") relay_up tab7_attached
              (tab_of 7 tab7_attached)) as (_ & _ & _ & Hsnap & _); [vm_compute; reflexivity|].
  exact Hsnap.
Defined.

(** ** Retrying the connection *)



(** ** Attach followed by detach *)




(** ** Addressing a command *)

Lemma plain_method_dispatch c e s t :
  plain_method (Js.trim (cmd_method c)) → resolveTabId c s = Some t → t ≠ 0 →
  handleForwardCdpCommand c e s =
  (emit (EDebuggerCommand t
           match cmd_sessionId c, JsMap.get (tabs s) t ≫= sessionId with
           | Some sid, Some m =>
               if Js.truthy_string sid && Js.truthy_string m && negb (bool_decide (sid = m))
               then Some sid else None
           | _, _ => None
           end (Js.trim (cmd_method c))) s,
   opaque (debugger_reply e)).
Proof.
  intros ((H1 & H2 & H3 & H4 & H5) & H6 & H7 & H8 & H9) Hres Ht.
  unfold handleForwardCdpCommand. rewrite !bool_decide_false by done.
  rewrite H4, H5, Hres. unfold Js.truthy_int. destruct (Z.eqb_spec t 0); [done|]. done.
Qed.

(** X21. How a command that is handed to the debugger as it is gets
    addressed, when the session indices are consistent: a command for the
    session of a tab is sent to that tab without a session id; a command for
    a child session is sent to the tab the child belongs to, with the
    child's session id. *)
Theorem command_addressed_by_session (c : Command) (e : CommandEnv) (s : State)
    (sid : string) (t : Z) :
  consistent s → plain_method (Js.trim (cmd_method c)) →
  cmd_sessionId c = Some sid → sid ≠ "" → t ≠ 0 →
  (JsMap.get (tabBySession s) sid = Some t →
   handleForwardCdpCommand c e s =
   (emit (EDebuggerCommand t None (Js.trim (cmd_method c))) s, opaque (debugger_reply e))) ∧
  (JsMap.get (tabBySession s) sid = None → JsMap.get (childSessionToTab s) sid = Some t →
   ∀ tab, JsMap.get (tabs s) t = Some tab → Js.truthy_opt (sessionId tab) = true →
   handleForwardCdpCommand c e s =
   (emit (EDebuggerCommand t (Some sid) (Js.trim (cmd_method c))) s,
    opaque (debugger_reply e))).
Proof.
  intros [Hfwd Hbwd] Hplain Hsid Hne Ht.
  assert (Js.truthy_string sid = true) as Htruthy by (by destruct sid).
  assert (Js.truthy_int t = true) as Hti.
  { unfold Js.truthy_int. by destruct (Z.eqb_spec t 0). }
  split.
  - intros Hmain.
    assert (resolveTabId c s = Some t) as Hres.
    { unfold resolveTabId, getTabBySessionId. by rewrite Hsid, Htruthy, Hmain, Hti. }
    rewrite (plain_method_dispatch c e s t Hplain Hres Ht), Hsid.
    destruct (Hfwd _ _ Hmain) as (tab & -> & Hs). cbn [mbind option_bind]. rewrite Hs.
    by rewrite bool_decide_true, andb_false_r.
  - intros Hnomain Hchild tab Hg Hs.
    assert (resolveTabId c s = Some t) as Hres.
    { unfold resolveTabId, getTabBySessionId. by rewrite Hsid, Htruthy, Hnomain, Hchild, Hti. }
    rewrite (plain_method_dispatch c e s t Hplain Hres Ht), Hsid, Hg. cbn [mbind option_bind].
    destruct (sessionId tab) as [m|] eqn:Hm; [|done]. cbn [Js.truthy_opt] in Hs.
    rewrite Htruthy, Hs. cbn [andb].
    rewrite bool_decide_false; [done|].
    intros ->. pose proof (Hbwd _ _ _ Hg Hm). congruence.
Qed.

Lemma command_addressed_by_session_witness :
  handleForwardCdpCommand (mkCommand "Runtime.evaluate" (Some "worker-1") None None)
    browser_creates_tab12 two_tabs_one_worker =
  (emit (EDebuggerCommand 5 (Some "worker-1") "Runtime.evaluate") two_tabs_one_worker,
   Returned (ROpaque "{}")).
Proof.
  destruct (command_addressed_by_session
              (mkCommand "Runtime.evaluate" (Some "worker-1") None None)
              browser_creates_tab12 two_tabs_one_worker "worker-1" 5) as [_ Hchild].
  - apply (proj1 (proj1 sound_two_tabs_one_worker)).
  - repeat split; try discriminate; reflexivity.
  - reflexivity.
  - discriminate.
  - discriminate.
  - apply (Hchild eq_refl eq_refl (tab_of 5 two_tabs_one_worker)); reflexivity.
Defined.

(** ** Closed and replaced tabs *)

Lemma pending_persistState s : reattachPending (persistState s) = reattachPending s.
Proof. unfold persistState. by destruct (storageAvailable s). Qed.

Lemma pending_announce_detached tab reason s :
  reattachPending (announce_detached tab reason s) = reattachPending s.
Proof.
  unfold announce_detached. destruct (tab ≫= sessionId), (tab ≫= targetId); try done.
  destruct (_ && _); [apply pending_try_send|done].
Qed.

Lemma pending_drop_session_of tab s :
  reattachPending (drop_session_of tab s) = reattachPending s.
Proof.
  unfold drop_session_of. destruct (tab ≫= sessionId) as [k|]; [|done].
  by destruct (Js.truthy_string k).
Qed.

(** X22. A tracked tab is closed: its entry, its session and its child
    sessions are removed and it is no longer Pending Reattach; with the
    socket open the relay is told once that the session is detached
    ([tab_closed]), and nothing is asked of the debugger; the entries of the
    other tabs stay. *)
Theorem closed_tab_is_forgotten (tabId : Z) (s : State) (tab : TabSession)
    (sid tid : string) :
  JsMap.get (tabs s) tabId = Some tab →
  sessionId tab = Some sid → targetId tab = Some tid → sid ≠ "" → tid ≠ "" →
  let s' := onTabRemoved tabId s in
  trace s' = (if relayOpen s
              then (trace s ++ [ESend (DetachedFromTarget sid (Some tid) "tab_closed")])%list
              else trace s) ∧
  JsMap.get (tabs s') tabId = None ∧ JsMap.get (tabBySession s') sid = None ∧
  no_child_of tabId s' ∧ (tabId ∉ reattachPending s') ∧
  (∀ t, t ≠ tabId → JsMap.get (tabs s') t = JsMap.get (tabs s) t).
Proof.
  intros Hg Hsid Htid Hs Ht. cbn zeta.
  assert (JsMap.has (tabs s) tabId = true) as Hhas by (apply has_true; by rewrite Hg).
  destruct (onTabRemoved_table tabId s Hhas) as (Htabs & Hb & _).
  split_and!.
  - unfold onTabRemoved. cbn [tabs with_reattachPending]. rewrite Hhas. cbn [negb].
    rewrite trace_persistState, Hg.
    rewrite (announce_detached_trace tab "tab_closed" _ sid tid) by done.
    cbn [relayOpen trace drop_children with_childSessionToTab with_tabs].
    assert (∀ x, relayOpen (drop_session_of (Some tab) x) = relayOpen x) as ->.
    { intros x. apply same_conn_drop_session_of. }
    rewrite trace_drop_session_of. done.
  - rewrite Htabs. apply get_delete_eq.
  - rewrite Hb, Hg. unfold drop_session_of. cbn [mbind option_bind]. rewrite Hsid.
    assert (Js.truthy_string sid = true) as -> by (by destruct sid).
    apply get_delete_eq.
  - by apply onTabRemoved_no_child.
  - unfold onTabRemoved. cbn [tabs with_reattachPending]. rewrite Hhas. cbn [negb].
    rewrite pending_persistState, pending_announce_detached.
    cbn [reattachPending drop_children with_childSessionToTab with_tabs].
    rewrite pending_drop_session_of. cbn [reattachPending with_reattachPending].
    intros [_ Hin]%elem_of_difference. apply Hin. by apply elem_of_singleton.
  - intros t Hne. rewrite Htabs. by apply get_delete_ne.
Qed.

Lemma closed_tab_is_forgotten_witness :
  trace (onTabRemoved 7 tab7_attached) =
  (trace tab7_attached ++ [ESend (DetachedFromTarget "cb-tab-1" (Some "T7") "tab_closed")])%list.
Proof.
  destruct (closed_tab_is_forgotten 7 tab7_attached (tab_of 7 tab7_attached) "cb-tab-1" "T7")
    as (Htrace & _); [vm_compute; reflexivity|vm_compute; reflexivity|vm_compute; reflexivity|discriminate|discriminate|].
  exact Htrace.
Defined.

Lemma get_remap (m : list (string * Z)) (removed added : Z) (c : string) :
  JsMap.get (map (λ kv : string * Z, if decide (kv.2 = removed) then (kv.1, added) else kv) m) c
  = (λ t, if decide (t = removed) then added else t) <$> JsMap.get m c.
Proof.
  induction m as [|[k t] m IH]; [done|]. cbn [map JsMap.get fst snd].
  destruct (decide (t = removed)) as [->|Hne]; cbn [JsMap.get];
    destruct (decide (k = c)); cbn; try done.
  - by rewrite decide_True.
  - by rewrite decide_False.
Qed.

(** X23. A tracked tab is replaced by a tab that is not tracked: the entry,
    the session and the child sessions move to the new tab id, so a command
    for the session or for one of its child sessions now reaches the new
    tab; the child sessions of other tabs stay where they are, and the relay
    is told nothing, because the session goes on. *)
Theorem replaced_tab_keeps_session (added removed : Z) (s : State)
    (tab : TabSession) (sid : string) :
  sound s → JsMap.has (tabs s) added = false →
  JsMap.get (tabs s) removed = Some tab → sessionId tab = Some sid →
  let s' := onTabReplaced added removed s in
  JsMap.get (tabs s') added = Some tab ∧ JsMap.get (tabs s') removed = None ∧
  JsMap.get (tabBySession s') sid = Some added ∧
  (∀ c t, JsMap.get (childSessionToTab s) c = Some t →
          JsMap.get (childSessionToTab s') c = Some (if decide (t = removed) then added else t)) ∧
  trace s' = trace s ∧ consistent s'.
Proof.
  intros Hs Hfree Hg Hsid. cbn zeta.
  destruct (onTabReplaced_table added removed s tab Hg) as (Ht & Hb & _ & Hc & _).
  assert (added ≠ removed) as Hne.
  { intros ->. apply has_false in Hfree. congruence. }
  assert (Js.truthy_string sid = true) as Htruthy.
  { destruct Hs as [(_ & Halloc & _) _]. by eapply (allocated_truthy s removed tab sid). }
  split_and!.
  - rewrite Ht. apply get_set_eq.
  - rewrite Ht, get_set_ne by done. apply get_delete_eq.
  - rewrite Hb, Hsid. cbn [Js.truthy_opt default from_option id]. rewrite Htruthy.
    apply get_set_eq.
  - intros c t Hct. by rewrite Hc, get_remap, Hct.
  - unfold onTabReplaced. rewrite Hg, trace_persistState.
    cbn [trace setBadge with_badges with_childSessionToTab]. by destruct (Js.truthy_opt _).
  - by apply (sound_onTabReplaced added removed s Hfree Hs).
Qed.

Lemma replaced_tab_keeps_session_witness :
  JsMap.get (tabBySession (onTabReplaced 9 7 tab7_attached)) "cb-tab-1" = Some 9.
Proof.
  destruct (replaced_tab_keeps_session 9 7 tab7_attached (tab_of 7 tab7_attached) "cb-tab-1"
              sound_tab7_attached) as (_ & _ & Hb & _); [vm_compute; reflexivity|vm_compute; reflexivity|vm_compute; reflexivity|].
  exact Hb.
Defined.

(** ** Errors that end the reconnection *)

Lemma prefix_empty (s : string) : String.prefix "" s = true.
Proof. by destruct s. Qed.

Lemma prefix_app (p b c : string) :
  String.prefix p b = true → String.prefix p (b +:+ c) = true.
Proof.
  revert p. induction b as [|y b IH]; intros p.
  - destruct p; [|done]. intros _. apply prefix_empty.
  - rewrite append_cons. destruct p as [|x p]; [done|]. cbn [String.prefix].
    destruct (ascii_dec x y); [apply IH|done].
Qed.

Lemma includes_app_l (b c p : string) :
  Js.includes b p = true → Js.includes (b +:+ c) p = true.
Proof.
  induction b as [|y b IH].
  - cbn [Js.includes]. rewrite orb_false_r. intros Hp.
    destruct p; [|done]. change ("" +:+ c) with c. destruct c; cbn [Js.includes];
      by rewrite prefix_empty.
  - rewrite append_cons. cbn [Js.includes]. intros [Hp|Hi]%orb_true_iff.
    + rewrite <- append_cons, (prefix_app _ _ c Hp). done.
    + by rewrite (IH Hi), orb_true_r.
Qed.

Lemma includes_app_r (a b p : string) :
  Js.includes b p = true → Js.includes (a +:+ b) p = true.
Proof.
  intros Hb. induction a as [|x a IH]; [done|].
  rewrite append_cons. cbn [Js.includes]. by rewrite IH, orb_true_r.
Qed.

(** X24. The class of a connect error is read off its text: when the
    reachability probe fails with a text that contains "Missing
    gatewayToken", or the socket is closed with such a reason, the error is
    not retried although a gateway token is configured, and the reconnect
    timer that made the attempt leaves the timer disarmed. *)
Theorem error_text_ends_reconnection (e : ConnectEnv) (alive info_ok : Z → bool)
    (sample : JsNum) (s : State) (text : string) :
  relayOpen s = false → relayConnectPromise s = false →
  Js.Text.trim (string_or_empty (stored_gatewayToken e)) ≠ [] →
  Js.includes text "Missing gatewayToken" = true →
  head_failure e = Some text ∨
  (head_failure e = None ∧ ∃ code, ws_outcome e = WsClose code text) →
  (∃ m, connect_body e = Thrown m ∧ m ≠ missing_token_message ∧
        isRetryableReconnectError m = false) ∧
  reconnectTimer (reconnectTimerFired e alive info_ok sample s) = None.
Proof.
  intros Hclosed Hnop Htoken Htext Hcase.
  assert (∃ m, connect_body e = Thrown m ∧ m ≠ missing_token_message ∧
               isRetryableReconnectError m = false) as (m & Hm & Hne & Hclass).
  { unfold connect_body, getGatewayToken. rewrite text_trim_idemp.
    destruct (Js.Text.truthy (Js.Text.trim _)) eqn:Ht; [|by apply text_truthy_empty in Ht].
    cbn [negb]. unfold isRetryableReconnectError.
    destruct Hcase as [->|[-> [code ->]]].
    - eexists. split; [done|]. split; [done|].
      rewrite includes_app_r; [done|].
      apply includes_app_r, includes_app_r, includes_app_l. exact Htext.
    - assert (Js.truthy_string text = true) as -> by (by destruct text).
      eexists. split; [done|]. split; [done|].
      rewrite includes_app_r; [done|].
      apply includes_app_r, includes_app_r, includes_app_l. exact Htext. }
  split; [by exists m|].
  by apply (timer_callback_checks_class e alive info_ok sample s m).
Qed.

Lemma error_text_ends_reconnection_witness :
  reconnectTimer (reconnectTimerFired relay_rejects_token (λ _, true) (λ _, true) (Fin 0)
                    initial_state) = None.
Proof.
  destruct (error_text_ends_reconnection relay_rejects_token (λ _, true) (λ _, true) (Fin 0)
              initial_state "401 Missing gatewayToken header") as (_ & Htimer);
    [vm_compute; reflexivity|vm_compute; reflexivity|discriminate|vm_compute; reflexivity|by left|].
  exact Htimer.
Defined.
